(** * Festive tree lights: the time-budget animation engine

    A shallow embedding of the controller hierarchy of the sketch
    ([WorkState.h] and [FestiveTreeLights.ino]; the repository holds a
    second sketch with the same engine and other animations):

    - [WorkState], [AnalogLedsState] and the interpolation helpers;
    - [StatefulController], the timed state machine;
    - [LoopingController], the repeater;
    - [SwitchingController], the round-robin sequencer.

    Unsigned machine integers are integers of [Z] with the wrap-around
    written at every arithmetic operation; [float] is IEEE binary32, taken
    from the parameterised specification of [SpecFloat]. *)

From Stdlib Require Import ZArith List Bool Lia SpecFloat.
Import ListNotations.
Open Scope Z_scope.

(** ** Machine integers *)

Definition UINT8_MOD : Z := 256.
Definition UINT32_MOD : Z := 4294967296.

Definition wrap8 (z : Z) : Z := z mod UINT8_MOD.
Definition wrap32 (z : Z) : Z := z mod UINT32_MOD.

Definition is_uint8 (z : Z) : Prop := 0 <= z < UINT8_MOD.
Definition is_uint32 (z : Z) : Prop := 0 <= z < UINT32_MOD.

(** ** Outcomes of a call

    A call either returns, or it does not: the model runs loops and
    re-entrant calls on fuel, a division by zero is a fault of its own, and
    so is a call through the null pointer that [getControllerByIndex]
    returns for an index outside its table. *)

Inductive Fault : Type :=
| OutOfFuel
| DivisionByZero
| NullController.

Inductive Res (A : Type) : Type :=
| Ok (a : A)
| Crash (f : Fault).

Arguments Ok {A} a.
Arguments Crash {A} f.

Definition bind {A B : Type} (c : Res A) (k : A -> Res B) : Res B :=
  match c with
  | Ok a => k a
  | Crash f => Crash f
  end.

Notation "x <- c ;; k" := (bind c (fun x => k))
  (at level 61, c at next level, right associativity).
Notation "' p <- c ;; k" := (bind c (fun x => match x with p => k end))
  (at level 61, p pattern, c at next level, right associativity).

(** ** WorkState.h *)

Record WorkState : Type := mkWorkState {
  finished : bool;
  suggestedSleepTime : Z;
  remainingTime : Z
}.

Definition finishedWorkState (remaining : Z) : WorkState :=
  {| finished := true; suggestedSleepTime := 0; remainingTime := remaining |}.

Definition unfinishedWorkState (sleepTime : Z) : WorkState :=
  {| finished := false; suggestedSleepTime := sleepTime; remainingTime := 0 |}.

(** *** [float]: IEEE binary32 *)

Definition float : Type := spec_float.

Module F32.
Definition prec : Z := 24.
Definition emax : Z := 128.

Definition add : float -> float -> float := SFadd prec emax.
Definition sub : float -> float -> float := SFsub prec emax.
Definition mul : float -> float -> float := SFmul prec emax.
Definition div : float -> float -> float := SFdiv prec emax.
Definition ltb : float -> float -> bool := SFltb.
Definition eqb : float -> float -> bool := SFeqb.

(** The literals [0.0] and [1.0]. *)
Definition zero : float := S754_zero false.
Definition one : float := S754_finite false 8388608 (-23).

(** Conversion of an unsigned integer, rounding to nearest. *)
Definition of_uint32 (z : Z) : float := binary_normalize prec emax z 0 false.

Definition leb : float -> float -> bool := SFleb.

(** A [float] of the format that lies between 0 and 1: a normalized
    intensity. *)
Definition in_unit_interval (x : float) : bool :=
  valid_binary prec emax x && leb zero x && leb x one.

(** A number, as opposed to an infinity or a NaN. *)
Definition is_number (x : float) : bool :=
  match x with
  | S754_zero _ | S754_finite _ _ _ => true
  | S754_infinity _ | S754_nan => false
  end.

(** Exactly the literal [0.0] or the literal [1.0]. *)
Definition is_zero_or_one (x : float) : Prop := x = zero \/ x = one.
End F32.

Record AnalogLedsState : Type := mkAnalogLedsState {
  red : float;
  amber : float;
  green : float;
  blue : float;
  white : float
}.

Definition analogLedsState (r a g b w : float) : AnalogLedsState :=
  {| red := r; amber := a; green := g; blue := b; white := w |}.

Definition intermediateValue (initial target relativeTime : float) : float :=
  let delta := F32.sub target initial in
  F32.add initial (F32.mul relativeTime delta).

(** Modelled from the spec: the Arduino core's [constrain] macro, which the
    sketch uses and does not define; it clamps its first argument to the
    interval of the other two,
    [(amt) < (low) ? (low) : ((amt) > (high) ? (high) : (amt))]. *)
Definition constrain (amt low high : float) : float :=
  if F32.ltb amt low then low
  else if F32.ltb high amt then high
  else amt.

Definition intermediateState (initial target : AnalogLedsState)
    (relativeTime : float) : AnalogLedsState :=
  let relativeTime := constrain relativeTime F32.zero F32.one in
  {| red := intermediateValue (red initial) (red target) relativeTime;
     amber := intermediateValue (amber initial) (amber target) relativeTime;
     green := intermediateValue (green initial) (green target) relativeTime;
     blue := intermediateValue (blue initial) (blue target) relativeTime;
     white := intermediateValue (white initial) (white target) relativeTime |}.

Definition allLedsOn : AnalogLedsState :=
  analogLedsState F32.one F32.one F32.one F32.one F32.one.

Definition allLedsOff : AnalogLedsState :=
  analogLedsState F32.zero F32.zero F32.zero F32.zero F32.zero.

(** Channel-wise [==] of the C++ [float]s. *)
Definition snapshot_eqb (a b : AnalogLedsState) : bool :=
  F32.eqb (red a) (red b) && F32.eqb (amber a) (amber b)
  && F32.eqb (green a) (green b) && F32.eqb (blue a) (blue b)
  && F32.eqb (white a) (white b).

(** ** The channel output sink and the trace of a call

    The sink is external to the engine.  A call is observed through the
    trace of what it does to it, and of the activation callbacks it runs:
    [Activation i] for a call of [applyLedStatesForState(i)], [DigitalOut]
    for [setLedStates] and [AnalogOut] for [setNormalizedAnalogLedStates]. *)

Inductive Event : Type :=
| Activation (stateIndex : Z)
| DigitalOut (r a g b w : bool)
| AnalogOut (s : AnalogLedsState).

Definition is_activation (e : Event) : bool :=
  match e with
  | Activation _ => true
  | _ => false
  end.

Definition activations (tr : list Event) : list Event :=
  filter is_activation tr.

(** What an activation callback may do: the protected operations that
    [StatefulController] offers to its subclasses. *)
Inductive LedCommand : Type :=
| SetDigitalLedStates (r a g b w : bool)
| SetAnalogLedStates (s : AnalogLedsState)
| StartPwmTransition (transitionTime : Z) (initial target : AnalogLedsState).

Definition starts_fade (c : LedCommand) : bool :=
  match c with
  | StartPwmTransition _ _ _ => true
  | _ => false
  end.

(** The fade that a list of commands leaves in the fade fields of the
    machine: the last one it starts, if it starts any, as its length and
    its two snapshots. *)
Fixpoint lastFade (cs : list LedCommand)
    : option (Z * AnalogLedsState * AnalogLedsState) :=
  match cs with
  | [] => None
  | c :: cs' =>
      match lastFade cs' with
      | Some fade => Some fade
      | None =>
          match c with
          | StartPwmTransition transitionTime initial target =>
              Some (transitionTime, initial, target)
          | _ => None
          end
      end
  end.

(** Division of a [float] by an unsigned integer; a zero divisor is a
    fault. *)
Definition divide (x : float) (divisor : Z) : Res float :=
  if divisor =? 0 then Crash DivisionByZero
  else Ok (F32.div x (F32.of_uint32 divisor)).

(** ** StatefulController: the timed state machine *)

Module StatefulController.

(** The part a subclass fixes: the number of states and the two virtual
    functions. *)
Record Class : Type := mkClass {
  _maxStateIndex : Z;
  getStateDuration : Z -> Z;
  applyLedStatesForState : Z -> list LedCommand
}.

Record State : Type := mkState {
  _currentStateIndex : Z;
  _timeSpentOnCurrentState : Z;
  _pwmTransitionInProgress : bool;
  _initialState : AnalogLedsState;
  _targetState : AnalogLedsState;
  _totalTransitionTime : Z
}.

(** The constructor; the fields it leaves out are those of an object of
    static storage, zero. *)
Definition construct : State :=
  {| _currentStateIndex := 0;
     _timeSpentOnCurrentState := 0;
     _pwmTransitionInProgress := false;
     _initialState := allLedsOff;
     _targetState := allLedsOff;
     _totalTransitionTime := 0 |}.

Definition set_position (st : State) (index time : Z) : State :=
  {| _currentStateIndex := index;
     _timeSpentOnCurrentState := time;
     _pwmTransitionInProgress := _pwmTransitionInProgress st;
     _initialState := _initialState st;
     _targetState := _targetState st;
     _totalTransitionTime := _totalTransitionTime st |}.

Definition set_pwmTransitionInProgress (st : State) (b : bool) : State :=
  {| _currentStateIndex := _currentStateIndex st;
     _timeSpentOnCurrentState := _timeSpentOnCurrentState st;
     _pwmTransitionInProgress := b;
     _initialState := _initialState st;
     _targetState := _targetState st;
     _totalTransitionTime := _totalTransitionTime st |}.

Definition animatePwmTransition (st : State) (timeSpentOnCurrentState : Z)
    : Res (State * list Event) :=
  if _totalTransitionTime st <=? timeSpentOnCurrentState then
    Ok (set_pwmTransitionInProgress st false, [AnalogOut (_targetState st)])
  else
    relativeElapsedTime <-
      divide (F32.of_uint32 timeSpentOnCurrentState) (_totalTransitionTime st) ;;
    let newState :=
      intermediateState (_initialState st) (_targetState st) relativeElapsedTime in
    Ok (st, [AnalogOut newState]).

Definition startPwmTransition (st : State) (transitionTime : Z)
    (initial target : AnalogLedsState) : State * list Event :=
  ({| _currentStateIndex := _currentStateIndex st;
      _timeSpentOnCurrentState := _timeSpentOnCurrentState st;
      _pwmTransitionInProgress := true;
      _initialState := initial;
      _targetState := target;
      _totalTransitionTime := transitionTime |},
   [AnalogOut initial]).

Definition runCommand (st : State) (c : LedCommand) : State * list Event :=
  match c with
  | SetDigitalLedStates r a g b w => (st, [DigitalOut r a g b w])
  | SetAnalogLedStates s => (st, [AnalogOut s])
  | StartPwmTransition t initial target => startPwmTransition st t initial target
  end.

Fixpoint runCommands (st : State) (cs : list LedCommand) : State * list Event :=
  match cs with
  | [] => (st, [])
  | c :: cs' =>
      let (st1, tr1) := runCommand st c in
      let (st2, tr2) := runCommands st1 cs' in
      (st2, tr1 ++ tr2)
  end.

(** A call of the virtual [applyLedStatesForState]. *)
Definition activate (cls : Class) (st : State) (stateIndex : Z)
    : State * list Event :=
  let (st', tr) := runCommands st (applyLedStatesForState cls stateIndex) in
  (st', Activation stateIndex :: tr).

(** The [while] loop of [doControl], on the three variables it
    changes. *)
Fixpoint whileLoop (fuel : nat) (cls : Class)
    (index time currentStateDuration : Z) : Res (Z * Z * Z) :=
  if (currentStateDuration <=? time) && (index <? _maxStateIndex cls) then
    match fuel with
    | O => Crash OutOfFuel
    | S fuel' =>
        let time' := wrap32 (time - currentStateDuration) in
        let index' := wrap8 (index + 1) in
        let duration' :=
          if index' <? _maxStateIndex cls then getStateDuration cls index' else 0 in
        whileLoop fuel' cls index' time' duration'
    end
  else Ok (index, time, currentStateDuration).

Definition doControl (PWM_ANIMATION_INTERVAL : Z) (fuel : nat) (cls : Class)
    (st : State) (timeSinceLastCall : Z) : Res (State * WorkState * list Event) :=
  if _maxStateIndex cls <=? _currentStateIndex st then
    Ok (st, finishedWorkState timeSinceLastCall, [])
  else
    let time := wrap32 (_timeSpentOnCurrentState st + timeSinceLastCall) in
    let lastObservedStateIndex := _currentStateIndex st in
    let currentStateDuration := getStateDuration cls (_currentStateIndex st) in
    '(index', time', duration') <-
      whileLoop fuel cls (_currentStateIndex st) time currentStateDuration ;;
    let st1 := set_position st index' time' in
    if _maxStateIndex cls <=? index' then
      Ok (st1, finishedWorkState time', [])
    else
      let (st2, tr2) :=
        if negb (lastObservedStateIndex =? index') then activate cls st1 index'
        else (st1, []) in
      if _pwmTransitionInProgress st2 then
        '(st3, tr3) <- animatePwmTransition st2 (_timeSpentOnCurrentState st2) ;;
        Ok (st3, unfinishedWorkState PWM_ANIMATION_INTERVAL, tr2 ++ tr3)
      else
        let remaining := wrap32 (duration' - _timeSpentOnCurrentState st2) in
        Ok (st2, unfinishedWorkState remaining, tr2).

Definition reset (cls : Class) (st : State) : State * list Event :=
  activate cls (set_position st 0 0) 0.

End StatefulController.

(** ** ILedController: the nodes of the controller tree

    The sketch reaches a controller through an [ILedController*]; the two
    implementations that can sit below the switch are the tagged cases of
    one type. *)

Inductive ILedController : Type :=
| Stateful (cls : StatefulController.Class) (st : StatefulController.State)
| Looping (_controller : ILedController) (_maxLoopCount _currentLoopCount : Z).

(** The virtual [reset]: [StatefulController::reset] and
    [LoopingController::reset]. *)
Fixpoint reset (c : ILedController) : ILedController * list Event :=
  match c with
  | Stateful cls st =>
      let (st', tr) := StatefulController.reset cls st in
      (Stateful cls st', tr)
  | Looping inner maxLoopCount _ =>
      let (inner', tr) := reset inner in
      (Looping inner' maxLoopCount 0, tr)
  end.

(** The virtual [doControl].  The [Looping] case is
    [LoopingController::doControl]; its call of itself and the call of the
    inner controller both take one unit of fuel. *)
Fixpoint doControl (PWM_ANIMATION_INTERVAL : Z) (fuel : nat)
    (c : ILedController) (timeSinceLastCall : Z)
    : Res (ILedController * WorkState * list Event) :=
  match fuel with
  | O => Crash OutOfFuel
  | S fuel' =>
      match c with
      | Stateful cls st =>
          '(st', result, tr) <-
            StatefulController.doControl PWM_ANIMATION_INTERVAL fuel' cls st
              timeSinceLastCall ;;
          Ok (Stateful cls st', result, tr)
      | Looping inner maxLoopCount currentLoopCount =>
          if maxLoopCount <=? currentLoopCount then
            Ok (c, finishedWorkState timeSinceLastCall, [])
          else
            '(inner1, innerResult, tr1) <-
              doControl PWM_ANIMATION_INTERVAL fuel' inner timeSinceLastCall ;;
            if negb (finished innerResult) then
              Ok (Looping inner1 maxLoopCount currentLoopCount, innerResult, tr1)
            else
              let currentLoopCount' := wrap32 (currentLoopCount + 1) in
              if maxLoopCount <=? currentLoopCount' then
                Ok (Looping inner1 maxLoopCount currentLoopCount', innerResult, tr1)
              else
                let (inner2, tr2) := reset inner1 in
                let remainingTime := remainingTime innerResult in
                '(c', result, tr3) <-
                  doControl PWM_ANIMATION_INTERVAL fuel'
                    (Looping inner2 maxLoopCount currentLoopCount') remainingTime ;;
                Ok (c', result, tr1 ++ tr2 ++ tr3)
      end
  end.

(** ** SwitchingController: the sequencer *)

Module SwitchingController.

(** The controllers are objects of static storage that the switch reaches
    by index; the state of the switch is its cursor together with theirs. *)
Record State : Type := mkState {
  controllers : list ILedController;
  _currentControllerIndex : Z
}.

Definition getControllerByIndex (sw : State) (index : Z) : option ILedController :=
  if index <? 0 then None else nth_error (controllers sw) (Z.to_nat index).

Definition getControllerCount (sw : State) : Z :=
  Z.of_nat (length (controllers sw)).

Fixpoint replace_nth (l : list ILedController) (n : nat) (c : ILedController)
    : list ILedController :=
  match l, n with
  | [], _ => []
  | _ :: l', O => c :: l'
  | x :: l', S n' => x :: replace_nth l' n' c
  end.

(** Writes back the state of the controller at [index]. *)
Definition store (sw : State) (index : Z) (c : ILedController) : State :=
  {| controllers := replace_nth (controllers sw) (Z.to_nat index) c;
     _currentControllerIndex := _currentControllerIndex sw |}.

Definition switchToController (sw : State) (controllerIndex : Z)
    : State * list Event :=
  let sw1 := {| controllers := controllers sw;
                _currentControllerIndex := controllerIndex |} in
  match getControllerByIndex sw1 controllerIndex with
  | Some currentController =>
      let (c', tr) := reset currentController in
      (store sw1 controllerIndex c', tr)
  | None => (sw1, [])
  end.

(** The index that follows [index] in a table of [controllerCount]. *)
Definition nextIndex (controllerCount index : Z) : Z :=
  if index <? controllerCount - 1 then wrap8 (index + 1) else 0.

(** The [do ... while] loop of [doControl]; it yields the sleep time that
    the last controller suggested. *)
Fixpoint doWhile (PWM_ANIMATION_INTERVAL : Z) (fuel : nat) (sw : State)
    (timeToSpend : Z) : Res (State * Z * list Event) :=
  match fuel with
  | O => Crash OutOfFuel
  | S fuel' =>
      match getControllerByIndex sw (_currentControllerIndex sw) with
      | None => Crash NullController
      | Some currentController =>
          '(c', controllerState, tr1) <-
            doControl PWM_ANIMATION_INTERVAL fuel' currentController timeToSpend ;;
          let sw1 := store sw (_currentControllerIndex sw) c' in
          if finished controllerState then
            let next := nextIndex (getControllerCount sw1) (_currentControllerIndex sw1) in
            let (sw2, tr2) := switchToController sw1 next in
            '(sw3, sleepTime, tr3) <-
              doWhile PWM_ANIMATION_INTERVAL fuel' sw2 (remainingTime controllerState) ;;
            Ok (sw3, sleepTime, tr1 ++ tr2 ++ tr3)
          else
            Ok (sw1, suggestedSleepTime controllerState, tr1)
      end
  end.

Definition doControl (PWM_ANIMATION_INTERVAL : Z) (fuel : nat) (sw : State)
    (timeSinceLastCall : Z) : Res (State * WorkState * list Event) :=
  '(sw', suggestedSleepTime, tr) <-
    doWhile PWM_ANIMATION_INTERVAL fuel sw timeSinceLastCall ;;
  Ok (sw', unfinishedWorkState suggestedSleepTime, tr).

Definition reset (sw : State) : State * list Event :=
  switchToController sw 0.

End SwitchingController.

(** ** The animations of the sketch: the subclasses of StatefulController *)

Definition startFadeOutFromAllLeds (transitionTime : Z) (targetState : AnalogLedsState)
    : LedCommand :=
  StartPwmTransition transitionTime allLedsOn targetState.

Definition startFadeInToAllLeds (transitionTime : Z) (initialState : AnalogLedsState)
    : LedCommand :=
  StartPwmTransition transitionTime initialState allLedsOn.

Definition startFadeInFromNoneLeds (transitionTime : Z) (targetState : AnalogLedsState)
    : LedCommand :=
  StartPwmTransition transitionTime allLedsOff targetState.

Definition startFadeOutToNoneLeds (transitionTime : Z) (initialState : AnalogLedsState)
    : LedCommand :=
  StartPwmTransition transitionTime initialState allLedsOff.

(** The five-channel literal [analogLedsState(r, a, g, b, w)] whose
    arguments are [0.0] or [1.0]. *)
Definition leds (r a g b w : bool) : AnalogLedsState :=
  let f (x : bool) := if x then F32.one else F32.zero in
  analogLedsState (f r) (f a) (f g) (f b) (f w).

Module TwoLedCombinationsController.
Definition applyLedStatesForState (stateIndex : Z) : list LedCommand :=
  match stateIndex with
  | 0 => [SetDigitalLedStates true true false false false]
  | 1 => [SetDigitalLedStates false false true true false]
  | 2 => [SetDigitalLedStates true false false false true]
  | 3 => [SetDigitalLedStates false true true false false]
  | 4 => [SetDigitalLedStates false false false true true]
  | 5 => [SetDigitalLedStates true false true false false]
  | 6 => [SetDigitalLedStates false true false true false]
  | 7 => [SetDigitalLedStates false false true false true]
  | 8 => [SetDigitalLedStates true false false true false]
  | 9 => [SetDigitalLedStates false true false false true]
  | _ => []
  end.

Definition class (timePerState : Z) : StatefulController.Class :=
  {| StatefulController._maxStateIndex := 10;
     StatefulController.getStateDuration := fun _ => timePerState;
     StatefulController.applyLedStatesForState := applyLedStatesForState |}.
End TwoLedCombinationsController.

Module FlowingThreeLedsController.
Definition applyLedStatesForState (stateIndex : Z) : list LedCommand :=
  match stateIndex with
  | 0 => [SetDigitalLedStates true true true false false]
  | 1 => [SetDigitalLedStates false true true true false]
  | 2 => [SetDigitalLedStates false false true true true]
  | 3 => [SetDigitalLedStates true false false true true]
  | 4 => [SetDigitalLedStates true true false false true]
  | _ => []
  end.

Definition class (timePerState : Z) : StatefulController.Class :=
  {| StatefulController._maxStateIndex := 5;
     StatefulController.getStateDuration := fun _ => timePerState;
     StatefulController.applyLedStatesForState := applyLedStatesForState |}.
End FlowingThreeLedsController.

Module TwoLedCombinationsFadeOutThenInController.
Definition getLedsStateForState (stateIndex : Z) : AnalogLedsState :=
  match stateIndex / 2 with
  | 0 => leds false false true true true
  | 1 => leds true true false false true
  | 2 => leds false true true true false
  | 3 => leds true false false true true
  | 4 => leds true true true false false
  | 5 => leds false true false true true
  | 6 => leds true false true false true
  | 7 => leds true true false true false
  | 8 => leds false true true false true
  | 9 => leds true false true true false
  | _ => allLedsOff
  end.

Definition applyLedStatesForState (fadeOut fadeIn : Z) (stateIndex : Z)
    : list LedCommand :=
  let targetLedsState := getLedsStateForState stateIndex in
  if stateIndex mod 2 =? 0 then [startFadeOutFromAllLeds fadeOut targetLedsState]
  else [startFadeInToAllLeds fadeIn targetLedsState].

Definition getStateDuration (fadeOut sustainOut fadeIn sustainIn : Z)
    (stateIndex : Z) : Z :=
  if stateIndex mod 2 =? 0 then wrap32 (fadeOut + sustainOut)
  else wrap32 (fadeIn + sustainIn).

Definition class (fadeOutDuration sustainAfterFadeOutDuration fadeInDuration
    sustainAfterFadeInDuration : Z) : StatefulController.Class :=
  {| StatefulController._maxStateIndex := 20;
     StatefulController.getStateDuration :=
       getStateDuration fadeOutDuration sustainAfterFadeOutDuration
         fadeInDuration sustainAfterFadeInDuration;
     StatefulController.applyLedStatesForState :=
       applyLedStatesForState fadeOutDuration fadeInDuration |}.
End TwoLedCombinationsFadeOutThenInController.

Module SequentialFadeController.
Definition applyLedStatesForState (fadeIn fadeOut : Z) (stateIndex : Z)
    : list LedCommand :=
  match stateIndex with
  | 0 => [StartPwmTransition fadeIn allLedsOff (leds true false false false false)]
  | 1 => [StartPwmTransition fadeIn (leds true false false false false)
            (leds true true false false false)]
  | 2 => [StartPwmTransition fadeIn (leds true true false false false)
            (leds true true true false false)]
  | 3 => [StartPwmTransition fadeIn (leds true true true false false)
            (leds true true true true false)]
  | 4 => [StartPwmTransition fadeIn (leds true true true true false)
            (leds true true true true true)]
  | 5 => [SetDigitalLedStates true true true true true]
  | 6 => [StartPwmTransition fadeOut (leds true true true true true)
            (leds false true true true true)]
  | 7 => [StartPwmTransition fadeOut (leds false true true true true)
            (leds false false true true true)]
  | 8 => [StartPwmTransition fadeOut (leds false false true true true)
            (leds false false false true true)]
  | 9 => [StartPwmTransition fadeOut (leds false false false true true)
            (leds false false false false true)]
  | 10 => [StartPwmTransition fadeOut (leds false false false false true) allLedsOff]
  | 11 => [SetDigitalLedStates false false false false false]
  | _ => []
  end.

Definition getStateDuration (fadeIn sustainIn delayIn fadeOut sustainOut delayOut : Z)
    (stateIndex : Z) : Z :=
  if stateIndex =? 5 then delayIn
  else if stateIndex =? 11 then delayOut
  else if stateIndex <? 6 then wrap32 (fadeIn + sustainIn)
  else wrap32 (fadeOut + sustainOut).

Definition class (fadeInDuration sustainAfterFadeInDuration delayAfterFadingInAllLeds
    fadeOutDuration sustainAfterFadeOutDuration delayAfterFadingOutAllLeds : Z)
    : StatefulController.Class :=
  {| StatefulController._maxStateIndex := 12;
     StatefulController.getStateDuration :=
       getStateDuration fadeInDuration sustainAfterFadeInDuration
         delayAfterFadingInAllLeds fadeOutDuration sustainAfterFadeOutDuration
         delayAfterFadingOutAllLeds;
     StatefulController.applyLedStatesForState :=
       applyLedStatesForState fadeInDuration fadeOutDuration |}.
End SequentialFadeController.

Module OneByOneFadeController.
Definition getLedsStateForSingleLedFadeState (stateIndex : Z) : AnalogLedsState :=
  if stateIndex <? 10 then
    match stateIndex / 2 with
    | 0 => leds true false false false false
    | 1 => leds false true false false false
    | 2 => leds false false true false false
    | 3 => leds false false false true false
    | 4 => leds false false false false true
    | _ => allLedsOff
    end
  else allLedsOff.

Definition applyLedStatesForState (singleIn singleOut allIn allOut : Z)
    (stateIndex : Z) : list LedCommand :=
  if stateIndex <? 10 then
    let targetState := getLedsStateForSingleLedFadeState stateIndex in
    if stateIndex mod 2 =? 0 then [startFadeInFromNoneLeds singleIn targetState]
    else [startFadeOutToNoneLeds singleOut targetState]
  else if stateIndex =? 10 then [startFadeInFromNoneLeds allIn allLedsOn]
  else if stateIndex =? 11 then [startFadeOutToNoneLeds allOut allLedsOn]
  else [].

Definition getStateDuration (singleIn singleSustainIn singleOut singleSustainOut
    allIn allSustainIn allOut allSustainOut : Z) (stateIndex : Z) : Z :=
  if stateIndex =? 10 then wrap32 (allIn + allSustainIn)
  else if stateIndex =? 11 then wrap32 (allOut + allSustainOut)
  else if stateIndex mod 2 =? 0 then wrap32 (singleIn + singleSustainIn)
  else wrap32 (singleOut + singleSustainOut).

Definition class (singleLedFadeInDuration singleLedSustainAfterFadeInDuration
    singleLedFadeOutDuration singleLedSustainAfterFadeOutDuration
    allLedsFadeInDuration allLedsSustainAfterFadeInDuration
    allLedsFadeOutDuration allLedsSustainAfterFadeOutDuration : Z)
    : StatefulController.Class :=
  {| StatefulController._maxStateIndex := 12;
     StatefulController.getStateDuration :=
       getStateDuration singleLedFadeInDuration singleLedSustainAfterFadeInDuration
         singleLedFadeOutDuration singleLedSustainAfterFadeOutDuration
         allLedsFadeInDuration allLedsSustainAfterFadeInDuration
         allLedsFadeOutDuration allLedsSustainAfterFadeOutDuration;
     StatefulController.applyLedStatesForState :=
       applyLedStatesForState singleLedFadeInDuration singleLedFadeOutDuration
         allLedsFadeInDuration allLedsFadeOutDuration |}.
End OneByOneFadeController.

(** The second sketch of the repository has the same engine, a tick of 15
    instead of 30, and other animations; one of them mixes digital states
    with fades. *)
Module ChasingFlashController.
Definition setLedStatesForFlashingState (flashLoopsCount : Z) (stateIndex : Z)
    : list LedCommand :=
  let flashingStateIndex := stateIndex / flashLoopsCount in
  let flashingStatePhaseIndex := (stateIndex mod flashLoopsCount) mod 2 in
  let even := flashingStatePhaseIndex =? 0 in
  if flashingStateIndex =? 0 then
    if even then [SetDigitalLedStates false true false false false]
    else [SetDigitalLedStates true false false false false]
  else if flashingStateIndex =? 1 then
    if even then [SetDigitalLedStates false false true false false]
    else [SetDigitalLedStates false true false false false]
  else if flashingStateIndex =? 2 then
    if even then [SetDigitalLedStates false false false true false]
    else [SetDigitalLedStates false false true false false]
  else if flashingStateIndex =? 3 then
    if even then [SetDigitalLedStates false false false false true]
    else [SetDigitalLedStates false false false true false]
  else if flashingStateIndex =? 4 then
    if even then [SetDigitalLedStates true false false false false]
    else [SetDigitalLedStates false false false false true]
  else [].

Definition getLedsStateForChasingState (stateIndex : Z) : AnalogLedsState :=
  match stateIndex mod 5 with
  | 0 => leds true true false false false
  | 1 => leds false true true false false
  | 2 => leds false false true true false
  | 3 => leds false false false true true
  | _ => leds true false false true true
  end.

Definition setLedStatesForChasingState (chaseTransitionDuration : Z) (stateIndex : Z)
    : list LedCommand :=
  let currentState := getLedsStateForChasingState stateIndex in
  let nextState := getLedsStateForChasingState (wrap8 (stateIndex + 1)) in
  [StartPwmTransition chaseTransitionDuration currentState nextState].

Definition applyLedStatesForState (flashLoopsCount chaseTransitionDuration : Z)
    (stateIndex : Z) : list LedCommand :=
  let flashingStatesCount := wrap32 (flashLoopsCount * 5) in
  if stateIndex <? flashingStatesCount then
    setLedStatesForFlashingState flashLoopsCount stateIndex
  else
    let chasingStateIndex := wrap8 (stateIndex - flashingStatesCount) in
    setLedStatesForChasingState chaseTransitionDuration chasingStateIndex.

Definition getStateDuration (flashDuration flashLoopsCount chaseDuration : Z)
    (stateIndex : Z) : Z :=
  if stateIndex <? wrap32 (flashLoopsCount * 5) then flashDuration
  else chaseDuration.

Definition class (flashDuration flashLoopsCount chaseDuration
    chaseTransitionDuration chaseLoopsCount : Z) : StatefulController.Class :=
  {| StatefulController._maxStateIndex :=
       wrap8 (wrap32 (flashLoopsCount * 5 + chaseLoopsCount * 5));
     StatefulController.getStateDuration :=
       getStateDuration flashDuration flashLoopsCount chaseDuration;
     StatefulController.applyLedStatesForState :=
       applyLedStatesForState flashLoopsCount chaseTransitionDuration |}.
End ChasingFlashController.

Module AllInOneFadeController.
Definition applyLedStatesForState (fadeIn fadeOut : Z) (stateIndex : Z)
    : list LedCommand :=
  let onState := leds true true true true true in
  let offState := leds false false false false false in
  if stateIndex =? 0 then [StartPwmTransition fadeIn offState onState]
  else if stateIndex =? 1 then [StartPwmTransition fadeOut onState offState]
  else [].

Definition getStateDuration (fadeIn sustain fadeOut off : Z) (stateIndex : Z) : Z :=
  if stateIndex =? 0 then wrap32 (fadeIn + sustain)
  else wrap32 (fadeOut + off).

Definition class (fadeInDuration sustainDuration fadeOutDuration offDuration : Z)
    : StatefulController.Class :=
  {| StatefulController._maxStateIndex := 2;
     StatefulController.getStateDuration :=
       getStateDuration fadeInDuration sustainDuration fadeOutDuration offDuration;
     StatefulController.applyLedStatesForState :=
       applyLedStatesForState fadeInDuration fadeOutDuration |}.
End AllInOneFadeController.

(** ** The controller objects of the sketch and its main controller *)

Definition slowTwoLedCombinationsControllerLoop : ILedController :=
  Looping (Stateful (TwoLedCombinationsController.class 1000)
             StatefulController.construct) 2 0.

Definition fastTwoLedCombinationsControllerLoop : ILedController :=
  Looping (Stateful (TwoLedCombinationsController.class 500)
             StatefulController.construct) 4 0.

Definition flowingThreeLedsControllerLoop : ILedController :=
  Looping (Stateful (FlowingThreeLedsController.class 100)
             StatefulController.construct) 20 0.

Definition twoLedCombinationsFadeOutThenInControllerLoop : ILedController :=
  Looping (Stateful (TwoLedCombinationsFadeOutThenInController.class 150 100 150 100)
             StatefulController.construct) 4 0.

Definition sequentialFadeControllerLoop : ILedController :=
  Looping (Stateful (SequentialFadeController.class 150 50 1000 300 100 1000)
             StatefulController.construct) 3 0.

Definition oneByOneFadeController : ILedController :=
  Stateful (OneByOneFadeController.class 1000 2000 1000 0 3000 5000 3000 1000)
    StatefulController.construct.

Definition mainController : SwitchingController.State :=
  {| SwitchingController.controllers :=
       [ slowTwoLedCombinationsControllerLoop;
         fastTwoLedCombinationsControllerLoop;
         sequentialFadeControllerLoop;
         flowingThreeLedsControllerLoop;
         twoLedCombinationsFadeOutThenInControllerLoop;
         oneByOneFadeController ];
     SwitchingController._currentControllerIndex := 0 |}.

(** The tick of the sketch, [PWM_ANIMATION_INTERVAL]. *)
Definition MAIN_PWM_ANIMATION_INTERVAL : Z := 30.

(** The chasing flash of the second sketch, with its tick. *)
Definition chasingFlashController : StatefulController.Class :=
  ChasingFlashController.class 50 4 100 30 4.

Definition SECOND_PWM_ANIMATION_INTERVAL : Z := 15.

(** ** Sequences of calls *)

Module Run.

(** [doControl] called once for each elapsed time of the list, on one
    state machine. *)
Fixpoint stateful (PWM_ANIMATION_INTERVAL : Z) (fuel : nat)
    (cls : StatefulController.Class) (st : StatefulController.State)
    (elapsed : list Z) : Res (StatefulController.State * list WorkState * list Event) :=
  match elapsed with
  | [] => Ok (st, [], [])
  | e :: rest =>
      '(st1, result, tr1) <-
        StatefulController.doControl PWM_ANIMATION_INTERVAL fuel cls st e ;;
      '(st2, results, tr2) <- stateful PWM_ANIMATION_INTERVAL fuel cls st1 rest ;;
      Ok (st2, result :: results, tr1 ++ tr2)
  end.

(** The same on a node of the controller tree. *)
Fixpoint controller (PWM_ANIMATION_INTERVAL : Z) (fuel : nat)
    (c : ILedController) (elapsed : list Z)
    : Res (ILedController * list WorkState * list Event) :=
  match elapsed with
  | [] => Ok (c, [], [])
  | e :: rest =>
      '(c1, result, tr1) <- doControl PWM_ANIMATION_INTERVAL fuel c e ;;
      '(c2, results, tr2) <- controller PWM_ANIMATION_INTERVAL fuel c1 rest ;;
      Ok (c2, result :: results, tr1 ++ tr2)
  end.

(** The same on the switch. *)
Fixpoint switch (PWM_ANIMATION_INTERVAL : Z) (fuel : nat)
    (sw : SwitchingController.State) (elapsed : list Z)
    : Res (SwitchingController.State * list WorkState * list Event) :=
  match elapsed with
  | [] => Ok (sw, [], [])
  | e :: rest =>
      '(sw1, result, tr1) <-
        SwitchingController.doControl PWM_ANIMATION_INTERVAL fuel sw e ;;
      '(sw2, results, tr2) <- switch PWM_ANIMATION_INTERVAL fuel sw1 rest ;;
      Ok (sw2, result :: results, tr1 ++ tr2)
  end.

End Run.

(** What a caller sees of a result when it asks whether the node is done:
    the flag and the remainder. *)
Definition outcome (result : WorkState) : bool * Z :=
  (finished result, remainingTime result).

Definition sum (l : list Z) : Z := fold_right Z.add 0 l.

(** ** Well-formed configurations and the accounting of time *)

Module SC := StatefulController.

(** The state count is a [uint8_t] and every duration a [uint32_t]. *)
Definition wf_class (cls : SC.Class) : Prop :=
  0 <= SC._maxStateIndex cls < UINT8_MOD /\
  forall i, is_uint32 (SC.getStateDuration cls i).

Definition wf_state (st : SC.State) : Prop :=
  is_uint8 (SC._currentStateIndex st) /\ is_uint32 (SC._timeSpentOnCurrentState st).

(** The duration that the loop of [doControl] holds for state [i]. *)
Definition durationAt (cls : SC.Class) (i : Z) : Z :=
  if i <? SC._maxStateIndex cls then SC.getStateDuration cls i else 0.

(** The durations of the states before state [n], added up. *)
Fixpoint durationsBeforeNat (cls : SC.Class) (n : nat) : Z :=
  match n with
  | O => 0
  | S k => durationsBeforeNat cls k + SC.getStateDuration cls (Z.of_nat k)
  end.

Definition durationsBefore (cls : SC.Class) (i : Z) : Z :=
  durationsBeforeNat cls (Z.to_nat i).

Definition totalDuration (cls : SC.Class) : Z :=
  durationsBefore cls (SC._maxStateIndex cls).

(** The time that a machine accounts for: the states it has completed and
    the time it has spent on the current one. *)
Definition consumedTime (cls : SC.Class) (st : SC.State) : Z :=
  durationsBefore cls (SC._currentStateIndex st) + SC._timeSpentOnCurrentState st.

(** Where the loop of [doControl] stops when the completed states and the
    time in the current one add up to [position]. *)
Definition lands (cls : SC.Class) (position index time : Z) : Prop :=
  0 <= index <= SC._maxStateIndex cls /\ 0 <= time /\
  durationsBefore cls index + time = position /\
  (index < SC._maxStateIndex cls -> time < SC.getStateDuration cls index).

(** Calls none of which overflows the 32-bit time in state: for a machine
    that accounts for [position] before them, at each call the time spent
    in the state in which the position lands and the elapsed time of the
    call add up to less than [2^32]. *)
Fixpoint no_overflow (cls : SC.Class) (position : Z) (es : list Z) : Prop :=
  match es with
  | [] => True
  | e :: rest =>
      (forall index time, lands cls position index time -> time + e < UINT32_MOD) /\
      no_overflow cls (position + e) rest
  end.

(** The single machine that the repeater is compared with: [count] copies
    of the states of [cls], one after the other. *)
Definition unrolled (cls : SC.Class) (count : Z) : SC.Class :=
  {| SC._maxStateIndex := count * SC._maxStateIndex cls;
     SC.getStateDuration := fun i => SC.getStateDuration cls (i mod SC._maxStateIndex cls);
     SC.applyLedStatesForState :=
       fun i => SC.applyLedStatesForState cls (i mod SC._maxStateIndex cls) |}.

(** The tree without the state of its nodes: what the constructors fix. *)
Inductive Skeleton : Type :=
| SkStateful (cls : SC.Class)
| SkLooping (inner : Skeleton) (maxLoopCount : Z).

Fixpoint skeleton (c : ILedController) : Skeleton :=
  match c with
  | Stateful cls _ => SkStateful cls
  | Looping inner maxLoopCount _ => SkLooping (skeleton inner) maxLoopCount
  end.

Fixpoint wf_controller (c : ILedController) : Prop :=
  match c with
  | Stateful cls st => wf_class cls /\ wf_state st
  | Looping inner maxLoopCount currentLoopCount =>
      wf_controller inner /\ is_uint32 maxLoopCount /\ is_uint32 currentLoopCount
  end.

(** A node as [reset] leaves it. *)
Fixpoint fresh (c : ILedController) : Prop :=
  match c with
  | Stateful _ st => SC._currentStateIndex st = 0 /\ SC._timeSpentOnCurrentState st = 0
  | Looping inner _ currentLoopCount => fresh inner /\ currentLoopCount = 0
  end.

(** A tree every pass of which takes time: each machine has a state, the
    durations of its states add up to a positive [uint32_t], and each
    repeater repeats at least once. *)
Fixpoint takes_time (sk : Skeleton) : Prop :=
  match sk with
  | SkStateful cls =>
      wf_class cls /\ 0 < totalDuration cls < UINT32_MOD
  | SkLooping inner maxLoopCount => takes_time inner /\ 0 < maxLoopCount < UINT32_MOD
  end.

(** Snapshots whose channels are normalized intensities; snapshots whose
    channels are the literals [0.0] and [1.0], as every snapshot of the
    sketch is. *)
Definition snapshot_in_unit (s : AnalogLedsState) : Prop :=
  F32.in_unit_interval (red s) = true /\ F32.in_unit_interval (amber s) = true /\
  F32.in_unit_interval (green s) = true /\ F32.in_unit_interval (blue s) = true /\
  F32.in_unit_interval (white s) = true.

Definition snapshot_zero_or_one (s : AnalogLedsState) : Prop :=
  F32.is_zero_or_one (red s) /\ F32.is_zero_or_one (amber s) /\
  F32.is_zero_or_one (green s) /\ F32.is_zero_or_one (blue s) /\
  F32.is_zero_or_one (white s).

(** The [float] [2^-30], a channel intensity between 0 and 1. *)
Definition two_to_minus_30 : float := S754_finite false 8388608 (-53).

Definition dimSnapshot : AnalogLedsState :=
  analogLedsState two_to_minus_30 two_to_minus_30 two_to_minus_30
    two_to_minus_30 two_to_minus_30.

(** Fuel that is enough for one call on a tree, whatever its state: the
    states of a machine bound its loop, and the iterations of a repeater
    the calls of itself. *)
Fixpoint enoughFuel (sk : Skeleton) : nat :=
  match sk with
  | SkStateful cls => Z.to_nat (SC._maxStateIndex cls) + 1
  | SkLooping inner maxLoopCount => Z.to_nat maxLoopCount + enoughFuel inner + 1
  end.

(** The states of a repeater over a machine and of the unrolled machine
    that stand for each other: the unrolled machine is on the state of the
    current iteration with the same time spent on it, or both are done. *)
Definition unrolls (cls : SC.Class) (count : Z) (c : ILedController)
    (flat : SC.State) : Prop :=
  match c with
  | Looping (Stateful cls' st) count' k =>
      cls' = cls /\ count' = count /\ wf_state st /\ wf_state flat /\ 0 <= k /\
      ((k < count /\
        SC._currentStateIndex st < SC._maxStateIndex cls /\
        SC._currentStateIndex flat
          = k * SC._maxStateIndex cls + SC._currentStateIndex st /\
        SC._timeSpentOnCurrentState flat = SC._timeSpentOnCurrentState st)
       \/ (count <= k /\
           SC._currentStateIndex flat = count * SC._maxStateIndex cls))
  | _ => False
  end.

(** A node that a parent is about to call with time left over: a machine
    as [reset] leaves it, or a repeater with iterations to go over a
    controller as [reset] leaves it. *)
Definition ready (c : ILedController) : Prop :=
  match c with
  | Stateful _ st =>
      SC._currentStateIndex st = 0 /\ SC._timeSpentOnCurrentState st = 0
  | Looping inner maxLoopCount currentLoopCount =>
      fresh inner /\ 0 <= currentLoopCount < maxLoopCount
  end.

(** What the calls keep of a switch: the trees in its table, the ranges of
    their counters, and a cursor inside the table. *)
Definition switch_inv (table : list Skeleton) (sw : SwitchingController.State)
    : Prop :=
  map skeleton (SwitchingController.controllers sw) = table /\
  Forall wf_controller (SwitchingController.controllers sw) /\
  0 <= SwitchingController._currentControllerIndex sw < Z.of_nat (length table).

(** ** The output sink: from snapshots to PWM duty values

    What the sketches do with a [DigitalOut] and an [AnalogOut]: five calls
    of [analogWrite], one for each pin. *)

Definition RED_LED_PIN : Z := 3.
Definition AMBER_LED_PIN : Z := 5.
Definition GREEN_LED_PIN : Z := 6.
Definition BLUE_LED_PIN : Z := 9.
Definition WHITE_LED_PIN : Z := 10.

(** The brightness limits of a sketch, its [*_LED_MIN_BRIGHTNESS] and
    [*_LED_MAX_BRIGHTNESS] macros. *)
Record Brightness : Type := mkBrightness {
  RED_LED_MIN_BRIGHTNESS : Z;
  RED_LED_MAX_BRIGHTNESS : Z;
  AMBER_LED_MIN_BRIGHTNESS : Z;
  AMBER_LED_MAX_BRIGHTNESS : Z;
  GREEN_LED_MIN_BRIGHTNESS : Z;
  GREEN_LED_MAX_BRIGHTNESS : Z;
  BLUE_LED_MIN_BRIGHTNESS : Z;
  BLUE_LED_MAX_BRIGHTNESS : Z;
  WHITE_LED_MIN_BRIGHTNESS : Z;
  WHITE_LED_MAX_BRIGHTNESS : Z
}.

Definition MAIN_BRIGHTNESS : Brightness :=
  {| RED_LED_MIN_BRIGHTNESS := 0; RED_LED_MAX_BRIGHTNESS := 255;
     AMBER_LED_MIN_BRIGHTNESS := 0; AMBER_LED_MAX_BRIGHTNESS := 255;
     GREEN_LED_MIN_BRIGHTNESS := 0; GREEN_LED_MAX_BRIGHTNESS := 255;
     BLUE_LED_MIN_BRIGHTNESS := 0; BLUE_LED_MAX_BRIGHTNESS := 255;
     WHITE_LED_MIN_BRIGHTNESS := 0; WHITE_LED_MAX_BRIGHTNESS := 255 |}.

Definition SECOND_BRIGHTNESS : Brightness :=
  {| RED_LED_MIN_BRIGHTNESS := 0; RED_LED_MAX_BRIGHTNESS := 255;
     AMBER_LED_MIN_BRIGHTNESS := 0; AMBER_LED_MAX_BRIGHTNESS := 255;
     GREEN_LED_MIN_BRIGHTNESS := 0; GREEN_LED_MAX_BRIGHTNESS := 150;
     BLUE_LED_MIN_BRIGHTNESS := 0; BLUE_LED_MAX_BRIGHTNESS := 170;
     WHITE_LED_MIN_BRIGHTNESS := 0; WHITE_LED_MAX_BRIGHTNESS := 140 |}.

(** A call [analogWrite(pin, value)]. *)
Inductive PinWrite : Type :=
| AnalogWrite (pin value : Z).

Definition setAnalogLedStates (red amber green blue white : Z) : list PinWrite :=
  [ AnalogWrite RED_LED_PIN red;
    AnalogWrite AMBER_LED_PIN amber;
    AnalogWrite GREEN_LED_PIN green;
    AnalogWrite BLUE_LED_PIN blue;
    AnalogWrite WHITE_LED_PIN white ].

Definition setLedStates (B : Brightness) (red amber green blue white : bool)
    : list PinWrite :=
  let analogRed :=
    wrap8 (if red then RED_LED_MAX_BRIGHTNESS B else RED_LED_MIN_BRIGHTNESS B) in
  let analogAmber :=
    wrap8 (if amber then AMBER_LED_MAX_BRIGHTNESS B else AMBER_LED_MIN_BRIGHTNESS B) in
  let analogGreen :=
    wrap8 (if green then GREEN_LED_MAX_BRIGHTNESS B else GREEN_LED_MIN_BRIGHTNESS B) in
  let analogBlue :=
    wrap8 (if blue then BLUE_LED_MAX_BRIGHTNESS B else BLUE_LED_MIN_BRIGHTNESS B) in
  let analogWhite :=
    wrap8 (if white then WHITE_LED_MAX_BRIGHTNESS B else WHITE_LED_MIN_BRIGHTNESS B) in
  setAnalogLedStates analogRed analogAmber analogGreen analogBlue analogWhite.

(** Conversion of an [int] to [float]. *)
Definition of_int (z : Z) : float := binary_normalize F32.prec F32.emax z 0 false.

(** The integer part of a [float], towards zero; an infinity and a NaN
    have none. *)
Definition truncate (x : float) : option Z :=
  match x with
  | S754_zero _ => Some 0
  | S754_finite s m e =>
      let magnitude :=
        if 0 <=? e then Z.pos m * 2 ^ e else Z.pos m / 2 ^ (- e) in
      Some (if s then - magnitude else magnitude)
  | S754_infinity _ | S754_nan => None
  end.

(** The conversion [(uint8_t)x]: the integer part of [x] when that is a
    [uint8_t]; the conversion has no defined value otherwise. *)
Definition to_uint8 (x : float) : option Z :=
  match truncate x with
  | Some z => if (0 <=? z) && (z <? UINT8_MOD) then Some z else None
  | None => None
  end.

Definition normalizePwmValue (rawValue : float) (minValue maxValue : Z) : option Z :=
  let delta := of_int (maxValue - minValue) in
  match to_uint8 (F32.mul rawValue delta) with
  | Some scaled => Some (wrap8 (minValue + scaled))
  | None => None
  end.

Definition setNormalizedAnalogLedStates (B : Brightness) (state : AnalogLedsState)
    : option (list PinWrite) :=
  match
    normalizePwmValue (red state)
      (wrap8 (RED_LED_MIN_BRIGHTNESS B)) (wrap8 (RED_LED_MAX_BRIGHTNESS B)),
    normalizePwmValue (amber state)
      (wrap8 (AMBER_LED_MIN_BRIGHTNESS B)) (wrap8 (AMBER_LED_MAX_BRIGHTNESS B)),
    normalizePwmValue (green state)
      (wrap8 (GREEN_LED_MIN_BRIGHTNESS B)) (wrap8 (GREEN_LED_MAX_BRIGHTNESS B)),
    normalizePwmValue (blue state)
      (wrap8 (BLUE_LED_MIN_BRIGHTNESS B)) (wrap8 (BLUE_LED_MAX_BRIGHTNESS B)),
    normalizePwmValue (white state)
      (wrap8 (WHITE_LED_MIN_BRIGHTNESS B)) (wrap8 (WHITE_LED_MAX_BRIGHTNESS B))
  with
  | Some rawRed, Some rawAmber, Some rawGreen, Some rawBlue, Some rawWhite =>
      Some (setAnalogLedStates rawRed rawAmber rawGreen rawBlue rawWhite)
  | _, _, _, _, _ => None
  end.

(** The pin writes of one event of a trace: [setDigitalLedStates] is
    [setLedStates], the protected [setAnalogLedStates] is
    [setNormalizedAnalogLedStates], and a callback by itself writes
    nothing. *)
Definition pinWrites (B : Brightness) (e : Event) : option (list PinWrite) :=
  match e with
  | Activation _ => Some []
  | DigitalOut r a g b w => Some (setLedStates B r a g b w)
  | AnalogOut s => setNormalizedAnalogLedStates B s
  end.

(** Limits that are [uint8_t] values with each minimum below its
    maximum. *)
Definition wf_limits (lo hi : Z) : Prop := 0 <= lo <= hi /\ hi < UINT8_MOD.

Definition wf_brightness (B : Brightness) : Prop :=
  wf_limits (RED_LED_MIN_BRIGHTNESS B) (RED_LED_MAX_BRIGHTNESS B) /\
  wf_limits (AMBER_LED_MIN_BRIGHTNESS B) (AMBER_LED_MAX_BRIGHTNESS B) /\
  wf_limits (GREEN_LED_MIN_BRIGHTNESS B) (GREEN_LED_MAX_BRIGHTNESS B) /\
  wf_limits (BLUE_LED_MIN_BRIGHTNESS B) (BLUE_LED_MAX_BRIGHTNESS B) /\
  wf_limits (WHITE_LED_MIN_BRIGHTNESS B) (WHITE_LED_MAX_BRIGHTNESS B).

(** ** The second sketch: its other animations and its main controller *)

Module CombinationController.
(** The [switch] of the source has no [default] and nothing follows it:
    [None] is a call that runs off the end of the function. *)
Definition getLedStatesForState (stateIndex : Z) : option AnalogLedsState :=
  let stateIndex := if 10 <=? stateIndex then wrap8 (stateIndex - 10) else stateIndex in
  match stateIndex with
  | 0 => Some (leds true true false false false)
  | 1 => Some (leds true true true false false)
  | 2 => Some (leds false true true false false)
  | 3 => Some (leds false true true true false)
  | 4 => Some (leds false false true true false)
  | 5 => Some (leds false false true true true)
  | 6 => Some (leds false false false true true)
  | 7 => Some (leds true false false true true)
  | 8 => Some (leds true false false false true)
  | 9 => Some (leds true true false false true)
  | _ => None
  end.

(** A callback one of whose lookups runs off the end has no defined
    behaviour; the model gives it no effect. *)
Definition applyLedStatesForState (transitionDuration : Z) (stateIndex : Z)
    : list LedCommand :=
  match getLedStatesForState stateIndex,
        getLedStatesForState (wrap8 (stateIndex + 1)) with
  | Some currentState, Some nextState =>
      [StartPwmTransition transitionDuration currentState nextState]
  | _, _ => []
  end.

Definition class (iterationDuration transitionDuration : Z)
    : StatefulController.Class :=
  {| StatefulController._maxStateIndex := 10;
     StatefulController.getStateDuration := fun _ => iterationDuration;
     StatefulController.applyLedStatesForState :=
       applyLedStatesForState transitionDuration |}.
End CombinationController.

Module FlowingTwoLedsController.
Definition applyLedStatesForState (stateIndex : Z) : list LedCommand :=
  match stateIndex with
  | 0 => [SetDigitalLedStates true true false false false]
  | 1 => [SetDigitalLedStates false true true false false]
  | 2 => [SetDigitalLedStates false false true true false]
  | 3 => [SetDigitalLedStates false false false true true]
  | 4 => [SetDigitalLedStates true false false false true]
  | _ => []
  end.

Definition class (timePerState : Z) : StatefulController.Class :=
  {| StatefulController._maxStateIndex := 5;
     StatefulController.getStateDuration := fun _ => timePerState;
     StatefulController.applyLedStatesForState := applyLedStatesForState |}.
End FlowingTwoLedsController.

Module SloGloController.
Definition getLedStatesForState (stateIndex : Z) : AnalogLedsState :=
  let stateIndex := if 5 <=? stateIndex then wrap8 (stateIndex - 5) else stateIndex in
  match stateIndex with
  | 0 => leds true false false false false
  | 1 => leds false true false false false
  | 2 => leds false false true false false
  | 3 => leds false false false true false
  | 4 => leds false false false false true
  | _ => allLedsOff
  end.

Definition applyLedStatesForState (transitionDuration : Z) (stateIndex : Z)
    : list LedCommand :=
  let currentState := getLedStatesForState stateIndex in
  let nextState := getLedStatesForState (wrap8 (stateIndex + 1)) in
  [StartPwmTransition transitionDuration currentState nextState].

Definition class (transitionDuration sustainDuration : Z)
    : StatefulController.Class :=
  {| StatefulController._maxStateIndex := 5;
     StatefulController.getStateDuration :=
       fun _ => wrap32 (transitionDuration + sustainDuration);
     StatefulController.applyLedStatesForState :=
       applyLedStatesForState transitionDuration |}.
End SloGloController.

Definition combinationControllerLoop : ILedController :=
  Looping (Stateful (CombinationController.class 60 60)
             StatefulController.construct) 25 0.

Definition slowCombinationControllerLoop : ILedController :=
  Looping (Stateful (CombinationController.class 90 90)
             StatefulController.construct) 16 0.

Definition slowFlowingTwoLedsControllerLoop : ILedController :=
  Looping (Stateful (FlowingTwoLedsController.class 500)
             StatefulController.construct) 6 0.

Definition mediumFlowingTwoLedsControllerLoop : ILedController :=
  Looping (Stateful (FlowingTwoLedsController.class 250)
             StatefulController.construct) 12 0.

Definition fastFlowingTwoLedsControllerLoop : ILedController :=
  Looping (Stateful (FlowingTwoLedsController.class 120)
             StatefulController.construct) 24 0.

Definition sloGloControllerLoop : ILedController :=
  Looping (Stateful (SloGloController.class 3000 0)
             StatefulController.construct) 1 0.

Definition fastGloControllerLoop : ILedController :=
  Looping (Stateful (SloGloController.class 1500 0)
             StatefulController.construct) 2 0.

Definition chasingFlashControllerLoop : ILedController :=
  Looping (Stateful chasingFlashController StatefulController.construct) 4 0.

Definition slowAllInOneFadeControllerLoop : ILedController :=
  Looping (Stateful (AllInOneFadeController.class 6000 0 6000 0)
             StatefulController.construct) 1 0.

Definition fastAllInOneFadeControllerLoop : ILedController :=
  Looping (Stateful (AllInOneFadeController.class 3000 0 3000 0)
             StatefulController.construct) 2 0.

(** The [mainController] of the second sketch. *)
Definition secondMainController : SwitchingController.State :=
  {| SwitchingController.controllers :=
       [ combinationControllerLoop;
         slowCombinationControllerLoop;
         slowFlowingTwoLedsControllerLoop;
         mediumFlowingTwoLedsControllerLoop;
         fastFlowingTwoLedsControllerLoop;
         sloGloControllerLoop;
         fastGloControllerLoop;
         chasingFlashControllerLoop;
         slowAllInOneFadeControllerLoop;
         fastAllInOneFadeControllerLoop ];
     SwitchingController._currentControllerIndex := 0 |}.

(** ** [loop()]: the driver

    The driver resets the main controller and then, for ever, calls it
    with the time it has just slept and sleeps the time the call
    suggests.  [rounds] is a number of turns of its [do ... while (true)];
    it yields the sleep times, in order. *)

Fixpoint rounds (PWM_ANIMATION_INTERVAL : Z) (fuel : nat) (n : nat)
    (sw : SwitchingController.State) (sleepTime : Z)
    : Res (SwitchingController.State * list Z * list Event) :=
  match n with
  | O => Ok (sw, [], [])
  | S n' =>
      '(sw1, result, tr1) <-
        SwitchingController.doControl PWM_ANIMATION_INTERVAL fuel sw sleepTime ;;
      let sleepTime := suggestedSleepTime result in
      '(sw2, sleepTimes, tr2) <- rounds PWM_ANIMATION_INTERVAL fuel n' sw1 sleepTime ;;
      Ok (sw2, sleepTime :: sleepTimes, tr1 ++ tr2)
  end.

Definition loop (PWM_ANIMATION_INTERVAL : Z) (fuel : nat) (n : nat)
    (main : SwitchingController.State)
    : Res (SwitchingController.State * list Z * list Event) :=
  let (sw0, tr0) := SwitchingController.reset main in
  '(sw, sleepTimes, tr) <- rounds PWM_ANIMATION_INTERVAL fuel n sw0 0 ;;
  Ok (sw, sleepTimes, tr0 ++ tr).

(** ** Time through a tree of repeaters *)

(** The time one pass of a tree takes. *)
Fixpoint passDuration (sk : Skeleton) : Z :=
  match sk with
  | SkStateful cls => totalDuration cls
  | SkLooping inner maxLoopCount => maxLoopCount * passDuration inner
  end.

(** The time that a tree accounts for: the iterations a repeater has
    completed and the time its controller accounts for. *)
Fixpoint consumed (c : ILedController) : Z :=
  match c with
  | Stateful cls st => consumedTime cls st
  | Looping inner _ currentLoopCount =>
      currentLoopCount * passDuration (skeleton inner) + consumed inner
  end.

(** A tree that is not done: every machine is on one of its states and
    every repeater has iterations to go. *)
Fixpoint running (c : ILedController) : Prop :=
  match c with
  | Stateful cls st => SC._currentStateIndex st < SC._maxStateIndex cls
  | Looping inner maxLoopCount currentLoopCount =>
      running inner /\ 0 <= currentLoopCount < maxLoopCount
  end.

(** ** What the callbacks show *)

(** The snapshots on which what a callback shows begins and ends: those
    of the fade it starts, or the pattern it sets. *)
Definition shows (commands : list LedCommand)
    : option (AnalogLedsState * AnalogLedsState) :=
  match commands with
  | [StartPwmTransition _ initial target] => Some (initial, target)
  | [SetDigitalLedStates r a g b w] => Some (leds r a g b w, leds r a g b w)
  | [SetAnalogLedStates s] => Some (s, s)
  | _ => None
  end.

(** A table of callbacks that chains: the callback of every state shows
    something, snapshots of channels 0.0 and 1.0, and what it shows ends on
    the snapshot on which what the callback of the state after it, state 0
    after the last, begins.  This looks at the snapshots that the
    callbacks name, not at what the machine writes to the sink. *)
Definition chained (cls : SC.Class) : Prop :=
  forall i, 0 <= i < SC._maxStateIndex cls ->
    exists a b c,
      shows (SC.applyLedStatesForState cls i) = Some (a, b) /\
      shows (SC.applyLedStatesForState cls ((i + 1) mod SC._maxStateIndex cls))
        = Some (b, c) /\
      snapshot_zero_or_one a /\ snapshot_zero_or_one b.

(** The number of LEDs that a digital pattern lights. *)
Definition litCount (r a g b w : bool) : Z :=
  Z.b2z r + Z.b2z a + Z.b2z g + Z.b2z b + Z.b2z w.

(** ** Time through the switch *)

(** The time one round of the table takes: a pass of each node. *)
Definition cycleDuration (table : list Skeleton) : Z :=
  sum (map passDuration table).

(** Where the switch is in its round: the passes of the nodes before the
    cursor and the time that the node under the cursor accounts for. *)
Definition cyclePosition (sw : SwitchingController.State) : Z :=
  sum (map passDuration
         (firstn (Z.to_nat (SwitchingController._currentControllerIndex sw))
            (map skeleton (SwitchingController.controllers sw))))
  + match SwitchingController.getControllerByIndex sw
            (SwitchingController._currentControllerIndex sw) with
    | Some c => consumed c
    | None => 0
    end.

(** A switch at rest between two calls: the node under its cursor is not
    done and accounts for less than a pass. *)
Definition at_rest (sw : SwitchingController.State) : Prop :=
  exists c,
    SwitchingController.getControllerByIndex sw
      (SwitchingController._currentControllerIndex sw) = Some c /\
    running c /\ consumed c < passDuration (skeleton c).

(** ** Intensities as numbers

    A [float] of sign [s] whose magnitude is at most 1: a zero, or a finite
    [m * 2^e] with [m <= 2^-e].  Unlike [F32.in_unit_interval] this does
    not ask for the mantissa to be normalized: it looks at the number
    alone. *)
Definition unit_magnitude (s : bool) (x : float) : bool :=
  match x with
  | S754_zero _ => true
  | S754_finite s' m e => Bool.eqb s s' && (e <=? 0) && (Z.pos m <=? 2 ^ (- e))
  | S754_infinity _ | S754_nan => false
  end.

(** A number between 0 and 1. *)
Definition unit_range (x : float) : bool := unit_magnitude false x.

Definition snapshot_unit_range (s : AnalogLedsState) : Prop :=
  unit_range (red s) = true /\ unit_range (amber s) = true /\
  unit_range (green s) = true /\ unit_range (blue s) = true /\
  unit_range (white s) = true.

(** Every integer below [2^24] converts to [float] without rounding. *)
Definition EXACT_INTEGERS : Z := 16777216.

(** What a right shift by [k] bits does to a mantissa with its round and
    sticky bits: it divides by [2^k], and the result is flagged exact only
    when the operand was and nothing was shifted out. *)
Definition shifts (k : Z) (f : shr_record -> shr_record) : Prop :=
  forall mrs,
    0 <= shr_m mrs ->
    0 <= shr_m (f mrs) /\
    0 <= shr_m mrs - shr_m (f mrs) * 2 ^ k < 2 ^ k /\
    (loc_of_shr_record (f mrs) = loc_Exact <->
     loc_of_shr_record mrs = loc_Exact /\ shr_m mrs = shr_m (f mrs) * 2 ^ k).

(** ** Outputs within the limits

    A pin write that keeps to the limits of its channel, an event that the
    sink carries out with such writes only, and a trace of such events.  An
    event whose conversion to [uint8_t] has no defined value is not
    safe. *)
Definition in_limits (B : Brightness) (w : PinWrite) : bool :=
  match w with
  | AnalogWrite pin value =>
      if pin =? RED_LED_PIN then
        (RED_LED_MIN_BRIGHTNESS B <=? value) && (value <=? RED_LED_MAX_BRIGHTNESS B)
      else if pin =? AMBER_LED_PIN then
        (AMBER_LED_MIN_BRIGHTNESS B <=? value) && (value <=? AMBER_LED_MAX_BRIGHTNESS B)
      else if pin =? GREEN_LED_PIN then
        (GREEN_LED_MIN_BRIGHTNESS B <=? value) && (value <=? GREEN_LED_MAX_BRIGHTNESS B)
      else if pin =? BLUE_LED_PIN then
        (BLUE_LED_MIN_BRIGHTNESS B <=? value) && (value <=? BLUE_LED_MAX_BRIGHTNESS B)
      else if pin =? WHITE_LED_PIN then
        (WHITE_LED_MIN_BRIGHTNESS B <=? value) && (value <=? WHITE_LED_MAX_BRIGHTNESS B)
      else false
  end.

Definition safe_event (B : Brightness) (e : Event) : bool :=
  match pinWrites B e with
  | Some writes => forallb (in_limits B) writes
  | None => false
  end.

Definition safe_trace (B : Brightness) (tr : list Event) : bool :=
  forallb (safe_event B) tr.

(** Callbacks as the sketches write them: every snapshot they pass is made
    of the literals [0.0] and [1.0], and every fade is shorter than
    [2^24] ms.  A machine whose fade parameters are such, and a tree of
    such machines. *)
Definition plain_command (c : LedCommand) : Prop :=
  match c with
  | SetDigitalLedStates _ _ _ _ _ => True
  | SetAnalogLedStates s => snapshot_zero_or_one s
  | StartPwmTransition transitionTime initial target =>
      transitionTime < EXACT_INTEGERS /\
      snapshot_zero_or_one initial /\ snapshot_zero_or_one target
  end.

Definition plain_class (cls : SC.Class) : Prop :=
  forall i, Forall plain_command (SC.applyLedStatesForState cls i).

Definition plain_state (st : SC.State) : Prop :=
  SC._totalTransitionTime st < EXACT_INTEGERS /\
  snapshot_zero_or_one (SC._initialState st) /\
  snapshot_zero_or_one (SC._targetState st).

Fixpoint plain_controller (c : ILedController) : Prop :=
  match c with
  | Stateful cls st => plain_class cls /\ plain_state st
  | Looping inner _ _ => plain_controller inner
  end.

(** ** A fade as long as its state

    The sequential fade built with no sustain after a fade-out: the
    fades of states 6 to 10 last 300 ms, as long as the states themselves.
    [lateInLastFade] is that machine 270 ms into state 10, whose fade, of
    the white LED to all LEDs off, is in progress. *)
Definition tightSequentialFade : SC.Class :=
  SequentialFadeController.class 150 50 1000 300 0 1000.

Definition lateInLastFade : SC.State :=
  {| SC._currentStateIndex := 10;
     SC._timeSpentOnCurrentState := 270;
     SC._pwmTransitionInProgress := true;
     SC._initialState := leds false false false false true;
     SC._targetState := allLedsOff;
     SC._totalTransitionTime := 300 |}.

(** * Properties *)

(** Splits the goal at its conjunctions, and only at those that show. *)
Ltac conj := repeat match goal with |- _ /\ _ => split end.

(** ** Machine arithmetic *)

Lemma wrap32_small z : is_uint32 z -> wrap32 z = z.
Proof. unfold is_uint32, wrap32. intros H. now apply Z.mod_small. Qed.

Lemma wrap8_small z : is_uint8 z -> wrap8 z = z.
Proof. unfold is_uint8, wrap8. intros H. now apply Z.mod_small. Qed.

Lemma wrap32_range z : is_uint32 (wrap32 z).
Proof. unfold is_uint32, wrap32, UINT32_MOD. apply Z.mod_pos_bound. lia. Qed.

Lemma sum_nonneg l : Forall is_uint32 l -> 0 <= sum l.
Proof.
  induction 1 as [|x l Hx _ IH]; simpl; [lia|].
  unfold is_uint32 in Hx. lia.
Qed.

(** ** Durations *)

Lemma durationsBefore_0 cls : durationsBefore cls 0 = 0.
Proof. reflexivity. Qed.

Lemma durationsBefore_succ cls i :
  0 <= i ->
  durationsBefore cls (i + 1) = durationsBefore cls i + SC.getStateDuration cls i.
Proof.
  intros Hi. unfold durationsBefore.
  replace (Z.to_nat (i + 1)) with (S (Z.to_nat i)) by lia.
  simpl. now rewrite Z2Nat.id.
Qed.

(** The positions of a machine whose durations are [uint32_t]s. *)
Section Positions.

Variable cls : SC.Class.
Hypothesis cls_wf : wf_class cls.

Lemma durationsBefore_mono i j :
  0 <= i <= j -> durationsBefore cls i <= durationsBefore cls j.
Proof.
  destruct cls_wf as [_ Hd]. intros [Hi Hij].
  replace j with (i + (j - i)) by lia.
  assert (Hk : 0 <= j - i) by lia.
  generalize dependent (j - i). intros k Hk. clear Hij j.
  pattern k. apply natlike_ind; [rewrite Z.add_0_r; lia | | exact Hk].
  intros x Hx IH. replace (i + Z.succ x) with ((i + x) + 1) by lia.
  rewrite durationsBefore_succ by lia.
  specialize (Hd (i + x)). unfold is_uint32 in Hd. lia.
Qed.

Lemma durationsBefore_nonneg i : 0 <= i -> 0 <= durationsBefore cls i.
Proof.
  intros Hi. rewrite <- (durationsBefore_0 cls).
  apply durationsBefore_mono. lia.
Qed.

(** The place where the loop stops is determined by the position. *)
Lemma lands_unique position i t j u :
  lands cls position i t -> lands cls position j u -> i = j /\ t = u.
Proof.
  intros (Hi & Ht & Hpi & Hsi) (Hj & Hu & Hpj & Hsj).
  assert (Hij : i = j).
  { destruct (Z.lt_trichotomy i j) as [Hlt | [Heq | Hgt]]; [exfalso | exact Heq | exfalso].
    - pose proof (durationsBefore_mono (i + 1) j ltac:(lia)) as Hm.
      rewrite durationsBefore_succ in Hm by lia.
      specialize (Hsi ltac:(lia)). lia.
    - pose proof (durationsBefore_mono (j + 1) i ltac:(lia)) as Hm.
      rewrite durationsBefore_succ in Hm by lia.
      specialize (Hsj ltac:(lia)). lia. }
  subst j. split; [reflexivity | lia].
Qed.

(** A position short of the total lands on a state; one at or past the
    total lands past the last state. *)
Lemma lands_before_total position i t :
  lands cls position i t ->
  position < totalDuration cls -> i < SC._maxStateIndex cls.
Proof.
  intros (Hi & Ht & Hp & _) Hlt. unfold totalDuration in Hlt.
  destruct (Z.eq_dec i (SC._maxStateIndex cls)) as [-> | Hne]; lia.
Qed.

Lemma lands_past_total position i t :
  lands cls position i t ->
  totalDuration cls <= position ->
  i = SC._maxStateIndex cls /\ t = position - totalDuration cls.
Proof.
  intros (Hi & Ht & Hp & Hs) Hge. unfold totalDuration in *.
  destruct (Z.eq_dec i (SC._maxStateIndex cls)) as [-> | Hne]; [lia | exfalso].
  specialize (Hs ltac:(lia)).
  pose proof (durationsBefore_mono (i + 1) (SC._maxStateIndex cls) ltac:(lia)) as Hm.
  rewrite durationsBefore_succ in Hm by lia. lia.
Qed.

End Positions.

(** ** The loop of the state machine *)

Lemma whileLoop_eq fuel cls index time duration :
  SC.whileLoop fuel cls index time duration =
  if (duration <=? time) && (index <? SC._maxStateIndex cls) then
    match fuel with
    | O => Crash OutOfFuel
    | S fuel' =>
        SC.whileLoop fuel' cls (wrap8 (index + 1)) (wrap32 (time - duration))
          (durationAt cls (wrap8 (index + 1)))
    end
  else Ok (index, time, duration).
Proof. destruct fuel; reflexivity. Qed.

Lemma whileLoop_time_range cls fuel : forall index time duration index' time' duration',
  is_uint32 time ->
  SC.whileLoop fuel cls index time duration = Ok (index', time', duration') ->
  is_uint32 time'.
Proof.
  induction fuel as [|fuel IH]; intros index time duration index' time' duration' Hr;
    rewrite whileLoop_eq; destruct (_ && _); try discriminate.
  - now intros [= _ <- _].
  - apply IH, wrap32_range.
  - now intros [= _ <- _].
Qed.

Lemma whileLoop_fault cls fuel : forall index time duration f,
  SC.whileLoop fuel cls index time duration = Crash f -> f = OutOfFuel.
Proof.
  induction fuel as [|fuel IH]; intros index time duration f;
    rewrite whileLoop_eq; destruct (_ && _); try discriminate.
  - now intros [= <-].
  - apply IH.
Qed.

Lemma exit_lands cls index time :
  0 <= index <= SC._maxStateIndex cls -> is_uint32 time ->
  (durationAt cls index <=? time) && (index <? SC._maxStateIndex cls) = false ->
  lands cls (durationsBefore cls index + time) index time.
Proof.
  intros Hi Ht Hcond. unfold lands. unfold is_uint32 in Ht.
  repeat split; try lia.
  intros Hlt. apply andb_false_iff in Hcond as [Hc1 | Hc2].
  - apply Z.leb_gt in Hc1. unfold durationAt in Hc1.
    apply Z.ltb_lt in Hlt. now rewrite Hlt in Hc1.
  - apply Z.ltb_ge in Hc2. lia.
Qed.

(** Every iteration moves the index one state up, so the states that are
    left bound the number of iterations. *)
Lemma whileLoop_lands cls :
  wf_class cls ->
  forall fuel index time,
    0 <= index <= SC._maxStateIndex cls -> is_uint32 time ->
    (Z.to_nat (SC._maxStateIndex cls - index) <= fuel)%nat ->
    exists index' time',
      SC.whileLoop fuel cls index time (durationAt cls index)
        = Ok (index', time', durationAt cls index') /\
      index <= index' /\ is_uint32 time' /\
      lands cls (durationsBefore cls index + time) index' time'.
Proof.
  intros Hc. pose proof Hc as [Hmax Hd].
  induction fuel as [|fuel IH]; intros index time Hi Ht Hfuel;
    rewrite whileLoop_eq;
    destruct ((durationAt cls index <=? time) && (index <? SC._maxStateIndex cls))
      eqn:Hcond.
  1, 3: apply andb_prop in Hcond as [Hle Hlt];
    apply Z.leb_le in Hle; apply Z.ltb_lt in Hlt.
  3, 4: exists index, time; split; [reflexivity | split; [lia | split; [exact Ht |]]];
    now apply exit_lands.
  - lia.
  - unfold durationAt in Hle |- * at 1.
    pose proof Hlt as Hlt'. apply Z.ltb_lt in Hlt'. rewrite Hlt' in *.
    specialize (Hd index) as Hdi. unfold is_uint32, UINT8_MOD in *.
    rewrite (wrap8_small (index + 1)) by (unfold is_uint8, UINT8_MOD; lia).
    rewrite (wrap32_small (time - _)) by (unfold is_uint32; lia).
    destruct (IH (index + 1) (time - SC.getStateDuration cls index))
      as (index' & time' & Heq & Hle' & Ht' & Hl); try lia.
    exists index', time'.
    destruct Hl as (Hl1 & Hl2 & Hp & Hl4).
    rewrite durationsBefore_succ in Hp by lia.
    unfold lands. repeat split; try assumption; try lia.
Qed.

(** ** Activation callbacks and fades *)

Lemma runCommand_position st c :
  SC._currentStateIndex (fst (SC.runCommand st c)) = SC._currentStateIndex st /\
  SC._timeSpentOnCurrentState (fst (SC.runCommand st c)) = SC._timeSpentOnCurrentState st /\
  activations (snd (SC.runCommand st c)) = [] /\
  SC._pwmTransitionInProgress (fst (SC.runCommand st c))
    = starts_fade c || SC._pwmTransitionInProgress st.
Proof. destruct c; simpl; auto. Qed.

Lemma runCommands_position cs : forall st,
  SC._currentStateIndex (fst (SC.runCommands st cs)) = SC._currentStateIndex st /\
  SC._timeSpentOnCurrentState (fst (SC.runCommands st cs)) = SC._timeSpentOnCurrentState st /\
  activations (snd (SC.runCommands st cs)) = [] /\
  SC._pwmTransitionInProgress (fst (SC.runCommands st cs))
    = existsb starts_fade cs || SC._pwmTransitionInProgress st.
Proof.
  induction cs as [|c cs IH]; intros st; simpl; [auto|].
  destruct (runCommand_position st c) as (H1 & H2 & H3 & H4).
  destruct (SC.runCommand st c) as [st1 tr1]. simpl in *.
  destruct (IH st1) as (K1 & K2 & K3 & K4).
  destruct (SC.runCommands st1 cs) as [st2 tr2]. simpl in *.
  unfold activations in *. rewrite filter_app, H3, K3.
  rewrite K1, K2, K4, H1, H2, H4.
  repeat split; try reflexivity.
  now rewrite orb_assoc, (orb_comm (existsb _ _)).
Qed.

Lemma activate_spec cls st i :
  SC._currentStateIndex (fst (SC.activate cls st i)) = SC._currentStateIndex st /\
  SC._timeSpentOnCurrentState (fst (SC.activate cls st i)) = SC._timeSpentOnCurrentState st /\
  activations (snd (SC.activate cls st i)) = [Activation i] /\
  SC._pwmTransitionInProgress (fst (SC.activate cls st i))
    = existsb starts_fade (SC.applyLedStatesForState cls i)
      || SC._pwmTransitionInProgress st.
Proof.
  unfold SC.activate.
  destruct (runCommands_position (SC.applyLedStatesForState cls i) st)
    as (H1 & H2 & H3 & H4).
  destruct (SC.runCommands st _) as [st' tr]. simpl in *.
  unfold activations in *. simpl. rewrite H3. auto.
Qed.

(** A tick of a fade never divides by zero: the quotient is taken on the
    branch on which the time is below the length of the fade. *)
Lemma animatePwmTransition_ok st t :
  0 <= t ->
  exists st' tr,
    SC.animatePwmTransition st t = Ok (st', tr) /\
    SC._currentStateIndex st' = SC._currentStateIndex st /\
    SC._timeSpentOnCurrentState st' = SC._timeSpentOnCurrentState st /\
    activations tr = [].
Proof.
  intros Ht. unfold SC.animatePwmTransition.
  destruct (SC._totalTransitionTime st <=? t) eqn:Hle.
  - eexists _, _. split; [reflexivity|]. simpl. auto.
  - apply Z.leb_gt in Hle. unfold divide.
    destruct (SC._totalTransitionTime st =? 0) eqn:Hz.
    + apply Z.eqb_eq in Hz. lia.
    + simpl. eexists _, _. split; [reflexivity|]. auto.
Qed.

(** ** One call of the state machine *)

Lemma doControl_done interval fuel cls st e :
  SC._maxStateIndex cls <= SC._currentStateIndex st ->
  SC.doControl interval fuel cls st e = Ok (st, finishedWorkState e, []).
Proof.
  intros H. unfold SC.doControl. apply Z.leb_le in H. now rewrite H.
Qed.

Lemma doControl_running interval cls st e fuel :
  wf_class cls -> wf_state st ->
  SC._currentStateIndex st < SC._maxStateIndex cls ->
  (Z.to_nat (SC._maxStateIndex cls - SC._currentStateIndex st) <= fuel)%nat ->
  exists st' result tr,
    SC.doControl interval fuel cls st e = Ok (st', result, tr) /\
    wf_state st' /\
    SC._currentStateIndex st <= SC._currentStateIndex st' /\
    lands cls
      (durationsBefore cls (SC._currentStateIndex st)
       + wrap32 (SC._timeSpentOnCurrentState st + e))
      (SC._currentStateIndex st') (SC._timeSpentOnCurrentState st') /\
    finished result = (SC._maxStateIndex cls <=? SC._currentStateIndex st') /\
    remainingTime result
      = (if finished result then SC._timeSpentOnCurrentState st' else 0) /\
    activations tr
      = (if (SC._maxStateIndex cls <=? SC._currentStateIndex st')
            || (SC._currentStateIndex st =? SC._currentStateIndex st')
         then [] else [Activation (SC._currentStateIndex st')]).
Proof.
  intros Hc [Hi Ht] Hlt Hfuel. pose proof Hc as [Hmax Hd].
  unfold SC.doControl.
  replace (SC._maxStateIndex cls <=? SC._currentStateIndex st) with false
    by (symmetry; apply Z.leb_gt; lia).
  replace (SC.getStateDuration cls (SC._currentStateIndex st))
    with (durationAt cls (SC._currentStateIndex st))
    by (unfold durationAt; apply Z.ltb_lt in Hlt; now rewrite Hlt).
  unfold is_uint8 in Hi.
  destruct (whileLoop_lands cls Hc fuel (SC._currentStateIndex st)
              (wrap32 (SC._timeSpentOnCurrentState st + e)))
    as (index' & time' & Heq & Hle & Ht' & Hl);
    [lia | apply wrap32_range | exact Hfuel |].
  rewrite Heq. cbn [bind].
  assert (Hwf : wf_state (SC.set_position st index' time')).
  { split; [|exact Ht']. simpl. unfold is_uint8, UINT8_MOD in *.
    destruct Hl as (Hl & _). lia. }
  destruct (SC._maxStateIndex cls <=? index') eqn:Hdone.
  - eexists _, _, _. split; [reflexivity|]. simpl. rewrite Hdone.
    repeat split; try assumption; try apply Hwf; try apply Hl.
  - set (st1 := SC.set_position st index' time').
    destruct (activate_spec cls st1 index') as (A1 & A2 & A3 & A4).
    assert (Hstep : exists st2 tr2,
      (if negb (SC._currentStateIndex st =? index')
       then SC.activate cls st1 index' else (st1, [])) = (st2, tr2) /\
      SC._currentStateIndex st2 = index' /\
      SC._timeSpentOnCurrentState st2 = time' /\
      activations tr2
        = if SC._currentStateIndex st =? index' then [] else [Activation index']).
    { destruct (SC._currentStateIndex st =? index'); simpl.
      - exists st1, []. auto.
      - exists (fst (SC.activate cls st1 index')), (snd (SC.activate cls st1 index')).
        split; [now destruct (SC.activate cls st1 index')|]. auto. }
    destruct Hstep as (st2 & tr2 & -> & S1 & S2 & S3).
    destruct (SC._pwmTransitionInProgress st2).
    + destruct (animatePwmTransition_ok st2 (SC._timeSpentOnCurrentState st2))
        as (st3 & tr3 & -> & T1 & T2 & T3).
      { rewrite S2. unfold is_uint32 in Ht'. lia. }
      cbn [bind]. eexists _, _, _. split; [reflexivity|].
      unfold wf_state. rewrite T1, T2, S1, S2. simpl. rewrite Hdone. simpl.
      unfold activations in *. rewrite filter_app, S3, T3, app_nil_r.
      repeat split; try assumption; try apply Ht'; try apply Hl; try apply Hwf.
    + eexists _, _, _. split; [reflexivity|].
      unfold wf_state. rewrite S1, S2. simpl. rewrite Hdone. simpl.
      repeat split; try assumption; try apply Ht'; try apply Hl; try apply Hwf.
Qed.

(** ** C1: what [reset] restores *)

(** C1, as the claim states it, fails: [reset] does not clear the flag of a
    fade.  The chasing flash of the second sketch ends on a fade; when a
    call takes it past its last state while that fade is in progress, the
    [reset] that follows puts it on its first state, which is digital, and
    the flag and the target of the old fade are still there.  And where
    the first state fades, as in the sequential fade of the sketch, the
    flag is set after [reset] whatever it was before. *)
Lemma reset_keeps_fade_in_progress :
  (exists st results tr,
     Run.stateful SECOND_PWM_ANIMATION_INTERVAL 64 chasingFlashController
       (fst (SC.reset chasingFlashController SC.construct)) [2900; 100]
       = Ok (st, results, tr) /\
     SC._pwmTransitionInProgress st = true /\
     SC.applyLedStatesForState chasingFlashController 0
       = [SetDigitalLedStates false true false false false] /\
     SC._pwmTransitionInProgress (fst (SC.reset chasingFlashController st)) = true /\
     SC._targetState (fst (SC.reset chasingFlashController st)) = SC._targetState st) /\
  SC._pwmTransitionInProgress
    (fst (SC.reset (SequentialFadeController.class 150 50 1000 300 100 1000)
            SC.construct)) = true.
Proof.
  split; [|reflexivity].
  eexists _, _, _. split; [vm_compute; reflexivity|].
  conj; reflexivity.
Qed.

Lemma reset_position cls st :
  SC._currentStateIndex (fst (SC.reset cls st)) = 0 /\
  SC._timeSpentOnCurrentState (fst (SC.reset cls st)) = 0.
Proof.
  unfold SC.reset.
  destruct (activate_spec cls (SC.set_position st 0 0) 0) as (H1 & H2 & _).
  rewrite H1, H2. auto.
Qed.

(** The fade fields after a list of commands: those of the last fade the
    commands start, and without one those before. *)
Lemma runCommands_fade_fields cs : forall st,
  (SC._totalTransitionTime (fst (SC.runCommands st cs)),
   SC._initialState (fst (SC.runCommands st cs)),
   SC._targetState (fst (SC.runCommands st cs)))
  = match lastFade cs with
    | Some fade => fade
    | None => (SC._totalTransitionTime st, SC._initialState st, SC._targetState st)
    end.
Proof.
  induction cs as [|c cs IH]; intros st; [reflexivity|].
  cbn [SC.runCommands lastFade].
  specialize (IH (fst (SC.runCommand st c))).
  destruct (SC.runCommand st c) as [st1 tr1] eqn:Hc. cbn [fst] in IH.
  destruct (SC.runCommands st1 cs) as [st2 tr2]. cbn [fst] in *.
  rewrite IH. destruct (lastFade cs) as [fade|]; [reflexivity|].
  destruct c as [r a g b w | s | t initial target]; cbn in Hc;
    injection Hc as <- _; reflexivity.
Qed.

(** C1 (amended): after [reset] the state index is 0, the time in state is
    0 and the activation callback of state 0 has run once.  No fade is
    cancelled: the flag of a fade is set when that callback starts a fade
    and is otherwise what it was before the call, and the length and the
    two snapshots of the fade are those of the last fade that the callback
    starts and are otherwise what they were before the call, so that a
    fade that was in progress stays in progress with the snapshots and the
    length it had. *)
Theorem reset_returns_to_first_state cls st :
  SC._currentStateIndex (fst (SC.reset cls st)) = 0 /\
  SC._timeSpentOnCurrentState (fst (SC.reset cls st)) = 0 /\
  activations (snd (SC.reset cls st)) = [Activation 0] /\
  SC._pwmTransitionInProgress (fst (SC.reset cls st))
    = existsb starts_fade (SC.applyLedStatesForState cls 0)
      || SC._pwmTransitionInProgress st /\
  (SC._totalTransitionTime (fst (SC.reset cls st)),
   SC._initialState (fst (SC.reset cls st)),
   SC._targetState (fst (SC.reset cls st)))
  = match lastFade (SC.applyLedStatesForState cls 0) with
    | Some fade => fade
    | None => (SC._totalTransitionTime st, SC._initialState st, SC._targetState st)
    end.
Proof.
  unfold SC.reset.
  destruct (activate_spec cls (SC.set_position st 0 0) 0) as (H1 & H2 & H3 & H4).
  rewrite H1, H2, H3, H4. cbn [SC.set_position SC._currentStateIndex
    SC._timeSpentOnCurrentState SC._pwmTransitionInProgress].
  conj; try reflexivity.
  unfold SC.activate.
  pose proof (runCommands_fade_fields (SC.applyLedStatesForState cls 0)
                (SC.set_position st 0 0)) as Hfields.
  destruct (SC.runCommands (SC.set_position st 0 0) (SC.applyLedStatesForState cls 0))
    as [st' tr]. cbn [fst] in *. exact Hfields.
Qed.

(** ** C9: a repeater that has used up its iterations *)

(** C9: when the iterations completed have reached the count (always so
    for a count of 0), [doControl] returns done with the whole elapsed time
    as the remainder, the repeater and the controller inside it are as
    they were, and nothing is written or activated.  One unit of fuel is
    enough, so that no call of the inner controller is made. *)
Theorem exhausted_repeater_passes_time_through
    interval fuel inner maxLoopCount currentLoopCount e :
  maxLoopCount <= currentLoopCount ->
  doControl interval (S fuel) (Looping inner maxLoopCount currentLoopCount) e
    = Ok (Looping inner maxLoopCount currentLoopCount, finishedWorkState e, []) /\
  doControl interval 1 (Looping inner maxLoopCount currentLoopCount) e
    = Ok (Looping inner maxLoopCount currentLoopCount, finishedWorkState e, []).
Proof.
  intros H. apply Z.leb_le in H. simpl. rewrite H. auto.
Qed.

Lemma exhausted_repeater_witness :
  0 <= 0 /\
  doControl MAIN_PWM_ANIMATION_INTERVAL 1
    (Looping (Stateful (FlowingThreeLedsController.class 100) SC.construct) 0 0) 77
    = Ok (Looping (Stateful (FlowingThreeLedsController.class 100) SC.construct) 0 0,
          finishedWorkState 77, []).
Proof.
  split; [lia|].
  apply (exhausted_repeater_passes_time_through MAIN_PWM_ANIMATION_INTERVAL 0
           (Stateful (FlowingThreeLedsController.class 100) SC.construct) 0 0 77).
  lia.
Defined.

(** ** C10: a fade of length zero *)

Lemma animatePwmTransition_complete st t :
  SC._totalTransitionTime st <= t ->
  SC.animatePwmTransition st t
    = Ok (SC.set_pwmTransitionInProgress st false, [AnalogOut (SC._targetState st)]).
Proof.
  intros H. unfold SC.animatePwmTransition. apply Z.leb_le in H. now rewrite H.
Qed.

Lemma doControl_never_divides_by_zero interval fuel cls st e :
  SC.doControl interval fuel cls st e <> Crash DivisionByZero.
Proof.
  unfold SC.doControl.
  destruct (SC._maxStateIndex cls <=? SC._currentStateIndex st); [discriminate|].
  destruct (SC.whileLoop _ _ _ _ _) as [[[index' time'] duration']|f] eqn:Hloop.
  - cbn [bind].
    assert (Htime : 0 <= time').
    { apply (whileLoop_time_range _ _ _ _ _ _ _ _ (wrap32_range _)) in Hloop.
      apply Hloop. }
    destruct (SC._maxStateIndex cls <=? index'); [discriminate|].
    set (st1 := SC.set_position st index' time').
    destruct (activate_spec cls st1 index') as (_ & A2 & _).
    assert (Hstep : exists st2 tr2,
      (if negb (SC._currentStateIndex st =? index')
       then SC.activate cls st1 index' else (st1, [])) = (st2, tr2) /\
      SC._timeSpentOnCurrentState st2 = time').
    { destruct (negb _).
      - exists (fst (SC.activate cls st1 index')), (snd (SC.activate cls st1 index')).
        split; [now destruct (SC.activate cls st1 index')|exact A2].
      - exists st1, []. auto. }
    destruct Hstep as (st2 & tr2 & -> & S2).
    destruct (SC._pwmTransitionInProgress st2); [|discriminate].
    destruct (animatePwmTransition_ok st2 (SC._timeSpentOnCurrentState st2))
      as (st3 & tr3 & -> & _); [lia | discriminate].
  - cbn [bind]. intros [= ->]. apply whileLoop_fault in Hloop. discriminate.
Qed.

(** C10: a tick of a fade returns and never divides by zero, for it takes
    the quotient only when the time is below the length of the fade, which
    is then positive; a fade started with length 0 completes on its first
    tick, which writes the target itself and clears the flag; and no call
    of [doControl] ends in a division by zero. *)
Theorem zero_length_fade_never_divides
    interval fuel cls st e t initial target :
  is_uint32 t ->
  (exists st' tr, SC.animatePwmTransition st t = Ok (st', tr)) /\
  (t < SC._totalTransitionTime st ->
   0 < SC._totalTransitionTime st /\
   divide (F32.of_uint32 t) (SC._totalTransitionTime st)
     = Ok (F32.div (F32.of_uint32 t) (F32.of_uint32 (SC._totalTransitionTime st)))) /\
  SC.animatePwmTransition (fst (SC.startPwmTransition st 0 initial target)) t
    = Ok (SC.set_pwmTransitionInProgress
            (fst (SC.startPwmTransition st 0 initial target)) false,
          [AnalogOut target]) /\
  SC.doControl interval fuel cls st e <> Crash DivisionByZero.
Proof.
  intros [Ht0 Ht1]. split; [|split; [|split]].
  - destruct (animatePwmTransition_ok st t Ht0) as (st' & tr & H & _). eauto.
  - intros Hlt. split; [lia|]. unfold divide.
    destruct (SC._totalTransitionTime st =? 0) eqn:Hz; [|reflexivity].
    apply Z.eqb_eq in Hz. lia.
  - now rewrite animatePwmTransition_complete by (simpl; lia).
  - apply doControl_never_divides_by_zero.
Qed.

Lemma zero_length_fade_witness :
  is_uint32 0 /\
  SC.animatePwmTransition
    (fst (SC.startPwmTransition SC.construct 0 allLedsOff allLedsOn)) 0
    = Ok (SC.set_pwmTransitionInProgress
            (fst (SC.startPwmTransition SC.construct 0 allLedsOff allLedsOn)) false,
          [AnalogOut allLedsOn]).
Proof.
  assert (H : is_uint32 0) by (unfold is_uint32, UINT32_MOD; lia).
  split; [exact H|].
  apply (zero_length_fade_never_divides MAIN_PWM_ANIMATION_INTERVAL 0
           (FlowingThreeLedsController.class 100) SC.construct 0 0
           allLedsOff allLedsOn H).
Defined.

(** ** C6: activation callbacks *)

(** C6, as the claim states it, fails for the states that a call crosses:
    from the first state of the slow two-LED animation (ten states of 1000
    each) a call with 2500 elapsed goes through state 1 to state 2, and the
    only callback that runs is that of state 2. *)
Lemma crossed_state_is_not_activated :
  SC.doControl MAIN_PWM_ANIMATION_INTERVAL 16 (TwoLedCombinationsController.class 1000)
    (fst (SC.reset (TwoLedCombinationsController.class 1000) SC.construct)) 2500
  = Ok (SC.set_position SC.construct 2 500, unfinishedWorkState 500,
        [Activation 2; DigitalOut true false false false true]).
Proof. vm_compute. reflexivity. Qed.

(** C6 (amended): a call of [doControl] returns, and it runs at most one
    activation callback: none when the machine is done or the state index
    is the one it had before the call, and otherwise exactly one, that of
    the state on which the call ends; the states crossed on the way get
    none. *)
Theorem activation_only_for_final_state interval cls st e fuel :
  wf_class cls -> wf_state st ->
  (Z.to_nat (SC._maxStateIndex cls) <= fuel)%nat ->
  exists st' result tr,
    SC.doControl interval fuel cls st e = Ok (st', result, tr) /\
    activations tr
      = if finished result || (SC._currentStateIndex st =? SC._currentStateIndex st')
        then [] else [Activation (SC._currentStateIndex st')].
Proof.
  intros Hc Hs Hfuel.
  destruct (Z_lt_le_dec (SC._currentStateIndex st) (SC._maxStateIndex cls)) as [Hlt | Hge].
  - destruct (doControl_running interval cls st e fuel Hc Hs Hlt)
      as (st' & result & tr & Heq & _ & _ & _ & Hf & _ & Ha).
    { destruct Hs as [Hi _]. unfold is_uint8 in Hi. lia. }
    exists st', result, tr. split; [exact Heq|]. now rewrite Hf.
  - exists st, (finishedWorkState e), []. split; [now apply doControl_done|].
    reflexivity.
Qed.

Lemma wf_class_TwoLedCombinations d :
  is_uint32 d -> wf_class (TwoLedCombinationsController.class d).
Proof. intros H. split; [simpl; unfold UINT8_MOD; lia | intros i; exact H]. Qed.

Lemma wf_class_FlowingThreeLeds d :
  is_uint32 d -> wf_class (FlowingThreeLedsController.class d).
Proof. intros H. split; [simpl; unfold UINT8_MOD; lia | intros i; exact H]. Qed.

Lemma is_uint32_literal z :
  (0 <=? z) && (z <? UINT32_MOD) = true -> is_uint32 z.
Proof.
  intros H. apply andb_prop in H as [H1 H2].
  apply Z.leb_le in H1. apply Z.ltb_lt in H2. split; assumption.
Qed.

Lemma wf_state_reset cls st : wf_state (fst (SC.reset cls st)).
Proof.
  destruct (reset_position cls st) as (H1 & H2).
  unfold wf_state. rewrite H1, H2.
  unfold is_uint8, is_uint32, UINT8_MOD, UINT32_MOD. lia.
Qed.

Lemma activation_witness :
  exists st' result tr,
    SC.doControl MAIN_PWM_ANIMATION_INTERVAL 16 (TwoLedCombinationsController.class 1000)
      (fst (SC.reset (TwoLedCombinationsController.class 1000) SC.construct)) 2500
      = Ok (st', result, tr) /\
    activations tr
      = if finished result
           || (SC._currentStateIndex
                 (fst (SC.reset (TwoLedCombinationsController.class 1000) SC.construct))
               =? SC._currentStateIndex st')
        then [] else [Activation (SC._currentStateIndex st')].
Proof.
  apply (activation_only_for_final_state MAIN_PWM_ANIMATION_INTERVAL
           (TwoLedCombinationsController.class 1000)
           (fst (SC.reset (TwoLedCombinationsController.class 1000) SC.construct))
           2500 16).
  - apply wf_class_TwoLedCombinations, is_uint32_literal. reflexivity.
  - apply wf_state_reset.
  - simpl. lia.
Defined.

(** The scenario of a machine of two states of 100 and 50: the callback
    of state 0 runs at [reset], that of state 1 once, when the second call
    crosses 100, and the third call is done with 10 left over. *)
Example two_state_scenario :
  activations (snd (SC.reset (AllInOneFadeController.class 100 0 50 0) SC.construct))
    = [Activation 0] /\
  exists st tr,
    Run.stateful SECOND_PWM_ANIMATION_INTERVAL 16
      (AllInOneFadeController.class 100 0 50 0)
      (fst (SC.reset (AllInOneFadeController.class 100 0 50 0) SC.construct))
      [0; 120; 40]
    = Ok (st, [unfinishedWorkState 15; unfinishedWorkState 15; finishedWorkState 10], tr) /\
    activations tr = [Activation 1].
Proof.
  split; [reflexivity|]. eexists _, _. split; [vm_compute; reflexivity | reflexivity].
Qed.

(** ** C8: the ends of a fade *)

(** *** Subtraction of normalized intensities does not overflow *)

Lemma digits2_pos_size p : digits2_pos p = Pos.size p.
Proof. induction p; simpl; congruence. Qed.

Lemma Zdigits2_bounds m :
  0 < m -> 2 ^ (Zdigits2 m - 1) <= m < 2 ^ Zdigits2 m.
Proof.
  destruct m as [|p|p]; try lia. intros _. simpl Zdigits2.
  rewrite digits2_pos_size.
  pose proof (Pos.size_gt p) as Hgt. pose proof (Pos.size_le p) as Hle.
  apply Pos2Z.pos_lt_pos in Hgt. apply Pos2Z.pos_le_pos in Hle.
  rewrite Pos2Z.inj_pow in Hgt, Hle.
  split; [|exact Hgt].
  replace (2 ^ Z.pos (Pos.size p)) with (2 * 2 ^ (Z.pos (Pos.size p) - 1)) in Hle.
  - lia.
  - rewrite <- Z.pow_succ_r by lia. f_equal. lia.
Qed.

Lemma Zdigits2_nonneg m : 0 <= Zdigits2 m.
Proof. destruct m; simpl; lia. Qed.

Lemma Zdigits2_le m k : 0 <= m < 2 ^ k -> 0 <= k -> Zdigits2 m <= k.
Proof.
  intros [H0 Hlt] Hk. destruct (Z.eq_dec m 0) as [-> | Hne]; [simpl; lia|].
  pose proof (Zdigits2_bounds m ltac:(lia)) as [Hlo _].
  destruct (Z_le_gt_dec (Zdigits2 m) k) as [H | H]; [exact H | exfalso].
  assert (2 ^ k <= 2 ^ (Zdigits2 m - 1)) by (apply Z.pow_le_mono_r; lia).
  lia.
Qed.

Lemma Zdigits2_succ m : 0 <= m -> Zdigits2 (m + 1) <= Zdigits2 m + 1.
Proof.
  intros H0. pose proof (Zdigits2_nonneg m).
  destruct (Z.eq_dec m 0) as [-> | Hne]; [simpl; lia|].
  pose proof (Zdigits2_bounds m ltac:(lia)) as [_ Hhi].
  apply Zdigits2_le; [|lia].
  replace (Zdigits2 m + 1) with (Z.succ (Zdigits2 m)) by lia.
  rewrite Z.pow_succ_r by lia. lia.
Qed.

Lemma Zdigits2_mono m n : 0 <= m <= n -> Zdigits2 m <= Zdigits2 n.
Proof.
  intros [H0 Hle]. pose proof (Zdigits2_nonneg n).
  destruct (Z.eq_dec n 0) as [-> | Hne]; [replace m with 0 by lia; lia|].
  pose proof (Zdigits2_bounds n ltac:(lia)) as [_ Hhi].
  apply Zdigits2_le; lia.
Qed.

Lemma shr_1_range mrs :
  0 <= shr_m mrs -> 0 <= shr_m (shr_1 mrs) <= shr_m mrs.
Proof.
  destruct mrs as [m r s]. simpl.
  destruct m as [|[p|p|]|[p|p|]]; simpl; lia.
Qed.

Lemma iter_shr_1_range p : forall mrs,
  0 <= shr_m mrs -> 0 <= shr_m (iter_pos shr_1 p mrs) <= shr_m mrs.
Proof.
  induction p as [p IH | p IH |]; intros mrs H; simpl.
  - pose proof (shr_1_range mrs H) as H1.
    pose proof (IH (shr_1 mrs) ltac:(lia)) as H2.
    pose proof (IH (iter_pos shr_1 p (shr_1 mrs)) ltac:(lia)) as H3. lia.
  - pose proof (IH mrs H) as H2.
    pose proof (IH (iter_pos shr_1 p mrs) ltac:(lia)) as H3. lia.
  - now apply shr_1_range.
Qed.

Lemma shr_fexp_range m e l mrs e' :
  0 <= m ->
  shr_fexp F32.prec F32.emax m e l = (mrs, e') ->
  0 <= shr_m mrs <= m /\
  e' = Z.max e (fexp F32.prec F32.emax (Zdigits2 m + e)).
Proof.
  intros H0. unfold shr_fexp, shr.
  assert (Hm : shr_m (shr_record_of_loc m l) = m) by (destruct l as [|[]]; reflexivity).
  destruct (fexp F32.prec F32.emax (Zdigits2 m + e) - e) as [|p|p] eqn:Hn;
    intros [= <- <-].
  - rewrite Hm. lia.
  - pose proof (iter_shr_1_range p (shr_record_of_loc m l) ltac:(lia)). lia.
  - rewrite Hm. lia.
Qed.

Lemma round_nearest_even_range m l :
  m <= round_nearest_even m l <= m + 1.
Proof.
  unfold round_nearest_even. destruct l as [|[]]; try lia.
  destruct (Z.even m); lia.
Qed.

Lemma binary_round_aux_number s m e l :
  0 <= m -> e <= 104 ->
  Zdigits2 m + 1 + Z.max e (fexp F32.prec F32.emax (Zdigits2 m + e)) <= 128 ->
  F32.is_number (binary_round_aux F32.prec F32.emax s m e l) = true.
Proof.
  intros H0 He Hd. unfold binary_round_aux.
  destruct (shr_fexp F32.prec F32.emax m e l) as [mrs1 e1] eqn:H1.
  destruct (shr_fexp_range _ _ _ _ _ H0 H1) as [Hm1 He1].
  pose proof (round_nearest_even_range (shr_m mrs1) (loc_of_shr_record mrs1)) as Hr.
  set (m2 := round_nearest_even (shr_m mrs1) (loc_of_shr_record mrs1)) in *.
  destruct (shr_fexp F32.prec F32.emax m2 e1 loc_Exact) as [mrs2 e2] eqn:H2.
  assert (H0' : 0 <= m2) by lia.
  destruct (shr_fexp_range _ _ _ _ _ H0' H2) as [Hm2 He2].
  assert (Hdig : Zdigits2 m2 <= Zdigits2 m + 1).
  { transitivity (Zdigits2 (m + 1)); [apply Zdigits2_mono; lia | now apply Zdigits2_succ]. }
  destruct (shr_m mrs2) as [|p|p]; [reflexivity | | lia].
  replace (e2 <=? F32.emax - F32.prec) with true; [reflexivity|].
  symmetry. apply Z.leb_le.
  unfold fexp, emin, F32.prec, F32.emax in *. lia.
Qed.


Lemma iter_xO_value k : forall m, Zpos (Pos.iter xO m k) = Zpos m * 2 ^ Zpos k.
Proof.
  induction k as [|k IH] using Pos.peano_ind; intros m.
  - simpl. lia.
  - rewrite Pos.iter_succ, Pos2Z.inj_xO, IH, Pos2Z.inj_succ, Z.pow_succ_r by lia. lia.
Qed.

Lemma shl_align_spec mx ex ex' mz ez :
  shl_align mx ex ex' = (mz, ez) ->
  ez = Z.min ex ex' /\ Zpos mz = Zpos mx * 2 ^ (ex - ez).
Proof.
  unfold shl_align. destruct (ex' - ex) as [|d|d] eqn:Hd; intros [= <- <-].
  - split; [lia|]. rewrite Z.sub_diag. simpl. lia.
  - split; [lia|]. rewrite Z.sub_diag. simpl. lia.
  - split; [lia|]. rewrite iter_xO_value. f_equal. f_equal. lia.
Qed.

Lemma unit_mantissa m e :
  F32.in_unit_interval (S754_finite false m e) = true ->
  -149 <= e <= -23 /\
  forall ez, ez <= e -> Zpos m * 2 ^ (e - ez) <= 2 ^ (- ez).
Proof.
  unfold F32.in_unit_interval, F32.leb. intros H.
  apply andb_prop in H as [H Hle]. apply andb_prop in H as [Hvalid _].
  simpl in Hvalid. unfold bounded, canonical_mantissa in Hvalid.
  apply andb_prop in Hvalid as [Hcanon _]. apply Z.eqb_eq in Hcanon.
  pose proof (Zdigits2_bounds (Zpos m) ltac:(lia)) as [_ Hm]. simpl Zdigits2 in Hm.
  unfold fexp, emin, F32.prec, F32.emax in Hcanon.
  unfold SFleb, SFcompare, F32.one in Hle.
  assert (Hk : exists k, 0 <= k /\ Zpos m <= 2 ^ k /\ k + e <= 0 /\ -149 <= e <= -23).
  { destruct (e ?= -23) eqn:Hcmp.
    - apply Z.compare_eq in Hcmp. subst e. exists 23. conj; try lia.
      change (Pos.compare_cont Eq m 8388608) with (Pos.compare m 8388608) in Hle.
      change (2 ^ 23) with 8388608.
      destruct (Pos.compare m 8388608) eqn:Hc; try discriminate.
      + apply Pos.compare_eq in Hc. subst. lia.
      + apply Pos.compare_lt_iff in Hc. apply Pos2Z.pos_lt_pos in Hc. clear - Hc. lia.
    - change (e < -23) in Hcmp. change (IntDef.Z.max ?a ?b) with (Z.max a b) in Hcanon.
      exists 24. conj; try lia.
      change (2 ^ 24) with 16777216.
      assert (2 ^ Z.pos (digits2_pos m) <= 2 ^ 24) by (apply Z.pow_le_mono_r; lia).
      change (2 ^ 24) with 16777216 in *. lia.
    - discriminate. }
  destruct Hk as (k & Hk0 & Hmk & Hke & He). split; [exact He|].
  intros ez Hez.
  assert (0 < 2 ^ (e - ez)) by (apply Z.pow_pos_nonneg; lia).
  transitivity (2 ^ k * 2 ^ (e - ez)); [nia|].
  rewrite <- Z.pow_add_r by lia. apply Z.pow_le_mono_r; lia.
Qed.

Lemma unit_sign s m e :
  F32.in_unit_interval (S754_finite s m e) = true -> s = false.
Proof.
  destruct s; [|reflexivity]. unfold F32.in_unit_interval, F32.leb, SFleb, SFcompare, F32.zero.
  rewrite andb_false_r. discriminate.
Qed.

Lemma in_unit_number x : F32.in_unit_interval x = true -> F32.is_number x = true.
Proof.
  unfold F32.in_unit_interval, F32.leb, SFleb, SFcompare, F32.zero, F32.one.
  destruct x as [s|[|]| |s m e]; try reflexivity;
    rewrite ?andb_false_r; discriminate.
Qed.

Lemma sub_unit_number a b :
  F32.in_unit_interval a = true -> F32.in_unit_interval b = true ->
  F32.is_number (F32.sub b a) = true.
Proof.
  intros Ha Hb.
  pose proof (in_unit_number a Ha) as Na. pose proof (in_unit_number b Hb) as Nb.
  destruct a as [sa|sa| |sa ma ea]; try discriminate;
    destruct b as [sb|sb| |sb mb eb]; try discriminate.
  - destruct sa, sb; reflexivity.
  - reflexivity.
  - reflexivity.
  - assert (sa = false) as -> by (now apply (unit_sign sa ma ea)).
    assert (sb = false) as -> by (now apply (unit_sign sb mb eb)).
    destruct (unit_mantissa ma ea Ha) as [Hea Hva].
    destruct (unit_mantissa mb eb Hb) as [Heb Hvb].
    unfold F32.sub, SFsub. set (ez := Z.min eb ea).
    destruct (shl_align mb eb ez) as [mb' eb'] eqn:Hsb.
    destruct (shl_align ma ea ez) as [ma' ea'] eqn:Hsa.
    apply shl_align_spec in Hsb as [Heb' Hmb']. apply shl_align_spec in Hsa as [Hea' Hma'].
    assert (Eb : eb' = ez) by lia. assert (Ea : ea' = ez) by lia.
    rewrite Eb in Hmb'. rewrite Ea in Hma'. clear Heb' Hea' Eb Ea.
    specialize (Hva ez ltac:(lia)). specialize (Hvb ez ltac:(lia)).
    cbn [fst cond_Zopp].
    assert (Hd : Z.abs (Z.pos mb' - Z.pos ma') < 2 ^ (- ez)) by lia.
    generalize dependent (Z.pos mb' - Z.pos ma'). intros d Hd.
    assert (Hround : forall s p, Zpos p = Z.abs d ->
      F32.is_number (binary_round F32.prec F32.emax s p ez) = true).
    { intros s p Hp. unfold binary_round.
      destruct (shl_align p ez _) as [mz ez'] eqn:Hal.
      apply shl_align_spec in Hal as [Hez' Hmz].
      assert (Hdp : Zdigits2 (Zpos p) <= - ez) by (apply Zdigits2_le; lia).
      assert (Hdz : Zdigits2 (Zpos mz) <= - ez').
      { apply Zdigits2_le; [|unfold fexp, emin, F32.prec, F32.emax in Hez'; lia].
        split; [lia|]. rewrite Hmz.
        assert (0 < 2 ^ (ez - ez')) by (apply Z.pow_pos_nonneg; lia).
        apply Z.lt_le_trans with (2 ^ (- ez) * 2 ^ (ez - ez')); [nia|].
        rewrite <- Z.pow_add_r by lia. apply Z.pow_le_mono_r; lia. }
      pose proof (Zdigits2_nonneg (Zpos mz)).
      apply binary_round_aux_number; [lia | | ];
        unfold fexp, emin, F32.prec, F32.emax in *; simpl Zdigits2 in *; lia. }
    unfold binary_normalize. destruct d as [|p|p] eqn:Hdp; [reflexivity | |];
      apply Hround; lia.
Qed.

(** *** Interpolation at 0 and at 1 *)

Lemma SFcompare_finite_refl s m e :
  SFcompare (S754_finite s m e) (S754_finite s m e) = Some Eq.
Proof.
  simpl. destruct s; rewrite Z.compare_refl.
  - now rewrite Pos.compare_cont_refl.
  - now rewrite Pos.compare_cont_refl.
Qed.

Lemma eqb_number_refl x : F32.is_number x = true -> F32.eqb x x = true.
Proof.
  destruct x as [s|s| |s m e]; try discriminate; intros _.
  - reflexivity.
  - unfold F32.eqb, SFeqb. now rewrite SFcompare_finite_refl.
Qed.

Lemma intermediateValue_at_zero a b :
  F32.is_number a = true ->
  F32.is_number (F32.sub b a) = true ->
  F32.eqb (intermediateValue a b F32.zero) a = true.
Proof.
  intros Ha Hd. unfold intermediateValue.
  destruct (F32.sub b a) as [s|s| |s m e]; try discriminate.
  - destruct a as [sa|sa| |sa ma ea]; try discriminate.
    + destruct sa, s; reflexivity.
    + cbn. apply (eqb_number_refl (S754_finite sa ma ea)). reflexivity.
  - destruct a as [sa|sa| |sa ma ea]; try discriminate.
    + destruct sa, s; reflexivity.
    + cbn. apply (eqb_number_refl (S754_finite sa ma ea)). reflexivity.
Qed.

Lemma intermediateValue_at_one a b :
  F32.is_zero_or_one a -> F32.is_zero_or_one b ->
  intermediateValue a b F32.one = b.
Proof. intros [-> | ->] [-> | ->]; vm_compute; reflexivity. Qed.

(** C8, as the claim states it, fails at [t = 1]: with every channel of the
    initial snapshot at [1.0] and every channel of the target at [2^-30],
    [target - initial] rounds to [-1.0] and the interpolation gives [0.0],
    which is not the target. *)
Lemma interpolation_at_one_misses_target :
  intermediateState allLedsOn dimSnapshot F32.one = allLedsOff /\
  snapshot_eqb (intermediateState allLedsOn dimSnapshot F32.one) dimSnapshot = false.
Proof. split; vm_compute; reflexivity. Qed.

(** C8 (amended): [interpolate(A, B, 0) == A] for all snapshots whose
    channels lie between 0 and 1; [interpolate(A, B, 1)] is [B] for
    snapshots whose channels are [0.0] or [1.0], as all those of the sketch
    are, and not for all snapshots between 0 and 1; and a tick of a fade at
    a time that has reached the length of the fade writes the stored target
    itself and clears the flag, also when it is the tick of a call of
    [doControl] that stays on the state. *)
Theorem fade_boundaries interval fuel cls st e t (A B : AnalogLedsState) :
  (snapshot_in_unit A -> snapshot_in_unit B ->
   snapshot_eqb (intermediateState A B F32.zero) A = true) /\
  (snapshot_zero_or_one A -> snapshot_zero_or_one B ->
   intermediateState A B F32.one = B) /\
  (SC._totalTransitionTime st <= t ->
   SC.animatePwmTransition st t
     = Ok (SC.set_pwmTransitionInProgress st false, [AnalogOut (SC._targetState st)])) /\
  (wf_class cls -> wf_state st -> is_uint32 e ->
   SC._currentStateIndex st < SC._maxStateIndex cls ->
   SC._pwmTransitionInProgress st = true ->
   SC._timeSpentOnCurrentState st + e
     < SC.getStateDuration cls (SC._currentStateIndex st) ->
   SC._totalTransitionTime st <= SC._timeSpentOnCurrentState st + e ->
   SC.doControl interval fuel cls st e
     = Ok (SC.set_pwmTransitionInProgress
             (SC.set_position st (SC._currentStateIndex st)
                (SC._timeSpentOnCurrentState st + e)) false,
           unfinishedWorkState interval,
           [AnalogOut (SC._targetState st)])).
Proof.
  split; [|split; [|split]].
  - intros (N1 & N2 & N3 & N4 & N5) (D1 & D2 & D3 & D4 & D5).
    unfold snapshot_eqb, intermediateState.
    change (constrain F32.zero F32.zero F32.one) with F32.zero.
    cbn [red amber green blue white].
    now rewrite !intermediateValue_at_zero
      by first [ apply sub_unit_number; assumption
               | apply in_unit_number; assumption ].
  - intros (N1 & N2 & N3 & N4 & N5) (D1 & D2 & D3 & D4 & D5).
    unfold intermediateState.
    change (constrain F32.one F32.zero F32.one) with F32.one.
    rewrite !intermediateValue_at_one by assumption. now destruct B.
  - apply animatePwmTransition_complete.
  - intros Hc [Hi Ht] He Hlt Hflag Hstay Hfade. pose proof Hc as [Hmax Hd].
    unfold SC.doControl.
    replace (SC._maxStateIndex cls <=? SC._currentStateIndex st) with false
      by (symmetry; apply Z.leb_gt; lia).
    specialize (Hd (SC._currentStateIndex st)).
    unfold is_uint32 in *.
    rewrite wrap32_small by (unfold is_uint32; lia).
    rewrite whileLoop_eq.
    replace (SC.getStateDuration cls (SC._currentStateIndex st)
             <=? SC._timeSpentOnCurrentState st + e) with false
      by (symmetry; apply Z.leb_gt; lia).
    cbn [andb bind].
    replace (SC._maxStateIndex cls <=? SC._currentStateIndex st) with false
      by (symmetry; apply Z.leb_gt; lia).
    rewrite Z.eqb_refl. cbn [negb].
    cbn [SC._pwmTransitionInProgress SC.set_position]. rewrite Hflag.
    rewrite animatePwmTransition_complete by (simpl; lia).
    reflexivity.
Qed.

Lemma fade_boundaries_witness :
  snapshot_eqb (intermediateState allLedsOn dimSnapshot F32.zero) allLedsOn = true /\
  intermediateState allLedsOff allLedsOn F32.one = allLedsOn /\
  SC.animatePwmTransition
    (fst (SC.startPwmTransition SC.construct 150 allLedsOff allLedsOn)) 150
    = Ok (SC.set_pwmTransitionInProgress
            (fst (SC.startPwmTransition SC.construct 150 allLedsOff allLedsOn)) false,
          [AnalogOut allLedsOn]).
Proof.
  pose proof (fade_boundaries MAIN_PWM_ANIMATION_INTERVAL 0
                (FlowingThreeLedsController.class 100)
                (fst (SC.startPwmTransition SC.construct 150 allLedsOff allLedsOn))
                0 150 allLedsOn dimSnapshot) as (H0 & _ & H2 & _).
  pose proof (fade_boundaries MAIN_PWM_ANIMATION_INTERVAL 0
                (FlowingThreeLedsController.class 100) SC.construct
                0 0 allLedsOff allLedsOn) as (_ & H1 & _).
  split; [|split].
  - apply H0; repeat split; vm_compute; reflexivity.
  - apply H1; repeat split; solve [left; reflexivity | right; reflexivity].
  - apply H2. simpl. lia.
Defined.

(** ** C2 and C3: the accounting of time *)

Lemma consumedTime_reset cls st :
  wf_class cls -> consumedTime cls (fst (SC.reset cls st)) = 0.
Proof.
  intros _. unfold consumedTime.
  destruct (reset_position cls st) as (-> & ->).
  reflexivity.
Qed.

(** A machine whose time in state is the time at which its position
    lands: so it is after [reset] and after every call. *)
Lemma reset_landed cls st :
  wf_class cls ->
  forall index time,
    lands cls (consumedTime cls (fst (SC.reset cls st))) index time ->
    time = SC._timeSpentOnCurrentState (fst (SC.reset cls st)).
Proof.
  intros Hc index time. rewrite consumedTime_reset by exact Hc.
  destruct (reset_position cls st) as (_ & ->).
  intros (Hi & Ht & Hp & _).
  pose proof (durationsBefore_nonneg cls Hc index ltac:(lia)). lia.
Qed.

(** While the time fed stays short of the total no call is done.  The
    machine accounts for the time fed less [2^32] for every call at which
    its 32-bit time in state overflows: for all of it when, and only when,
    no call overflows, as when the time fed stays below [2^32]. *)
Lemma run_before_total interval cls fuel :
  wf_class cls ->
  (Z.to_nat (SC._maxStateIndex cls) <= fuel)%nat ->
  forall es st,
    wf_state st -> Forall is_uint32 es ->
    (forall index time,
       lands cls (consumedTime cls st) index time ->
       time = SC._timeSpentOnCurrentState st) ->
    consumedTime cls st + sum es < totalDuration cls ->
    exists st' results tr,
      Run.stateful interval fuel cls st es = Ok (st', results, tr) /\
      wf_state st' /\
      Forall (fun r => finished r = false) results /\
      length results = length es /\
      exists wraps,
        0 <= wraps /\
        consumedTime cls st' = consumedTime cls st + sum es - wraps * UINT32_MOD /\
        (consumedTime cls st + sum es < UINT32_MOD -> wraps = 0) /\
        (wraps = 0 <-> no_overflow cls (consumedTime cls st) es).
Proof.
  intros Hc Hfuel. pose proof Hc as [Hmax Hd].
  induction es as [|e es IH]; intros st Hs Hes Hland Hsum.
  - exists st, [], []. simpl. conj; auto. exists 0. conj; try lia; tauto.
  - inversion Hes as [|? ? He Hes']; subst. simpl in Hsum.
    pose proof (sum_nonneg es Hes') as Hnn.
    pose proof Hs as [Hi Ht]. unfold is_uint8, is_uint32 in Hi, Ht, He.
    unfold consumedTime in Hsum.
    assert (Hlt : SC._currentStateIndex st < SC._maxStateIndex cls).
    { destruct (Z_lt_le_dec (SC._currentStateIndex st) (SC._maxStateIndex cls))
        as [H | H]; [exact H | exfalso].
      pose proof (durationsBefore_mono cls Hc (SC._maxStateIndex cls)
                    (SC._currentStateIndex st) ltac:(lia)) as Hm.
      unfold totalDuration in Hsum. lia. }
    pose proof (durationsBefore_nonneg cls Hc (SC._currentStateIndex st) ltac:(lia)) as Hb.
    (* the position of the machine lands somewhere *)
    destruct (whileLoop_lands cls Hc fuel (SC._currentStateIndex st)
                (SC._timeSpentOnCurrentState st) ltac:(lia) (proj2 Hs) ltac:(lia))
      as (index0 & time0 & _ & _ & _ & Hland0).
    fold (consumedTime cls st) in Hland0.
    pose proof (Hland index0 time0 Hland0) as Htime0.
    destruct (doControl_running interval cls st e fuel Hc Hs Hlt ltac:(lia))
      as (st1 & result & tr1 & Heq & Hs1 & _ & Hl & Hf & _ & _).
    (* the addition of the elapsed time, modulo 2^32 *)
    remember (SC._timeSpentOnCurrentState st + e) as x eqn:Hx.
    remember (x / UINT32_MOD) as k eqn:Hkdef.
    assert (Hk : 0 <= k /\ wrap32 x = x - k * UINT32_MOD /\ (x < UINT32_MOD <-> k = 0)).
    { subst k. unfold wrap32, UINT32_MOD.
      pose proof (Z_div_mod_eq_full x 4294967296) as Hdm.
      pose proof (Z.mod_pos_bound x 4294967296 ltac:(lia)) as Hmod.
      conj; [apply Z.div_pos; lia | lia | split].
      - intros Hsmall. apply Z.div_small. lia.
      - intros Hzero. rewrite Hzero in Hdm. lia. }
    destruct Hk as (Hk0 & Hwrap & Hksmall). clear Hkdef.
    pose proof (wrap32_range x) as Hwr. unfold is_uint32 in Hwr.
    assert (Hkm : 0 <= k * UINT32_MOD) by (unfold UINT32_MOD; lia).
    assert (Hpos1 : durationsBefore cls (SC._currentStateIndex st) + wrap32 x
                    = consumedTime cls st1).
    { unfold consumedTime. destruct Hl as (_ & _ & Hp & _). lia. }
    assert (Hc1 : consumedTime cls st1 = consumedTime cls st + e - k * UINT32_MOD).
    { unfold consumedTime in *. lia. }
    pose proof (lands_before_total cls
                  (durationsBefore cls (SC._currentStateIndex st) + wrap32 x)
                  (SC._currentStateIndex st1) (SC._timeSpentOnCurrentState st1) Hl
                  ltac:(lia)) as Hlt1.
    assert (Hland1 : forall index time,
              lands cls (consumedTime cls st1) index time ->
              time = SC._timeSpentOnCurrentState st1).
    { intros index time Hit. rewrite <- Hpos1 in Hit.
      exact (proj2 (lands_unique cls Hc _ _ _ _ _ Hit Hl)). }
    destruct (IH st1 Hs1 Hes' Hland1 ltac:(unfold consumedTime in *; lia))
      as (st' & results & tr & Hrun & Hs' & Hall & Hlen
          & wraps & Hw0 & Hc' & Hwsmall & Hwiff).
    exists st', (result :: results), (tr1 ++ tr).
    simpl. rewrite Heq. cbn [bind]. rewrite Hrun. cbn [bind].
    conj; try exact Hs'; try reflexivity.
    + constructor; [|exact Hall]. rewrite Hf. apply Z.leb_gt. lia.
    + simpl. lia.
    + exists (k + wraps). conj; [lia | lia | |].
      * intros Hsmall.
        assert (k = 0) by (apply Hksmall; unfold consumedTime in *; lia).
        assert (wraps = 0) by (apply Hwsmall; unfold consumedTime in *; lia).
        lia.
      * split.
        -- intros Hzero.
           assert (Ek : k = 0) by lia. assert (Ew : wraps = 0) by lia.
           split.
           ++ intros index time Hit. rewrite (Hland index time Hit).
              apply Hksmall in Ek. lia.
           ++ replace (consumedTime cls st + e) with (consumedTime cls st1) by lia.
              apply Hwiff, Ew.
        -- intros [Hhead Htail].
           pose proof (Hhead index0 time0 Hland0) as Hfits.
           assert (Ek : k = 0) by (apply Hksmall; lia).
           replace (consumedTime cls st + e) with (consumedTime cls st1) in Htail by lia.
           apply Hwiff in Htail. lia.
Qed.


(** C2, as the claim states it, fails where the 32-bit time wraps: the
    two-LED animation with ten states of [2^32 - 1] each, fed
    [2^32 - 2] and then 5, is not done, as claimed, yet it accounts for 3
    and not for the [2^32 + 3] that it was fed. *)
Lemma time_lost_to_wrap_around :
  exists st results tr,
    Run.stateful MAIN_PWM_ANIMATION_INTERVAL 16
      (TwoLedCombinationsController.class 4294967295)
      (fst (SC.reset (TwoLedCombinationsController.class 4294967295) SC.construct))
      [4294967294; 5] = Ok (st, results, tr) /\
    sum [4294967294; 5] = 4294967299 /\
    totalDuration (TwoLedCombinationsController.class 4294967295) = 42949672950 /\
    map finished results = [false; false] /\
    consumedTime (TwoLedCombinationsController.class 4294967295) st = 3.
Proof.
  eexists _, _, _. split; [vm_compute; reflexivity|].
  repeat split; vm_compute; reflexivity.
Qed.

(** C2 (amended): for a machine started from the state that [reset]
    leaves and calls whose elapsed times add up to less than the total of
    its durations, every call returns not done; and when the elapsed times
    add up to less than [2^32], the durations of the completed states plus
    the time in the current state equal the time fed.  The bound can only
    be relaxed to what it is for: the machine accounts for the time fed
    exactly when no call overflows its 32-bit time in state; when a call
    does, it accounts for less, by a multiple of [2^32]. *)
Theorem conservation_of_time interval cls st0 es fuel :
  wf_class cls ->
  Forall is_uint32 es ->
  sum es < totalDuration cls ->
  (Z.to_nat (SC._maxStateIndex cls) <= fuel)%nat ->
  exists st' results tr,
    Run.stateful interval fuel cls (fst (SC.reset cls st0)) es = Ok (st', results, tr) /\
    Forall (fun r => finished r = false) results /\
    length results = length es /\
    (sum es < UINT32_MOD -> consumedTime cls st' = sum es) /\
    (consumedTime cls st' = sum es <-> no_overflow cls 0 es) /\
    0 <= consumedTime cls st' <= sum es /\
    (sum es - consumedTime cls st') mod UINT32_MOD = 0.
Proof.
  intros Hc Hes Hsum Hfuel.
  destruct (run_before_total interval cls fuel Hc Hfuel es (fst (SC.reset cls st0)))
    as (st' & results & tr & Hrun & Hs' & Hall & Hlen
        & wraps & Hw0 & Hcons & Hsmall & Hiff).
  - apply wf_state_reset.
  - exact Hes.
  - apply reset_landed, Hc.
  - rewrite consumedTime_reset by exact Hc. lia.
  - rewrite consumedTime_reset in Hcons, Hsmall, Hiff by exact Hc.
    assert (Hnn : 0 <= consumedTime cls st').
    { unfold consumedTime. destruct Hs' as [Hi Ht]. unfold is_uint8, is_uint32 in Hi, Ht.
      pose proof (durationsBefore_nonneg cls Hc (SC._currentStateIndex st') ltac:(lia)).
      lia. }
    assert (Hwm : 0 <= wraps * UINT32_MOD) by (unfold UINT32_MOD; lia).
    assert (Hexact : consumedTime cls st' = sum es <-> wraps = 0)
      by (unfold UINT32_MOD in *; lia).
    exists st', results, tr.
    conj; [exact Hrun | exact Hall | exact Hlen | | | lia | lia |].
    + intros H32. apply Hexact, Hsmall. lia.
    + rewrite Hexact. exact Hiff.
    + replace (sum es - consumedTime cls st') with (wraps * UINT32_MOD) by lia.
      apply Z_mod_mult.
Qed.

Lemma Forall_uint32_literals l :
  forallb (fun z => (0 <=? z) && (z <? UINT32_MOD)) l = true -> Forall is_uint32 l.
Proof.
  intros H. apply Forall_forall. intros x Hx.
  rewrite forallb_forall in H. now apply is_uint32_literal, H.
Qed.

Lemma conservation_of_time_witness :
  exists st' results tr,
    Run.stateful MAIN_PWM_ANIMATION_INTERVAL 16
      (TwoLedCombinationsController.class 4294967295)
      (fst (SC.reset (TwoLedCombinationsController.class 4294967295) SC.construct))
      [0; 1000; 2000; 4294960000] = Ok (st', results, tr) /\
    Forall (fun r => finished r = false) results /\
    length results = length [0; 1000; 2000; 4294960000] /\
    consumedTime (TwoLedCombinationsController.class 4294967295) st'
    = sum [0; 1000; 2000; 4294960000] /\
    no_overflow (TwoLedCombinationsController.class 4294967295) 0
      [0; 1000; 2000; 4294960000].
Proof.
  destruct (conservation_of_time MAIN_PWM_ANIMATION_INTERVAL
              (TwoLedCombinationsController.class 4294967295) SC.construct
              [0; 1000; 2000; 4294960000] 16)
    as (st' & results & tr & Hrun & Hall & Hlen & Hsmall & Hiff & _).
  - apply wf_class_TwoLedCombinations, is_uint32_literal. reflexivity.
  - apply Forall_uint32_literals. reflexivity.
  - vm_compute. reflexivity.
  - simpl. lia.
  - exists st', results, tr.
    conj; [exact Hrun | exact Hall | exact Hlen | |].
    + apply Hsmall. vm_compute. reflexivity.
    + apply Hiff, Hsmall. vm_compute. reflexivity.
Defined.




(** ** More fuel changes nothing *)

Lemma whileLoop_mono cls : forall f f' index time duration r,
  (f <= f')%nat ->
  SC.whileLoop f cls index time duration = Ok r ->
  SC.whileLoop f' cls index time duration = Ok r.
Proof.
  induction f as [|f IH]; intros f' index time duration r Hle;
    rewrite (whileLoop_eq _ cls index time duration),
            (whileLoop_eq f' cls index time duration);
    destruct (_ && _); try discriminate; try (intros H; exact H).
  destruct f' as [|f']; [lia|]. apply IH. lia.
Qed.

Lemma stateful_doControl_mono interval cls st e f f' r :
  (f <= f')%nat ->
  SC.doControl interval f cls st e = Ok r ->
  SC.doControl interval f' cls st e = Ok r.
Proof.
  intros Hle. unfold SC.doControl.
  destruct (SC._maxStateIndex cls <=? SC._currentStateIndex st); [auto|].
  destruct (SC.whileLoop f cls _ _ _) as [x|] eqn:Hloop; [|discriminate].
  now rewrite (whileLoop_mono cls f f' _ _ _ x Hle Hloop).
Qed.

Lemma doControl_S interval f c e :
  doControl interval (S f) c e =
  match c with
  | Stateful cls st =>
      '(st', result, tr) <- SC.doControl interval f cls st e ;;
      Ok (Stateful cls st', result, tr)
  | Looping inner maxLoopCount currentLoopCount =>
      if maxLoopCount <=? currentLoopCount then Ok (c, finishedWorkState e, [])
      else
        '(inner1, innerResult, tr1) <- doControl interval f inner e ;;
        if negb (finished innerResult) then
          Ok (Looping inner1 maxLoopCount currentLoopCount, innerResult, tr1)
        else
          if maxLoopCount <=? wrap32 (currentLoopCount + 1) then
            Ok (Looping inner1 maxLoopCount (wrap32 (currentLoopCount + 1)),
                innerResult, tr1)
          else
            let (inner2, tr2) := reset inner1 in
            '(c', result, tr3) <-
              doControl interval f
                (Looping inner2 maxLoopCount (wrap32 (currentLoopCount + 1)))
                (remainingTime innerResult) ;;
            Ok (c', result, tr1 ++ tr2 ++ tr3)
  end.
Proof. reflexivity. Qed.

Lemma doControl_mono interval : forall f f' c e r,
  (f <= f')%nat ->
  doControl interval f c e = Ok r -> doControl interval f' c e = Ok r.
Proof.
  induction f as [|f IH]; intros f' c e r Hle H; [discriminate|].
  destruct f' as [|f']; [lia|]. assert (Hle' : (f <= f')%nat) by lia.
  rewrite doControl_S in *. destruct c as [cls st | inner M k].
  - destruct (SC.doControl interval f cls st e) as [x|] eqn:Hd; [|discriminate].
    now rewrite (stateful_doControl_mono _ _ _ _ _ _ _ Hle' Hd).
  - destruct (M <=? k); [exact H|].
    destruct (doControl interval f inner e) as [[[i1 r1] t1]|] eqn:Hd; [|discriminate].
    rewrite (IH f' inner e _ Hle' Hd). cbn [bind] in *.
    destruct (negb (finished r1)); [exact H|].
    destruct (M <=? wrap32 (k + 1)); [exact H|].
    destruct (reset i1) as [i2 t2].
    destruct (doControl interval f (Looping i2 M (wrap32 (k + 1))) (remainingTime r1))
      as [x|] eqn:Hd2; [|discriminate].
    now rewrite (IH f' _ _ _ Hle' Hd2).
Qed.

(** ** What [reset] and a call preserve *)

Lemma reset_preserves c :
  skeleton (fst (reset c)) = skeleton c /\
  (wf_controller c -> wf_controller (fst (reset c))) /\
  fresh (fst (reset c)).
Proof.
  induction c as [cls st | inner IH M k]; simpl.
  - pose proof (wf_state_reset cls st) as Hw.
    pose proof (reset_position cls st) as Hf.
    destruct (SC.reset cls st) as [st' tr]. simpl in *.
    conj; [reflexivity | intros [Hc _]; now split | apply Hf | apply Hf].
  - destruct (reset inner) as [inner' tr]. simpl in *.
    destruct IH as (Hs & Hw & Hf).
    conj; [now rewrite Hs | | exact Hf | reflexivity].
    intros (Hi & HM & Hk).
    conj; [now apply Hw | exact HM | unfold is_uint32, UINT32_MOD; lia].
Qed.

(** One call of a machine returns, whatever its state. *)
Lemma stateful_doControl_total interval cls st e fuel :
  wf_class cls -> wf_state st -> is_uint32 e ->
  (Z.to_nat (SC._maxStateIndex cls) <= fuel)%nat ->
  exists st' result tr,
    SC.doControl interval fuel cls st e = Ok (st', result, tr) /\
    wf_state st' /\ is_uint32 (remainingTime result).
Proof.
  intros Hc Hs He Hfuel.
  destruct (Z_lt_le_dec (SC._currentStateIndex st) (SC._maxStateIndex cls)) as [Hlt | Hge].
  - destruct (doControl_running interval cls st e fuel Hc Hs Hlt)
      as (st' & result & tr & Heq & Hs' & _ & _ & _ & Hr & _).
    { destruct Hs as [Hi _]. unfold is_uint8 in Hi. lia. }
    exists st', result, tr. conj; try assumption; try apply Hs'.
    rewrite Hr. destruct (finished result); [apply Hs'|].
    unfold is_uint32, UINT32_MOD. lia.
  - exists st, (finishedWorkState e), [].
    conj; [now apply doControl_done | exact Hs | exact He].
Qed.

(** One call on a tree returns, whatever the state of its nodes; it keeps
    the tree and the ranges of its counters. *)
Lemma doControl_total interval : forall sk c,
  skeleton c = sk -> wf_controller c ->
  forall e fuel, is_uint32 e -> (enoughFuel sk <= fuel)%nat ->
  exists c' result tr,
    doControl interval fuel c e = Ok (c', result, tr) /\
    skeleton c' = sk /\ wf_controller c' /\ is_uint32 (remainingTime result).
Proof.
  induction sk as [cls | sk IH M]; intros c Hsk Hwf e fuel He Hfuel.
  - destruct c as [cls' st | ? ? ?]; [|discriminate].
    injection Hsk as ->. destruct Hwf as [Hc Hs]. simpl in Hfuel.
    destruct fuel as [|fuel]; [lia|]. rewrite doControl_S.
    destruct (stateful_doControl_total interval cls st e fuel Hc Hs He ltac:(lia))
      as (st' & result & tr & -> & Hs' & Hr).
    cbn [bind]. exists (Stateful cls st'), result, tr.
    conj; try reflexivity; try assumption. now split.
  - destruct c as [? ? | inner M' k]; [discriminate|].
    injection Hsk as Hin ->. destruct Hwf as (Hwi & HM & Hk).
    simpl in Hfuel.
    assert (Hgen : forall n k inner e fuel,
      Z.to_nat (M - k) = n -> skeleton inner = sk -> wf_controller inner ->
      is_uint32 k -> is_uint32 e -> (n + enoughFuel sk + 1 <= fuel)%nat ->
      exists c' result tr,
        doControl interval fuel (Looping inner M k) e = Ok (c', result, tr) /\
        skeleton c' = SkLooping sk M /\ wf_controller c' /\
        is_uint32 (remainingTime result)).
    { clear - IH HM. induction n as [|n IHn];
        intros k inner e fuel Hn Hin Hwi Hk He Hfuel;
        (destruct fuel as [|fuel]; [lia|]); rewrite doControl_S.
      - replace (M <=? k) with true by (symmetry; apply Z.leb_le; lia).
        exists (Looping inner M k), (finishedWorkState e), [].
        split; [reflexivity|]. simpl. rewrite Hin. auto.
      - replace (M <=? k) with false by (symmetry; apply Z.leb_gt; lia).
        destruct (IH inner Hin Hwi e fuel He ltac:(lia))
          as (i1 & r1 & t1 & -> & Hs1 & Hw1 & Hr1).
        cbn [bind].
        assert (Hk1 : is_uint32 (k + 1)) by (unfold is_uint32 in *; lia).
        rewrite (wrap32_small (k + 1)) by exact Hk1.
        destruct (finished r1); cbn [negb].
        + destruct (M <=? k + 1) eqn:Hlast.
          * exists (Looping i1 M (k + 1)), r1, t1.
            split; [reflexivity|]. simpl. rewrite Hs1. auto.
          * apply Z.leb_gt in Hlast.
            destruct (reset_preserves i1) as (Hs2 & Hw2 & _).
            destruct (reset i1) as [i2 t2]. simpl in Hs2, Hw2.
            destruct (IHn (k + 1) i2 (remainingTime r1) fuel)
              as (c' & result & tr & -> & Hs' & Hw' & Hr');
              try lia; try assumption.
            { congruence. }
            { now apply Hw2. }
            cbn [bind]. exists c', result, (t1 ++ t2 ++ tr). auto.
        + exists (Looping i1 M k), r1, t1.
          split; [reflexivity|]. simpl. rewrite Hs1. auto. }
    unfold is_uint32 in Hk.
    apply (Hgen (Z.to_nat (M - k))); try assumption; try reflexivity; lia.
Qed.

(** ** C7: every call returns *)

(** C7: one call of [doControl] returns, on a machine in any state and
    with any durations, zero or not, and on a repeater of any count, zero
    or not, over it: the loop of the machine runs at most once for each
    state, and the repeater calls itself at most once for each
    iteration. *)
Theorem advance_terminates interval cls st maxLoopCount currentLoopCount e fuel :
  wf_class cls -> wf_state st ->
  is_uint32 maxLoopCount -> is_uint32 currentLoopCount -> is_uint32 e ->
  (Z.to_nat maxLoopCount + Z.to_nat (SC._maxStateIndex cls) + 2 <= fuel)%nat ->
  (exists st' result tr,
     SC.doControl interval (Z.to_nat (SC._maxStateIndex cls)) cls st e
       = Ok (st', result, tr)) /\
  (exists c' result tr,
     doControl interval fuel (Looping (Stateful cls st) maxLoopCount currentLoopCount) e
       = Ok (c', result, tr) /\
     skeleton c' = SkLooping (SkStateful cls) maxLoopCount).
Proof.
  intros Hc Hs HM Hk He Hfuel. split.
  - destruct (stateful_doControl_total interval cls st e
                (Z.to_nat (SC._maxStateIndex cls)) Hc Hs He ltac:(lia))
      as (st' & result & tr & Heq & _).
    eauto.
  - destruct (doControl_total interval (SkLooping (SkStateful cls) maxLoopCount)
                (Looping (Stateful cls st) maxLoopCount currentLoopCount)
                eq_refl) with (e := e) (fuel := fuel)
      as (c' & result & tr & Heq & Hsk & _).
    + simpl. auto.
    + exact He.
    + simpl. lia.
    + eauto.
Qed.

Lemma advance_terminates_witness :
  exists c' result tr,
    doControl MAIN_PWM_ANIMATION_INTERVAL 15
      (Looping (Stateful (TwoLedCombinationsController.class 0) SC.construct) 3 0) 5
      = Ok (c', result, tr) /\
    skeleton c' = SkLooping (SkStateful (TwoLedCombinationsController.class 0)) 3.
Proof.
  apply (advance_terminates MAIN_PWM_ANIMATION_INTERVAL
           (TwoLedCombinationsController.class 0) SC.construct 3 0 5 15).
  - apply wf_class_TwoLedCombinations, is_uint32_literal. reflexivity.
  - split; apply is_uint32_literal || (unfold is_uint8, UINT8_MOD; simpl; lia); reflexivity.
  - apply is_uint32_literal. reflexivity.
  - apply is_uint32_literal. reflexivity.
  - apply is_uint32_literal. reflexivity.
  - simpl. lia.
Defined.

(** ** C4: a repeater and the unrolled machine *)

Lemma wf_class_unrolled cls count :
  wf_class cls -> 0 <= count -> count * SC._maxStateIndex cls < UINT8_MOD ->
  wf_class (unrolled cls count).
Proof.
  intros [Hmax Hd] Hc Hlt. split.
  - simpl. split; [apply Z.mul_nonneg_nonneg; lia | exact Hlt].
  - intros i. simpl. apply Hd.
Qed.

Lemma durationsBefore_unrolled cls count :
  wf_class cls -> 1 <= SC._maxStateIndex cls ->
  forall k, 0 <= k ->
  forall i, 0 <= i <= SC._maxStateIndex cls ->
    durationsBefore (unrolled cls count) (k * SC._maxStateIndex cls + i)
    = k * totalDuration cls + durationsBefore cls i.
Proof.
  intros Hc HN. set (N := SC._maxStateIndex cls) in *.
  assert (Hrow : forall k, 0 <= k ->
    durationsBefore (unrolled cls count) (k * N) = k * totalDuration cls ->
    forall i, 0 <= i ->  i <= N ->
      durationsBefore (unrolled cls count) (k * N + i)
      = k * totalDuration cls + durationsBefore cls i).
  { intros k Hk Hbase i Hi. pattern i. apply natlike_ind; [| |exact Hi].
    - intros _. rewrite Z.add_0_r, Hbase, durationsBefore_0. lia.
    - intros x Hx IH Hle.
      replace (k * N + Z.succ x) with ((k * N + x) + 1) by lia.
      replace (Z.succ x) with (x + 1) by lia.
      rewrite !durationsBefore_succ by nia.
      rewrite IH by lia. simpl SC.getStateDuration. fold N.
      replace ((k * N + x) mod N) with x; [lia|].
      rewrite Z.add_comm, Z.mod_add by lia. symmetry. apply Z.mod_small. lia. }
  intros k Hk. pattern k. apply natlike_ind; [| |exact Hk].
  - intros i [Hi Hle]. apply Hrow; try lia. reflexivity.
  - intros x Hx IH i [Hi Hle]. apply Hrow; try lia.
    replace (Z.succ x * N) with (x * N + N) by lia.
    rewrite IH by lia. unfold totalDuration. fold N. lia.
Qed.

Lemma lands_unrolled_inside cls count position k i t :
  wf_class cls -> 1 <= SC._maxStateIndex cls ->
  0 <= k < count -> i < SC._maxStateIndex cls ->
  lands cls position i t ->
  lands (unrolled cls count) (k * totalDuration cls + position)
    (k * SC._maxStateIndex cls + i) t.
Proof.
  intros Hc HN Hk Hi (H1 & H2 & H3 & H4). unfold lands.
  rewrite durationsBefore_unrolled by (try assumption; lia).
  simpl SC._maxStateIndex. simpl SC.getStateDuration.
  set (N := SC._maxStateIndex cls) in *.
  conj; try nia.
  intros _.
  replace ((k * N + i) mod N) with i; [auto|].
  rewrite Z.add_comm, Z.mod_add by lia. symmetry. apply Z.mod_small. lia.
Qed.

Lemma lands_unrolled_end cls count t :
  wf_class cls -> 1 <= SC._maxStateIndex cls -> 0 <= count -> 0 <= t ->
  lands (unrolled cls count) (count * totalDuration cls + t)
    (count * SC._maxStateIndex cls) t.
Proof.
  intros Hc HN Hk Ht. unfold lands.
  replace (count * SC._maxStateIndex cls) with (count * SC._maxStateIndex cls + 0) at 3 by lia.
  rewrite durationsBefore_unrolled by (try assumption; lia).
  rewrite durationsBefore_0. simpl SC._maxStateIndex.
  conj; try nia.
Qed.

(** Where one call of a repeater over a machine leaves it, in the terms of
    the unrolled machine. *)
Lemma looping_lands interval cls count :
  wf_class cls -> 1 <= SC._maxStateIndex cls -> is_uint32 count ->
  forall n k st e fuel,
    Z.to_nat (count - k) = n -> 0 <= k < count ->
    wf_state st -> SC._currentStateIndex st < SC._maxStateIndex cls ->
    (n + Z.to_nat (SC._maxStateIndex cls) + 1 <= fuel)%nat ->
    exists st' k' result tr,
      doControl interval fuel (Looping (Stateful cls st) count k) e
        = Ok (Looping (Stateful cls st') count k', result, tr) /\
      wf_state st' /\
      ((finished result = false /\ remainingTime result = 0 /\
        0 <= k' < count /\
        SC._currentStateIndex st' < SC._maxStateIndex cls /\
        lands (unrolled cls count)
          (k * totalDuration cls
           + (durationsBefore cls (SC._currentStateIndex st)
              + wrap32 (SC._timeSpentOnCurrentState st + e)))
          (k' * SC._maxStateIndex cls + SC._currentStateIndex st')
          (SC._timeSpentOnCurrentState st'))
       \/
       (finished result = true /\ k' = count /\
        lands (unrolled cls count)
          (k * totalDuration cls
           + (durationsBefore cls (SC._currentStateIndex st)
              + wrap32 (SC._timeSpentOnCurrentState st + e)))
          (count * SC._maxStateIndex cls) (remainingTime result))).
Proof.
  intros Hc HN HM.
  induction n as [|n IHn]; intros k st e fuel Hn Hk Hs Hi Hfuel; [lia|].
  destruct fuel as [|fuel]; [lia|]. rewrite doControl_S.
  replace (count <=? k) with false by (symmetry; apply Z.leb_gt; lia).
  destruct fuel as [|fuel']; [lia|]. rewrite doControl_S.
  destruct (doControl_running interval cls st e fuel' Hc Hs Hi)
    as (st1 & r1 & t1 & -> & Hs1 & _ & Hl & Hf & Hr & _).
  { pose proof Hs as [Hidx _]. unfold is_uint8 in Hidx. lia. }
  cbn [bind]. unfold is_uint32 in HM.
  rewrite (wrap32_small (k + 1)) by (unfold is_uint32; lia).
  destruct (SC._maxStateIndex cls <=? SC._currentStateIndex st1) eqn:Hdone; rewrite Hf in *; cbn [negb].
  - (* the machine has run out: an iteration is complete *)
    apply Z.leb_le in Hdone.
    assert (Hend : SC._currentStateIndex st1 = SC._maxStateIndex cls)
      by (destruct Hl as ((? & ?) & _); simpl in *; lia).
    assert (Htime : durationsBefore cls (SC._currentStateIndex st)
                    + wrap32 (SC._timeSpentOnCurrentState st + e)
                    = totalDuration cls + SC._timeSpentOnCurrentState st1).
    { destruct Hl as (_ & _ & Hp & _). rewrite Hend in Hp. unfold totalDuration.
      lia. }
    pose proof Hs1 as [_ Ht1]. unfold is_uint32 in Ht1.
    destruct (count <=? k + 1) eqn:Hlast.
    + apply Z.leb_le in Hlast. assert (k + 1 = count) by lia. subst count.
      exists st1, (k + 1), r1, t1.
      split; [reflexivity|]. split; [exact Hs1|]. right.
      rewrite Hr, Htime. conj; try reflexivity; try assumption.
      replace (k * totalDuration cls
               + (totalDuration cls + SC._timeSpentOnCurrentState st1))
        with ((k + 1) * totalDuration cls + SC._timeSpentOnCurrentState st1) by lia.
      apply lands_unrolled_end; try assumption; lia.
    + apply Z.leb_gt in Hlast.
      change (reset (Stateful cls st1))
        with (let (st', tr) := SC.reset cls st1 in (Stateful cls st', tr)).
      pose proof (wf_state_reset cls st1) as Hs2.
      pose proof (reset_position cls st1) as [Hi2 Ht2].
      destruct (SC.reset cls st1) as [st2 t2]. simpl in Hs2, Hi2, Ht2.
      destruct (IHn (k + 1) st2 (remainingTime r1) (S fuel'))
        as (st' & k' & result & tr & Heq & Hs' & Hcases); try lia; try assumption.
      rewrite Heq. cbn [bind].
      exists st', k', result, (t1 ++ t2 ++ tr).
      split; [reflexivity|]. split; [exact Hs'|].
      rewrite Hi2, Ht2, Hr, durationsBefore_0 in Hcases.
      rewrite (wrap32_small (0 + _)) in Hcases by (unfold is_uint32; lia).
      rewrite Htime.
      replace (k * totalDuration cls
               + (totalDuration cls + SC._timeSpentOnCurrentState st1))
        with ((k + 1) * totalDuration cls
              + (0 + (0 + SC._timeSpentOnCurrentState st1))) by lia.
      destruct Hcases as [(C1 & C2 & C3 & C4 & C5) | (C1 & C2 & C3)].
      * left. conj; try assumption; lia.
      * right. conj; assumption.
  - (* the machine is on one of its states *)
    apply Z.leb_gt in Hdone.
    exists st1, k, r1, t1.
    split; [reflexivity|]. split; [exact Hs1|]. left.
    conj; try assumption; try reflexivity; try lia.
    apply lands_unrolled_inside; try assumption; lia.
Qed.

(** One call on each side keeps the two sides together and gives the same
    outcome. *)
Lemma unrolls_step interval cls count c flat e fuel :
  wf_class cls -> 1 <= SC._maxStateIndex cls -> 0 <= count ->
  count * SC._maxStateIndex cls < UINT8_MOD ->
  unrolls cls count c flat ->
  (512 <= fuel)%nat ->
  exists c' result tr flat' result' tr',
    doControl interval fuel c e = Ok (c', result, tr) /\
    SC.doControl interval fuel (unrolled cls count) flat e = Ok (flat', result', tr') /\
    outcome result = outcome result' /\
    unrolls cls count c' flat'.
Proof.
  intros Hc HN HM Hsmall Hrel Hfuel.
  destruct c as [? ? | [cls' st | ? ? ?] count' k]; try contradiction.
  destruct Hrel as (-> & -> & Hs & Hsf & Hk & Hcases).
  pose proof Hc as [Hmax _]. unfold UINT8_MOD in *.
  assert (HMsmall : count < 256) by nia.
  pose proof (wf_class_unrolled cls count Hc HM Hsmall) as HcU.
  destruct Hcases as [(Hlt & Hi & Hidx & Htime) | (Hge & Hidx)].
  - (* the repeater has iterations left *)
    destruct (looping_lands interval cls count Hc HN
                ltac:(unfold is_uint32, UINT32_MOD; lia)
                (Z.to_nat (count - k)) k st e fuel eq_refl ltac:(lia) Hs Hi ltac:(lia))
      as (st' & k' & result & tr & Heq & Hs' & Hland).
    pose proof Hs as [[Hi0 _] _].
    assert (Hflat : SC._currentStateIndex flat < SC._maxStateIndex (unrolled cls count)).
    { simpl. rewrite Hidx. nia. }
    destruct (doControl_running interval (unrolled cls count) flat e fuel HcU Hsf Hflat)
      as (flat' & result' & tr' & Heq' & Hsf' & _ & Hl' & Hf' & Hr' & _).
    { simpl. nia. }
    rewrite Hidx, Htime in Hl'.
    rewrite durationsBefore_unrolled in Hl' by (try assumption; lia).
    rewrite <- Z.add_assoc in Hl'.
    exists (Looping (Stateful cls st') count k'), result, tr, flat', result', tr'.
    split; [exact Heq|]. split; [exact Heq'|].
    destruct Hland as [(F1 & F2 & F3 & F4 & F5) | (F1 & F2 & F3)].
    + destruct (lands_unique _ HcU _ _ _ _ _ F5 Hl') as [Ei Et].
      assert (Hnot : (SC._maxStateIndex (unrolled cls count)
                      <=? SC._currentStateIndex flat') = false).
      { apply Z.leb_gt. rewrite <- Ei. simpl. nia. }
      rewrite Hnot in Hf'. rewrite Hf' in Hr'.
      split.
      * unfold outcome. now rewrite F1, F2, Hf', Hr'.
      * simpl. conj; try reflexivity; try assumption; try lia.
    + destruct (lands_unique _ HcU _ _ _ _ _ F3 Hl') as [Ei Et].
      assert (Hyes : (SC._maxStateIndex (unrolled cls count)
                      <=? SC._currentStateIndex flat') = true).
      { apply Z.leb_le. rewrite <- Ei. simpl. lia. }
      rewrite Hyes in Hf'. rewrite Hf' in Hr'.
      split.
      * unfold outcome. now rewrite F1, Hf', Hr', Et.
      * simpl. conj; try reflexivity; try assumption; try lia.
  - (* the repeater is done, and so is the unrolled machine *)
    destruct fuel as [|fuel]; [lia|]. rewrite doControl_S.
    replace (count <=? k) with true by (symmetry; apply Z.leb_le; lia).
    rewrite doControl_done by (simpl; lia).
    eexists _, _, _, _, _, _. split; [reflexivity|]. split; [reflexivity|].
    split; [reflexivity|]. simpl. conj; try reflexivity; try assumption.
    right. split; assumption.
Qed.

Lemma unrolls_run interval cls count fuel :
  wf_class cls -> 1 <= SC._maxStateIndex cls -> 0 <= count ->
  count * SC._maxStateIndex cls < UINT8_MOD ->
  (512 <= fuel)%nat ->
  forall es c flat,
    unrolls cls count c flat ->
    exists c' results tr flat' results' tr',
      Run.controller interval fuel c es = Ok (c', results, tr) /\
      Run.stateful interval fuel (unrolled cls count) flat es
        = Ok (flat', results', tr') /\
      map outcome results = map outcome results'.
Proof.
  intros Hc HN HM Hsmall Hfuel.
  induction es as [|e es IH]; intros c flat Hrel.
  - eexists _, _, _, _, _, _. simpl. conj; reflexivity.
  - destruct (unrolls_step interval cls count c flat e fuel Hc HN HM Hsmall Hrel Hfuel)
      as (c1 & r1 & t1 & f1 & r1' & t1' & Heq & Heq' & Hout & Hrel1).
    destruct (IH c1 f1 Hrel1) as (c' & rs & tr & f' & rs' & tr' & Hrun & Hrun' & Hmap).
    exists c', (r1 :: rs), (t1 ++ tr), f', (r1' :: rs'), (t1' ++ tr').
    simpl. rewrite Heq, Heq'. cbn [bind]. rewrite Hrun, Hrun'. cbn [bind].
    conj; try reflexivity. now rewrite Hout, Hmap.
Qed.

(** C4: from the states that [reset] leaves, a repeater of count [M] over
    a machine of [N >= 1] states and the single machine of [M * N] states
    that repeats the durations of the [N] states [M] times give, call by
    call, the same done flag and the same remainder, for every sequence of
    calls and every [M] for which the single machine exists, a count of
    states being a [uint8_t]: so for [M = 0], [M = 1] and [M = 3]. *)
Theorem repeater_equivalence interval cls count st0 k0 flat0 es fuel :
  wf_class cls -> 1 <= SC._maxStateIndex cls -> 0 <= count ->
  count * SC._maxStateIndex cls < UINT8_MOD ->
  (512 <= fuel)%nat ->
  exists c' results tr flat' results' tr',
    Run.controller interval fuel
      (fst (reset (Looping (Stateful cls st0) count k0))) es = Ok (c', results, tr) /\
    Run.stateful interval fuel (unrolled cls count)
      (fst (SC.reset (unrolled cls count) flat0)) es = Ok (flat', results', tr') /\
    map outcome results = map outcome results'.
Proof.
  intros Hc HN HM Hsmall Hfuel.
  apply unrolls_run; try assumption.
  pose proof (wf_state_reset cls st0) as Hs.
  pose proof (reset_position cls st0) as [Hi Ht].
  pose proof (wf_state_reset (unrolled cls count) flat0) as Hsf.
  pose proof (reset_position (unrolled cls count) flat0) as [Hif Htf].
  simpl reset. destruct (SC.reset cls st0) as [st tr]. simpl fst in *.
  simpl. conj; try reflexivity; try assumption; try lia.
Qed.

Lemma repeater_equivalence_witness :
  exists c' results tr flat' results' tr',
    Run.controller MAIN_PWM_ANIMATION_INTERVAL 512
      (fst (reset (Looping (Stateful (FlowingThreeLedsController.class 100)
                              SC.construct) 3 0)))
      [0; 250; 260; 1000; 7] = Ok (c', results, tr) /\
    Run.stateful MAIN_PWM_ANIMATION_INTERVAL 512
      (unrolled (FlowingThreeLedsController.class 100) 3)
      (fst (SC.reset (unrolled (FlowingThreeLedsController.class 100) 3) SC.construct))
      [0; 250; 260; 1000; 7] = Ok (flat', results', tr') /\
    map outcome results = map outcome results'.
Proof.
  apply (repeater_equivalence MAIN_PWM_ANIMATION_INTERVAL
           (FlowingThreeLedsController.class 100) 3 SC.construct 0 SC.construct
           [0; 250; 260; 1000; 7] 512).
  - apply wf_class_FlowingThreeLeds, is_uint32_literal. reflexivity.
  - simpl. lia.
  - lia.
  - simpl. unfold UINT8_MOD. lia.
  - lia.
Defined.

(** ** C5: the switch *)

Module SW := SwitchingController.

Lemma doControl_preserves interval fuel c e c' result tr :
  wf_controller c -> is_uint32 e ->
  doControl interval fuel c e = Ok (c', result, tr) ->
  skeleton c' = skeleton c /\ wf_controller c' /\ is_uint32 (remainingTime result).
Proof.
  intros Hwf He Heq.
  destruct (doControl_total interval (skeleton c) c eq_refl Hwf e
              (Nat.max fuel (enoughFuel (skeleton c))) He (Nat.le_max_r _ _))
    as (c2 & r2 & t2 & Heq2 & H).
  rewrite (doControl_mono interval fuel _ c e _ (Nat.le_max_l _ _) Heq) in Heq2.
  now injection Heq2 as <- <- <-.
Qed.

Lemma totalDuration_positive cls :
  0 < totalDuration cls -> 0 < SC._maxStateIndex cls.
Proof.
  unfold totalDuration, durationsBefore. intros H.
  destruct (Z_lt_le_dec 0 (SC._maxStateIndex cls)) as [Hp | Hn]; [exact Hp|].
  replace (Z.to_nat (SC._maxStateIndex cls)) with 0%nat in H by lia.
  simpl in H. lia.
Qed.

Lemma fresh_ready c : takes_time (skeleton c) -> fresh c -> ready c.
Proof.
  destruct c as [cls st | inner M k]; simpl; [auto|].
  intros (_ & HM) (Hf & ->). split; [exact Hf | lia].
Qed.

(** A node that is ready and takes time gives back, when it is done, less
    time than it was given. *)
Lemma ready_progress interval : forall fuel c e c' result tr,
  wf_controller c -> takes_time (skeleton c) -> ready c -> is_uint32 e ->
  doControl interval fuel c e = Ok (c', result, tr) ->
  finished result = true -> remainingTime result < e.
Proof.
  induction fuel as [|fuel IH]; intros c e c' result tr Hwf Htt Hrd He Heq Hfin;
    [discriminate|].
  rewrite doControl_S in Heq. destruct c as [cls st | inner M k].
  - destruct (SC.doControl interval fuel cls st e) as [[[st1 r1] t1]|] eqn:Hd;
      [cbn [bind] in Heq | discriminate].
    injection Heq as <- <- <-.
    destruct Hwf as [Hc Hs]. destruct Htt as (_ & Hpos & Hsmall).
    destruct Hrd as [Hi Ht]. pose proof (totalDuration_positive cls Hpos) as HN.
    destruct (doControl_running interval cls st e
                (Nat.max fuel (Z.to_nat (SC._maxStateIndex cls))) Hc Hs)
      as (st2 & r2 & t2 & Heq2 & _ & _ & Hl & Hf & Hr & _); [lia | lia |].
    rewrite (stateful_doControl_mono _ _ _ _ fuel _ _ (Nat.le_max_l _ _) Hd) in Heq2.
    injection Heq2 as <- <- <-.
    rewrite Hi, Ht, durationsBefore_0 in Hl.
    rewrite wrap32_small in Hl by (simpl; exact He).
    rewrite Hfin in *. symmetry in Hf. apply Z.leb_le in Hf.
    rewrite Hr. destruct Hl as ((_ & Hle) & _ & Hp & _).
    assert (SC._currentStateIndex st1 = SC._maxStateIndex cls) as Hend by lia.
    rewrite Hend in Hp. unfold totalDuration in Hpos. lia.
  - destruct Hwf as (Hwi & HM & Hk). destruct Htt as (Htti & HMpos).
    destruct Hrd as (Hfr & Hkr). unfold is_uint32 in HM, Hk.
    replace (M <=? k) with false in Heq by (symmetry; apply Z.leb_gt; lia).
    destruct (doControl interval fuel inner e) as [[[i1 r1] t1]|] eqn:Hd;
      [cbn [bind] in Heq | discriminate].
    destruct (doControl_preserves interval fuel inner e i1 r1 t1 Hwi He Hd)
      as (Hs1 & Hw1 & Hr1).
    destruct (finished r1) eqn:Hf1; cbn [negb] in Heq.
    + pose proof (IH inner e i1 r1 t1 Hwi Htti (fresh_ready inner Htti Hfr) He Hd Hf1)
        as Hless.
      rewrite (wrap32_small (k + 1)) in Heq by (unfold is_uint32; lia).
      destruct (M <=? k + 1) eqn:Hlast.
      * injection Heq as <- <- <-. exact Hless.
      * apply Z.leb_gt in Hlast.
        destruct (reset_preserves i1) as (Hs2 & Hw2 & Hf2).
        destruct (reset i1) as [i2 t2]. simpl in Hs2, Hw2, Hf2.
        destruct (doControl interval fuel (Looping i2 M (k + 1)) (remainingTime r1))
          as [[[c3 r3] t3]|] eqn:Hd3; [cbn [bind] in Heq | discriminate].
        injection Heq as <- <- <-.
        assert (remainingTime r3 < remainingTime r1); [|lia].
        apply (IH (Looping i2 M (k + 1)) (remainingTime r1) c3 r3 t3);
          try assumption.
        -- simpl. conj; [now apply Hw2 | exact HM | unfold is_uint32; lia].
        -- simpl. split; [congruence | exact HMpos].
        -- simpl. split; [exact Hf2 | lia].
    + injection Heq as <- <- <-. congruence.
Qed.

Lemma replace_nth_spec : forall l n c,
  (n < length l)%nat ->
  nth_error (SW.replace_nth l n c) n = Some c /\
  length (SW.replace_nth l n c) = length l /\
  (forall old, nth_error l n = Some old -> skeleton c = skeleton old ->
     map skeleton (SW.replace_nth l n c) = map skeleton l) /\
  (wf_controller c -> Forall wf_controller l ->
     Forall wf_controller (SW.replace_nth l n c)).
Proof.
  induction l as [|x l IH]; intros n c Hn; simpl in Hn; [lia|].
  destruct n as [|n]; simpl.
  - conj; try reflexivity.
    + intros old [= <-] Hsk. now rewrite Hsk.
    + intros Hc Hall. inversion Hall; subst. now constructor.
  - destruct (IH n c ltac:(lia)) as (H1 & H2 & H3 & H4).
    conj; try assumption.
    + now rewrite H2.
    + intros old Hold Hsk. now rewrite (H3 old Hold Hsk).
    + intros Hc Hall. inversion Hall; subst. constructor; auto.
Qed.

Lemma doWhile_S interval fuel sw t :
  SW.doWhile interval (S fuel) sw t =
  match SW.getControllerByIndex sw (SW._currentControllerIndex sw) with
  | None => Crash NullController
  | Some currentController =>
      '(c', controllerState, tr1) <- doControl interval fuel currentController t ;;
      let sw1 := SW.store sw (SW._currentControllerIndex sw) c' in
      if finished controllerState then
        let next :=
          SW.nextIndex (SW.getControllerCount sw1) (SW._currentControllerIndex sw1) in
        let (sw2, tr2) := SW.switchToController sw1 next in
        '(sw3, sleepTime, tr3) <-
          SW.doWhile interval fuel sw2 (remainingTime controllerState) ;;
        Ok (sw3, sleepTime, tr1 ++ tr2 ++ tr3)
      else Ok (sw1, suggestedSleepTime controllerState, tr1)
  end.
Proof. reflexivity. Qed.

Lemma doWhile_mono interval : forall f f' sw t r,
  (f <= f')%nat ->
  SW.doWhile interval f sw t = Ok r -> SW.doWhile interval f' sw t = Ok r.
Proof.
  induction f as [|f IH]; intros f' sw t r Hle H; [discriminate|].
  destruct f' as [|f']; [lia|]. assert (Hle' : (f <= f')%nat) by lia.
  rewrite doWhile_S in *.
  destruct (SW.getControllerByIndex sw _) as [cur|]; [|discriminate].
  destruct (doControl interval f cur t) as [[[c1 r1] t1]|] eqn:Hd; [|discriminate].
  rewrite (doControl_mono interval f f' cur t _ Hle' Hd). cbn [bind] in *.
  destruct (finished r1); [|exact H].
  cbv zeta in *.
  destruct (SW.switchToController _ _) as [sw2 tr2].
  destruct (SW.doWhile interval f sw2 (remainingTime r1)) as [x|] eqn:Hd2;
    [|discriminate].
  now rewrite (IH f' _ _ _ Hle' Hd2).
Qed.

Lemma switch_doControl_mono interval f f' sw t r :
  (f <= f')%nat ->
  SW.doControl interval f sw t = Ok r -> SW.doControl interval f' sw t = Ok r.
Proof.
  intros Hle. unfold SW.doControl.
  destruct (SW.doWhile interval f sw t) as [x|] eqn:Hd; [|discriminate].
  now rewrite (doWhile_mono interval f f' sw t x Hle Hd).
Qed.

Lemma run_switch_mono interval f f' : forall es sw r,
  (f <= f')%nat ->
  Run.switch interval f sw es = Ok r -> Run.switch interval f' sw es = Ok r.
Proof.
  induction es as [|e es IH]; intros sw r Hle H; simpl in *; [exact H|].
  destruct (SW.doControl interval f sw e) as [[[sw1 r1] t1]|] eqn:Hd; [|discriminate].
  rewrite (switch_doControl_mono interval f f' sw e _ Hle Hd). cbn [bind] in *.
  destruct (Run.switch interval f sw1 es) as [x|] eqn:Hd2; [|discriminate].
  now rewrite (IH sw1 x Hle Hd2).
Qed.

(** The table of a switch under its invariant. *)
Lemma switch_inv_lookup table sw i :
  switch_inv table sw -> 0 <= i < Z.of_nat (length table) ->
  exists c sk,
    SW.getControllerByIndex sw i = Some c /\
    nth_error table (Z.to_nat i) = Some sk /\
    skeleton c = sk /\ wf_controller c /\
    (Z.to_nat i < length (SW.controllers sw))%nat.
Proof.
  intros (Hmap & Hall & _) Hi. unfold SW.getControllerByIndex.
  replace (i <? 0) with false by (symmetry; apply Z.ltb_ge; lia).
  assert (Hlen : length (SW.controllers sw) = length table)
    by (rewrite <- Hmap; now rewrite length_map).
  destruct (nth_error (SW.controllers sw) (Z.to_nat i)) as [c|] eqn:Hnth.
  - exists c, (skeleton c). conj; try reflexivity.
    + rewrite <- Hmap. now apply map_nth_error.
    + rewrite Forall_forall in Hall. eapply Hall, nth_error_In, Hnth.
    + lia.
  - apply nth_error_None in Hnth. lia.
Qed.

Lemma store_inv table sw c c' :
  switch_inv table sw ->
  SW.getControllerByIndex sw (SW._currentControllerIndex sw) = Some c ->
  skeleton c' = skeleton c -> wf_controller c' ->
  switch_inv table (SW.store sw (SW._currentControllerIndex sw) c') /\
  SW.getControllerCount (SW.store sw (SW._currentControllerIndex sw) c')
    = Z.of_nat (length table).
Proof.
  intros Hinv Hget Hsk Hwf. pose proof Hinv as (Hmap & Hall & Hcur).
  destruct (switch_inv_lookup table sw _ Hinv Hcur) as (c0 & sk & Hget0 & _ & _ & _ & Hlt).
  rewrite Hget in Hget0. injection Hget0 as <-.
  unfold SW.getControllerByIndex in Hget.
  replace (SW._currentControllerIndex sw <? 0) with false in Hget
    by (symmetry; apply Z.ltb_ge; lia).
  destruct (replace_nth_spec (SW.controllers sw) _ c' Hlt) as (_ & Hlen & Hm & Hw).
  unfold switch_inv, SW.store, SW.getControllerCount. simpl.
  rewrite (Hm c Hget Hsk), Hlen.
  conj; try assumption; try lia; try (now apply Hw).
  rewrite <- Hmap. now rewrite length_map.
Qed.

Lemma switchToController_inv table sw i :
  switch_inv table sw -> 0 <= i < Z.of_nat (length table) ->
  switch_inv table (fst (SW.switchToController sw i)) /\
  SW._currentControllerIndex (fst (SW.switchToController sw i)) = i /\
  exists c,
    SW.getControllerByIndex (fst (SW.switchToController sw i)) i = Some c /\ fresh c.
Proof.
  intros Hinv Hi. pose proof Hinv as (Hmap & Hall & Hcur).
  destruct (switch_inv_lookup table sw i Hinv Hi) as (c & sk & Hget & _ & _ & Hwf & Hlt).
  unfold SW.switchToController.
  replace (SW.getControllerByIndex
             {| SW.controllers := SW.controllers sw; SW._currentControllerIndex := i |} i)
    with (SW.getControllerByIndex sw i) by reflexivity.
  rewrite Hget.
  destruct (reset_preserves c) as (Hs & Hw & Hf).
  destruct (reset c) as [c' tr]. simpl in Hs, Hw, Hf. simpl fst.
  unfold SW.getControllerByIndex in Hget |- *.
  replace (i <? 0) with false in * by (symmetry; apply Z.ltb_ge; lia).
  destruct (replace_nth_spec (SW.controllers sw) _ c' Hlt) as (Hnth & Hlen & Hm & Hw').
  unfold switch_inv, SW.store. simpl.
  rewrite (Hm c Hget Hs).
  conj; try assumption; try lia; try (now apply Hw'; auto).
  exists c'. split; assumption.
Qed.

Lemma nextIndex_range count i :
  0 < count < UINT8_MOD -> 0 <= i < count ->
  0 <= SW.nextIndex count i < count.
Proof.
  intros Hc Hi. unfold SW.nextIndex, UINT8_MOD in *.
  destruct (i <? count - 1) eqn:Hlt; [|lia].
  apply Z.ltb_lt in Hlt.
  rewrite wrap8_small by (unfold is_uint8, UINT8_MOD; lia). lia.
Qed.

(** With a node that is ready under the cursor, the loop of the switch
    returns: each node that is done has used up some of the time. *)
Lemma doWhile_ready interval table :
  Forall takes_time table -> Z.of_nat (length table) < UINT8_MOD ->
  forall n t sw cur,
    (Z.to_nat t <= n)%nat -> is_uint32 t -> switch_inv table sw ->
    SW.getControllerByIndex sw (SW._currentControllerIndex sw) = Some cur ->
    fresh cur ->
    exists fuel sw' sleepTime tr,
      SW.doWhile interval fuel sw t = Ok (sw', sleepTime, tr) /\
      switch_inv table sw'.
Proof.
  intros Htt Hlen.
  induction n as [|n IH]; intros t sw cur Hn Ht Hinv Hget Hfresh;
    pose proof Hinv as (_ & _ & Hcur);
    destruct (switch_inv_lookup table sw _ Hinv Hcur)
      as (cur0 & sk & Hget0 & Hsk & Hskel & Hwf & _);
    rewrite Hget in Hget0; injection Hget0 as <-;
    assert (Htime : takes_time sk)
      by (rewrite Forall_forall in Htt; eapply Htt, nth_error_In, Hsk);
    destruct (doControl_total interval sk cur Hskel Hwf t (enoughFuel sk) Ht (le_n _))
      as (c1 & r1 & t1 & Heq & Hs1 & Hw1 & Hr1);
    destruct (store_inv table sw cur c1 Hinv Hget ltac:(congruence) Hw1)
      as (Hinv1 & Hcount);
    (destruct (finished r1) eqn:Hfin;
     [ pose proof (ready_progress interval _ cur t c1 r1 t1 Hwf
                     ltac:(now rewrite Hskel)
                     (fresh_ready cur ltac:(now rewrite Hskel) Hfresh) Ht Heq Hfin)
         as Hless
     | exists (S (enoughFuel sk)), (SW.store sw (SW._currentControllerIndex sw) c1),
         (suggestedSleepTime r1), t1;
       rewrite doWhile_S, Hget, Heq; cbn [bind]; rewrite Hfin; now split ]).
  - unfold is_uint32 in Ht, Hr1. lia.
  - set (sw1 := SW.store sw (SW._currentControllerIndex sw) c1) in *.
    set (next := SW.nextIndex (SW.getControllerCount sw1) (SW._currentControllerIndex sw1)).
    assert (Hnext : 0 <= next < Z.of_nat (length table)).
    { unfold next. rewrite Hcount. apply nextIndex_range; [lia|].
      destruct Hinv1 as (_ & _ & H). exact H. }
    destruct (switchToController_inv table sw1 next Hinv1 Hnext)
      as (Hinv2 & Hcur2 & c2 & Hget2 & Hfresh2).
    destruct (IH (remainingTime r1) (fst (SW.switchToController sw1 next)) c2)
      as (fuel2 & sw' & sleepTime & tr & Heq2 & Hinv');
      try assumption.
    { unfold is_uint32 in Ht, Hr1. lia. }
    { now rewrite Hcur2. }
    exists (S (Nat.max (enoughFuel sk) fuel2)), sw', sleepTime,
      (t1 ++ snd (SW.switchToController sw1 next) ++ tr).
    split; [|exact Hinv'].
    rewrite doWhile_S, Hget.
    rewrite (doControl_mono interval _ _ cur t _ (Nat.le_max_l _ fuel2) Heq).
    cbn [bind]. rewrite Hfin. cbv zeta. fold sw1. fold next.
    destruct (SW.switchToController sw1 next) as [sw2 tr2]. simpl fst in *. simpl snd.
    rewrite (doWhile_mono interval _ _ sw2 _ _ (Nat.le_max_r (enoughFuel sk) _) Heq2).
    reflexivity.
Qed.

(** The loop of the switch returns from any state of its nodes. *)
Lemma doWhile_total interval table sw t :
  Forall takes_time table -> Z.of_nat (length table) < UINT8_MOD ->
  is_uint32 t -> switch_inv table sw ->
  exists fuel sw' sleepTime tr,
    SW.doWhile interval fuel sw t = Ok (sw', sleepTime, tr) /\
    switch_inv table sw'.
Proof.
  intros Htt Hlen Ht Hinv. pose proof Hinv as (_ & _ & Hcur).
  destruct (switch_inv_lookup table sw _ Hinv Hcur)
    as (cur & sk & Hget & Hsk & Hskel & Hwf & _).
  destruct (doControl_total interval sk cur Hskel Hwf t (enoughFuel sk) Ht (le_n _))
    as (c1 & r1 & t1 & Heq & Hs1 & Hw1 & Hr1).
  destruct (store_inv table sw cur c1 Hinv Hget ltac:(congruence) Hw1)
    as (Hinv1 & Hcount).
  destruct (finished r1) eqn:Hfin.
  - set (sw1 := SW.store sw (SW._currentControllerIndex sw) c1) in *.
    set (next := SW.nextIndex (SW.getControllerCount sw1) (SW._currentControllerIndex sw1)).
    assert (Hnext : 0 <= next < Z.of_nat (length table)).
    { unfold next. rewrite Hcount. apply nextIndex_range; [lia|].
      destruct Hinv1 as (_ & _ & H). exact H. }
    destruct (switchToController_inv table sw1 next Hinv1 Hnext)
      as (Hinv2 & Hcur2 & c2 & Hget2 & Hfresh2).
    destruct (doWhile_ready interval table Htt Hlen (Z.to_nat (remainingTime r1))
                (remainingTime r1) (fst (SW.switchToController sw1 next)) c2)
      as (fuel2 & sw' & sleepTime & tr & Heq2 & Hinv');
      try assumption; try lia.
    { now rewrite Hcur2. }
    exists (S (Nat.max (enoughFuel sk) fuel2)), sw', sleepTime,
      (t1 ++ snd (SW.switchToController sw1 next) ++ tr).
    split; [|exact Hinv'].
    rewrite doWhile_S, Hget.
    rewrite (doControl_mono interval _ _ cur t _ (Nat.le_max_l _ fuel2) Heq).
    cbn [bind]. rewrite Hfin. cbv zeta. fold sw1. fold next.
    destruct (SW.switchToController sw1 next) as [sw2 tr2]. simpl fst in *. simpl snd.
    rewrite (doWhile_mono interval _ _ sw2 _ _ (Nat.le_max_r (enoughFuel sk) _) Heq2).
    reflexivity.
  - exists (S (enoughFuel sk)), (SW.store sw (SW._currentControllerIndex sw) c1),
      (suggestedSleepTime r1), t1.
    rewrite doWhile_S, Hget, Heq. cbn [bind]. rewrite Hfin. now split.
Qed.

Lemma run_switch_total interval table :
  Forall takes_time table -> Z.of_nat (length table) < UINT8_MOD ->
  forall es sw,
    Forall is_uint32 es -> switch_inv table sw ->
    exists fuel sw' results tr,
      Run.switch interval fuel sw es = Ok (sw', results, tr) /\
      Forall (fun r => finished r = false) results /\
      length results = length es.
Proof.
  intros Htt Hlen. induction es as [|e es IH]; intros sw Hes Hinv.
  - exists 0%nat, sw, [], []. simpl. conj; auto.
  - inversion Hes as [|? ? He Hes']; subst.
    destruct (doWhile_total interval table sw e Htt Hlen He Hinv)
      as (f1 & sw1 & sleepTime & t1 & Heq & Hinv1).
    destruct (IH sw1 Hes' Hinv1) as (f2 & sw' & results & tr & Hrun & Hall & Hl).
    exists (Nat.max f1 f2), sw', (unfinishedWorkState sleepTime :: results), (t1 ++ tr).
    simpl. unfold SW.doControl.
    rewrite (doWhile_mono interval f1 _ sw e _ (Nat.le_max_l _ _) Heq). cbn [bind].
    rewrite (run_switch_mono interval f2 _ es sw1 _ (Nat.le_max_r _ _) Hrun). cbn [bind].
    conj; [reflexivity | now constructor | simpl; now rewrite Hl].
Qed.

(** The durations of the animations of the sketch are [uint32_t]s: each is
    a constant of the class or a sum taken modulo [2^32]. *)
Ltac uint32_duration :=
  intros i; cbv beta delta [SC.getStateDuration
    TwoLedCombinationsController.class FlowingThreeLedsController.class
    TwoLedCombinationsFadeOutThenInController.class
    TwoLedCombinationsFadeOutThenInController.getStateDuration
    SequentialFadeController.class SequentialFadeController.getStateDuration
    OneByOneFadeController.class OneByOneFadeController.getStateDuration] iota;
  repeat match goal with
         | |- context [if ?b then _ else _] => destruct b
         end;
  first [ apply wrap32_range | apply is_uint32_literal; reflexivity ].

Lemma wf_construct : wf_state SC.construct.
Proof.
  split; [unfold is_uint8, UINT8_MOD | unfold is_uint32, UINT32_MOD]; simpl; lia.
Qed.

Lemma wf_class_FadeOutThenIn :
  wf_class (TwoLedCombinationsFadeOutThenInController.class 150 100 150 100).
Proof. split; [simpl; unfold UINT8_MOD; lia | uint32_duration]. Qed.

Lemma wf_class_SequentialFade :
  wf_class (SequentialFadeController.class 150 50 1000 300 100 1000).
Proof. split; [simpl; unfold UINT8_MOD; lia | uint32_duration]. Qed.

Lemma wf_class_OneByOneFade :
  wf_class (OneByOneFadeController.class 1000 2000 1000 0 3000 5000 3000 1000).
Proof. split; [simpl; unfold UINT8_MOD; lia | uint32_duration]. Qed.

Lemma takes_time_machine cls :
  wf_class cls ->
  (0 <? totalDuration cls) && (totalDuration cls <? UINT32_MOD) = true ->
  takes_time (SkStateful cls).
Proof.
  intros Hc H. apply andb_prop in H as [H1 H2].
  apply Z.ltb_lt in H1. apply Z.ltb_lt in H2. simpl. auto.
Qed.

Lemma takes_time_loop cls count :
  wf_class cls ->
  (0 <? totalDuration cls) && (totalDuration cls <? UINT32_MOD) = true ->
  (0 <? count) && (count <? UINT32_MOD) = true ->
  takes_time (SkLooping (SkStateful cls) count).
Proof.
  intros Hc H Hcount. apply andb_prop in Hcount as [H1 H2].
  apply Z.ltb_lt in H1. apply Z.ltb_lt in H2.
  split; [now apply takes_time_machine | auto].
Qed.

Lemma mainController_takes_time :
  Forall takes_time (map skeleton (SW.controllers mainController)).
Proof.
  cbn [map skeleton SW.controllers mainController
       slowTwoLedCombinationsControllerLoop fastTwoLedCombinationsControllerLoop
       sequentialFadeControllerLoop flowingThreeLedsControllerLoop
       twoLedCombinationsFadeOutThenInControllerLoop oneByOneFadeController].
  repeat apply Forall_cons; try apply Forall_nil.
  - apply takes_time_loop; [| vm_compute; reflexivity | reflexivity].
    apply wf_class_TwoLedCombinations, is_uint32_literal. reflexivity.
  - apply takes_time_loop; [| vm_compute; reflexivity | reflexivity].
    apply wf_class_TwoLedCombinations, is_uint32_literal. reflexivity.
  - apply takes_time_loop; [| vm_compute; reflexivity | reflexivity].
    apply wf_class_SequentialFade.
  - apply takes_time_loop; [| vm_compute; reflexivity | reflexivity].
    apply wf_class_FlowingThreeLeds, is_uint32_literal. reflexivity.
  - apply takes_time_loop; [| vm_compute; reflexivity | reflexivity].
    apply wf_class_FadeOutThenIn.
  - apply takes_time_machine; [| vm_compute; reflexivity].
    apply wf_class_OneByOneFade.
Qed.

Lemma wf_loop cls count :
  wf_class cls -> (0 <=? count) && (count <? UINT32_MOD) = true ->
  wf_controller (Looping (Stateful cls SC.construct) count 0).
Proof.
  intros Hc Hcount. simpl. conj; try assumption.
  - apply wf_construct.
  - now apply is_uint32_literal.
  - apply is_uint32_literal. reflexivity.
Qed.

Lemma mainController_inv :
  switch_inv (map skeleton (SW.controllers mainController)) mainController.
Proof.
  unfold switch_inv. conj; [reflexivity | | simpl; lia | simpl; lia].
  cbn [SW.controllers mainController
       slowTwoLedCombinationsControllerLoop fastTwoLedCombinationsControllerLoop
       sequentialFadeControllerLoop flowingThreeLedsControllerLoop
       twoLedCombinationsFadeOutThenInControllerLoop oneByOneFadeController].
  repeat apply Forall_cons; try apply Forall_nil.
  - apply wf_loop; [|reflexivity].
    apply wf_class_TwoLedCombinations, is_uint32_literal. reflexivity.
  - apply wf_loop; [|reflexivity].
    apply wf_class_TwoLedCombinations, is_uint32_literal. reflexivity.
  - apply wf_loop; [|reflexivity]. apply wf_class_SequentialFade.
  - apply wf_loop; [|reflexivity].
    apply wf_class_FlowingThreeLeds, is_uint32_literal. reflexivity.
  - apply wf_loop; [|reflexivity]. apply wf_class_FadeOutThenIn.
  - split; [apply wf_class_OneByOneFade | apply wf_construct].
Qed.

(** * Further properties of the engine *)

(** ** One call of the state machine, whatever the fuel *)

(** What a call that returns has done, read without a bound on the
    fuel. *)
Lemma stateful_step interval cls st e fuel st' result tr :
  wf_class cls -> wf_state st ->
  SC._currentStateIndex st < SC._maxStateIndex cls ->
  SC.doControl interval fuel cls st e = Ok (st', result, tr) ->
  wf_state st' /\
  SC._currentStateIndex st <= SC._currentStateIndex st' /\
  lands cls
    (durationsBefore cls (SC._currentStateIndex st)
     + wrap32 (SC._timeSpentOnCurrentState st + e))
    (SC._currentStateIndex st') (SC._timeSpentOnCurrentState st') /\
  finished result = (SC._maxStateIndex cls <=? SC._currentStateIndex st') /\
  remainingTime result
    = (if finished result then SC._timeSpentOnCurrentState st' else 0) /\
  activations tr
    = (if (SC._maxStateIndex cls <=? SC._currentStateIndex st')
          || (SC._currentStateIndex st =? SC._currentStateIndex st')
       then [] else [Activation (SC._currentStateIndex st')]).
Proof.
  intros Hc Hs Hlt Heq. pose proof Hs as [Hi _]. unfold is_uint8 in Hi.
  destruct (doControl_running interval cls st e
              (Nat.max fuel (Z.to_nat (SC._maxStateIndex cls))) Hc Hs Hlt)
    as (st2 & r2 & t2 & Heq2 & H); [lia|].
  rewrite (stateful_doControl_mono _ _ _ _ fuel _ _ (Nat.le_max_l _ _) Heq) in Heq2.
  injection Heq2 as <- <- <-. exact H.
Qed.

(** The loop of [doControl] stops where its condition fails, and on a
    state index that the accumulated time has not yet carried it past. *)
Lemma whileLoop_exit cls fuel : forall index time duration index' time' duration',
  SC.whileLoop fuel cls index time duration = Ok (index', time', duration') ->
  (duration' <=? time') && (index' <? SC._maxStateIndex cls) = false /\
  ((index' = index /\ duration' = duration) \/ duration' = durationAt cls index').
Proof.
  induction fuel as [|fuel IH]; intros index time duration index' time' duration';
    rewrite whileLoop_eq;
    destruct ((duration <=? time) && (index <? SC._maxStateIndex cls)) eqn:Hcond;
    try discriminate.
  - intros [= <- <- <-]. auto.
  - intros Heq. apply IH in Heq as [H1 H2]. split; [exact H1|].
    right. destruct H2 as [[-> ->] | ->]; reflexivity.
  - intros [= <- <- <-]. auto.
Qed.

(** The state in which the prelude of [doControl] leaves the machine
    before the tick of a fade: the position is that of the loop, and a
    fade is under way if one was, or if the callback has started one. *)
Lemma activation_step cls st index' time' :
  exists st2 tr2,
    (if negb (SC._currentStateIndex st =? index')
     then SC.activate cls (SC.set_position st index' time') index'
     else (SC.set_position st index' time', [])) = (st2, tr2) /\
    SC._currentStateIndex st2 = index' /\
    SC._timeSpentOnCurrentState st2 = time' /\
    SC._pwmTransitionInProgress st2
      = (if SC._currentStateIndex st =? index' then false
         else existsb starts_fade (SC.applyLedStatesForState cls index'))
        || SC._pwmTransitionInProgress st /\
    activations tr2
      = if SC._currentStateIndex st =? index' then [] else [Activation index'].
Proof.
  destruct (activate_spec cls (SC.set_position st index' time') index')
    as (A1 & A2 & A3 & A4).
  destruct (SC._currentStateIndex st =? index'); cbn [negb].
  - eexists _, _. split; [reflexivity|]. simpl. auto.
  - exists (fst (SC.activate cls (SC.set_position st index' time') index')),
           (snd (SC.activate cls (SC.set_position st index' time') index')).
    split; [now destruct (SC.activate cls _ index')|]. auto.
Qed.

(** What a call that ends not done leaves and suggests. *)
Lemma stateful_not_done interval cls st e fuel st' result tr :
  wf_class cls ->
  SC.doControl interval fuel cls st e = Ok (st', result, tr) ->
  finished result = false ->
  SC._currentStateIndex st' < SC._maxStateIndex cls /\
  0 <= SC._timeSpentOnCurrentState st'
    < SC.getStateDuration cls (SC._currentStateIndex st') /\
  suggestedSleepTime result
    = (if (if SC._currentStateIndex st =? SC._currentStateIndex st' then false
           else existsb starts_fade
                  (SC.applyLedStatesForState cls (SC._currentStateIndex st')))
          || SC._pwmTransitionInProgress st
       then interval
       else SC.getStateDuration cls (SC._currentStateIndex st')
            - SC._timeSpentOnCurrentState st') /\
  remainingTime result = 0.
Proof.
  intros [Hmax Hd] Heq Hfin. unfold SC.doControl in Heq.
  destruct (SC._maxStateIndex cls <=? SC._currentStateIndex st) eqn:Hdone0.
  { injection Heq as <- <- <-. discriminate. }
  apply Z.leb_gt in Hdone0.
  destruct (SC.whileLoop _ _ _ _ _) as [[[index' time'] duration']|f] eqn:Hloop;
    [cbn [bind] in Heq | discriminate].
  pose proof (whileLoop_time_range _ _ _ _ _ _ _ _ (wrap32_range _) Hloop) as Ht'.
  apply whileLoop_exit in Hloop as [Hexit Hdur].
  destruct (SC._maxStateIndex cls <=? index') eqn:Hdone.
  { injection Heq as <- <- <-. discriminate. }
  apply Z.leb_gt in Hdone.
  assert (Hd' : duration' = SC.getStateDuration cls index').
  { destruct Hdur as [[-> ->] | ->]; [reflexivity|].
    unfold durationAt. apply Z.ltb_lt in Hdone. now rewrite Hdone. }
  assert (Hlt : time' < duration').
  { apply andb_false_iff in Hexit as [H | H];
      [now apply Z.leb_gt in H | apply Z.ltb_ge in H; lia]. }
  destruct (activation_step cls st index' time')
    as (st2 & tr2 & Hstep & S1 & S2 & S3 & _).
  rewrite Hstep in Heq.
  destruct (SC._pwmTransitionInProgress st2) eqn:Hfade.
  - destruct (animatePwmTransition_ok st2 (SC._timeSpentOnCurrentState st2))
      as (st3 & tr3 & Han & T1 & T2 & _).
    { rewrite S2. apply Ht'. }
    rewrite Han in Heq. cbn [bind] in Heq. injection Heq as <- <- <-.
    rewrite T1, T2, S1, S2, <- S3. simpl. subst duration'.
    unfold is_uint32 in Ht'. conj; try lia; reflexivity.
  - injection Heq as <- <- <-. rewrite S1, S2, <- S3. simpl.
    subst duration'. unfold is_uint32 in Ht'. conj; try lia; try reflexivity.
    apply wrap32_small. specialize (Hd index'). unfold is_uint32 in *. lia.
Qed.

(** X1: the sleep time that a state machine suggests.  A call that ends
    not done leaves the machine on a state with less time spent on it than
    the state lasts; it suggests the tick [PWM_ANIMATION_INTERVAL] when a
    fade is under way (one that was in progress before the call, or one
    that the callback of a newly entered state has started), and otherwise
    exactly the time left of the current state; with a positive tick the
    suggested time is positive, and at most the tick or the duration of the
    state; the remainder of such a result is 0. *)
Theorem suggested_sleep_contract interval cls st e fuel st' result tr :
  wf_class cls -> 0 < interval ->
  SC.doControl interval fuel cls st e = Ok (st', result, tr) ->
  finished result = false ->
  SC._currentStateIndex st' < SC._maxStateIndex cls /\
  0 <= SC._timeSpentOnCurrentState st'
    < SC.getStateDuration cls (SC._currentStateIndex st') /\
  suggestedSleepTime result
    = (if (if SC._currentStateIndex st =? SC._currentStateIndex st' then false
           else existsb starts_fade
                  (SC.applyLedStatesForState cls (SC._currentStateIndex st')))
          || SC._pwmTransitionInProgress st
       then interval
       else SC.getStateDuration cls (SC._currentStateIndex st')
            - SC._timeSpentOnCurrentState st') /\
  0 < suggestedSleepTime result
    <= Z.max interval (SC.getStateDuration cls (SC._currentStateIndex st')) /\
  remainingTime result = 0.
Proof.
  intros Hc Hint Heq Hfin.
  destruct (stateful_not_done interval cls st e fuel st' result tr Hc Heq Hfin)
    as (Hi & Ht & Hs & Hr).
  conj; try assumption; try apply Ht; rewrite Hs;
    destruct (_ || _); lia.
Qed.

Lemma suggested_sleep_witness :
  exists st' result tr,
    SC.doControl MAIN_PWM_ANIMATION_INTERVAL 16
      (SequentialFadeController.class 150 50 1000 300 100 1000)
      (fst (SC.reset (SequentialFadeController.class 150 50 1000 300 100 1000)
              SC.construct)) 160 = Ok (st', result, tr) /\
    SC._currentStateIndex st' = 0 /\
    SC._timeSpentOnCurrentState st' = 160 /\
    suggestedSleepTime result = 30 /\
    remainingTime result = 0.
Proof.
  eexists _, _, _. split; [vm_compute; reflexivity|].
  pose proof (suggested_sleep_contract MAIN_PWM_ANIMATION_INTERVAL
    (SequentialFadeController.class 150 50 1000 300 100 1000)
    (fst (SC.reset (SequentialFadeController.class 150 50 1000 300 100 1000)
            SC.construct)) 160 16 _ _ _ wf_class_SequentialFade eq_refl eq_refl
    eq_refl) as (_ & _ & Hs & _ & Hr).
  conj; [reflexivity | reflexivity | exact Hs | exact Hr].
Defined.

(** X2: sleeping the suggested time.  On a state with time left (as every
    call that ends not done leaves the machine), a call with less than the
    time left stays on the state, adds the elapsed time to the time spent,
    and runs no callback; with no fade in progress it writes nothing to the
    sink and suggests the rest of the state; and a call with exactly the
    time left moves on to a later state, or to the end, with no time spent
    there: the wake-up falls exactly on the state boundary. *)
Theorem sleeping_the_suggested_time interval cls st fuel :
  wf_class cls -> wf_state st ->
  SC._currentStateIndex st < SC._maxStateIndex cls ->
  SC._timeSpentOnCurrentState st
    < SC.getStateDuration cls (SC._currentStateIndex st) ->
  (Z.to_nat (SC._maxStateIndex cls) <= fuel)%nat ->
  (forall e,
     0 <= e < SC.getStateDuration cls (SC._currentStateIndex st)
              - SC._timeSpentOnCurrentState st ->
     exists st' result tr,
       SC.doControl interval fuel cls st e = Ok (st', result, tr) /\
       SC._currentStateIndex st' = SC._currentStateIndex st /\
       SC._timeSpentOnCurrentState st' = SC._timeSpentOnCurrentState st + e /\
       finished result = false /\ activations tr = [] /\
       (SC._pwmTransitionInProgress st = false ->
        st' = SC.set_position st (SC._currentStateIndex st)
                (SC._timeSpentOnCurrentState st + e) /\
        result = unfinishedWorkState
                   (SC.getStateDuration cls (SC._currentStateIndex st)
                    - (SC._timeSpentOnCurrentState st + e)) /\
        tr = [])) /\
  (exists st' result tr,
     SC.doControl interval fuel cls st
       (SC.getStateDuration cls (SC._currentStateIndex st)
        - SC._timeSpentOnCurrentState st) = Ok (st', result, tr) /\
     SC._currentStateIndex st < SC._currentStateIndex st' /\
     SC._timeSpentOnCurrentState st' = 0 /\
     remainingTime result = 0).
Proof.
  intros Hc Hs Hlt Htime Hfuel. pose proof Hc as [Hmax Hd].
  pose proof Hs as [Hi Ht]. unfold is_uint8, is_uint32 in Hi, Ht.
  pose proof (Hd (SC._currentStateIndex st)) as Hdi. unfold is_uint32 in Hdi.
  split.
  - intros e He.
    destruct (doControl_running interval cls st e fuel Hc Hs Hlt)
      as (st' & result & tr & Heq & _ & _ & Hl & Hf & _ & Ha); [lia|].
    exists st', result, tr. split; [exact Heq|].
    rewrite wrap32_small in Hl by (unfold is_uint32; lia).
    assert (Hhere : lands cls
      (durationsBefore cls (SC._currentStateIndex st)
       + (SC._timeSpentOnCurrentState st + e))
      (SC._currentStateIndex st) (SC._timeSpentOnCurrentState st + e)).
    { unfold lands. conj; lia. }
    destruct (lands_unique cls Hc _ _ _ _ _ Hl Hhere) as [Ei Et].
    rewrite Ei in *. rewrite Hf, Ha.
    replace (SC._maxStateIndex cls <=? SC._currentStateIndex st) with false
      by (symmetry; apply Z.leb_gt; lia).
    rewrite Z.eqb_refl. conj; try reflexivity; try assumption.
    intros Hflag. revert Heq. unfold SC.doControl.
    replace (SC._maxStateIndex cls <=? SC._currentStateIndex st) with false
      by (symmetry; apply Z.leb_gt; lia).
    rewrite wrap32_small by (unfold is_uint32; lia).
    rewrite whileLoop_eq.
    replace (SC.getStateDuration cls (SC._currentStateIndex st)
             <=? SC._timeSpentOnCurrentState st + e) with false
      by (symmetry; apply Z.leb_gt; lia).
    cbn [andb bind].
    replace (SC._maxStateIndex cls <=? SC._currentStateIndex st) with false
      by (symmetry; apply Z.leb_gt; lia).
    rewrite Z.eqb_refl. cbn [negb].
    cbn [SC._pwmTransitionInProgress SC._timeSpentOnCurrentState SC.set_position].
    rewrite Hflag. rewrite wrap32_small by (unfold is_uint32; lia).
    intros [= <- <- <-]. auto.
  - destruct (doControl_running interval cls st
                (SC.getStateDuration cls (SC._currentStateIndex st)
                 - SC._timeSpentOnCurrentState st) fuel Hc Hs Hlt)
      as (st' & result & tr & Heq & _ & Hle & Hl & Hf & Hr & _); [lia|].
    exists st', result, tr. split; [exact Heq|].
    replace (SC._timeSpentOnCurrentState st
             + (SC.getStateDuration cls (SC._currentStateIndex st)
                - SC._timeSpentOnCurrentState st))
      with (SC.getStateDuration cls (SC._currentStateIndex st)) in Hl by lia.
    rewrite wrap32_small in Hl by exact (Hd _).
    rewrite <- durationsBefore_succ in Hl by lia.
    destruct Hl as ((Hlo & Hhi) & Ht0 & Hp & Hin).
    assert (Hnext : SC._currentStateIndex st < SC._currentStateIndex st').
    { destruct (Z.eq_dec (SC._currentStateIndex st') (SC._currentStateIndex st))
        as [E | E]; [|lia].
      rewrite E in Hp, Hin. rewrite durationsBefore_succ in Hp by lia.
      specialize (Hin Hlt). lia. }
    pose proof (durationsBefore_mono cls Hc (SC._currentStateIndex st + 1)
                  (SC._currentStateIndex st') ltac:(lia)) as Hmono.
    assert (Hzero : SC._timeSpentOnCurrentState st' = 0) by lia.
    conj; [exact Hnext | exact Hzero |].
    rewrite Hr, Hzero. now destruct (finished result).
Qed.

Lemma sleeping_the_suggested_time_witness :
  exists st' result tr,
    SC.doControl MAIN_PWM_ANIMATION_INTERVAL 16 (FlowingThreeLedsController.class 100)
      (SC.set_position SC.construct 1 40)
      (SC.getStateDuration (FlowingThreeLedsController.class 100)
         (SC._currentStateIndex (SC.set_position SC.construct 1 40))
       - SC._timeSpentOnCurrentState (SC.set_position SC.construct 1 40))
      = Ok (st', result, tr) /\
    SC._currentStateIndex (SC.set_position SC.construct 1 40)
      < SC._currentStateIndex st' /\
    SC._timeSpentOnCurrentState st' = 0 /\
    remainingTime result = 0.
Proof.
  apply (sleeping_the_suggested_time MAIN_PWM_ANIMATION_INTERVAL
           (FlowingThreeLedsController.class 100)
           (SC.set_position SC.construct 1 40) 16).
  - apply wf_class_FlowingThreeLeds, is_uint32_literal. reflexivity.
  - split; simpl; unfold is_uint8, is_uint32, UINT8_MOD, UINT32_MOD; lia.
  - simpl. lia.
  - simpl. lia.
  - simpl. lia.
Defined.

(** Two machines of one class on the same state with the same time spent
    answer a call in the same way, whatever their fade fields and their
    ticks. *)
Lemma same_position_same_call interval1 interval2 fuel cls st1 st2 e st1' result1 tr1 :
  SC._currentStateIndex st1 = SC._currentStateIndex st2 ->
  SC._timeSpentOnCurrentState st1 = SC._timeSpentOnCurrentState st2 ->
  SC.doControl interval1 fuel cls st1 e = Ok (st1', result1, tr1) ->
  exists st2' result2 tr2,
    SC.doControl interval2 fuel cls st2 e = Ok (st2', result2, tr2) /\
    SC._currentStateIndex st1' = SC._currentStateIndex st2' /\
    SC._timeSpentOnCurrentState st1' = SC._timeSpentOnCurrentState st2' /\
    outcome result1 = outcome result2 /\
    activations tr1 = activations tr2.
Proof.
  intros Ei Et Heq. unfold SC.doControl in *. rewrite <- Ei, <- Et.
  destruct (SC._maxStateIndex cls <=? SC._currentStateIndex st1).
  { injection Heq as <- <- <-. eexists _, _, _. split; [reflexivity|]. auto. }
  destruct (SC.whileLoop _ _ _ _ _) as [[[index' time'] duration']|f] eqn:Hloop;
    [cbn [bind] in * | discriminate].
  pose proof (whileLoop_time_range _ _ _ _ _ _ _ _ (wrap32_range _) Hloop) as Ht'.
  destruct (SC._maxStateIndex cls <=? index').
  { injection Heq as <- <- <-. eexists _, _, _. split; [reflexivity|]. auto. }
  destruct (activation_step cls st1 index' time')
    as (a1 & u1 & Hstep1 & A1 & A2 & _ & A4).
  destruct (activation_step cls st2 index' time')
    as (a2 & u2 & Hstep2 & B1 & B2 & _ & B4).
  rewrite Hstep1 in Heq. rewrite <- Ei in Hstep2, B4. rewrite Hstep2.
  assert (Hright : exists st2' result2 tr2,
    (if SC._pwmTransitionInProgress a2
     then '(st3, tr3) <- SC.animatePwmTransition a2 (SC._timeSpentOnCurrentState a2) ;;
          Ok (st3, unfinishedWorkState interval2, u2 ++ tr3)
     else Ok (a2, unfinishedWorkState
                    (wrap32 (duration' - SC._timeSpentOnCurrentState a2)), u2))
    = Ok (st2', result2, tr2) /\
    SC._currentStateIndex st2' = index' /\
    SC._timeSpentOnCurrentState st2' = time' /\
    outcome result2 = (false, 0) /\ activations tr2 = activations u2).
  { destruct (SC._pwmTransitionInProgress a2).
    - destruct (animatePwmTransition_ok a2 (SC._timeSpentOnCurrentState a2))
        as (st3 & tr3 & -> & T1 & T2 & T3); [rewrite B2; apply Ht'|].
      cbn [bind]. eexists _, _, _. split; [reflexivity|].
      unfold activations in *. rewrite filter_app, T3, app_nil_r.
      conj; first [reflexivity | congruence].
    - eexists _, _, _. split; [reflexivity|]. auto. }
  destruct Hright as (st2' & result2 & tr2 & -> & R1 & R2 & R3 & R4).
  exists st2', result2, tr2. split; [reflexivity|].
  rewrite R1, R2, R3, R4, B4, <- A4.
  destruct (SC._pwmTransitionInProgress a1).
  - destruct (animatePwmTransition_ok a1 (SC._timeSpentOnCurrentState a1))
      as (st3 & tr3 & Han & T1 & T2 & T3); [rewrite A2; apply Ht'|].
    rewrite Han in Heq. cbn [bind] in Heq. injection Heq as <- <- <-.
    unfold activations in *. rewrite filter_app, T3, app_nil_r.
      conj; first [reflexivity | congruence].
  - injection Heq as <- <- <-. auto.
Qed.

(** X3: the schedule does not depend on the fades.  Two machines of one
    class on the same state with the same time spent on it, whatever their
    fade fields and whatever the tick, answer every sequence of calls in
    the same way: if the calls return on one they return on the other, with
    the same done flags and remainders and the same callbacks, and they
    leave both on the same state with the same time spent.  In particular
    [reset], which sets the state and the time spent and then runs the
    callback of state 0, makes the schedule start over whatever the
    machine did before, its fades included. *)
Theorem timing_ignores_fades interval1 interval2 fuel cls es :
  forall st1 st2 st1' results1 tr1,
    SC._currentStateIndex st1 = SC._currentStateIndex st2 ->
    SC._timeSpentOnCurrentState st1 = SC._timeSpentOnCurrentState st2 ->
    Run.stateful interval1 fuel cls st1 es = Ok (st1', results1, tr1) ->
    exists st2' results2 tr2,
      Run.stateful interval2 fuel cls st2 es = Ok (st2', results2, tr2) /\
      SC._currentStateIndex st1' = SC._currentStateIndex st2' /\
      SC._timeSpentOnCurrentState st1' = SC._timeSpentOnCurrentState st2' /\
      map outcome results1 = map outcome results2 /\
      activations tr1 = activations tr2.
Proof.
  induction es as [|e es IH]; intros st1 st2 st1' results1 tr1 Ei Et Heq.
  - injection Heq as <- <- <-. exists st2, [], []. auto.
  - cbn [Run.stateful] in *.
    destruct (SC.doControl interval1 fuel cls st1 e) as [[[a1 r1] u1]|] eqn:Hd;
      [cbn [bind] in Heq | discriminate].
    destruct (same_position_same_call interval1 interval2 fuel cls st1 st2 e
                a1 r1 u1 Ei Et Hd) as (a2 & r2 & u2 & -> & Ei' & Et' & Ho & Ha).
    cbn [bind].
    destruct (Run.stateful interval1 fuel cls a1 es) as [[[b1 rs1] v1]|] eqn:Hrest;
      [cbn [bind] in Heq | discriminate].
    injection Heq as <- <- <-.
    destruct (IH a1 a2 b1 rs1 v1 Ei' Et' Hrest)
      as (b2 & rs2 & v2 & -> & Fi & Ft & Fo & Fa).
    cbn [bind]. eexists _, _, _. split; [reflexivity|].
    unfold activations in *. rewrite !filter_app. cbn [map].
    conj; congruence.
Qed.

Lemma timing_ignores_fades_witness :
  exists st2' results2 tr2,
    Run.stateful SECOND_PWM_ANIMATION_INTERVAL 16
      (TwoLedCombinationsController.class 200)
      (fst (SC.startPwmTransition SC.construct 5000 allLedsOn allLedsOff)) [450; 10]
      = Ok (st2', results2, tr2) /\
    SC._currentStateIndex (SC.set_position SC.construct 2 60)
      = SC._currentStateIndex st2' /\
    SC._timeSpentOnCurrentState (SC.set_position SC.construct 2 60)
      = SC._timeSpentOnCurrentState st2' /\
    map outcome [unfinishedWorkState 150; unfinishedWorkState 140]
      = map outcome results2 /\
    activations [Activation 2; DigitalOut true false false false true]
      = activations tr2.
Proof.
  apply (timing_ignores_fades MAIN_PWM_ANIMATION_INTERVAL SECOND_PWM_ANIMATION_INTERVAL
           16 (TwoLedCombinationsController.class 200) [450; 10]
           SC.construct
           (fst (SC.startPwmTransition SC.construct 5000 allLedsOn allLedsOff))
           (SC.set_position SC.construct 2 60)
           [unfinishedWorkState 150; unfinishedWorkState 140]
           [Activation 2; DigitalOut true false false false true]).
  - reflexivity.
  - reflexivity.
  - vm_compute. reflexivity.
Defined.

(** X4: the state index.  A call never moves the state index back and
    never takes it past the state count, so the 8-bit increment never wraps
    and a machine within its states stays within them; the call reports
    done exactly when the index has reached the state count; and the
    callback it runs, if any, is that of a state of the machine that lies
    after the one the call started on: [doControl] never activates state 0,
    which only [reset] does. *)
Theorem state_index_bounds interval cls st e fuel st' result tr :
  wf_class cls -> wf_state st ->
  SC._currentStateIndex st <= SC._maxStateIndex cls ->
  SC.doControl interval fuel cls st e = Ok (st', result, tr) ->
  wf_state st' /\
  SC._currentStateIndex st <= SC._currentStateIndex st' <= SC._maxStateIndex cls /\
  finished result = (SC._currentStateIndex st' =? SC._maxStateIndex cls) /\
  forall i, In (Activation i) tr ->
    i = SC._currentStateIndex st' /\
    SC._currentStateIndex st < i < SC._maxStateIndex cls.
Proof.
  intros Hc Hs Hle Heq.
  destruct (Z_lt_le_dec (SC._currentStateIndex st) (SC._maxStateIndex cls)) as [Hlt | Hge].
  - destruct (stateful_step interval cls st e fuel st' result tr Hc Hs Hlt Heq)
      as (Hs' & Hmono & Hl & Hf & _ & Ha).
    destruct Hl as ((Hlo & Hhi) & _). conj; try assumption.
    + rewrite Hf. destruct (Z.leb_spec (SC._maxStateIndex cls) (SC._currentStateIndex st'));
        symmetry; [apply Z.eqb_eq | apply Z.eqb_neq]; lia.
    + intros i Hin.
      assert (Hin' : In (Activation i) (activations tr))
        by (apply filter_In; split; [exact Hin | reflexivity]).
      rewrite Ha in Hin'.
      destruct (Z.leb_spec (SC._maxStateIndex cls) (SC._currentStateIndex st'));
        [contradiction|].
      destruct (Z.eqb_spec (SC._currentStateIndex st) (SC._currentStateIndex st'));
        [contradiction|].
      destruct Hin' as [[= <-] | []]. lia.
  - rewrite doControl_done in Heq by exact Hge. injection Heq as <- <- <-.
    conj; try assumption; try lia.
    + simpl. symmetry. apply Z.eqb_eq. lia.
    + intros i [].
Qed.

Lemma state_index_bounds_witness :
  wf_state (SC.set_position SC.construct 2 500) /\
  0 <= 2 <= 10 /\
  finished (unfinishedWorkState 500) = (2 =? 10) /\
  forall i,
    In (Activation i) [Activation 2; DigitalOut true false false false true] ->
    i = 2 /\ 0 < i < 10.
Proof.
  apply (state_index_bounds MAIN_PWM_ANIMATION_INTERVAL
           (TwoLedCombinationsController.class 1000) SC.construct 2500 16
           (SC.set_position SC.construct 2 500) (unfinishedWorkState 500)
           [Activation 2; DigitalOut true false false false true]).
  - apply wf_class_TwoLedCombinations, is_uint32_literal. reflexivity.
  - exact wf_construct.
  - simpl. lia.
  - vm_compute. reflexivity.
Defined.

(** X5: elapsed time may be delivered in pieces.  As long as the 32-bit
    accumulator does not wrap, a call with [e1] that ends not done,
    followed by a call with [e2], leaves the machine on the same state with
    the same time spent, and reports the same done flag and remainder, as
    one call with [e1 + e2]. *)
Theorem advance_is_additive interval cls st e1 e2 fuel :
  wf_class cls -> wf_state st ->
  SC._currentStateIndex st < SC._maxStateIndex cls ->
  0 <= e1 -> 0 <= e2 ->
  SC._timeSpentOnCurrentState st + e1 + e2 < UINT32_MOD ->
  (Z.to_nat (SC._maxStateIndex cls) <= fuel)%nat ->
  exists st1 result1 tr1 st12 result12 tr12,
    SC.doControl interval fuel cls st e1 = Ok (st1, result1, tr1) /\
    SC.doControl interval fuel cls st (e1 + e2) = Ok (st12, result12, tr12) /\
    (finished result1 = false ->
     exists st2 result2 tr2,
       SC.doControl interval fuel cls st1 e2 = Ok (st2, result2, tr2) /\
       SC._currentStateIndex st2 = SC._currentStateIndex st12 /\
       SC._timeSpentOnCurrentState st2 = SC._timeSpentOnCurrentState st12 /\
       outcome result2 = outcome result12).
Proof.
  intros Hc Hs Hlt He1 He2 Hsmall Hfuel.
  pose proof Hs as [Hi Ht]. unfold is_uint8, is_uint32 in Hi, Ht.
  destruct (doControl_running interval cls st e1 fuel Hc Hs Hlt)
    as (st1 & r1 & t1 & Heq1 & Hs1 & Hle1 & Hl1 & Hf1 & _); [lia|].
  destruct (doControl_running interval cls st (e1 + e2) fuel Hc Hs Hlt)
    as (st12 & r12 & t12 & Heq12 & _ & _ & Hl12 & Hf12 & Hr12 & _); [lia|].
  exists st1, r1, t1, st12, r12, t12. conj; [exact Heq1 | exact Heq12 |].
  intros Hnot. rewrite Hnot in Hf1. symmetry in Hf1. apply Z.leb_gt in Hf1.
  destruct (doControl_running interval cls st1 e2 fuel Hc Hs1 Hf1)
    as (st2 & r2 & t2 & Heq2 & _ & _ & Hl2 & Hf2 & Hr2 & _); [lia|].
  exists st2, r2, t2. split; [exact Heq2|].
  rewrite wrap32_small in Hl1, Hl12 by (unfold is_uint32; lia).
  pose proof (durationsBefore_mono cls Hc _ _ (conj (proj1 Hi) Hle1)) as Hmono.
  assert (Hpos : durationsBefore cls (SC._currentStateIndex st1)
                 + SC._timeSpentOnCurrentState st1
                 = durationsBefore cls (SC._currentStateIndex st)
                   + (SC._timeSpentOnCurrentState st + e1)) by apply Hl1.
  assert (Ht1 : 0 <= SC._timeSpentOnCurrentState st1) by apply Hl1.
  rewrite wrap32_small in Hl2 by (unfold is_uint32; lia).
  replace (durationsBefore cls (SC._currentStateIndex st1)
           + (SC._timeSpentOnCurrentState st1 + e2))
    with (durationsBefore cls (SC._currentStateIndex st)
          + (SC._timeSpentOnCurrentState st + (e1 + e2))) in Hl2 by lia.
  destruct (lands_unique cls Hc _ _ _ _ _ Hl2 Hl12) as [Ei Et].
  conj; [exact Ei | exact Et |].
  unfold outcome. rewrite Hr2, Hr12, Hf2, Hf12, Ei, Et. reflexivity.
Qed.

Lemma advance_is_additive_witness :
  exists st1 result1 tr1 st12 result12 tr12,
    SC.doControl MAIN_PWM_ANIMATION_INTERVAL 16 (FlowingThreeLedsController.class 100)
      SC.construct 130 = Ok (st1, result1, tr1) /\
    SC.doControl MAIN_PWM_ANIMATION_INTERVAL 16 (FlowingThreeLedsController.class 100)
      SC.construct (130 + 215) = Ok (st12, result12, tr12) /\
    (finished result1 = false ->
     exists st2 result2 tr2,
       SC.doControl MAIN_PWM_ANIMATION_INTERVAL 16 (FlowingThreeLedsController.class 100)
         st1 215 = Ok (st2, result2, tr2) /\
       SC._currentStateIndex st2 = SC._currentStateIndex st12 /\
       SC._timeSpentOnCurrentState st2 = SC._timeSpentOnCurrentState st12 /\
       outcome result2 = outcome result12).
Proof.
  apply (advance_is_additive MAIN_PWM_ANIMATION_INTERVAL
           (FlowingThreeLedsController.class 100) SC.construct 130 215 16).
  - apply wf_class_FlowingThreeLeds, is_uint32_literal. reflexivity.
  - exact wf_construct.
  - simpl. lia.
  - lia.
  - lia.
  - simpl. unfold UINT32_MOD. lia.
  - simpl. lia.
Defined.

(** ** The nodes of the tree *)

(** The one fault of a call on a state machine is that of the model, the
    fuel. *)
Lemma stateful_fault interval fuel cls st e f :
  SC.doControl interval fuel cls st e = Crash f -> f = OutOfFuel.
Proof.
  unfold SC.doControl.
  destruct (SC._maxStateIndex cls <=? SC._currentStateIndex st); [discriminate|].
  destruct (SC.whileLoop _ _ _ _ _) as [[[index' time'] duration']|f'] eqn:Hloop;
    cbn [bind].
  - pose proof (whileLoop_time_range _ _ _ _ _ _ _ _ (wrap32_range _) Hloop) as Ht'.
    destruct (SC._maxStateIndex cls <=? index'); [discriminate|].
    destruct (activation_step cls st index' time') as (st2 & tr2 & -> & _ & S2 & _).
    destruct (SC._pwmTransitionInProgress st2); [|discriminate].
    destruct (animatePwmTransition_ok st2 (SC._timeSpentOnCurrentState st2))
      as (st3 & tr3 & -> & _); [rewrite S2; apply Ht' | discriminate].
  - intros [= <-]. now apply whileLoop_fault in Hloop.
Qed.

Lemma tree_fault interval : forall fuel c e f,
  doControl interval fuel c e = Crash f -> f = OutOfFuel.
Proof.
  induction fuel as [|fuel IH]; intros c e f; [now intros [= <-]|].
  rewrite doControl_S. destruct c as [cls st | inner M k].
  - destruct (SC.doControl interval fuel cls st e) as [[[st1 r1] t1]|f1] eqn:Hd;
      cbn [bind]; [discriminate|].
    intros [= <-]. now apply stateful_fault in Hd.
  - destruct (M <=? k); [discriminate|].
    destruct (doControl interval fuel inner e) as [[[i1 r1] t1]|f1] eqn:Hd; cbn [bind].
    + destruct (negb (finished r1)); [discriminate|].
      destruct (M <=? wrap32 (k + 1)); [discriminate|].
      destruct (reset i1) as [i2 t2].
      destruct (doControl interval fuel (Looping i2 M (wrap32 (k + 1))) (remainingTime r1))
        as [[[c3 r3] t3]|f3] eqn:Hd3; cbn [bind]; [discriminate|].
      intros [= <-]. now apply IH in Hd3.
    + intros [= <-]. now apply IH in Hd.
Qed.

(** A result is built by [finishedWorkState] or by [unfinishedWorkState]. *)
Lemma stateful_result_built interval fuel cls st e st' result tr :
  SC.doControl interval fuel cls st e = Ok (st', result, tr) ->
  result = finishedWorkState (remainingTime result) \/
  result = unfinishedWorkState (suggestedSleepTime result).
Proof.
  unfold SC.doControl.
  destruct (SC._maxStateIndex cls <=? SC._currentStateIndex st).
  { intros [= <- <- <-]. now left. }
  destruct (SC.whileLoop _ _ _ _ _) as [[[index' time'] duration']|f'];
    cbn [bind]; [|discriminate].
  destruct (SC._maxStateIndex cls <=? index').
  { intros [= <- <- <-]. now left. }
  destruct (activation_step cls st index' time') as (st2 & tr2 & -> & _).
  destruct (SC._pwmTransitionInProgress st2).
  - destruct (SC.animatePwmTransition st2 _) as [[st3 tr3]|]; cbn [bind];
      [|discriminate].
    intros [= <- <- <-]. now right.
  - intros [= <- <- <-]. now right.
Qed.

(** The results of a node of the tree: done with a remainder that is a
    [uint32_t] and no sleep time, or not done with no remainder and a
    sleep time that is a positive [uint32_t]. *)
Lemma tree_result interval : forall fuel c e c' result tr,
  0 < interval < UINT32_MOD ->
  wf_controller c -> is_uint32 e ->
  doControl interval fuel c e = Ok (c', result, tr) ->
  (result = finishedWorkState (remainingTime result) /\
   is_uint32 (remainingTime result)) \/
  (result = unfinishedWorkState (suggestedSleepTime result) /\
   0 < suggestedSleepTime result < UINT32_MOD).
Proof.
  intros fuel c e c' result tr Hint.
  revert c e c' result tr.
  induction fuel as [|fuel IH]; intros c e c' result tr Hwf He Heq; [discriminate|].
  pose proof (doControl_preserves interval _ c e c' result tr Hwf He Heq)
    as (_ & _ & Hrem).
  rewrite doControl_S in Heq. destruct c as [cls st | inner M k].
  - destruct (SC.doControl interval fuel cls st e) as [[[st1 r1] t1]|] eqn:Hd;
      [cbn [bind] in Heq | discriminate].
    injection Heq as <- <- <-. destruct Hwf as [Hc Hs].
    destruct (stateful_result_built _ _ _ _ _ _ _ _ Hd) as [Hb | Hb];
      [left; split; assumption | right; split; [exact Hb|]].
    assert (Hnf : finished r1 = false) by (rewrite Hb; reflexivity).
    destruct (stateful_not_done interval cls st e fuel st1 r1 t1 Hc Hd Hnf)
      as (Hi' & Ht' & Hsl & _).
    rewrite Hsl. pose proof (proj2 Hc (SC._currentStateIndex st1)) as Hdur.
    unfold is_uint32 in Hdur.
    destruct (_ || _); lia.
  - destruct Hwf as (Hwi & HM & Hk).
    destruct (M <=? k) eqn:Hdone.
    { injection Heq as <- <- <-. left. split; [reflexivity | exact He]. }
    apply Z.leb_gt in Hdone.
    destruct (doControl interval fuel inner e) as [[[i1 r1] t1]|] eqn:Hd;
      [cbn [bind] in Heq | discriminate].
    destruct (doControl_preserves interval fuel inner e i1 r1 t1 Hwi He Hd)
      as (Hs1 & Hw1 & Hr1).
    destruct (finished r1) eqn:Hf1; cbn [negb] in Heq.
    + destruct (M <=? wrap32 (k + 1)).
      * injection Heq as <- <- <-. exact (IH inner e i1 r1 t1 Hwi He Hd).
      * destruct (reset_preserves i1) as (Hs2 & Hw2 & _).
        destruct (reset i1) as [i2 t2]. simpl in Hs2, Hw2.
        destruct (doControl interval fuel (Looping i2 M (wrap32 (k + 1)))
                    (remainingTime r1)) as [[[c3 r3] t3]|] eqn:Hd3;
          [cbn [bind] in Heq | discriminate].
        injection Heq as <- <- <-.
        apply (IH (Looping i2 M (wrap32 (k + 1))) (remainingTime r1) c3 r3 t3);
          [|exact Hr1 | exact Hd3].
        simpl. conj; [now apply Hw2 | exact HM | apply wrap32_range].
    + injection Heq as <- <- <-. exact (IH inner e i1 r1 t1 Hwi He Hd).
Qed.

(** X6: the iteration counter of a repeater.  A call leaves the repeater
    a repeater of the same count; its counter does not go down and, having
    started at or below the count, does not pass it (the increment never
    wraps); and the call reports done exactly when the counter has reached
    the count. *)
Theorem repeater_counter interval : forall fuel inner maxLoopCount currentLoopCount
    e c' result tr,
  is_uint32 maxLoopCount ->
  0 <= currentLoopCount <= maxLoopCount ->
  doControl interval fuel (Looping inner maxLoopCount currentLoopCount) e
    = Ok (c', result, tr) ->
  exists inner' currentLoopCount',
    c' = Looping inner' maxLoopCount currentLoopCount' /\
    currentLoopCount <= currentLoopCount' <= maxLoopCount /\
    finished result = (maxLoopCount <=? currentLoopCount').
Proof.
  induction fuel as [|fuel IH]; intros inner M k e c' result tr HM Hk Heq;
    [discriminate|].
  rewrite doControl_S in Heq. unfold is_uint32 in HM.
  destruct (M <=? k) eqn:Hdone.
  { injection Heq as <- <- <-. exists inner, k. now rewrite Hdone. }
  pose proof Hdone as Hlt. apply Z.leb_gt in Hlt.
  destruct (doControl interval fuel inner e) as [[[i1 r1] t1]|] eqn:Hd;
    [cbn [bind] in Heq | discriminate].
  destruct (finished r1) eqn:Hf1; cbn [negb] in Heq.
  - rewrite (wrap32_small (k + 1)) in Heq by (unfold is_uint32; lia).
    destruct (M <=? k + 1) eqn:Hlast.
    + injection Heq as <- <- <-. exists i1, (k + 1). rewrite Hlast.
      apply Z.leb_le in Hlast. conj; [reflexivity | lia | lia | exact Hf1].
    + apply Z.leb_gt in Hlast. destruct (reset i1) as [i2 t2].
      destruct (doControl interval fuel (Looping i2 M (k + 1)) (remainingTime r1))
        as [[[c3 r3] t3]|] eqn:Hd3; [cbn [bind] in Heq | discriminate].
      injection Heq as <- <- <-.
      destruct (IH i2 M (k + 1) (remainingTime r1) c3 r3 t3 HM ltac:(lia) Hd3)
        as (i' & k' & -> & Hk' & Hf').
      exists i', k'. conj; [reflexivity | lia | lia | exact Hf'].
  - injection Heq as <- <- <-. exists i1, k. rewrite Hdone.
    conj; [reflexivity | lia | lia | exact Hf1].
Qed.

Lemma repeater_counter_witness :
  exists inner' currentLoopCount',
    Looping (Stateful (FlowingThreeLedsController.class 100)
               (SC.set_position SC.construct 0 50)) 3 2
      = Looping inner' 3 currentLoopCount' /\
    0 <= currentLoopCount' <= 3 /\
    finished (unfinishedWorkState 50) = (3 <=? currentLoopCount').
Proof.
  apply (repeater_counter MAIN_PWM_ANIMATION_INTERVAL 32
           (Stateful (FlowingThreeLedsController.class 100) SC.construct) 3 0 1050
           _ _ [Activation 0; DigitalOut true true true false false;
                Activation 0; DigitalOut true true true false false]).
  - unfold is_uint32, UINT32_MOD. lia.
  - lia.
  - vm_compute. reflexivity.
Defined.

(** ** Conservation of time through the repeaters *)

Lemma passDuration_nonneg c : wf_controller c -> 0 <= passDuration (skeleton c).
Proof.
  induction c as [cls st | inner IH M k]; simpl.
  - intros [Hc _]. apply durationsBefore_nonneg; [exact Hc | apply Hc].
  - intros (Hwi & HM & _). unfold is_uint32 in HM. specialize (IH Hwi). nia.
Qed.

Lemma consumed_nonneg c : wf_controller c -> 0 <= consumed c.
Proof.
  induction c as [cls st | inner IH M k]; simpl.
  - intros [Hc [Hi Ht]]. unfold is_uint8, is_uint32 in *.
    pose proof (durationsBefore_nonneg cls Hc (SC._currentStateIndex st)).
    unfold consumedTime. lia.
  - intros (Hwi & _ & Hk). unfold is_uint32 in Hk.
    pose proof (passDuration_nonneg inner Hwi). specialize (IH Hwi). nia.
Qed.

Lemma consumed_reset c : wf_controller c -> consumed (fst (reset c)) = 0.
Proof.
  induction c as [cls st | inner IH M k]; simpl.
  - intros [Hc _]. pose proof (consumedTime_reset cls st Hc) as H.
    destruct (SC.reset cls st). exact H.
  - intros (Hwi & _). specialize (IH Hwi). destruct (reset inner). simpl in *. lia.
Qed.

Lemma running_reset c : takes_time (skeleton c) -> running (fst (reset c)).
Proof.
  induction c as [cls st | inner IH M k]; simpl.
  - intros (_ & Hpos & _). pose proof (reset_position cls st) as [H _].
    destruct (SC.reset cls st). simpl in *. rewrite H.
    now apply totalDuration_positive.
  - intros (Htti & HM). specialize (IH Htti). destruct (reset inner). simpl in *.
    split; [exact IH | lia].
Qed.

(** One call on a tree that is not done: the time it is given is added to
    the time the tree accounts for, up to the duration of a pass, and what
    goes beyond is the remainder. *)
Lemma tree_step interval : forall fuel c e c' result tr,
  wf_controller c -> takes_time (skeleton c) -> running c ->
  0 <= e -> consumed c + e < UINT32_MOD ->
  doControl interval fuel c e = Ok (c', result, tr) ->
  (consumed c + e < passDuration (skeleton c) ->
   finished result = false /\ running c' /\ consumed c' = consumed c + e) /\
  (passDuration (skeleton c) <= consumed c + e ->
   finished result = true /\
   remainingTime result = consumed c + e - passDuration (skeleton c)).
Proof.
  induction fuel as [|fuel IH]; intros c e c' result tr Hwf Htt Hrun He Hsmall Heq;
    [discriminate|].
  pose proof (consumed_nonneg c Hwf) as Hcons.
  assert (He32 : is_uint32 e) by (unfold is_uint32; lia).
  rewrite doControl_S in Heq. destruct c as [cls st | inner M k].
  - destruct (SC.doControl interval fuel cls st e) as [[[st1 r1] t1]|] eqn:Hd;
      [cbn [bind] in Heq | discriminate].
    injection Heq as <- <- <-. destruct Hwf as [Hc Hs]. simpl in *.
    destruct (stateful_step interval cls st e fuel st1 r1 t1 Hc Hs Hrun Hd)
      as (_ & _ & Hl & Hf & Hr & _).
    pose proof Hs as [Hi Ht]. unfold is_uint8, is_uint32 in Hi, Ht.
    pose proof (durationsBefore_nonneg cls Hc (SC._currentStateIndex st) ltac:(lia)).
    unfold consumedTime in *.
    rewrite wrap32_small in Hl by (unfold is_uint32; lia).
    rewrite Z.add_assoc in Hl. split; intros Hcmp.
    + pose proof (lands_before_total cls _ _ _ Hl Hcmp) as Hin.
      rewrite Hf. conj; [apply Z.leb_gt; lia | exact Hin | apply Hl].
    + destruct (lands_past_total cls Hc _ _ _ Hl Hcmp) as [Ei Et].
      assert (Hfin : finished r1 = true) by (rewrite Hf; apply Z.leb_le; lia).
      rewrite Hr, Hfin. split; [reflexivity | exact Et].
  - destruct Hwf as (Hwi & HM & Hk). destruct Htt as (Htti & HMpos).
    destruct Hrun as (Hri & Hkr). unfold is_uint32 in HM, Hk.
    pose proof (passDuration_nonneg inner Hwi) as HD.
    pose proof (consumed_nonneg inner Hwi) as Hci.
    cbn [consumed skeleton passDuration] in *.
    set (D := passDuration (skeleton inner)) in *.
    assert (HkD : 0 <= k * D) by nia.
    assert (HMD : (k + 1) * D <= M * D) by (apply Z.mul_le_mono_nonneg_r; lia).
    replace (M <=? k) with false in Heq by (symmetry; apply Z.leb_gt; lia).
    destruct (doControl interval fuel inner e) as [[[i1 r1] t1]|] eqn:Hd;
      [cbn [bind] in Heq | discriminate].
    destruct (doControl_preserves interval fuel inner e i1 r1 t1 Hwi He32 Hd)
      as (Hs1 & Hw1 & Hr1).
    destruct (IH inner e i1 r1 t1 Hwi Htti Hri He ltac:(lia) Hd) as [Hbefore Hpast].
    fold D in Hbefore, Hpast.
    destruct (Z_lt_le_dec (consumed inner + e) D) as [Hcmp | Hcmp].
    + destruct (Hbefore Hcmp) as (Hf1 & Hr1' & Hc1).
      rewrite Hf1 in Heq. cbn [negb] in Heq. injection Heq as <- <- <-.
      split; intros Hcmp2; [|lia].
      cbn [consumed running]. rewrite Hs1. fold D.
      conj; [exact Hf1 | exact Hr1' | lia | lia | lia].
    + destruct (Hpast Hcmp) as (Hf1 & Hrem).
      rewrite Hf1 in Heq. cbn [negb] in Heq.
      rewrite (wrap32_small (k + 1)) in Heq by (unfold is_uint32; lia).
      destruct (M <=? k + 1) eqn:Hlast.
      * apply Z.leb_le in Hlast. injection Heq as <- <- <-.
        assert (M = k + 1) as -> by lia.
        split; intros Hcmp2; [lia|]. split; [exact Hf1 | lia].
      * apply Z.leb_gt in Hlast.
        destruct (reset_preserves i1) as (Hs2 & Hw2 & _).
        pose proof (consumed_reset i1 Hw1) as Hc2.
        pose proof (running_reset i1 ltac:(now rewrite Hs1)) as Hr2.
        destruct (reset i1) as [i2 t2]. simpl in Hs2, Hw2, Hc2, Hr2.
        destruct (doControl interval fuel (Looping i2 M (k + 1)) (remainingTime r1))
          as [[[c3 r3] t3]|] eqn:Hd3; [cbn [bind] in Heq | discriminate].
        injection Heq as <- <- <-.
        assert (HsD : passDuration (skeleton i2) = D) by (unfold D; congruence).
        assert (Hinner : takes_time (skeleton i2)) by (rewrite Hs2, Hs1; exact Htti).
        pose proof (IH (Looping i2 M (k + 1)) (remainingTime r1) c3 r3 t3) as Hrec.
        cbn [consumed skeleton passDuration running wf_controller takes_time] in Hrec.
        rewrite HsD, Hc2 in Hrec.
        replace ((k + 1) * D + 0 + remainingTime r1) with (k * D + consumed inner + e)
          in Hrec by lia.
        apply Hrec; try assumption; try lia.
        -- conj; [now apply Hw2 | unfold is_uint32; lia | unfold is_uint32; lia].
        -- split; [exact Hinner | exact HMpos].
        -- split; [exact Hr2 | lia].
Qed.

(** A sequence of calls that stays below the duration of a pass. *)
Lemma run_tree_before_total interval sk fuel :
  (enoughFuel sk <= fuel)%nat -> takes_time sk ->
  forall es c,
    skeleton c = sk -> wf_controller c -> running c -> Forall is_uint32 es ->
    consumed c + sum es < passDuration sk -> consumed c + sum es < UINT32_MOD ->
    exists c' results tr,
      Run.controller interval fuel c es = Ok (c', results, tr) /\
      skeleton c' = sk /\ wf_controller c' /\ running c' /\
      Forall (fun r => finished r = false) results /\
      length results = length es /\
      consumed c' = consumed c + sum es.
Proof.
  intros Hfuel Htt. induction es as [|e es IH]; intros c Hsk Hwf Hrun Hes Hlt Hsmall.
  - exists c, [], []. simpl. conj; auto. lia.
  - inversion Hes as [|? ? He Hes']; subst. cbn [sum fold_right] in Hlt, Hsmall.
    fold (sum es) in Hlt, Hsmall.
    pose proof (sum_nonneg es Hes') as Hsum. pose proof He as He'.
    unfold is_uint32 in He'.
    destruct (doControl_total interval (skeleton c) c eq_refl Hwf e fuel He Hfuel)
      as (c1 & r1 & t1 & Hd & Hs1 & Hw1 & _).
    destruct (tree_step interval fuel c e c1 r1 t1 Hwf Htt Hrun ltac:(lia)
                ltac:(lia) Hd) as [Hbefore _].
    destruct (Hbefore ltac:(lia)) as (Hf1 & Hr1 & Hc1).
    destruct (IH c1 Hs1 Hw1 Hr1 Hes' ltac:(lia) ltac:(lia))
      as (c2 & rs & t2 & Hrest & Hs2 & Hw2 & Hr2 & Hall & Hlen & Hc2).
    exists c2, (r1 :: rs), (t1 ++ t2). cbn [Run.controller].
    rewrite Hd. cbn [bind]. rewrite Hrest. cbn [bind].
    conj; try assumption; try reflexivity.
    + constructor; assumption.
    + simpl. now rewrite Hlen.
    + cbn [sum fold_right]. fold (sum es). lia.
Qed.

(** X7: conservation of time through repeaters.  For a tree of repeaters
    over a state machine, nested to any depth, started from the state that
    [reset] leaves and given less than 2^32 in all: as long as the elapsed
    times of the calls add up to less than the duration of a pass (the
    product of the counts and of the total duration of the machine), every
    call returns not done and the tree accounts for exactly the time it was
    given; and the call that reaches or passes that duration reports done
    with what goes beyond it as the remainder. *)
Theorem tree_conservation_of_time interval c0 es fuel :
  wf_controller c0 -> takes_time (skeleton c0) ->
  Forall is_uint32 es ->
  sum es < passDuration (skeleton c0) -> sum es < UINT32_MOD ->
  (enoughFuel (skeleton c0) <= fuel)%nat ->
  exists c' results tr,
    Run.controller interval fuel (fst (reset c0)) es = Ok (c', results, tr) /\
    Forall (fun r => finished r = false) results /\
    length results = length es /\
    consumed c' = sum es /\
    forall e,
      0 <= e -> passDuration (skeleton c0) <= sum es + e < UINT32_MOD ->
      exists c'' result tr',
        doControl interval fuel c' e = Ok (c'', result, tr') /\
        finished result = true /\
        remainingTime result = sum es + e - passDuration (skeleton c0).
Proof.
  intros Hwf Htt Hes Hlt Hsmall Hfuel.
  destruct (reset_preserves c0) as (Hs0 & Hw0 & _). specialize (Hw0 Hwf).
  pose proof (consumed_reset c0 Hwf) as Hc0.
  pose proof (running_reset c0 Htt) as Hr0.
  destruct (run_tree_before_total interval (skeleton c0) fuel Hfuel Htt es
              (fst (reset c0)) Hs0 Hw0 Hr0 Hes ltac:(lia) ltac:(lia))
    as (c' & rs & tr & Hrun & Hs' & Hw' & Hr' & Hall & Hlen & Hc').
  exists c', rs, tr. rewrite Hc0 in Hc'. simpl in Hc'.
  conj; try assumption.
  intros e He Hreach.
  destruct (doControl_total interval (skeleton c0) c' Hs' Hw' e fuel
              ltac:(pose proof (sum_nonneg es Hes); unfold is_uint32; lia) Hfuel)
    as (c2 & r2 & t2 & Hd & _).
  exists c2, r2, t2. split; [exact Hd|].
  destruct (tree_step interval fuel c' e c2 r2 t2 Hw'
              ltac:(now rewrite Hs') Hr' He ltac:(lia) Hd) as [_ Hpast].
  rewrite Hs', Hc' in Hpast. apply Hpast. lia.
Qed.

Lemma tree_conservation_of_time_witness :
  exists c' results tr,
    Run.controller MAIN_PWM_ANIMATION_INTERVAL 64
      (fst (reset fastTwoLedCombinationsControllerLoop)) [0; 4900; 7000; 8000]
      = Ok (c', results, tr) /\
    Forall (fun r => finished r = false) results /\
    length results = length [0; 4900; 7000; 8000] /\
    consumed c' = sum [0; 4900; 7000; 8000] /\
    forall e,
      0 <= e ->
      passDuration (skeleton fastTwoLedCombinationsControllerLoop)
        <= sum [0; 4900; 7000; 8000] + e < UINT32_MOD ->
      exists c'' result tr',
        doControl MAIN_PWM_ANIMATION_INTERVAL 64 c' e = Ok (c'', result, tr') /\
        finished result = true /\
        remainingTime result
          = sum [0; 4900; 7000; 8000] + e
            - passDuration (skeleton fastTwoLedCombinationsControllerLoop).
Proof.
  apply (tree_conservation_of_time MAIN_PWM_ANIMATION_INTERVAL
           fastTwoLedCombinationsControllerLoop [0; 4900; 7000; 8000] 64).
  - apply wf_loop; [|reflexivity].
    apply wf_class_TwoLedCombinations, is_uint32_literal. reflexivity.
  - apply takes_time_loop; [|vm_compute; reflexivity | reflexivity].
    apply wf_class_TwoLedCombinations, is_uint32_literal. reflexivity.
  - apply Forall_uint32_literals. reflexivity.
  - vm_compute. reflexivity.
  - vm_compute. reflexivity.
  - vm_compute. lia.
Defined.

(** ** The switch and the driver *)

(** A call of the loop of the switch that returns has kept the table and
    left the cursor inside it. *)
Lemma doWhile_inv interval table :
  Z.of_nat (length table) < UINT8_MOD ->
  forall fuel sw t sw' sleepTime tr,
    switch_inv table sw -> is_uint32 t ->
    SW.doWhile interval fuel sw t = Ok (sw', sleepTime, tr) ->
    switch_inv table sw'.
Proof.
  intros Hlen.
  induction fuel as [|fuel IH]; intros sw t sw' sleepTime tr Hinv Ht Heq;
    [discriminate|].
  pose proof Hinv as (_ & _ & Hcur).
  destruct (switch_inv_lookup table sw _ Hinv Hcur)
    as (cur & sk & Hget & Hsk & Hskel & Hwf & _).
  rewrite doWhile_S, Hget in Heq.
  destruct (doControl interval fuel cur t) as [[[c1 r1] t1]|] eqn:Hd;
    [cbn [bind] in Heq | discriminate].
  destruct (doControl_preserves interval fuel cur t c1 r1 t1 Hwf Ht Hd)
    as (Hs1 & Hw1 & Hr1).
  destruct (store_inv table sw cur c1 Hinv Hget Hs1 Hw1) as (Hinv1 & Hcount).
  destruct (finished r1).
  - cbv zeta in Heq.
    set (sw1 := SW.store sw (SW._currentControllerIndex sw) c1) in *.
    set (next := SW.nextIndex (SW.getControllerCount sw1)
                   (SW._currentControllerIndex sw1)) in *.
    assert (Hnext : 0 <= next < Z.of_nat (length table)).
    { unfold next. rewrite Hcount. apply nextIndex_range; [lia|].
      destruct Hinv1 as (_ & _ & H). exact H. }
    destruct (switchToController_inv table sw1 next Hinv1 Hnext) as (Hinv2 & _).
    destruct (SW.switchToController sw1 next) as [sw2 tr2]. simpl fst in Hinv2.
    destruct (SW.doWhile interval fuel sw2 (remainingTime r1))
      as [[[sw3 s3] t3]|] eqn:Hd3; [cbn [bind] in Heq | discriminate].
    injection Heq as <- <- <-.
    exact (IH sw2 (remainingTime r1) sw3 s3 t3 Hinv2 Hr1 Hd3).
  - injection Heq as <- <- <-. exact Hinv1.
Qed.

(** What a call of the loop of the switch that returns has kept, and the
    sleep time it yields. *)
Lemma doWhile_sleep interval table :
  0 < interval < UINT32_MOD -> Z.of_nat (length table) < UINT8_MOD ->
  forall fuel sw t sw' sleepTime tr,
    switch_inv table sw -> is_uint32 t ->
    SW.doWhile interval fuel sw t = Ok (sw', sleepTime, tr) ->
    switch_inv table sw' /\ 0 < sleepTime < UINT32_MOD.
Proof.
  intros Hint Hlen.
  induction fuel as [|fuel IH]; intros sw t sw' sleepTime tr Hinv Ht Heq;
    [discriminate|].
  pose proof Hinv as (_ & _ & Hcur).
  destruct (switch_inv_lookup table sw _ Hinv Hcur)
    as (cur & sk & Hget & Hsk & Hskel & Hwf & _).
  rewrite doWhile_S, Hget in Heq.
  destruct (doControl interval fuel cur t) as [[[c1 r1] t1]|] eqn:Hd;
    [cbn [bind] in Heq | discriminate].
  destruct (doControl_preserves interval fuel cur t c1 r1 t1 Hwf Ht Hd)
    as (Hs1 & Hw1 & Hr1).
  destruct (store_inv table sw cur c1 Hinv Hget Hs1 Hw1) as (Hinv1 & Hcount).
  destruct (finished r1) eqn:Hfin.
  - cbv zeta in Heq.
    set (sw1 := SW.store sw (SW._currentControllerIndex sw) c1) in *.
    set (next := SW.nextIndex (SW.getControllerCount sw1)
                   (SW._currentControllerIndex sw1)) in *.
    assert (Hnext : 0 <= next < Z.of_nat (length table)).
    { unfold next. rewrite Hcount. apply nextIndex_range; [lia|].
      destruct Hinv1 as (_ & _ & H). exact H. }
    destruct (switchToController_inv table sw1 next Hinv1 Hnext) as (Hinv2 & _).
    destruct (SW.switchToController sw1 next) as [sw2 tr2]. simpl fst in Hinv2.
    destruct (SW.doWhile interval fuel sw2 (remainingTime r1))
      as [[[sw3 s3] t3]|] eqn:Hd3; [cbn [bind] in Heq | discriminate].
    injection Heq as <- <- <-.
    exact (IH sw2 (remainingTime r1) sw3 s3 t3 Hinv2 Hr1 Hd3).
  - injection Heq as <- <- <-. split; [exact Hinv1|].
    destruct (tree_result interval fuel cur t c1 r1 t1 Hint Hwf Ht Hd)
      as [[Hb _] | [_ Hs]]; [|exact Hs].
    rewrite Hb in Hfin. discriminate.
Qed.

Lemma doWhile_fault interval table :
  Z.of_nat (length table) < UINT8_MOD ->
  forall fuel sw t f,
    switch_inv table sw -> is_uint32 t ->
    SW.doWhile interval fuel sw t = Crash f -> f = OutOfFuel.
Proof.
  intros Hlen.
  induction fuel as [|fuel IH]; intros sw t f Hinv Ht Heq;
    [now injection Heq as <-|].
  pose proof Hinv as (_ & _ & Hcur).
  destruct (switch_inv_lookup table sw _ Hinv Hcur)
    as (cur & sk & Hget & Hsk & Hskel & Hwf & _).
  rewrite doWhile_S, Hget in Heq.
  destruct (doControl interval fuel cur t) as [[[c1 r1] t1]|f1] eqn:Hd;
    cbn [bind] in Heq.
  - destruct (doControl_preserves interval fuel cur t c1 r1 t1 Hwf Ht Hd)
      as (Hs1 & Hw1 & Hr1).
    destruct (store_inv table sw cur c1 Hinv Hget Hs1 Hw1) as (Hinv1 & Hcount).
    destruct (finished r1); [|discriminate].
    cbv zeta in Heq.
    set (sw1 := SW.store sw (SW._currentControllerIndex sw) c1) in *.
    set (next := SW.nextIndex (SW.getControllerCount sw1)
                   (SW._currentControllerIndex sw1)) in *.
    assert (Hnext : 0 <= next < Z.of_nat (length table)).
    { unfold next. rewrite Hcount. apply nextIndex_range; [lia|].
      destruct Hinv1 as (_ & _ & H). exact H. }
    destruct (switchToController_inv table sw1 next Hinv1 Hnext) as (Hinv2 & _).
    destruct (SW.switchToController sw1 next) as [sw2 tr2]. simpl fst in Hinv2.
    destruct (SW.doWhile interval fuel sw2 (remainingTime r1))
      as [[[sw3 s3] t3]|f3] eqn:Hd3; cbn [bind] in Heq; [discriminate|].
    injection Heq as <-. exact (IH sw2 (remainingTime r1) f3 Hinv2 Hr1 Hd3).
  - injection Heq as <-. now apply tree_fault in Hd.
Qed.

(** X8: the switch never calls through the null pointer.  For a table of
    fewer than 256 nodes, [reset] puts the cursor on node 0 and a call
    leaves it inside the table, whatever the nodes do with their time; so
    [getControllerByIndex] never answers the null pointer of its [default]
    case to [doControl], which does not test for it: the only way in which
    a call of the model does not return is by want of fuel. *)
Theorem switch_never_calls_null interval table fuel sw t :
  0 < Z.of_nat (length table) < UINT8_MOD ->
  switch_inv table sw -> is_uint32 t ->
  switch_inv table (fst (SW.reset sw)) /\
  SW._currentControllerIndex (fst (SW.reset sw)) = 0 /\
  (forall f, SW.doControl interval fuel sw t = Crash f -> f = OutOfFuel) /\
  (forall sw' result tr,
     SW.doControl interval fuel sw t = Ok (sw', result, tr) ->
     switch_inv table sw' /\
     exists c,
       SW.getControllerByIndex sw' (SW._currentControllerIndex sw') = Some c).
Proof.
  intros Hlen Hinv Ht.
  destruct (switchToController_inv table sw 0 Hinv ltac:(lia)) as (Hr1 & Hr2 & _).
  conj; [exact Hr1 | exact Hr2 | |].
  - intros f Heq. unfold SW.doControl in Heq.
    destruct (SW.doWhile interval fuel sw t) as [[[sw1 s1] t1]|f1] eqn:Hd;
      cbn [bind] in Heq; [discriminate|].
    injection Heq as <-.
    exact (doWhile_fault interval table ltac:(lia) fuel sw t f1 Hinv Ht Hd).
  - intros sw' result tr Heq. unfold SW.doControl in Heq.
    destruct (SW.doWhile interval fuel sw t) as [[[sw1 s1] t1]|f1] eqn:Hd;
      cbn [bind] in Heq; [|discriminate].
    injection Heq as <- <- <-.
    pose proof (doWhile_inv interval table ltac:(lia) fuel sw t sw1 s1 t1 Hinv Ht Hd)
      as Hinv'.
    split; [exact Hinv'|].
    pose proof Hinv' as (_ & _ & Hcur').
    destruct (switch_inv_lookup table sw1 _ Hinv' Hcur') as (c & _ & Hget & _).
    now exists c.
Qed.

Lemma switch_never_calls_null_witness :
  switch_inv (map skeleton (SW.controllers mainController))
    (fst (SW.reset mainController)) /\
  SW._currentControllerIndex (fst (SW.reset mainController)) = 0 /\
  (forall f,
     SW.doControl MAIN_PWM_ANIMATION_INTERVAL 100 mainController 20000 = Crash f ->
     f = OutOfFuel) /\
  (forall sw' result tr,
     SW.doControl MAIN_PWM_ANIMATION_INTERVAL 100 mainController 20000
       = Ok (sw', result, tr) ->
     switch_inv (map skeleton (SW.controllers mainController)) sw' /\
     exists c,
       SW.getControllerByIndex sw' (SW._currentControllerIndex sw') = Some c).
Proof.
  apply (switch_never_calls_null MAIN_PWM_ANIMATION_INTERVAL
           (map skeleton (SW.controllers mainController)) 100 mainController 20000).
  - simpl. unfold UINT8_MOD. lia.
  - exact mainController_inv.
  - unfold is_uint32, UINT32_MOD. lia.
Defined.

(** X9: the results of the nodes.  With a tick that is a positive
    [uint32_t], a call on a node of the tree returns either done, with no
    sleep time and a remainder that is a [uint32_t], or not done, with no
    remainder and a sleep time that is a positive [uint32_t]; and a call on
    the switch returns not done with a positive sleep time: a caller that
    sleeps the suggested time never spins. *)
Theorem workstate_contract interval :
  0 < interval < UINT32_MOD ->
  (forall fuel c e c' result tr,
     wf_controller c -> is_uint32 e ->
     doControl interval fuel c e = Ok (c', result, tr) ->
     (result = finishedWorkState (remainingTime result) /\
      is_uint32 (remainingTime result)) \/
     (result = unfinishedWorkState (suggestedSleepTime result) /\
      0 < suggestedSleepTime result < UINT32_MOD)) /\
  (forall table fuel sw t sw' result tr,
     Z.of_nat (length table) < UINT8_MOD ->
     switch_inv table sw -> is_uint32 t ->
     SW.doControl interval fuel sw t = Ok (sw', result, tr) ->
     result = unfinishedWorkState (suggestedSleepTime result) /\
     0 < suggestedSleepTime result < UINT32_MOD).
Proof.
  intros Hint. split.
  - intros fuel c e c' result tr Hwf He Heq.
    exact (tree_result interval fuel c e c' result tr Hint Hwf He Heq).
  - intros table fuel sw t sw' result tr Hlen Hinv Ht Heq.
    unfold SW.doControl in Heq.
    destruct (SW.doWhile interval fuel sw t) as [[[sw1 s1] t1]|] eqn:Hd;
      [cbn [bind] in Heq | discriminate].
    injection Heq as <- <- <-. split; [reflexivity|]. simpl.
    exact (proj2 (doWhile_sleep interval table Hint Hlen fuel sw t sw1 s1 t1
                    Hinv Ht Hd)).
Qed.

Lemma workstate_contract_witness :
  (forall fuel c e c' result tr,
     wf_controller c -> is_uint32 e ->
     doControl MAIN_PWM_ANIMATION_INTERVAL fuel c e = Ok (c', result, tr) ->
     (result = finishedWorkState (remainingTime result) /\
      is_uint32 (remainingTime result)) \/
     (result = unfinishedWorkState (suggestedSleepTime result) /\
      0 < suggestedSleepTime result < UINT32_MOD)) /\
  (forall table fuel sw t sw' result tr,
     Z.of_nat (length table) < UINT8_MOD ->
     switch_inv table sw -> is_uint32 t ->
     SW.doControl MAIN_PWM_ANIMATION_INTERVAL fuel sw t = Ok (sw', result, tr) ->
     result = unfinishedWorkState (suggestedSleepTime result) /\
     0 < suggestedSleepTime result < UINT32_MOD).
Proof.
  apply (workstate_contract MAIN_PWM_ANIMATION_INTERVAL).
  unfold MAIN_PWM_ANIMATION_INTERVAL, UINT32_MOD. lia.
Defined.

(** *** The driver *)

Lemma rounds_mono interval f f' : forall n sw s r,
  (f <= f')%nat ->
  rounds interval f n sw s = Ok r -> rounds interval f' n sw s = Ok r.
Proof.
  induction n as [|n IH]; intros sw s r Hle; [trivial|]. cbn [rounds].
  destruct (SW.doControl interval f sw s) as [[[sw1 r1] t1]|] eqn:Hd;
    [cbn [bind] | discriminate].
  rewrite (switch_doControl_mono interval f f' sw s _ Hle Hd). cbn [bind].
  destruct (rounds interval f n sw1 (suggestedSleepTime r1)) as [[[sw2 ss] t2]|] eqn:Hr;
    [cbn [bind] | discriminate].
  now rewrite (IH sw1 _ _ Hle Hr).
Qed.

Lemma rounds_total interval table :
  0 < interval < UINT32_MOD ->
  Forall takes_time table -> Z.of_nat (length table) < UINT8_MOD ->
  forall n sw s,
    is_uint32 s -> switch_inv table sw ->
    exists fuel sw' sleepTimes tr,
      rounds interval fuel n sw s = Ok (sw', sleepTimes, tr) /\
      length sleepTimes = n /\
      Forall (fun sleepTime => 0 < sleepTime < UINT32_MOD) sleepTimes.
Proof.
  intros Hint Htt Hlen. induction n as [|n IH]; intros sw s Hs Hinv.
  - exists 0%nat, sw, [], []. simpl. auto.
  - destruct (doWhile_total interval table sw s Htt Hlen Hs Hinv)
      as (f1 & sw1 & s1 & t1 & Heq & Hinv1).
    destruct (doWhile_sleep interval table Hint Hlen f1 sw s sw1 s1 t1 Hinv Hs Heq)
      as (_ & Hs1).
    destruct (IH sw1 s1 ltac:(unfold is_uint32; lia) Hinv1)
      as (f2 & sw' & ss & tr & Hrun & Hl & Hall).
    exists (Nat.max f1 f2), sw', (s1 :: ss), (t1 ++ tr).
    cbn [rounds]. unfold SW.doControl.
    rewrite (doWhile_mono interval f1 _ sw s _ (Nat.le_max_l _ _) Heq). cbn [bind].
    cbn [suggestedSleepTime unfinishedWorkState].
    rewrite (rounds_mono interval f2 _ n sw1 s1 _ (Nat.le_max_r _ _) Hrun). cbn [bind].
    conj; [reflexivity | simpl; now rewrite Hl | now constructor].
Qed.

(** X10: the driver never stalls and never spins.  For a table of nodes
    every pass of which takes time, the driver ([loop()]: a reset, then for
    ever a call with the time just slept) gets an answer at every turn,
    however many turns it has made, and every sleep time it is told is a
    positive [uint32_t]. *)
Theorem driver_never_stalls interval table sw n :
  0 < interval < UINT32_MOD ->
  Forall takes_time table -> 0 < Z.of_nat (length table) < UINT8_MOD ->
  switch_inv table sw ->
  exists fuel sw' sleepTimes tr,
    loop interval fuel n sw = Ok (sw', sleepTimes, tr) /\
    length sleepTimes = n /\
    Forall (fun sleepTime => 0 < sleepTime < UINT32_MOD) sleepTimes.
Proof.
  intros Hint Htt Hlen Hinv.
  destruct (switchToController_inv table sw 0 Hinv ltac:(lia)) as (Hinv0 & _).
  destruct (rounds_total interval table Hint Htt ltac:(lia) n (fst (SW.reset sw)) 0
              ltac:(unfold is_uint32, UINT32_MOD; lia) Hinv0)
    as (fuel & sw' & ss & tr & Hrun & Hl & Hall).
  exists fuel, sw', ss, (snd (SW.reset sw) ++ tr). unfold loop.
  destruct (SW.reset sw) as [sw0 tr0]. simpl fst in *. simpl snd.
  rewrite Hrun. cbn [bind]. auto.
Qed.

Lemma driver_never_stalls_witness :
  exists fuel sw' sleepTimes tr,
    loop MAIN_PWM_ANIMATION_INTERVAL fuel 25 mainController = Ok (sw', sleepTimes, tr) /\
    length sleepTimes = 25%nat /\
    Forall (fun sleepTime => 0 < sleepTime < UINT32_MOD) sleepTimes.
Proof.
  apply (driver_never_stalls MAIN_PWM_ANIMATION_INTERVAL
           (map skeleton (SW.controllers mainController)) mainController 25).
  - unfold MAIN_PWM_ANIMATION_INTERVAL, UINT32_MOD. lia.
  - exact mainController_takes_time.
  - simpl. unfold UINT8_MOD. lia.
  - exact mainController_inv.
Defined.

(** ** The second sketch *)

Lemma wf_class_Combination d t :
  is_uint32 d -> wf_class (CombinationController.class d t).
Proof. intros H. split; [simpl; unfold UINT8_MOD; lia | intros i; exact H]. Qed.

Lemma wf_class_FlowingTwoLeds d :
  is_uint32 d -> wf_class (FlowingTwoLedsController.class d).
Proof. intros H. split; [simpl; unfold UINT8_MOD; lia | intros i; exact H]. Qed.

Lemma wf_class_SloGlo t s : wf_class (SloGloController.class t s).
Proof. split; [simpl; unfold UINT8_MOD; lia | intros i; apply wrap32_range]. Qed.

Lemma wf_class_AllInOneFade a b c d : wf_class (AllInOneFadeController.class a b c d).
Proof.
  split; [simpl; unfold UINT8_MOD; lia|]. intros i. simpl.
  unfold AllInOneFadeController.getStateDuration.
  destruct (i =? 0); apply wrap32_range.
Qed.

Lemma wf_class_chasingFlash : wf_class chasingFlashController.
Proof.
  split.
  - replace (SC._maxStateIndex chasingFlashController) with 40
      by (vm_compute; reflexivity).
    unfold UINT8_MOD. lia.
  - intros i. simpl. unfold ChasingFlashController.getStateDuration.
    destruct (i <? _); apply is_uint32_literal; reflexivity.
Qed.

Lemma secondMainController_takes_time :
  Forall takes_time (map skeleton (SW.controllers secondMainController)).
Proof.
  cbn [map skeleton SW.controllers secondMainController
       combinationControllerLoop slowCombinationControllerLoop
       slowFlowingTwoLedsControllerLoop mediumFlowingTwoLedsControllerLoop
       fastFlowingTwoLedsControllerLoop sloGloControllerLoop fastGloControllerLoop
       chasingFlashControllerLoop slowAllInOneFadeControllerLoop
       fastAllInOneFadeControllerLoop].
  repeat apply Forall_cons; try apply Forall_nil;
    (apply takes_time_loop; [| vm_compute; reflexivity | reflexivity]).
  - apply wf_class_Combination, is_uint32_literal. reflexivity.
  - apply wf_class_Combination, is_uint32_literal. reflexivity.
  - apply wf_class_FlowingTwoLeds, is_uint32_literal. reflexivity.
  - apply wf_class_FlowingTwoLeds, is_uint32_literal. reflexivity.
  - apply wf_class_FlowingTwoLeds, is_uint32_literal. reflexivity.
  - apply wf_class_SloGlo.
  - apply wf_class_SloGlo.
  - apply wf_class_chasingFlash.
  - apply wf_class_AllInOneFade.
  - apply wf_class_AllInOneFade.
Qed.

Lemma secondMainController_inv :
  switch_inv (map skeleton (SW.controllers secondMainController)) secondMainController.
Proof.
  unfold switch_inv. conj; [reflexivity | | simpl; lia | simpl; lia].
  cbn [SW.controllers secondMainController
       combinationControllerLoop slowCombinationControllerLoop
       slowFlowingTwoLedsControllerLoop mediumFlowingTwoLedsControllerLoop
       fastFlowingTwoLedsControllerLoop sloGloControllerLoop fastGloControllerLoop
       chasingFlashControllerLoop slowAllInOneFadeControllerLoop
       fastAllInOneFadeControllerLoop].
  repeat apply Forall_cons; try apply Forall_nil;
    (apply wf_loop; [|reflexivity]).
  - apply wf_class_Combination, is_uint32_literal. reflexivity.
  - apply wf_class_Combination, is_uint32_literal. reflexivity.
  - apply wf_class_FlowingTwoLeds, is_uint32_literal. reflexivity.
  - apply wf_class_FlowingTwoLeds, is_uint32_literal. reflexivity.
  - apply wf_class_FlowingTwoLeds, is_uint32_literal. reflexivity.
  - apply wf_class_SloGlo.
  - apply wf_class_SloGlo.
  - apply wf_class_chasingFlash.
  - apply wf_class_AllInOneFade.
  - apply wf_class_AllInOneFade.
Qed.

(** X11: the second sketch.  Its main controller, a table of ten
    repeaters, never reports done: from the state that [reset] leaves,
    every call of every sequence of calls returns, and returns not done;
    and its driver gets an answer at every turn, with a sleep time that is
    a positive [uint32_t]. *)
Theorem second_sketch_never_done :
  (forall es,
     Forall is_uint32 es ->
     exists fuel sw' results tr,
       Run.switch SECOND_PWM_ANIMATION_INTERVAL fuel
         (fst (SW.reset secondMainController)) es = Ok (sw', results, tr) /\
       Forall (fun r => finished r = false) results /\
       length results = length es) /\
  (forall n,
     exists fuel sw' sleepTimes tr,
       loop SECOND_PWM_ANIMATION_INTERVAL fuel n secondMainController
         = Ok (sw', sleepTimes, tr) /\
       length sleepTimes = n /\
       Forall (fun sleepTime => 0 < sleepTime < UINT32_MOD) sleepTimes).
Proof.
  assert (Hlen : 0 < Z.of_nat (length (map skeleton (SW.controllers secondMainController)))
                 < UINT8_MOD) by (simpl; unfold UINT8_MOD; lia).
  split.
  - intros es Hes.
    apply (run_switch_total SECOND_PWM_ANIMATION_INTERVAL
             (map skeleton (SW.controllers secondMainController))
             secondMainController_takes_time ltac:(lia) es _ Hes).
    apply (switchToController_inv _ secondMainController 0 secondMainController_inv).
    lia.
  - intros n.
    destruct (switchToController_inv _ secondMainController 0 secondMainController_inv
                ltac:(lia)) as (Hinv0 & _).
    destruct (rounds_total SECOND_PWM_ANIMATION_INTERVAL
                (map skeleton (SW.controllers secondMainController))
                ltac:(unfold SECOND_PWM_ANIMATION_INTERVAL, UINT32_MOD; lia)
                secondMainController_takes_time ltac:(lia) n
                (fst (SW.reset secondMainController)) 0
                ltac:(unfold is_uint32, UINT32_MOD; lia) Hinv0)
      as (fuel & sw' & ss & tr & Hrun & Hl & Hall).
    exists fuel, sw', ss, (snd (SW.reset secondMainController) ++ tr). unfold loop.
    destruct (SW.reset secondMainController) as [sw0 tr0]. simpl fst in *. simpl snd.
    rewrite Hrun. cbn [bind]. auto.
Qed.

(** ** [reset], twice *)

Lemma runCommands_trace cs : forall s s',
  snd (SC.runCommands s cs) = snd (SC.runCommands s' cs).
Proof.
  induction cs as [|c cs IH]; intros s s'; [reflexivity|]. simpl.
  specialize (IH (fst (SC.runCommand s c)) (fst (SC.runCommand s' c))).
  assert (Hc : snd (SC.runCommand s c) = snd (SC.runCommand s' c))
    by (destruct c; reflexivity).
  destruct (SC.runCommand s c) as [s1 t1], (SC.runCommand s' c) as [s1' t1'].
  simpl in *.
  destruct (SC.runCommands s1 cs), (SC.runCommands s1' cs). simpl in *. congruence.
Qed.

Lemma runCommands_no_fade cs : forall s,
  existsb starts_fade cs = false -> fst (SC.runCommands s cs) = s.
Proof.
  induction cs as [|c cs IH]; intros s H; [reflexivity|]. simpl in *.
  apply orb_false_iff in H as [Hc Hcs].
  assert (Hs : fst (SC.runCommand s c) = s) by (destruct c; [reflexivity..|discriminate]).
  specialize (IH (fst (SC.runCommand s c)) Hcs).
  destruct (SC.runCommand s c) as [s1 t1]. simpl in *.
  destruct (SC.runCommands s1 cs). simpl in *. congruence.
Qed.

Lemma runCommands_fade cs : forall s s',
  SC._currentStateIndex s = SC._currentStateIndex s' ->
  SC._timeSpentOnCurrentState s = SC._timeSpentOnCurrentState s' ->
  existsb starts_fade cs = true ->
  fst (SC.runCommands s cs) = fst (SC.runCommands s' cs).
Proof.
  induction cs as [|c cs IH]; intros s s' Hi Ht H; [discriminate|]. simpl in *.
  destruct (starts_fade c) eqn:Hc.
  - assert (Hs : fst (SC.runCommand s c) = fst (SC.runCommand s' c)).
    { destruct c; try discriminate. simpl. unfold SC.startPwmTransition. simpl.
      now rewrite Hi, Ht. }
    destruct (SC.runCommand s c) as [s1 t1], (SC.runCommand s' c) as [s1' t1'].
    simpl in Hs. subst s1'.
    destruct (SC.runCommands s1 cs). reflexivity.
  - assert (Hs : fst (SC.runCommand s c) = s /\ fst (SC.runCommand s' c) = s')
      by (destruct c; try discriminate; split; reflexivity).
    destruct Hs as [Hs Hs'].
    specialize (IH (fst (SC.runCommand s c)) (fst (SC.runCommand s' c))).
    rewrite Hs, Hs' in IH. specialize (IH Hi Ht H).
    destruct (SC.runCommand s c) as [s1 t1], (SC.runCommand s' c) as [s1' t1'].
    simpl in *. subst.
    destruct (SC.runCommands s cs), (SC.runCommands s' cs). simpl in *. congruence.
Qed.

Lemma stateful_reset_twice cls st :
  SC.reset cls (fst (SC.reset cls st)) = SC.reset cls st.
Proof.
  unfold SC.reset, SC.activate.
  set (cs := SC.applyLedStatesForState cls 0).
  set (s0 := SC.set_position st 0 0).
  pose proof (runCommands_position cs s0) as (Hi & Ht & _).
  assert (Hstate : fst (SC.runCommands
                          (SC.set_position (fst (SC.runCommands s0 cs)) 0 0) cs)
                   = fst (SC.runCommands s0 cs)).
  { destruct (existsb starts_fade cs) eqn:Hfade.
    - apply runCommands_fade; [reflexivity | reflexivity | exact Hfade].
    - rewrite (runCommands_no_fade cs s0 Hfade).
      change (SC.set_position s0 0 0) with s0.
      apply runCommands_no_fade, Hfade. }
  pose proof (runCommands_trace cs
                (SC.set_position (fst (SC.runCommands s0 cs)) 0 0) s0) as Htrace.
  destruct (SC.runCommands s0 cs) as [s1 t1]. simpl fst in *. simpl snd in *.
  destruct (SC.runCommands (SC.set_position s1 0 0) cs) as [s2 t2]. simpl in *.
  congruence.
Qed.

Lemma tree_reset_twice c : reset (fst (reset c)) = reset c.
Proof.
  induction c as [cls st | inner IH M k]; simpl.
  - pose proof (stateful_reset_twice cls st) as H.
    destruct (SC.reset cls st) as [s1 t1]. simpl in *. now rewrite H.
  - destruct (reset inner) as [i1 t1]. simpl in *. now rewrite IH.
Qed.

Lemma replace_nth_twice : forall l n c c',
  SW.replace_nth (SW.replace_nth l n c) n c' = SW.replace_nth l n c'.
Proof.
  induction l as [|x l IH]; intros [|n] c c'; simpl; try reflexivity.
  now rewrite IH.
Qed.

(** X12: [reset] is idempotent.  A second [reset] of a node of the tree,
    or of the switch, leaves the state that the first one has left and
    writes to the sink what the first one has written: the fade that the
    callback of state 0 starts, if it starts one, is set up again with the
    same snapshots and the same length. *)
Theorem reset_idempotent :
  (forall cls st, SC.reset cls (fst (SC.reset cls st)) = SC.reset cls st) /\
  (forall c, reset (fst (reset c)) = reset c) /\
  (forall sw, SW.reset (fst (SW.reset sw)) = SW.reset sw).
Proof.
  conj; [exact stateful_reset_twice | exact tree_reset_twice |].
  intros [l i]. unfold SW.reset, SW.switchToController, SW.getControllerByIndex, SW.store.
  cbn [SW.controllers SW._currentControllerIndex Z.ltb Z.compare Z.to_nat].
  destruct l as [|c l]; [reflexivity|]. cbn [nth_error].
  pose proof (tree_reset_twice c) as H.
  destruct (reset c) as [c1 t1]. cbn [fst SW.controllers SW._currentControllerIndex
    SW.replace_nth nth_error Z.ltb Z.compare Z.to_nat]. simpl in H. rewrite H.
  reflexivity.
Qed.

(** ** Tables of callbacks that chain *)

Ltac state_by_state :=
  let Hcases := fresh "Hcases" in
  intros i Hcases; simpl in Hcases;
  assert (i = 0 \/ i = 1 \/ i = 2 \/ i = 3 \/ i = 4 \/ i = 5 \/ i = 6 \/ i = 7 \/
          i = 8 \/ i = 9 \/ i = 10 \/ i = 11 \/ i = 12 \/ i = 13 \/ i = 14 \/
          i = 15 \/ i = 16 \/ i = 17 \/ i = 18 \/ i = 19) as Hi by lia;
  repeat (destruct Hi as [-> | Hi]); try subst i;
  first [ exfalso; lia
        | eexists _, _, _; conj; try reflexivity;
          unfold snapshot_zero_or_one, F32.is_zero_or_one; vm_compute; auto 10 ].

(** X13: the tables of the fading animations chain.  In each of the six
    animations of the two sketches that are made of fades, whatever the
    durations it is built with, the fade or the pattern that the callback
    of a state names ends on the snapshot on which that of the next state
    begins, and that of the last state on the snapshot on which that of
    state 0 begins, where the repeater starts the next iteration; every
    channel of these snapshots is 0.0 or 1.0; and in the combination
    animation, whose lookup has no [default], both lookups of every
    callback hit a case.  This is about the snapshots that the callbacks
    pass; what reaches the pins depends on the durations too, for a fade
    that is still in progress when its state ends is not completed. *)
Theorem fade_tables_chain
    fadeOut sustainOut fadeIn sustainIn delayIn delayOut
    singleIn singleSustainIn singleOut singleSustainOut
    allIn allSustainIn allOut allSustainOut
    iterationDuration transitionDuration sustainDuration offDuration :
  chained (TwoLedCombinationsFadeOutThenInController.class
             fadeOut sustainOut fadeIn sustainIn) /\
  chained (SequentialFadeController.class
             fadeIn sustainIn delayIn fadeOut sustainOut delayOut) /\
  chained (OneByOneFadeController.class
             singleIn singleSustainIn singleOut singleSustainOut
             allIn allSustainIn allOut allSustainOut) /\
  chained (CombinationController.class iterationDuration transitionDuration) /\
  chained (SloGloController.class transitionDuration sustainDuration) /\
  chained (AllInOneFadeController.class fadeIn sustainDuration fadeOut offDuration).
Proof.
  conj; unfold chained; state_by_state.
Qed.

(** ** The output sink *)

Lemma small_literal d :
  0 <= d < 256 -> In d (map Z.of_nat (seq 0 256)).
Proof.
  intros H. apply in_map_iff. exists (Z.to_nat d). split; [lia|].
  apply in_seq. lia.
Qed.

(** The conversions of the 256 differences of two limits, and their
    products with [0.0] and [1.0], by evaluation. *)
Lemma of_int_checked :
  forallb
    (fun d =>
       match of_int d with
       | S754_zero false => d =? 0
       | S754_finite false m e => (e <=? -16) && (Z.pos m =? d * 2 ^ (- e))
       | _ => false
       end)
    (map Z.of_nat (seq 0 256)) = true.
Proof. vm_compute. reflexivity. Qed.

Lemma endpoints_checked :
  forallb
    (fun d =>
       match to_uint8 (F32.mul F32.zero (of_int d)),
             to_uint8 (F32.mul F32.one (of_int d)) with
       | Some z, Some o => (z =? 0) && (o =? d)
       | _, _ => false
       end)
    (map Z.of_nat (seq 0 256)) = true.
Proof. vm_compute. reflexivity. Qed.

Lemma normalizePwmValue_endpoints lo hi :
  wf_limits lo hi ->
  normalizePwmValue F32.zero lo hi = Some lo /\
  normalizePwmValue F32.one lo hi = Some hi.
Proof.
  intros [Hlo Hhi]. unfold UINT8_MOD in Hhi.
  pose proof endpoints_checked as H. rewrite forallb_forall in H.
  specialize (H (hi - lo) (small_literal (hi - lo) ltac:(lia))).
  unfold normalizePwmValue.
  destruct (to_uint8 (F32.mul F32.zero (of_int (hi - lo)))) as [z|]; [|discriminate].
  destruct (to_uint8 (F32.mul F32.one (of_int (hi - lo)))) as [o|]; [|discriminate].
  apply andb_prop in H as [Hz Ho]. apply Z.eqb_eq in Hz, Ho. subst z o.
  split; rewrite wrap8_small by (unfold is_uint8, UINT8_MOD; lia); f_equal; lia.
Qed.

Lemma normalizePwmValue_literal (x : bool) lo hi :
  wf_limits lo hi ->
  normalizePwmValue (if x then F32.one else F32.zero) (wrap8 lo) (wrap8 hi)
    = Some (wrap8 (if x then hi else lo)).
Proof.
  intros H. pose proof H as [Hlo Hhi].
  destruct (normalizePwmValue_endpoints lo hi H) as [H0 H1].
  destruct x; rewrite !wrap8_small by (unfold is_uint8; lia); assumption.
Qed.

(** X14: a digital pattern and the same pattern as a snapshot drive the
    pins alike.  With limits that are [uint8_t] values, each minimum at
    most its maximum, [setNormalizedAnalogLedStates] on a snapshot whose
    channels are the literals 0.0 and 1.0 writes to the five pins exactly
    what [setLedStates] writes for the pattern: 1.0 is scaled to the
    maximum of the channel and 0.0 to its minimum, with no rounding
    error, so the end of a fade and the digital state that follows it show
    the same light. *)
Theorem digital_and_analog_agree B r a g b w :
  wf_brightness B ->
  pinWrites B (AnalogOut (leds r a g b w)) = pinWrites B (DigitalOut r a g b w).
Proof.
  intros (HR & HA & HG & HB & HW).
  unfold pinWrites, setNormalizedAnalogLedStates, setLedStates, leds, analogLedsState.
  cbn [red amber green blue white].
  rewrite (normalizePwmValue_literal r _ _ HR), (normalizePwmValue_literal a _ _ HA),
    (normalizePwmValue_literal g _ _ HG), (normalizePwmValue_literal b _ _ HB),
    (normalizePwmValue_literal w _ _ HW).
  reflexivity.
Qed.

Lemma wf_brightness_second : wf_brightness SECOND_BRIGHTNESS.
Proof. unfold wf_brightness, wf_limits, UINT8_MOD. simpl. lia. Qed.

Lemma digital_and_analog_agree_witness :
  pinWrites SECOND_BRIGHTNESS (AnalogOut (leds true false true true false))
  = pinWrites SECOND_BRIGHTNESS (DigitalOut true false true true false).
Proof.
  apply (digital_and_analog_agree SECOND_BRIGHTNESS true false true true false).
  exact wf_brightness_second.
Defined.

(** *** The duty value of a normalized intensity stays within the limits *)

Lemma shr_1_half mrs :
  0 <= shr_m mrs ->
  0 <= shr_m (shr_1 mrs) /\ shr_m (shr_1 mrs) * 2 <= shr_m mrs.
Proof.
  destruct mrs as [m r s]. simpl.
  destruct m as [|[p|p|]|[p|p|]]; simpl; lia.
Qed.

Lemma iter_shr_1_scale p : forall mrs,
  0 <= shr_m mrs ->
  0 <= shr_m (iter_pos shr_1 p mrs) /\
  shr_m (iter_pos shr_1 p mrs) * 2 ^ Z.pos p <= shr_m mrs.
Proof.
  induction p as [p IH | p IH |]; intros mrs H; simpl iter_pos.
  - destruct (shr_1_half mrs H) as [H1 H1'].
    destruct (IH (shr_1 mrs) H1) as [H2 H2'].
    destruct (IH (iter_pos shr_1 p (shr_1 mrs)) H2) as [H3 H3'].
    split; [exact H3|].
    replace (Z.pos p~1) with (Z.pos p + Z.pos p + 1) by lia.
    rewrite !Z.pow_add_r by lia. change (2 ^ 1) with 2.
    assert (0 < 2 ^ Z.pos p) by (apply Z.pow_pos_nonneg; lia). nia.
  - destruct (IH mrs H) as [H2 H2'].
    destruct (IH (iter_pos shr_1 p mrs) H2) as [H3 H3'].
    split; [exact H3|].
    replace (Z.pos p~0) with (Z.pos p + Z.pos p) by lia.
    rewrite Z.pow_add_r by lia.
    assert (0 < 2 ^ Z.pos p) by (apply Z.pow_pos_nonneg; lia). nia.
  - change (2 ^ 1) with 2. now apply shr_1_half.
Qed.

(** The shift to the exponent of the format divides the mantissa by the
    power of two it shifts by, rounding down. *)
Lemma shr_fexp_scale m e l mrs e' :
  0 <= m ->
  shr_fexp F32.prec F32.emax m e l = (mrs, e') ->
  0 <= shr_m mrs /\ e <= e' /\ shr_m mrs * 2 ^ (e' - e) <= m /\
  e' = Z.max e (fexp F32.prec F32.emax (Zdigits2 m + e)).
Proof.
  intros H0. unfold shr_fexp, shr.
  assert (Hm : shr_m (shr_record_of_loc m l) = m) by (destruct l as [|[]]; reflexivity).
  destruct (fexp F32.prec F32.emax (Zdigits2 m + e) - e) as [|p|p] eqn:Hn;
    intros [= <- <-].
  - rewrite Hm, Z.sub_diag. simpl. lia.
  - destruct (iter_shr_1_scale p (shr_record_of_loc m l) ltac:(lia)) as [H1 H2].
    rewrite Hm in H2. replace (e + Z.pos p - e) with (Z.pos p) by lia.
    conj; lia.
  - rewrite Hm, Z.sub_diag. simpl. lia.
Qed.

(** Rounding a product that is at most [d], for [d] below 256, gives a
    number whose integer part is at most [d]. *)
Lemma round_below_limit m e d :
  0 < m -> e <= -16 -> 0 <= d < 256 -> m <= d * 2 ^ (- e) ->
  exists z,
    to_uint8 (binary_round_aux F32.prec F32.emax false m e loc_Exact) = Some z /\
    0 <= z <= d.
Proof.
  intros Hm He Hd Hle. unfold binary_round_aux.
  destruct (shr_fexp F32.prec F32.emax m e loc_Exact) as [mrs1 e1] eqn:H1.
  destruct (shr_fexp_scale m e loc_Exact mrs1 e1 ltac:(lia) H1) as (Hm1 & Hee1 & Hs1 & He1).
  pose proof (round_nearest_even_range (shr_m mrs1) (loc_of_shr_record mrs1)) as Hr.
  set (m2 := round_nearest_even (shr_m mrs1) (loc_of_shr_record mrs1)) in *.
  destruct (shr_fexp F32.prec F32.emax m2 e1 loc_Exact) as [mrs2 e2] eqn:H2.
  destruct (shr_fexp_scale m2 e1 loc_Exact mrs2 e2 ltac:(lia) H2) as (Hm2 & Hee2 & Hs2 & He2).
  assert (Hpow : 0 < 2 ^ (- e)) by (apply Z.pow_pos_nonneg; lia).
  assert (Hdig : Zdigits2 m <= 8 - e).
  { apply Zdigits2_le; [|lia]. split; [lia|].
    replace (8 - e) with (8 + - e) by lia. rewrite Z.pow_add_r by lia.
    change (2 ^ 8) with 256. nia. }
  assert (He1' : e1 <= -16).
  { rewrite He1. unfold fexp, emin, F32.prec, F32.emax.
    change (IntDef.Z.max ?a ?b) with (Z.max a b). lia. }
  assert (Hp1 : 0 < 2 ^ (e1 - e)) by (apply Z.pow_pos_nonneg; lia).
  assert (Hp1' : 2 ^ (e1 - e) * 2 ^ (- e1) = 2 ^ (- e))
    by (rewrite <- Z.pow_add_r by lia; f_equal; lia).
  assert (Hpe1 : 0 < 2 ^ (- e1)) by (apply Z.pow_pos_nonneg; lia).
  assert (Hbig : 65536 <= 2 ^ (- e1)).
  { change 65536 with (2 ^ 16). apply Z.pow_le_mono_r; lia. }
  assert (Hm2e : m2 < (d + 1) * 2 ^ (- e1)).
  { assert (m2 * 2 ^ (e1 - e) < (d + 1) * 2 ^ (- e1) * 2 ^ (e1 - e)); [|nia].
    replace ((d + 1) * 2 ^ (- e1) * 2 ^ (e1 - e)) with ((d + 1) * 2 ^ (- e)) by nia.
    assert (2 ^ (e1 - e) < 2 ^ (- e)) by (apply Z.pow_lt_mono_r; lia).
    nia. }
  assert (Hdig2 : Zdigits2 m2 <= 8 - e1).
  { apply Zdigits2_le; [|lia]. split; [lia|].
    replace (8 - e1) with (8 + - e1) by lia. rewrite Z.pow_add_r by lia.
    change (2 ^ 8) with 256. nia. }
  assert (He2' : e2 <= -16).
  { rewrite He2. unfold fexp, emin, F32.prec, F32.emax.
    change (IntDef.Z.max ?a ?b) with (Z.max a b). lia. }
  assert (Hp2 : 0 < 2 ^ (e2 - e1)) by (apply Z.pow_pos_nonneg; lia).
  assert (Hp2' : 2 ^ (e2 - e1) * 2 ^ (- e2) = 2 ^ (- e1))
    by (rewrite <- Z.pow_add_r by lia; f_equal; lia).
  assert (Hpe2 : 0 < 2 ^ (- e2)) by (apply Z.pow_pos_nonneg; lia).
  destruct (shr_m mrs2) as [|m3|m3] eqn:Hm3; [| |lia].
  - exists 0. split; [reflexivity | lia].
  - replace (e2 <=? F32.emax - F32.prec) with true
      by (symmetry; apply Z.leb_le; unfold F32.emax, F32.prec; lia).
    assert (Hm3e : Z.pos m3 < (d + 1) * 2 ^ (- e2)) by nia.
    exists (Z.pos m3 / 2 ^ (- e2)).
    assert (Hq : 0 <= Z.pos m3 / 2 ^ (- e2) <= d).
    { split; [apply Z.div_pos; lia|].
      assert (Z.pos m3 / 2 ^ (- e2) < d + 1); [|lia].
      apply Z.div_lt_upper_bound; lia. }
    split; [|exact Hq].
    unfold to_uint8, truncate.
    replace (0 <=? e2) with false by (symmetry; apply Z.leb_gt; lia).
    replace ((0 <=? Z.pos m3 / 2 ^ (- e2)) && (Z.pos m3 / 2 ^ (- e2) <? UINT8_MOD))
      with true; [reflexivity|].
    symmetry. apply andb_true_intro.
    split; [apply Z.leb_le | apply Z.ltb_lt; unfold UINT8_MOD]; lia.
Qed.

Lemma unit_magnitude_finite s m e :
  e <= 0 -> Z.pos m <= 2 ^ (- e) ->
  unit_magnitude s (S754_finite s m e) = true.
Proof.
  intros He Hm. unfold unit_magnitude. rewrite Bool.eqb_reflx.
  apply andb_true_intro. split; [apply Z.leb_le | apply Z.leb_le]; assumption.
Qed.

Lemma unit_magnitude_inv s x :
  unit_magnitude s x = true ->
  (exists s', x = S754_zero s') \/
  (exists m e, x = S754_finite s m e /\ e <= 0 /\ Z.pos m <= 2 ^ (- e)).
Proof.
  destruct x as [s'| | |s' m e]; try discriminate; intros H.
  - left. now exists s'.
  - right. unfold unit_magnitude in H.
    apply andb_prop in H as [H Hm]. apply andb_prop in H as [Hs He].
    apply Bool.eqb_prop in Hs. subst s'.
    apply Z.leb_le in He, Hm. now exists m, e.
Qed.

Lemma unit_interval_range x :
  F32.in_unit_interval x = true -> unit_range x = true.
Proof.
  intros H. pose proof (in_unit_number x H) as Hnum.
  destruct x as [s| | |s m e]; try discriminate; [reflexivity|].
  assert (s = false) as -> by (now apply (unit_sign s m e)).
  destruct (unit_mantissa m e H) as [He Hm].
  specialize (Hm e ltac:(lia)). rewrite Z.sub_diag in Hm. change (2 ^ 0) with 1 in Hm.
  apply unit_magnitude_finite; lia.
Qed.

(** The duty value of a number between 0 and 1, normalized mantissa or
    not. *)
Lemma normalizePwmValue_unit_range raw lo hi :
  unit_range raw = true -> wf_limits lo hi ->
  exists value, normalizePwmValue raw lo hi = Some value /\ lo <= value <= hi.
Proof.
  intros Hraw [Hlo Hhi]. unfold UINT8_MOD in Hhi.
  assert (Hscaled : exists z,
    to_uint8 (F32.mul raw (of_int (hi - lo))) = Some z /\ 0 <= z <= hi - lo).
  { pose proof of_int_checked as Hd. rewrite forallb_forall in Hd.
    specialize (Hd (hi - lo) (small_literal (hi - lo) ltac:(lia))).
    destruct (unit_magnitude_inv false raw Hraw) as [[s ->] | (mx & ex & -> & Hex & Hmx)];
      destruct (of_int (hi - lo)) as [[|]| | |[|] my ey]; try discriminate.
    - exists 0. split; [reflexivity | lia].
    - exists 0. split; [reflexivity | lia].
    - (* the limits coincide *)
      exists 0. split; [reflexivity | lia].
    - apply andb_prop in Hd as [Hey Hmy]. apply Z.leb_le in Hey. apply Z.eqb_eq in Hmy.
      unfold F32.mul, SFmul. cbn [xorb].
      apply round_below_limit; [lia | lia | lia |].
      rewrite Pos2Z.inj_mul, Hmy.
      replace (- (ex + ey)) with (- ex + - ey) by lia.
      rewrite Z.pow_add_r by lia.
      assert (0 <= 2 ^ (- ey)) by (apply Z.pow_nonneg; lia).
      assert (0 <= 2 ^ (- ex)) by (apply Z.pow_nonneg; lia).
      nia. }
  destruct Hscaled as (z & Hz & Hrange). unfold normalizePwmValue. rewrite Hz.
  exists (wrap8 (lo + z)). split; [reflexivity|].
  rewrite wrap8_small by (unfold is_uint8, UINT8_MOD; lia). lia.
Qed.

Lemma normalizePwmValue_in_range raw lo hi :
  F32.in_unit_interval raw = true -> wf_limits lo hi ->
  exists value, normalizePwmValue raw lo hi = Some value /\ lo <= value <= hi.
Proof.
  intros Hraw. apply normalizePwmValue_unit_range. now apply unit_interval_range.
Qed.

(** X15: the duty values stay within the limits.  For an intensity
    between 0 and 1 and limits that are [uint8_t] values, the minimum at
    most the maximum, the conversion of the scaled intensity to [uint8_t]
    is defined (its operand is never negative nor above 255) and
    [normalizePwmValue] answers a value between the two limits; so a
    snapshot of such intensities is written to the five pins with every
    duty value within the limits of its channel. *)
Theorem duty_values_within_limits B s :
  wf_brightness B -> snapshot_in_unit s ->
  exists r a g b w,
    setNormalizedAnalogLedStates B s = Some (setAnalogLedStates r a g b w) /\
    RED_LED_MIN_BRIGHTNESS B <= r <= RED_LED_MAX_BRIGHTNESS B /\
    AMBER_LED_MIN_BRIGHTNESS B <= a <= AMBER_LED_MAX_BRIGHTNESS B /\
    GREEN_LED_MIN_BRIGHTNESS B <= g <= GREEN_LED_MAX_BRIGHTNESS B /\
    BLUE_LED_MIN_BRIGHTNESS B <= b <= BLUE_LED_MAX_BRIGHTNESS B /\
    WHITE_LED_MIN_BRIGHTNESS B <= w <= WHITE_LED_MAX_BRIGHTNESS B.
Proof.
  intros (HR & HA & HG & HB & HW) (SR & SA & SG & SB & SW').
  destruct (normalizePwmValue_in_range _ _ _ SR HR) as (r & Er & Hr).
  destruct (normalizePwmValue_in_range _ _ _ SA HA) as (a & Ea & Ha).
  destruct (normalizePwmValue_in_range _ _ _ SG HG) as (g & Eg & Hg).
  destruct (normalizePwmValue_in_range _ _ _ SB HB) as (b & Eb & Hb).
  destruct (normalizePwmValue_in_range _ _ _ SW' HW) as (w & Ew & Hw).
  exists r, a, g, b, w. unfold setNormalizedAnalogLedStates.
  destruct HR as [HR1 HR2], HA as [HA1 HA2], HG as [HG1 HG2], HB as [HB1 HB2],
    HW as [HW1 HW2].
  rewrite !wrap8_small by (unfold is_uint8; lia).
  rewrite Er, Ea, Eg, Eb, Ew. conj; try reflexivity; lia.
Qed.

Lemma duty_values_within_limits_witness :
  exists r a g b w,
    setNormalizedAnalogLedStates SECOND_BRIGHTNESS dimSnapshot
      = Some (setAnalogLedStates r a g b w) /\
    RED_LED_MIN_BRIGHTNESS SECOND_BRIGHTNESS <= r
      <= RED_LED_MAX_BRIGHTNESS SECOND_BRIGHTNESS /\
    AMBER_LED_MIN_BRIGHTNESS SECOND_BRIGHTNESS <= a
      <= AMBER_LED_MAX_BRIGHTNESS SECOND_BRIGHTNESS /\
    GREEN_LED_MIN_BRIGHTNESS SECOND_BRIGHTNESS <= g
      <= GREEN_LED_MAX_BRIGHTNESS SECOND_BRIGHTNESS /\
    BLUE_LED_MIN_BRIGHTNESS SECOND_BRIGHTNESS <= b
      <= BLUE_LED_MAX_BRIGHTNESS SECOND_BRIGHTNESS /\
    WHITE_LED_MIN_BRIGHTNESS SECOND_BRIGHTNESS <= w
      <= WHITE_LED_MAX_BRIGHTNESS SECOND_BRIGHTNESS.
Proof.
  apply (duty_values_within_limits SECOND_BRIGHTNESS dimSnapshot).
  - exact wf_brightness_second.
  - unfold snapshot_in_unit, dimSnapshot. simpl. conj; vm_compute; reflexivity.
Defined.

(** ** The two-LED combinations *)

(** X16: the ten states of the two-LED animation are the ten pairs of
    LEDs, as the comment in the sketch says: every state lights exactly two
    of the five LEDs, and every pattern of exactly two LEDs is shown by
    one state and by no other. *)
Theorem two_led_combinations_complete :
  (forall i, 0 <= i < 10 ->
     exists r a g b w,
       TwoLedCombinationsController.applyLedStatesForState i
         = [SetDigitalLedStates r a g b w] /\
       litCount r a g b w = 2) /\
  (forall r a g b w,
     litCount r a g b w = 2 ->
     exists i,
       0 <= i < 10 /\
       TwoLedCombinationsController.applyLedStatesForState i
         = [SetDigitalLedStates r a g b w] /\
       forall j,
         0 <= j < 10 ->
         TwoLedCombinationsController.applyLedStatesForState j
           = [SetDigitalLedStates r a g b w] ->
         j = i).
Proof.
  split.
  - intros i Hi.
    assert (i = 0 \/ i = 1 \/ i = 2 \/ i = 3 \/ i = 4 \/ i = 5 \/ i = 6 \/ i = 7 \/
            i = 8 \/ i = 9) as Hcases by lia.
    repeat (destruct Hcases as [-> | Hcases]); try subst i;
      (eexists _, _, _, _, _; split; reflexivity).
  - assert (Hunique : forall r a g b w i,
      0 <= i < 10 ->
      TwoLedCombinationsController.applyLedStatesForState i
        = [SetDigitalLedStates r a g b w] ->
      forall j,
        0 <= j < 10 ->
        TwoLedCombinationsController.applyLedStatesForState j
          = [SetDigitalLedStates r a g b w] ->
        j = i).
    { intros r a g b w i Hi Hshow j Hj Hshow'. rewrite <- Hshow in Hshow'. clear Hshow.
      assert (i = 0 \/ i = 1 \/ i = 2 \/ i = 3 \/ i = 4 \/ i = 5 \/ i = 6 \/ i = 7 \/
              i = 8 \/ i = 9) as Hci by lia.
      assert (j = 0 \/ j = 1 \/ j = 2 \/ j = 3 \/ j = 4 \/ j = 5 \/ j = 6 \/ j = 7 \/
              j = 8 \/ j = 9) as Hcj by lia.
      clear Hi Hj.
      repeat (destruct Hci as [-> | Hci]); try subst i;
        repeat (destruct Hcj as [-> | Hcj]); try subst j;
        first [reflexivity | discriminate Hshow']. }
    intros r a g b w Hcount.
    destruct r, a, g, b, w; try discriminate Hcount.
    + exists 0. conj; [lia | lia | reflexivity | apply Hunique; [lia | reflexivity]].
    + exists 5. conj; [lia | lia | reflexivity | apply Hunique; [lia | reflexivity]].
    + exists 8. conj; [lia | lia | reflexivity | apply Hunique; [lia | reflexivity]].
    + exists 2. conj; [lia | lia | reflexivity | apply Hunique; [lia | reflexivity]].
    + exists 3. conj; [lia | lia | reflexivity | apply Hunique; [lia | reflexivity]].
    + exists 6. conj; [lia | lia | reflexivity | apply Hunique; [lia | reflexivity]].
    + exists 9. conj; [lia | lia | reflexivity | apply Hunique; [lia | reflexivity]].
    + exists 1. conj; [lia | lia | reflexivity | apply Hunique; [lia | reflexivity]].
    + exists 7. conj; [lia | lia | reflexivity | apply Hunique; [lia | reflexivity]].
    + exists 4. conj; [lia | lia | reflexivity | apply Hunique; [lia | reflexivity]].
Qed.

Lemma two_led_combinations_witness :
  exists i,
    0 <= i < 10 /\
    TwoLedCombinationsController.applyLedStatesForState i
      = [SetDigitalLedStates false true false true false] /\
    forall j,
      0 <= j < 10 ->
      TwoLedCombinationsController.applyLedStatesForState j
        = [SetDigitalLedStates false true false true false] ->
      j = i.
Proof.
  apply (proj2 two_led_combinations_complete false true false true false).
  reflexivity.
Defined.

(** ** Time through the switch *)

Lemma takes_time_positive sk : takes_time sk -> 0 < passDuration sk.
Proof.
  induction sk as [cls | inner IH M]; simpl.
  - intros (_ & H & _). exact H.
  - intros (Hi & HM). specialize (IH Hi). nia.
Qed.

Lemma fresh_consumed c : fresh c -> consumed c = 0.
Proof.
  induction c as [cls st | inner IH M k]; simpl.
  - intros [Hi Ht]. unfold consumedTime. rewrite Hi, Ht, durationsBefore_0.
    reflexivity.
  - intros [Hf ->]. rewrite (IH Hf). lia.
Qed.

Lemma fresh_running c : takes_time (skeleton c) -> fresh c -> running c.
Proof.
  induction c as [cls st | inner IH M k]; simpl.
  - intros (_ & Hpos & _) [Hi _]. rewrite Hi. now apply totalDuration_positive.
  - intros (Hi & HM) [Hf ->]. split; [now apply IH | lia].
Qed.

Lemma prefix_step (l : list Skeleton) : forall n sk,
  nth_error l n = Some sk ->
  sum (map passDuration (firstn (S n) l))
  = sum (map passDuration (firstn n l)) + passDuration sk.
Proof.
  induction l as [|x l IH]; intros [|n] sk H; try discriminate.
  - injection H as ->. simpl. lia.
  - simpl in H. specialize (IH n sk H). cbn [firstn map sum fold_right] in *.
    fold (sum (map passDuration (firstn n l))).
    fold (sum (map passDuration (firstn (S n) l))) in IH.
    change (fold_right Z.add 0 (map passDuration (firstn (S n) l)))
      with (sum (map passDuration (firstn (S n) l))).
    lia.
Qed.

Lemma prefix_range (l : list Skeleton) :
  Forall takes_time l ->
  forall n,
    0 <= sum (map passDuration (firstn n l)) <= cycleDuration l.
Proof.
  unfold cycleDuration. induction 1 as [|x l Hx Hl IH]; intros n.
  - destruct n; simpl; lia.
  - destruct n as [|n]; cbn [firstn map sum fold_right].
    + fold (sum (map passDuration l)). specialize (IH 0%nat). simpl in IH.
      pose proof (takes_time_positive x Hx). lia.
    + fold (sum (map passDuration l)). fold (sum (map passDuration (firstn n l))).
      specialize (IH n). pose proof (takes_time_positive x Hx). lia.
Qed.

Lemma store_lookup table sw c :
  switch_inv table sw ->
  SW.getControllerByIndex (SW.store sw (SW._currentControllerIndex sw) c)
    (SW._currentControllerIndex sw) = Some c.
Proof.
  intros Hinv. pose proof Hinv as (_ & _ & Hcur).
  destruct (switch_inv_lookup table sw _ Hinv Hcur) as (_ & _ & _ & _ & _ & _ & Hn).
  unfold SW.getControllerByIndex, SW.store. cbn [SW.controllers].
  replace (SW._currentControllerIndex sw <? 0) with false
    by (symmetry; apply Z.ltb_ge; lia).
  apply (replace_nth_spec _ _ c Hn).
Qed.

(** The position of a switch whose invariant holds, in terms of its
    table. *)
Lemma cyclePosition_eq table sw c :
  switch_inv table sw ->
  SW.getControllerByIndex sw (SW._currentControllerIndex sw) = Some c ->
  cyclePosition sw
  = sum (map passDuration (firstn (Z.to_nat (SW._currentControllerIndex sw)) table))
    + consumed c.
Proof.
  intros (Htable & _) Hget. unfold cyclePosition. now rewrite Hget, Htable.
Qed.

(** One call of the loop of the switch moves its position by the time it
    is given, round the table. *)
Lemma doWhile_position interval table :
  Forall takes_time table -> Z.of_nat (length table) < UINT8_MOD ->
  forall fuel sw t c sw' sleepTime tr,
    switch_inv table sw ->
    SW.getControllerByIndex sw (SW._currentControllerIndex sw) = Some c ->
    running c -> 0 <= t -> consumed c + t < UINT32_MOD ->
    SW.doWhile interval fuel sw t = Ok (sw', sleepTime, tr) ->
    at_rest sw' /\
    cyclePosition sw' = (cyclePosition sw + t) mod cycleDuration table.
Proof.
  intros Htt Hlen.
  induction fuel as [|fuel IH]; intros sw t c sw' sleepTime tr Hinv Hget Hrun Ht Hsmall Heq;
    [discriminate|].
  pose proof Hinv as (_ & _ & Hcur).
  destruct (switch_inv_lookup table sw _ Hinv Hcur)
    as (c0 & sk & Hget0 & Hsk & Hskel & Hwf & Hn).
  rewrite Hget in Hget0. injection Hget0 as <-.
  assert (Htime : takes_time sk)
    by (rewrite Forall_forall in Htt; eapply Htt, nth_error_In, Hsk).
  pose proof (consumed_nonneg c Hwf) as Hcons.
  pose proof (takes_time_positive sk Htime) as Hpass.
  assert (Ht32 : is_uint32 t) by (unfold is_uint32; lia).
  rewrite (cyclePosition_eq table sw c Hinv Hget).
  pose proof (prefix_step table _ sk Hsk) as Hstep.
  pose proof (prefix_range table Htt (Z.to_nat (SW._currentControllerIndex sw))) as Hpre.
  pose proof (prefix_range table Htt (S (Z.to_nat (SW._currentControllerIndex sw))))
    as Hpre'.
  set (before := sum (map passDuration
                        (firstn (Z.to_nat (SW._currentControllerIndex sw)) table))) in *.
  rewrite doWhile_S, Hget in Heq.
  destruct (doControl interval fuel c t) as [[[c1 r1] t1]|] eqn:Hd;
    [cbn [bind] in Heq | discriminate].
  destruct (doControl_preserves interval fuel c t c1 r1 t1 Hwf Ht32 Hd)
    as (Hs1 & Hw1 & Hr1).
  destruct (store_inv table sw c c1 Hinv Hget Hs1 Hw1) as (Hinv1 & Hcount).
  destruct (tree_step interval fuel c t c1 r1 t1 Hwf ltac:(now rewrite Hskel) Hrun Ht
              Hsmall Hd) as [Hbefore Hpast].
  rewrite Hskel in Hbefore, Hpast.
  destruct (Z_lt_le_dec (consumed c + t) (passDuration sk)) as [Hcmp | Hcmp].
  - destruct (Hbefore Hcmp) as (Hf1 & Hrun1 & Hc1). rewrite Hf1 in Heq.
    injection Heq as <- <- <-.
    pose proof (store_lookup table sw c1 Hinv) as Hget1.
    split.
    + exists c1. conj; [exact Hget1 | exact Hrun1 |]. rewrite Hs1, Hskel. lia.
    + rewrite (cyclePosition_eq table _ c1 Hinv1 Hget1). cbn [SW.store
        SW._currentControllerIndex]. fold before. rewrite Hc1.
      rewrite Z.mod_small by lia. lia.
  - destruct (Hpast Hcmp) as (Hf1 & Hrem). rewrite Hf1 in Heq. cbv zeta in Heq.
    set (sw1 := SW.store sw (SW._currentControllerIndex sw) c1) in *.
    set (next := SW.nextIndex (SW.getControllerCount sw1)
                   (SW._currentControllerIndex sw1)) in *.
    assert (Hnext : 0 <= next < Z.of_nat (length table)).
    { unfold next. rewrite Hcount. apply nextIndex_range; [lia|].
      destruct Hinv1 as (_ & _ & H). exact H. }
    destruct (switchToController_inv table sw1 next Hinv1 Hnext)
      as (Hinv2 & Hcur2 & c2 & Hget2 & Hfresh2).
    destruct (switch_inv_lookup table (fst (SW.switchToController sw1 next)) next
                Hinv2 Hnext) as (c2' & sk2 & Hget2' & Hsk2 & Hskel2 & Hwf2 & _).
    rewrite Hget2 in Hget2'. injection Hget2' as <-.
    assert (Hget2c : SW.getControllerByIndex (fst (SW.switchToController sw1 next))
                       (SW._currentControllerIndex (fst (SW.switchToController sw1 next)))
                     = Some c2) by (rewrite Hcur2; exact Hget2).
    assert (Htime2 : takes_time sk2)
      by (rewrite Forall_forall in Htt; eapply Htt, nth_error_In, Hsk2).
    pose proof (fresh_consumed c2 Hfresh2) as Hc2.
    pose proof (fresh_running c2 ltac:(now rewrite Hskel2) Hfresh2) as Hrun2.
    pose proof (cyclePosition_eq table _ c2 Hinv2 Hget2c) as Hpos2.
    rewrite Hcur2, Hc2 in Hpos2.
    destruct (SW.switchToController sw1 next) as [sw2 tr2]. simpl fst in *.
    destruct (SW.doWhile interval fuel sw2 (remainingTime r1))
      as [[[sw3 s3] t3]|] eqn:Hd3; [cbn [bind] in Heq | discriminate].
    injection Heq as <- <- <-.
    destruct (IH sw2 (remainingTime r1) c2 sw3 s3 t3 Hinv2
                Hget2c Hrun2 ltac:(lia) ltac:(lia) Hd3)
      as (Hrest & Hpos3).
    split; [exact Hrest|]. rewrite Hpos3, Hpos2, Hrem.
    (* the prefix of the next node *)
    unfold next, SW.nextIndex. rewrite Hcount.
    change (SW._currentControllerIndex sw1) with (SW._currentControllerIndex sw).
    destruct (SW._currentControllerIndex sw <? Z.of_nat (length table) - 1) eqn:Hlast.
    + apply Z.ltb_lt in Hlast.
      rewrite wrap8_small by (unfold is_uint8; lia).
      replace (Z.to_nat (SW._currentControllerIndex sw + 1))
        with (S (Z.to_nat (SW._currentControllerIndex sw))) by lia.
      rewrite Hstep. f_equal. lia.
    + apply Z.ltb_ge in Hlast.
      assert (Hall : firstn (S (Z.to_nat (SW._currentControllerIndex sw))) table = table)
        by (apply firstn_all2; lia).
      rewrite Hall in Hstep. fold (cycleDuration table) in Hstep.
      change (Z.to_nat 0) with 0%nat. cbn [firstn map sum fold_right].
      replace (0 + 0 + (consumed c + t - passDuration sk))
        with (before + consumed c + t + (-1) * cycleDuration table) by lia.
      apply Z_mod_plus_full.
Qed.

Lemma run_switch_position interval table :
  Forall takes_time table -> Z.of_nat (length table) < UINT8_MOD ->
  forall es sw,
    switch_inv table sw -> at_rest sw ->
    Forall (fun e => 0 <= e /\ e + cycleDuration table < UINT32_MOD) es ->
    exists fuel sw' results tr,
      Run.switch interval fuel sw es = Ok (sw', results, tr) /\
      switch_inv table sw' /\ at_rest sw' /\
      cyclePosition sw' = (cyclePosition sw + sum es) mod cycleDuration table.
Proof.
  intros Htt Hlen. induction es as [|e es IH]; intros sw Hinv Hrest Hes.
  - exists 0%nat, sw, [], []. simpl. conj; auto.
    destruct Hrest as (c & Hget & _ & Hlt).
    pose proof Hinv as (_ & _ & Hcur).
    destruct (switch_inv_lookup table sw _ Hinv Hcur)
      as (c0 & sk & Hget0 & Hsk & Hskel & Hwf & _).
    rewrite Hget in Hget0. injection Hget0 as <-.
    rewrite (cyclePosition_eq table sw c Hinv Hget), Z.add_0_r.
    pose proof (prefix_step table _ sk Hsk) as Hstep.
    pose proof (prefix_range table Htt (Z.to_nat (SW._currentControllerIndex sw))).
    pose proof (prefix_range table Htt (S (Z.to_nat (SW._currentControllerIndex sw)))).
    pose proof (consumed_nonneg c Hwf). rewrite Hskel in Hlt.
    symmetry. apply Z.mod_small. lia.
  - inversion Hes as [|? ? [He0 He] Hes']; subst.
    destruct Hrest as (c & Hget & Hrun & Hlt).
    pose proof Hinv as (_ & _ & Hcur).
    destruct (switch_inv_lookup table sw _ Hinv Hcur)
      as (c0 & sk & Hget0 & Hsk & Hskel & Hwf & _).
    rewrite Hget in Hget0. injection Hget0 as <-.
    pose proof (prefix_step table _ sk Hsk) as Hstep.
    pose proof (prefix_range table Htt (Z.to_nat (SW._currentControllerIndex sw))) as Hp.
    pose proof (prefix_range table Htt (S (Z.to_nat (SW._currentControllerIndex sw))))
      as Hp'.
    rewrite Hskel in Hlt.
    destruct (doWhile_total interval table sw e Htt Hlen
                ltac:(unfold is_uint32; pose proof (proj1 Hp); lia) Hinv)
      as (f1 & sw1 & sleepTime & t1 & Heq & Hinv1).
    destruct (doWhile_position interval table Htt Hlen f1 sw e c sw1 sleepTime t1
                Hinv Hget Hrun He0 ltac:(lia) Heq) as (Hrest1 & Hpos1).
    destruct (IH sw1 Hinv1 Hrest1 Hes')
      as (f2 & sw' & results & tr & Hrun2 & Hinv' & Hrest' & Hpos').
    exists (Nat.max f1 f2), sw', (unfinishedWorkState sleepTime :: results), (t1 ++ tr).
    simpl. unfold SW.doControl.
    rewrite (doWhile_mono interval f1 _ sw e _ (Nat.le_max_l _ _) Heq). cbn [bind].
    rewrite (run_switch_mono interval f2 _ es sw1 _ (Nat.le_max_r _ _) Hrun2).
    cbn [bind]. conj; [reflexivity | exact Hinv' | exact Hrest' |].
    rewrite Hpos', Hpos1. fold (sum es).
    rewrite Zplus_mod_idemp_l. f_equal. lia.
Qed.

(** X17: the switch is periodic.  For a table of nodes every pass of
    which takes time, started by [reset] and called with elapsed times
    that leave room for a round in 32 bits: after any number of calls the
    switch has lost and gained no time, for its position in the round (the
    passes of the nodes before the cursor, and the time that the node
    under the cursor accounts for) is the sum of the elapsed times modulo
    the duration of a round, the sum of the passes of its nodes. *)
Theorem sequencer_is_periodic interval table sw es :
  Forall takes_time table -> 0 < Z.of_nat (length table) < UINT8_MOD ->
  switch_inv table sw ->
  Forall (fun e => 0 <= e /\ e + cycleDuration table < UINT32_MOD) es ->
  exists fuel sw' results tr,
    Run.switch interval fuel (fst (SW.reset sw)) es = Ok (sw', results, tr) /\
    cyclePosition sw' = sum es mod cycleDuration table.
Proof.
  intros Htt Hlen Hinv Hes.
  destruct (switchToController_inv table sw 0 Hinv ltac:(lia))
    as (Hinv0 & Hcur0 & c0 & Hget0 & Hfresh0).
  destruct (switch_inv_lookup table (fst (SW.switchToController sw 0)) 0 Hinv0
              ltac:(lia)) as (c0' & sk0 & Hget0' & Hsk0 & Hskel0 & Hwf0 & _).
  unfold SW.reset in *. rewrite Hget0 in Hget0'. injection Hget0' as <-.
  assert (Hget0c : SW.getControllerByIndex (fst (SW.switchToController sw 0))
                     (SW._currentControllerIndex (fst (SW.switchToController sw 0)))
                   = Some c0) by (rewrite Hcur0; exact Hget0).
  assert (Htime0 : takes_time sk0)
    by (rewrite Forall_forall in Htt; eapply Htt, nth_error_In, Hsk0).
  assert (Hrest0 : at_rest (fst (SW.switchToController sw 0))).
  { exists c0. conj; [exact Hget0c | |].
    - apply fresh_running; [now rewrite Hskel0 | exact Hfresh0].
    - rewrite (fresh_consumed c0 Hfresh0), Hskel0.
      now apply takes_time_positive. }
  destruct (run_switch_position interval table Htt ltac:(lia) es _ Hinv0 Hrest0 Hes)
    as (fuel & sw' & results & tr & Hrun & _ & _ & Hpos).
  exists fuel, sw', results, tr. split; [exact Hrun|].
  rewrite Hpos. f_equal.
  rewrite (cyclePosition_eq table _ c0 Hinv0 Hget0c).
  rewrite Hcur0, (fresh_consumed c0 Hfresh0). simpl. lia.
Qed.

Lemma sequencer_is_periodic_witness :
  exists fuel sw' results tr,
    Run.switch MAIN_PWM_ANIMATION_INTERVAL fuel (fst (SW.reset mainController))
      [0; 1000; 20000; 117000] = Ok (sw', results, tr) /\
    cyclePosition sw'
    = sum [0; 1000; 20000; 117000]
      mod cycleDuration (map skeleton (SW.controllers mainController)).
Proof.
  apply (sequencer_is_periodic MAIN_PWM_ANIMATION_INTERVAL
           (map skeleton (SW.controllers mainController)) mainController
           [0; 1000; 20000; 117000]).
  - exact mainController_takes_time.
  - simpl. unfold UINT8_MOD. lia.
  - exact mainController_inv.
  - repeat apply Forall_cons; try apply Forall_nil;
      (split; [lia | vm_compute; reflexivity]).
Defined.

(** ** A switch whose nodes take no time *)

Lemma replace_nth_Forall (P : ILedController -> Prop) : forall l n c,
  Forall P l -> P c -> Forall P (SW.replace_nth l n c).
Proof.
  induction l as [|x l IH]; intros n c Hl Hc; [constructor|].
  inversion Hl; subst. destruct n; simpl; constructor; auto.
Qed.

Lemma replace_nth_length : forall l n c,
  length (SW.replace_nth l n c) = length l.
Proof.
  induction l as [|x l IH]; intros [|n] c; simpl; auto.
Qed.

(** X18: a switch none of whose nodes takes time never returns.  When
    every node of the table is a repeater of count 0, each node reports
    done at once and hands back all the time it was given, so the
    [do ... while] loop of the switch goes round the table for ever: in
    the model the call runs out of fuel whatever the fuel.  The nodes of
    the sketches all take time, which is what the theorems on the switch
    assume. *)
Theorem switch_hangs_without_time interval sw :
  Forall (fun c => exists inner k, c = Looping inner 0 k /\ 0 <= k)
    (SW.controllers sw) ->
  0 <= SW._currentControllerIndex sw < Z.of_nat (length (SW.controllers sw)) ->
  Z.of_nat (length (SW.controllers sw)) < UINT8_MOD ->
  forall fuel t,
    SW.doWhile interval fuel sw t = Crash OutOfFuel /\
    SW.doControl interval fuel sw t = Crash OutOfFuel.
Proof.
  intros Hall Hcur Hlen fuel t.
  assert (Hloop : SW.doWhile interval fuel sw t = Crash OutOfFuel).
  { revert sw t Hall Hcur Hlen.
    induction fuel as [|fuel IH]; intros sw t Hall Hcur Hlen; [reflexivity|].
    rewrite doWhile_S. unfold SW.getControllerByIndex.
    replace (SW._currentControllerIndex sw <? 0) with false
      by (symmetry; apply Z.ltb_ge; lia).
    destruct (nth_error (SW.controllers sw) (Z.to_nat (SW._currentControllerIndex sw)))
      as [c|] eqn:Hget.
    2:{ apply nth_error_None in Hget. lia. }
    pose proof Hall as Hall'. rewrite Forall_forall in Hall'.
    destruct (Hall' c (nth_error_In _ _ Hget)) as (inner & k & -> & Hk).
    destruct fuel as [|fuel]; [reflexivity|].
    rewrite doControl_S.
    replace (0 <=? k) with true by (symmetry; apply Z.leb_le; exact Hk).
    cbn [bind finished finishedWorkState remainingTime]. cbv zeta.
    set (sw1 := SW.store sw (SW._currentControllerIndex sw) (Looping inner 0 k)).
    assert (Hall1 : Forall (fun c => exists inner k, c = Looping inner 0 k /\ 0 <= k)
                      (SW.controllers sw1)).
    { unfold sw1, SW.store. cbn [SW.controllers].
      apply replace_nth_Forall; [exact Hall | eauto]. }
    assert (Hlen1 : length (SW.controllers sw1) = length (SW.controllers sw)).
    { unfold sw1, SW.store. cbn [SW.controllers]. apply replace_nth_length. }
    set (next := SW.nextIndex (SW.getControllerCount sw1)
                   (SW._currentControllerIndex sw1)).
    assert (Hnext : 0 <= next < Z.of_nat (length (SW.controllers sw))).
    { unfold next, SW.getControllerCount. rewrite Hlen1.
      apply nextIndex_range; [lia | exact Hcur]. }
    assert (Hstate : exists sw2 tr2,
      SW.switchToController sw1 next = (sw2, tr2) /\
      Forall (fun c => exists inner k, c = Looping inner 0 k /\ 0 <= k)
        (SW.controllers sw2) /\
      SW._currentControllerIndex sw2 = next /\
      length (SW.controllers sw2) = length (SW.controllers sw)).
    { unfold SW.switchToController, SW.getControllerByIndex.
      cbn [SW.controllers SW._currentControllerIndex].
      replace (next <? 0) with false by (symmetry; apply Z.ltb_ge; lia).
      destruct (nth_error (SW.controllers sw1) (Z.to_nat next)) as [c2|] eqn:Hget2.
      - pose proof Hall1 as Hall1'. rewrite Forall_forall in Hall1'.
        destruct (Hall1' c2 (nth_error_In _ _ Hget2)) as (inner2 & k2 & -> & Hk2).
        cbn [reset]. destruct (reset inner2) as [inner2' tr2].
        eexists _, _. split; [reflexivity|].
        unfold SW.store. cbn [SW.controllers SW._currentControllerIndex].
        conj; [|reflexivity | now rewrite replace_nth_length].
        apply replace_nth_Forall; [exact Hall1|].
        exists inner2', 0. split; [reflexivity | lia].
      - eexists _, _. split; [reflexivity|].
        cbn [SW.controllers SW._currentControllerIndex]. auto. }
    destruct Hstate as (sw2 & tr2 & -> & Hall2 & Hcur2 & Hlen2).
    rewrite (IH sw2 t Hall2); [reflexivity | rewrite Hcur2, Hlen2; exact Hnext |
                                rewrite Hlen2; exact Hlen]. }
  split; [exact Hloop|]. unfold SW.doControl. now rewrite Hloop.
Qed.

Lemma switch_hangs_without_time_witness :
  SW.doWhile MAIN_PWM_ANIMATION_INTERVAL 1000
    {| SW.controllers :=
         [Looping (Stateful (FlowingThreeLedsController.class 100) SC.construct) 0 0;
          Looping (Stateful (TwoLedCombinationsController.class 500) SC.construct) 0 0];
       SW._currentControllerIndex := 0 |} 5 = Crash OutOfFuel /\
  SW.doControl MAIN_PWM_ANIMATION_INTERVAL 1000
    {| SW.controllers :=
         [Looping (Stateful (FlowingThreeLedsController.class 100) SC.construct) 0 0;
          Looping (Stateful (TwoLedCombinationsController.class 500) SC.construct) 0 0];
       SW._currentControllerIndex := 0 |} 5 = Crash OutOfFuel.
Proof.
  refine (switch_hangs_without_time MAIN_PWM_ANIMATION_INTERVAL
    {| SW.controllers :=
         [Looping (Stateful (FlowingThreeLedsController.class 100) SC.construct) 0 0;
          Looping (Stateful (TwoLedCombinationsController.class 500) SC.construct) 0 0];
       SW._currentControllerIndex := 0 |} _ _ _ 1000%nat 5).
  - apply Forall_cons; [eexists _, _; split; [reflexivity | lia]|].
    apply Forall_cons; [eexists _, _; split; [reflexivity | lia]|].
    apply Forall_nil.
  - simpl. lia.
  - simpl. unfold UINT8_MOD. lia.
Defined.

(** ** C5: the switch never reports done, and hands the remainder over *)

(** The call of the switch when the node under its cursor is done: the
    rest of the call is the call on the switch that has moved to the next
    node and reset it, with the remainder as the time to spend. *)
Lemma switch_doControl_handover interval fuel sw t cur cur' result tr1 :
  SW.getControllerByIndex sw (SW._currentControllerIndex sw) = Some cur ->
  doControl interval fuel cur t = Ok (cur', result, tr1) ->
  finished result = true ->
  SW.doControl interval (S fuel) sw t =
  bind
    (SW.doControl interval fuel
       (fst (SW.switchToController
               (SW.store sw (SW._currentControllerIndex sw) cur')
               (SW.nextIndex (SW.getControllerCount sw) (SW._currentControllerIndex sw))))
       (remainingTime result))
    (fun x =>
       match x with
       | (sw3, result3, tr3) =>
           Ok (sw3, result3,
               tr1 ++
               snd (SW.switchToController
                      (SW.store sw (SW._currentControllerIndex sw) cur')
                      (SW.nextIndex (SW.getControllerCount sw)
                         (SW._currentControllerIndex sw)))
               ++ tr3)
       end).
Proof.
  intros Hget Heq Hfin. unfold SW.doControl.
  rewrite doWhile_S, Hget, Heq. cbn [bind]. rewrite Hfin. cbv zeta.
  change (SW._currentControllerIndex (SW.store sw (SW._currentControllerIndex sw) cur'))
    with (SW._currentControllerIndex sw).
  replace (SW.getControllerCount (SW.store sw (SW._currentControllerIndex sw) cur'))
    with (SW.getControllerCount sw)
    by (unfold SW.getControllerCount, SW.store; cbn [SW.controllers];
        now rewrite replace_nth_length).
  destruct (SW.switchToController _ _) as [sw2 tr2]. cbn [fst snd].
  destruct (SW.doWhile interval fuel sw2 (remainingTime result)) as [[[sw3 s3] tr3]|f];
    reflexivity.
Qed.

(** C5: the switch of the sketch never reports done, and it hands the
    time left by a node that completes to the next node within the call.
    From the state that [reset] leaves, every call of every sequence of
    calls returns, and returns not done; and no time is dropped on the
    way: as long as each elapsed time leaves room for a round in 32 bits,
    the position of the switch in its round after the calls (the passes
    of the nodes before the cursor and the time that the node under the
    cursor accounts for) is the sum of the elapsed times modulo the
    duration of a round.  For any switch, a call that finds the node under
    the cursor done with a remainder is, in its state, result and trace,
    the call with that remainder as elapsed time on the switch whose
    cursor has moved to the next node, node 0 after the last, and whose
    node under the cursor has been reset, after what the completed node
    and the reset wrote. *)
Theorem sequencer_never_done es :
  Forall is_uint32 es ->
  (exists fuel sw' results tr,
     Run.switch MAIN_PWM_ANIMATION_INTERVAL fuel
       (fst (SwitchingController.reset mainController)) es = Ok (sw', results, tr) /\
     Forall (fun r => finished r = false) results /\
     length results = length es /\
     (Forall (fun e =>
                e + cycleDuration (map skeleton (SW.controllers mainController))
                < UINT32_MOD) es ->
      cyclePosition sw'
      = sum es mod cycleDuration (map skeleton (SW.controllers mainController)))) /\
  (forall interval fuel sw t i count cur cur' result tr1 next,
     i = SwitchingController._currentControllerIndex sw ->
     count = SwitchingController.getControllerCount sw ->
     0 <= i < count -> count < UINT8_MOD ->
     SwitchingController.getControllerByIndex sw i = Some cur ->
     doControl interval fuel cur t = Ok (cur', result, tr1) ->
     finished result = true ->
     SwitchingController.getControllerByIndex
       (SwitchingController.store sw i cur')
       (if i =? count - 1 then 0 else i + 1) = Some next ->
     SwitchingController.doControl interval (S fuel) sw t =
     bind
       (SwitchingController.doControl interval fuel
          (SwitchingController.store
             {| SwitchingController.controllers :=
                  SwitchingController.controllers
                    (SwitchingController.store sw i cur');
                SwitchingController._currentControllerIndex :=
                  if i =? count - 1 then 0 else i + 1 |}
             (if i =? count - 1 then 0 else i + 1) (fst (reset next)))
          (remainingTime result))
       (fun x =>
          match x with
          | (sw3, result3, tr3) => Ok (sw3, result3, tr1 ++ snd (reset next) ++ tr3)
          end)).
Proof.
  intros Hes. split.
  - (* every call returns not done *)
    assert (Hlen : 0 < Z.of_nat (length (map skeleton (SW.controllers mainController)))
                   < UINT8_MOD) by (simpl; unfold UINT8_MOD; lia).
    destruct (switchToController_inv _ mainController 0 mainController_inv ltac:(lia))
      as (Hinv0 & Hcur0 & c0 & Hget0 & Hfresh0).
    destruct (run_switch_total MAIN_PWM_ANIMATION_INTERVAL
                (map skeleton (SW.controllers mainController))
                mainController_takes_time ltac:(lia) es
                (fst (SW.reset mainController)) Hes Hinv0)
      as (fuel & sw' & results & tr & Hrun & Hall & Hl).
    exists fuel, sw', results, tr. conj; [exact Hrun | exact Hall | exact Hl |].
    (* and the switch accounts for all the time it was given *)
    intros Hroom.
    destruct (switch_inv_lookup _ (fst (SW.switchToController mainController 0)) 0 Hinv0
                ltac:(lia)) as (c0' & sk0 & Hget0' & Hsk0 & Hskel0 & Hwf0 & _).
    unfold SW.reset in *. rewrite Hget0 in Hget0'. injection Hget0' as <-.
    assert (Hget0c : SW.getControllerByIndex (fst (SW.switchToController mainController 0))
                       (SW._currentControllerIndex
                          (fst (SW.switchToController mainController 0)))
                     = Some c0) by (rewrite Hcur0; exact Hget0).
    assert (Htime0 : takes_time sk0).
    { pose proof mainController_takes_time as Htt. rewrite Forall_forall in Htt.
      eapply Htt, nth_error_In, Hsk0. }
    assert (Hrest0 : at_rest (fst (SW.switchToController mainController 0))).
    { exists c0. conj; [exact Hget0c | |].
      - apply fresh_running; [now rewrite Hskel0 | exact Hfresh0].
      - rewrite (fresh_consumed c0 Hfresh0), Hskel0.
        now apply takes_time_positive. }
    assert (Hroom' : Forall (fun e => 0 <= e /\
                       e + cycleDuration (map skeleton (SW.controllers mainController))
                       < UINT32_MOD) es).
    { rewrite Forall_forall in *. intros e He. split; [apply (Hes e He) | exact (Hroom e He)]. }
    destruct (run_switch_position MAIN_PWM_ANIMATION_INTERVAL
                (map skeleton (SW.controllers mainController))
                mainController_takes_time ltac:(lia) es _ Hinv0 Hrest0 Hroom')
      as (fuel2 & sw2 & results2 & tr2 & Hrun2 & _ & _ & Hpos).
    (* the two runs are one *)
    pose proof (run_switch_mono MAIN_PWM_ANIMATION_INTERVAL fuel (Nat.max fuel fuel2)
                  es _ _ (Nat.le_max_l _ _) Hrun) as E1.
    pose proof (run_switch_mono MAIN_PWM_ANIMATION_INTERVAL fuel2 (Nat.max fuel fuel2)
                  es _ _ (Nat.le_max_r _ _) Hrun2) as E2.
    rewrite E1 in E2. injection E2 as <- _ _.
    rewrite Hpos.
    rewrite (cyclePosition_eq _ _ c0 Hinv0 Hget0c).
    rewrite Hcur0, (fresh_consumed c0 Hfresh0). reflexivity.
  - (* the hand-over *)
    intros interval fuel sw t i count cur cur' result tr1 next
      Hi Hcount Hrange H8 Hget Heq Hfin Hnext. subst i count.
    rewrite (switch_doControl_handover interval fuel sw t cur cur' result tr1 Hget Heq Hfin).
    assert (Hidx : SW.nextIndex (SW.getControllerCount sw) (SW._currentControllerIndex sw)
                   = if SW._currentControllerIndex sw =? SW.getControllerCount sw - 1
                     then 0 else SW._currentControllerIndex sw + 1).
    { unfold SW.nextIndex, UINT8_MOD in *.
      destruct (SW._currentControllerIndex sw <? SW.getControllerCount sw - 1) eqn:Hlt;
        destruct (SW._currentControllerIndex sw =? SW.getControllerCount sw - 1) eqn:He;
        try reflexivity.
      + apply Z.ltb_lt in Hlt. apply Z.eqb_eq in He. lia.
      + apply wrap8_small. unfold is_uint8, UINT8_MOD. apply Z.ltb_lt in Hlt. lia.
      + apply Z.ltb_ge in Hlt. apply Z.eqb_neq in He. lia. }
    rewrite Hidx. unfold SW.switchToController at 1 2.
    replace (SW.getControllerByIndex
               {| SW.controllers :=
                    SW.controllers (SW.store sw (SW._currentControllerIndex sw) cur');
                  SW._currentControllerIndex :=
                    if SW._currentControllerIndex sw =? SW.getControllerCount sw - 1
                    then 0 else SW._currentControllerIndex sw + 1 |}
               (if SW._currentControllerIndex sw =? SW.getControllerCount sw - 1
                then 0 else SW._currentControllerIndex sw + 1))
      with (Some next) by (symmetry; exact Hnext).
    destruct (reset next) as [next' tr2]. reflexivity.
Qed.

Lemma sequencer_never_done_witness :
  (exists fuel sw' results tr,
     Run.switch MAIN_PWM_ANIMATION_INTERVAL fuel
       (fst (SwitchingController.reset mainController)) [0; 1000; 20250; 117000]
       = Ok (sw', results, tr) /\
     Forall (fun r => finished r = false) results /\
     length results = length [0; 1000; 20250; 117000] /\
     cyclePosition sw'
     = sum [0; 1000; 20250; 117000]
       mod cycleDuration (map skeleton (SW.controllers mainController))) /\
  (exists cur cur' tr1 next,
     SwitchingController.getControllerByIndex
       (fst (SwitchingController.reset mainController)) 0 = Some cur /\
     doControl MAIN_PWM_ANIMATION_INTERVAL 40 cur 20250
       = Ok (cur', finishedWorkState 250, tr1) /\
     SwitchingController.doControl MAIN_PWM_ANIMATION_INTERVAL 41
       (fst (SwitchingController.reset mainController)) 20250 =
     bind
       (SwitchingController.doControl MAIN_PWM_ANIMATION_INTERVAL 40
          (SwitchingController.store
             {| SwitchingController.controllers :=
                  SwitchingController.controllers
                    (SwitchingController.store
                       (fst (SwitchingController.reset mainController)) 0 cur');
                SwitchingController._currentControllerIndex := 1 |}
             1 (fst (reset next)))
          250)
       (fun x =>
          match x with
          | (sw3, result3, tr3) => Ok (sw3, result3, tr1 ++ snd (reset next) ++ tr3)
          end)).
Proof.
  pose proof (sequencer_never_done [0; 1000; 20250; 117000]
                ltac:(apply Forall_uint32_literals; reflexivity)) as [Hruns Hhand].
  split.
  - destruct Hruns as (fuel & sw' & results & tr & Hrun & Hall & Hl & Hpos).
    exists fuel, sw', results, tr. conj; [exact Hrun | exact Hall | exact Hl |].
    apply Hpos.
    repeat apply Forall_cons; try apply Forall_nil; vm_compute; reflexivity.
  - assert (Hd : exists cur' tr1,
      doControl MAIN_PWM_ANIMATION_INTERVAL 40
        (fst (reset slowTwoLedCombinationsControllerLoop)) 20250
      = Ok (cur', finishedWorkState 250, tr1))
      by (eexists _, _; vm_compute; reflexivity).
    destruct Hd as (cur' & tr1 & Hd).
    assert (Hget : SwitchingController.getControllerByIndex
                     (fst (SwitchingController.reset mainController)) 0
                   = Some (fst (reset slowTwoLedCombinationsControllerLoop)))
      by (vm_compute; reflexivity).
    assert (Hnext : SwitchingController.getControllerByIndex
                      (SwitchingController.store
                         (fst (SwitchingController.reset mainController)) 0 cur') 1
                    = Some fastTwoLedCombinationsControllerLoop)
      by (vm_compute; reflexivity).
    exists (fst (reset slowTwoLedCombinationsControllerLoop)), cur', tr1,
      fastTwoLedCombinationsControllerLoop.
    conj; [exact Hget | exact Hd |].
    exact (Hhand MAIN_PWM_ANIMATION_INTERVAL 40%nat
             (fst (SwitchingController.reset mainController)) 20250 0 6
             (fst (reset slowTwoLedCombinationsControllerLoop)) cur'
             (finishedWorkState 250) tr1 fastTwoLedCombinationsControllerLoop
             eq_refl eq_refl ltac:(lia) ltac:(unfold UINT8_MOD; lia)
             Hget Hd eq_refl Hnext).
Defined.

(** ** The frames of a fade stay between the two limits *)

(** *** Rounding keeps a number that is at most 1 at most 1 *)

Lemma shifts_shr_1 : shifts 1 shr_1.
Proof.
  intros [m r s] H. change (2 ^ 1) with 2. cbn [shr_m] in H.
  destruct m as [|[p|p|]|p]; try lia; destruct r, s;
    cbn [shr_1 shr_m loc_of_shr_record orb];
    (split; [lia | split; [lia|]]);
    (split; [first [discriminate | intros _; split; [reflexivity | lia]]
            | intros [? ?]; try discriminate; try reflexivity; exfalso; lia]).
Qed.

Lemma shifts_compose a b f g :
  0 <= a -> 0 <= b -> shifts a f -> shifts b g ->
  shifts (a + b) (fun mrs => g (f mrs)).
Proof.
  intros Ha Hb Hf Hg mrs H.
  destruct (Hf mrs H) as (F0 & Fr & Fe).
  destruct (Hg (f mrs) F0) as (G0 & Gr & Ge).
  rewrite Z.pow_add_r by lia.
  assert (0 < 2 ^ a) by (apply Z.pow_pos_nonneg; lia).
  assert (0 < 2 ^ b) by (apply Z.pow_pos_nonneg; lia).
  split; [exact G0 | split; [nia|]].
  rewrite Ge, Fe. split.
  - intros [[He E1] E2]. split; [exact He | nia].
  - intros [He E]. split; [split; [exact He | nia] | nia].
Qed.

Lemma shifts_iter p : shifts (Z.pos p) (iter_pos shr_1 p).
Proof.
  induction p as [p IH | p IH |].
  - replace (Z.pos p~1) with (1 + Z.pos p + Z.pos p) by lia.
    apply (shifts_compose (1 + Z.pos p) (Z.pos p)
             (fun mrs => iter_pos shr_1 p (shr_1 mrs)) (iter_pos shr_1 p));
      [lia | lia | | exact IH].
    apply (shifts_compose 1 (Z.pos p) shr_1 (iter_pos shr_1 p));
      [lia | lia | exact shifts_shr_1 | exact IH].
  - replace (Z.pos p~0) with (Z.pos p + Z.pos p) by lia.
    apply (shifts_compose (Z.pos p) (Z.pos p) (iter_pos shr_1 p) (iter_pos shr_1 p));
      [lia | lia | exact IH | exact IH].
  - exact shifts_shr_1.
Qed.

(** The shift to the exponent of the format, with what it tells about
    exactness. *)
Lemma shr_fexp_exact m e l mrs e' :
  0 <= m ->
  shr_fexp F32.prec F32.emax m e l = (mrs, e') ->
  0 <= shr_m mrs /\ e <= e' /\
  0 <= m - shr_m mrs * 2 ^ (e' - e) < 2 ^ (e' - e) /\
  (loc_of_shr_record mrs = loc_Exact <->
   l = loc_Exact /\ m = shr_m mrs * 2 ^ (e' - e)) /\
  e' = Z.max e (fexp F32.prec F32.emax (Zdigits2 m + e)).
Proof.
  intros H0. unfold shr_fexp, shr.
  assert (Hm : shr_m (shr_record_of_loc m l) = m) by (destruct l as [|[]]; reflexivity).
  assert (Hl : loc_of_shr_record (shr_record_of_loc m l) = l)
    by (destruct l as [|[]]; reflexivity).
  destruct (fexp F32.prec F32.emax (Zdigits2 m + e) - e) as [|p|p] eqn:Hn;
    intros [= <- <-].
  - rewrite Hm, Hl, Z.sub_diag. change (2 ^ 0) with 1.
    split; [lia | split; [lia | split; [lia | split; [|lia]]]].
    split; [intros ->; split; [reflexivity | lia] | tauto].
  - destruct (shifts_iter p (shr_record_of_loc m l) ltac:(lia)) as (H1 & H2 & H3).
    rewrite Hm in H2, H3. rewrite Hl in H3.
    replace (e + Z.pos p - e) with (Z.pos p) by lia.
    split; [lia | split; [lia | split; [lia | split; [exact H3 | lia]]]].
  - rewrite Hm, Hl, Z.sub_diag. change (2 ^ 0) with 1.
    split; [lia | split; [lia | split; [lia | split; [|lia]]]].
    split; [intros ->; split; [reflexivity | lia] | tauto].
Qed.

(** Rounding to nearest keeps a number that is at most 1 at most 1: a
    mantissa [m] at exponent [e] with [m <= 2^-e], strictly below when
    the location says that something lies beyond the mantissa, rounds to a
    number of magnitude at most 1. *)
Lemma round_unit s m e l :
  0 <= m -> e <= 0 -> m <= 2 ^ (- e) ->
  (l <> loc_Exact -> m < 2 ^ (- e)) ->
  unit_magnitude s (binary_round_aux F32.prec F32.emax s m e l) = true.
Proof.
  intros H0 He Hle Hlt. unfold binary_round_aux.
  destruct (shr_fexp F32.prec F32.emax m e l) as [mrs1 e1] eqn:H1.
  destruct (shr_fexp_exact m e l mrs1 e1 H0 H1) as (Hm1 & Hee1 & Hr1 & Hx1 & He1).
  pose proof (round_nearest_even_range (shr_m mrs1) (loc_of_shr_record mrs1)) as Hr.
  assert (Hexact : round_nearest_even (shr_m mrs1) loc_Exact = shr_m mrs1) by reflexivity.
  set (m2 := round_nearest_even (shr_m mrs1) (loc_of_shr_record mrs1)) in *.
  destruct (shr_fexp F32.prec F32.emax m2 e1 loc_Exact) as [mrs2 e2] eqn:H2.
  destruct (shr_fexp_exact m2 e1 loc_Exact mrs2 e2 ltac:(lia) H2)
    as (Hm2 & Hee2 & Hr2 & _ & He2).
  assert (Hpow : 0 < 2 ^ (- e)) by (apply Z.pow_pos_nonneg; lia).
  assert (Hdig : Zdigits2 m <= 1 - e).
  { apply Zdigits2_le; [|lia]. split; [lia|].
    replace (1 - e) with (1 + - e) by lia. rewrite Z.pow_add_r by lia.
    change (2 ^ 1) with 2. lia. }
  assert (He1' : e1 <= 0).
  { rewrite He1. unfold fexp, emin, F32.prec, F32.emax.
    change (IntDef.Z.max ?a ?b) with (Z.max a b). lia. }
  assert (Hp1 : 0 < 2 ^ (e1 - e)) by (apply Z.pow_pos_nonneg; lia).
  assert (Hp1' : 2 ^ (e1 - e) * 2 ^ (- e1) = 2 ^ (- e))
    by (rewrite <- Z.pow_add_r by lia; f_equal; lia).
  assert (Hpe1 : 0 < 2 ^ (- e1)) by (apply Z.pow_pos_nonneg; lia).
  assert (Hm2e : m2 <= 2 ^ (- e1)).
  { destruct (loc_of_shr_record mrs1) eqn:Hloc.
    - (* nothing was shifted out *)
      subst m2. rewrite Hexact. nia.
    - (* something was: the shifted mantissa is strictly below *)
      assert (Hstrict : shr_m mrs1 * 2 ^ (e1 - e) < 2 ^ (- e)).
      { destruct l as [|c'] eqn:Hl.
        - assert (m <> shr_m mrs1 * 2 ^ (e1 - e)).
          { intros E. destruct Hx1 as [_ Hx1]. specialize (Hx1 (conj eq_refl E)).
            discriminate Hx1. }
          lia.
        - assert (m < 2 ^ (- e)) by (apply Hlt; discriminate). lia. }
      assert (shr_m mrs1 < 2 ^ (- e1)) by nia. lia. }
  assert (Hdig2 : Zdigits2 m2 <= 1 - e1).
  { apply Zdigits2_le; [|lia]. split; [lia|].
    replace (1 - e1) with (1 + - e1) by lia. rewrite Z.pow_add_r by lia.
    change (2 ^ 1) with 2. lia. }
  assert (He2' : e2 <= 0).
  { rewrite He2. unfold fexp, emin, F32.prec, F32.emax.
    change (IntDef.Z.max ?a ?b) with (Z.max a b). lia. }
  assert (Hp2 : 0 < 2 ^ (e2 - e1)) by (apply Z.pow_pos_nonneg; lia).
  assert (Hp2' : 2 ^ (e2 - e1) * 2 ^ (- e2) = 2 ^ (- e1))
    by (rewrite <- Z.pow_add_r by lia; f_equal; lia).
  assert (Hpe2 : 0 < 2 ^ (- e2)) by (apply Z.pow_pos_nonneg; lia).
  destruct (shr_m mrs2) as [|m3|m3] eqn:Hm3; [reflexivity | | lia].
  replace (e2 <=? F32.emax - F32.prec) with true
    by (symmetry; apply Z.leb_le; unfold F32.emax, F32.prec; lia).
  apply unit_magnitude_finite; [exact He2' | nia].
Qed.

(** Normalizing an integer mantissa of a number that is at most 1. *)
Lemma normalize_unit m e :
  0 <= m -> e <= 0 -> m <= 2 ^ (- e) ->
  unit_range (binary_normalize F32.prec F32.emax m e false) = true.
Proof.
  intros H0 He Hle. destruct m as [|p|p]; [reflexivity | | lia].
  unfold binary_normalize, binary_round.
  destruct (shl_align p e (fexp F32.prec F32.emax (Z.pos (digits2_pos p) + e)))
    as [mz ez] eqn:Hs.
  apply shl_align_spec in Hs as [Hez Hmz].
  assert (0 < 2 ^ (e - ez)) by (apply Z.pow_pos_nonneg; lia).
  assert (2 ^ (e - ez) * 2 ^ (- e) = 2 ^ (- ez))
    by (rewrite <- Z.pow_add_r by lia; f_equal; lia).
  apply round_unit; [lia | lia | rewrite Hmz; nia | congruence].
Qed.

(** *** The interpolation between two literals *)

(** The product of a number between 0 and 1 with 0.0, 1.0 or -1.0. *)
Lemma mul_unit r s d :
  unit_range r = true ->
  d = F32.zero \/ d = S754_finite s 8388608 (-23) ->
  unit_magnitude s (F32.mul r d) = true.
Proof.
  intros Hr Hd.
  destruct (unit_magnitude_inv false r Hr) as [[s' ->] | (m & e & -> & He & Hm)];
    destruct Hd as [-> | ->]; try reflexivity.
  unfold F32.mul, SFmul. cbn [xorb].
  apply round_unit; [lia | lia | | congruence].
  rewrite Pos2Z.inj_mul. change (Z.pos 8388608) with (2 ^ 23).
  replace (- (e + -23)) with (- e + 23) by lia. rewrite Z.pow_add_r by lia.
  assert (0 < 2 ^ 23) by reflexivity. nia.
Qed.

Lemma intermediateValue_unit a b r :
  F32.is_zero_or_one a -> F32.is_zero_or_one b -> unit_range r = true ->
  unit_range (intermediateValue a b r) = true.
Proof.
  intros Ha Hb Hr. unfold intermediateValue.
  destruct Ha as [-> | ->].
  - (* from 0.0: the product itself *)
    assert (Hp : unit_magnitude false (F32.mul r (F32.sub b F32.zero)) = true).
    { apply mul_unit; [exact Hr|]. destruct Hb as [-> | ->]; [left | right]; reflexivity. }
    destruct (unit_magnitude_inv false _ Hp) as [[s' ->] | (m & e & -> & He & Hm)].
    + destruct s'; reflexivity.
    + change (unit_magnitude false (S754_finite false m e) = true).
      now apply unit_magnitude_finite.
  - (* from 1.0: one minus the product *)
    assert (Hp : unit_magnitude true (F32.mul r (F32.sub b F32.one)) = true).
    { apply mul_unit; [exact Hr|]. destruct Hb as [-> | ->]; [right | left]; reflexivity. }
    destruct (unit_magnitude_inv true _ Hp) as [[s' ->] | (m & e & -> & He & Hm)].
    + reflexivity.
    + unfold F32.add, F32.one, SFadd. set (ez := Z.min (-23) e).
      destruct (shl_align 8388608 (-23) ez) as [m1 e1] eqn:H1.
      destruct (shl_align m e ez) as [m2 e2] eqn:H2.
      apply shl_align_spec in H1 as [He1 Hm1]. apply shl_align_spec in H2 as [He2 Hm2].
      assert (E1 : e1 = ez) by lia. assert (E2 : e2 = ez) by lia.
      rewrite E1 in Hm1. rewrite E2 in Hm2. clear He1 He2 E1 E2.
      cbn [fst cond_Zopp]. change (Z.pos 8388608) with (2 ^ 23) in Hm1.
      rewrite <- Z.pow_add_r in Hm1 by lia.
      replace (23 + (-23 - ez)) with (- ez) in Hm1 by lia.
      assert (0 < 2 ^ (e - ez)) by (apply Z.pow_pos_nonneg; lia).
      assert (2 ^ (e - ez) * 2 ^ (- e) = 2 ^ (- ez))
        by (rewrite <- Z.pow_add_r by lia; f_equal; lia).
      apply normalize_unit; [| lia |]; rewrite Hm1, Hm2.
      * change (- Z.pos m * 2 ^ (e - ez)) with (- (Z.pos m * 2 ^ (e - ez))). nia.
      * nia.
Qed.

(** *** The elapsed fraction of a fade *)

Lemma Zdigits2_exact m k :
  0 < k -> 2 ^ (k - 1) <= m < 2 ^ k -> Zdigits2 m = k.
Proof.
  intros Hk [Hlo Hhi].
  assert (0 < 2 ^ (k - 1)) by (apply Z.pow_pos_nonneg; lia).
  pose proof (Zdigits2_le m k ltac:(lia) ltac:(lia)) as Hle.
  pose proof (Zdigits2_bounds m ltac:(lia)) as [_ Hup].
  pose proof (Zdigits2_nonneg m) as Hnn.
  assert (k - 1 < Zdigits2 m); [|lia].
  apply (Z.pow_lt_mono_r_iff 2); lia.
Qed.

(** An integer below [2^24] converts to the [float] of the same value. *)
Lemma of_uint32_exact z :
  0 < z < EXACT_INTEGERS ->
  exists m,
    F32.of_uint32 z = S754_finite false m (Zdigits2 z - 24) /\
    Z.pos m = z * 2 ^ (24 - Zdigits2 z) /\ 0 < Zdigits2 z <= 24.
Proof.
  unfold EXACT_INTEGERS. intros Hz. change 16777216 with (2 ^ 24) in Hz.
  pose proof (Zdigits2_bounds z ltac:(lia)) as [Hlo Hhi].
  pose proof (Zdigits2_le z 24 ltac:(lia) ltac:(lia)) as Hd24.
  assert (Hd0 : 0 < Zdigits2 z).
  { destruct z as [|p|p]; try lia. simpl. lia. }
  set (d := Zdigits2 z) in *.
  destruct z as [|p|p]; try lia.
  unfold F32.of_uint32, binary_normalize, binary_round.
  change (Z.pos (digits2_pos p)) with d.
  assert (Hfexp : forall k, 0 < k <= 24 -> fexp F32.prec F32.emax k = k - 24).
  { intros k Hk. unfold fexp, emin, F32.prec, F32.emax.
    change (IntDef.Z.max ?a ?b) with (Z.max a b). lia. }
  replace (d + 0) with d by lia. rewrite (Hfexp d) by lia.
  destruct (shl_align p 0 (d - 24)) as [mz ez] eqn:Hs.
  apply shl_align_spec in Hs as [Hez Hmz].
  rewrite Z.min_r in Hez by lia. subst ez.
  replace (0 - (d - 24)) with (24 - d) in Hmz by lia.
  assert (Hpow : 2 ^ (24 - d) * 2 ^ (d - 1) = 2 ^ 23)
    by (rewrite <- Z.pow_add_r by lia; f_equal; lia).
  assert (Hpow' : 2 ^ (24 - d) * 2 ^ d = 2 ^ 24)
    by (rewrite <- Z.pow_add_r by lia; f_equal; lia).
  assert (Hp0 : 0 < 2 ^ (24 - d)) by (apply Z.pow_pos_nonneg; lia).
  assert (Hdz : Zdigits2 (Z.pos mz) = 24).
  { apply Zdigits2_exact; [lia|]. change (24 - 1) with 23. nia. }
  exists mz. split; [|split; [exact Hmz | lia]].
  unfold binary_round_aux.
  destruct (shr_fexp F32.prec F32.emax (Z.pos mz) (d - 24) loc_Exact) as [mrs1 e1] eqn:H1.
  destruct (shr_fexp_exact (Z.pos mz) (d - 24) loc_Exact mrs1 e1 ltac:(lia) H1)
    as (Hm1 & _ & Hr1 & Hx1 & He1).
  rewrite Hdz in He1. replace (24 + (d - 24)) with d in He1 by lia.
  rewrite (Hfexp d) in He1 by lia.
  rewrite Z.max_id in He1. subst e1.
  rewrite Z.sub_diag in Hr1, Hx1. change (2 ^ 0) with 1 in Hr1, Hx1.
  assert (Em1 : shr_m mrs1 = Z.pos mz) by lia.
  assert (El1 : loc_of_shr_record mrs1 = loc_Exact) by (apply Hx1; split; [reflexivity | lia]).
  rewrite El1, Em1. change (round_nearest_even (Z.pos mz) loc_Exact) with (Z.pos mz).
  rewrite H1, Em1.
  replace (d - 24 <=? F32.emax - F32.prec) with true
    by (symmetry; apply Z.leb_le; unfold F32.emax, F32.prec; lia).
  reflexivity.
Qed.

(** The quotient of two numbers, the smaller by the greater, is at most
    1. *)
Lemma div_unit mx ex my ey :
  ex <= ey -> ey <= 0 ->
  Z.pos mx * 2 ^ (- ey) < Z.pos my * 2 ^ (- ex) ->
  unit_range (F32.div (S754_finite false mx ex) (S754_finite false my ey)) = true.
Proof.
  intros Hexy Hey Hlt. unfold F32.div, SFdiv, SFdiv_core_binary.
  change (IntDef.Z.min ?a ?b) with (Z.min a b).
  change (IntDef.Z.shiftl ?a ?b) with (Z.shiftl a b).
  change (IntDef.Z.div_eucl ?a ?b) with (Z.div_eucl a b).
  set (e' := Z.min _ (ex - ey)).
  assert (He' : e' <= ex - ey) by (unfold e'; lia).
  set (s := ex - ey - e').
  assert (Hs : 0 <= s) by (unfold s; lia).
  set (m' := match s with 0 => Z.pos mx | Z.pos _ => Z.shiftl (Z.pos mx) s | Z.neg _ => 0 end).
  assert (Hm' : m' = Z.pos mx * 2 ^ s).
  { unfold m'. destruct s as [|p|p] eqn:Es; [simpl; lia | | lia].
    rewrite Z.shiftl_mul_pow2 by lia. reflexivity. }
  pose proof (Z_div_mod m' (Z.pos my) ltac:(lia)) as Hdiv.
  destruct (Z.div_eucl m' (Z.pos my)) as [q r]. destruct Hdiv as [Hq Hr].
  assert (Hps : 0 < 2 ^ s) by (apply Z.pow_pos_nonneg; lia).
  assert (Hpe : 0 < 2 ^ (- e')) by (apply Z.pow_pos_nonneg; lia).
  assert (Hpx : 0 < 2 ^ (- ex)) by (apply Z.pow_pos_nonneg; lia).
  assert (Hpy : 0 < 2 ^ (- ey)) by (apply Z.pow_pos_nonneg; lia).
  assert (Hpow : 2 ^ s * 2 ^ (- ex) = 2 ^ (- ey) * 2 ^ (- e')).
  { rewrite <- !Z.pow_add_r by lia. f_equal. unfold s. lia. }
  assert (Hq0 : 0 <= q) by nia.
  assert (Hbelow : Z.pos mx * 2 ^ s < Z.pos my * 2 ^ (- e')).
  { apply (Z.mul_lt_mono_pos_r (2 ^ (- ex))); [exact Hpx|].
    replace (Z.pos mx * 2 ^ s * 2 ^ (- ex)) with (Z.pos mx * 2 ^ (- ey) * 2 ^ (- e')) by nia.
    replace (Z.pos my * 2 ^ (- e') * 2 ^ (- ex)) with (Z.pos my * 2 ^ (- ex) * 2 ^ (- e'))
      by ring.
    apply Z.mul_lt_mono_pos_r; assumption. }
  assert (Hqlt : q < 2 ^ (- e')) by nia.
  apply round_unit; [exact Hq0 | lia | lia | intros _; exact Hqlt].
Qed.

(** The fraction of a fade that has elapsed, as [animatePwmTransition]
    computes it, is a number between 0 and 1. *)
Lemma relative_time_unit t total :
  0 <= t < total -> total < EXACT_INTEGERS ->
  unit_range (F32.div (F32.of_uint32 t) (F32.of_uint32 total)) = true.
Proof.
  intros [Ht Hlt] Htotal.
  destruct (of_uint32_exact total ltac:(lia)) as (my & -> & Hmy & Hdy).
  destruct (Z.eq_dec t 0) as [-> | Hne]; [reflexivity|].
  destruct (of_uint32_exact t ltac:(lia)) as (mx & -> & Hmx & Hdx).
  pose proof (Zdigits2_mono t total ltac:(lia)) as Hmono.
  apply div_unit; [lia | lia |].
  rewrite Hmx, Hmy.
  replace (- (Zdigits2 total - 24)) with (24 - Zdigits2 total) by lia.
  replace (- (Zdigits2 t - 24)) with (24 - Zdigits2 t) by lia.
  assert (0 < 2 ^ (24 - Zdigits2 total)) by (apply Z.pow_pos_nonneg; lia).
  assert (0 < 2 ^ (24 - Zdigits2 t)) by (apply Z.pow_pos_nonneg; lia).
  nia.
Qed.

Lemma constrain_unit r :
  unit_range r = true -> unit_range (constrain r F32.zero F32.one) = true.
Proof.
  intros Hr. unfold constrain.
  destruct (F32.ltb r F32.zero); [reflexivity|].
  destruct (F32.ltb F32.one r); [reflexivity | exact Hr].
Qed.

Lemma literal_unit_range x : F32.is_zero_or_one x -> unit_range x = true.
Proof. intros [-> | ->]; reflexivity. Qed.

Lemma literal_snapshot_unit_range s :
  snapshot_zero_or_one s -> snapshot_unit_range s.
Proof.
  intros (R & A & G & B & W).
  unfold snapshot_unit_range. conj; now apply literal_unit_range.
Qed.

Lemma intermediateState_unit initial target r :
  snapshot_zero_or_one initial -> snapshot_zero_or_one target ->
  unit_range r = true ->
  snapshot_unit_range (intermediateState initial target r).
Proof.
  intros (R & A & G & B & W) (R' & A' & G' & B' & W') Hr.
  pose proof (constrain_unit r Hr) as Hc.
  unfold snapshot_unit_range, intermediateState. cbn [red amber green blue white].
  conj; now apply intermediateValue_unit.
Qed.

(** *** From a frame to the pins *)

Lemma sink_within_limits B s :
  wf_brightness B -> snapshot_unit_range s ->
  exists r a g b w,
    setNormalizedAnalogLedStates B s = Some (setAnalogLedStates r a g b w) /\
    RED_LED_MIN_BRIGHTNESS B <= r <= RED_LED_MAX_BRIGHTNESS B /\
    AMBER_LED_MIN_BRIGHTNESS B <= a <= AMBER_LED_MAX_BRIGHTNESS B /\
    GREEN_LED_MIN_BRIGHTNESS B <= g <= GREEN_LED_MAX_BRIGHTNESS B /\
    BLUE_LED_MIN_BRIGHTNESS B <= b <= BLUE_LED_MAX_BRIGHTNESS B /\
    WHITE_LED_MIN_BRIGHTNESS B <= w <= WHITE_LED_MAX_BRIGHTNESS B.
Proof.
  intros (HR & HA & HG & HB & HW) (SR & SA & SG & SB & SW').
  destruct (normalizePwmValue_unit_range _ _ _ SR HR) as (r & Er & Hr).
  destruct (normalizePwmValue_unit_range _ _ _ SA HA) as (a & Ea & Ha).
  destruct (normalizePwmValue_unit_range _ _ _ SG HG) as (g & Eg & Hg).
  destruct (normalizePwmValue_unit_range _ _ _ SB HB) as (b & Eb & Hb).
  destruct (normalizePwmValue_unit_range _ _ _ SW' HW) as (w & Ew & Hw).
  exists r, a, g, b, w. unfold setNormalizedAnalogLedStates.
  destruct HR as [HR1 HR2], HA as [HA1 HA2], HG as [HG1 HG2], HB as [HB1 HB2],
    HW as [HW1 HW2].
  rewrite !wrap8_small by (unfold is_uint8; lia).
  rewrite Er, Ea, Eg, Eb, Ew. conj; try reflexivity; lia.
Qed.

(** The frame that one tick of a fade writes. *)
Lemma animatePwmTransition_frame st t :
  plain_state st -> 0 <= t ->
  exists frame,
    SC.animatePwmTransition st t
      = Ok (if SC._totalTransitionTime st <=? t
            then SC.set_pwmTransitionInProgress st false else st,
            [AnalogOut frame]) /\
    snapshot_unit_range frame.
Proof.
  intros (Htotal & Hinitial & Htarget) Ht. unfold SC.animatePwmTransition.
  destruct (SC._totalTransitionTime st <=? t) eqn:Hover.
  - exists (SC._targetState st). split; [reflexivity|].
    now apply literal_snapshot_unit_range.
  - apply Z.leb_gt in Hover. unfold divide.
    replace (SC._totalTransitionTime st =? 0) with false
      by (symmetry; apply Z.eqb_neq; lia).
    cbn [bind]. eexists. split; [reflexivity|].
    apply intermediateState_unit; [exact Hinitial | exact Htarget|].
    apply relative_time_unit; lia.
Qed.

(** X19: the frames of a fade keep to the limits.  For a fade between two
    snapshots of the literals 0.0 and 1.0 that lasts less than [2^24] ms,
    and whatever the time spent in it, a tick of the fade does not fault
    and writes one frame; every channel of the frame is a number between 0
    and 1, the conversion of each scaled channel to [uint8_t] is defined,
    and the five duty values written lie within the limits of their
    channels: neither the division, nor the interpolation, nor the
    scaling rounds a value out of its range. *)
Theorem fade_frames_within_limits B st t :
  wf_brightness B ->
  snapshot_zero_or_one (SC._initialState st) ->
  snapshot_zero_or_one (SC._targetState st) ->
  SC._totalTransitionTime st < EXACT_INTEGERS ->
  0 <= t ->
  exists st' frame r a g b w,
    SC.animatePwmTransition st t = Ok (st', [AnalogOut frame]) /\
    snapshot_unit_range frame /\
    pinWrites B (AnalogOut frame) = Some (setAnalogLedStates r a g b w) /\
    RED_LED_MIN_BRIGHTNESS B <= r <= RED_LED_MAX_BRIGHTNESS B /\
    AMBER_LED_MIN_BRIGHTNESS B <= a <= AMBER_LED_MAX_BRIGHTNESS B /\
    GREEN_LED_MIN_BRIGHTNESS B <= g <= GREEN_LED_MAX_BRIGHTNESS B /\
    BLUE_LED_MIN_BRIGHTNESS B <= b <= BLUE_LED_MAX_BRIGHTNESS B /\
    WHITE_LED_MIN_BRIGHTNESS B <= w <= WHITE_LED_MAX_BRIGHTNESS B.
Proof.
  intros HB Hinitial Htarget Htotal Ht.
  assert (Hplain : plain_state st) by (unfold plain_state; auto).
  destruct (animatePwmTransition_frame st t Hplain Ht) as (frame & Hrun & Hframe).
  destruct (sink_within_limits B frame HB Hframe)
    as (r & a & g & b & w & Hsink & Hr & Ha & Hg & Hb & Hw).
  exists (if SC._totalTransitionTime st <=? t
          then SC.set_pwmTransitionInProgress st false else st),
    frame, r, a, g, b, w.
  cbn [pinWrites]. conj; try assumption; lia.
Qed.

Lemma fade_frames_within_limits_witness :
  exists st' frame r a g b w,
    SC.animatePwmTransition
      (fst (SC.startPwmTransition SC.construct 3000 allLedsOff allLedsOn)) 1000
      = Ok (st', [AnalogOut frame]) /\
    snapshot_unit_range frame /\
    pinWrites SECOND_BRIGHTNESS (AnalogOut frame)
      = Some (setAnalogLedStates r a g b w) /\
    RED_LED_MIN_BRIGHTNESS SECOND_BRIGHTNESS <= r
      <= RED_LED_MAX_BRIGHTNESS SECOND_BRIGHTNESS /\
    AMBER_LED_MIN_BRIGHTNESS SECOND_BRIGHTNESS <= a
      <= AMBER_LED_MAX_BRIGHTNESS SECOND_BRIGHTNESS /\
    GREEN_LED_MIN_BRIGHTNESS SECOND_BRIGHTNESS <= g
      <= GREEN_LED_MAX_BRIGHTNESS SECOND_BRIGHTNESS /\
    BLUE_LED_MIN_BRIGHTNESS SECOND_BRIGHTNESS <= b
      <= BLUE_LED_MAX_BRIGHTNESS SECOND_BRIGHTNESS /\
    WHITE_LED_MIN_BRIGHTNESS SECOND_BRIGHTNESS <= w
      <= WHITE_LED_MAX_BRIGHTNESS SECOND_BRIGHTNESS.
Proof.
  apply (fade_frames_within_limits SECOND_BRIGHTNESS
           (fst (SC.startPwmTransition SC.construct 3000 allLedsOff allLedsOn)) 1000).
  - exact wf_brightness_second.
  - unfold snapshot_zero_or_one, F32.is_zero_or_one. simpl. auto 10.
  - unfold snapshot_zero_or_one, F32.is_zero_or_one. simpl. auto 10.
  - reflexivity.
  - lia.
Defined.

(** ** Every output keeps to the limits *)

Lemma safe_trace_app B tr1 tr2 :
  safe_trace B (tr1 ++ tr2) = safe_trace B tr1 && safe_trace B tr2.
Proof. apply forallb_app. Qed.

Lemma safe_writes B r a g b w :
  RED_LED_MIN_BRIGHTNESS B <= r <= RED_LED_MAX_BRIGHTNESS B ->
  AMBER_LED_MIN_BRIGHTNESS B <= a <= AMBER_LED_MAX_BRIGHTNESS B ->
  GREEN_LED_MIN_BRIGHTNESS B <= g <= GREEN_LED_MAX_BRIGHTNESS B ->
  BLUE_LED_MIN_BRIGHTNESS B <= b <= BLUE_LED_MAX_BRIGHTNESS B ->
  WHITE_LED_MIN_BRIGHTNESS B <= w <= WHITE_LED_MAX_BRIGHTNESS B ->
  forallb (in_limits B) (setAnalogLedStates r a g b w) = true.
Proof.
  intros Hr Ha Hg Hb Hw. unfold setAnalogLedStates.
  cbn [forallb in_limits].
  change (RED_LED_PIN =? RED_LED_PIN) with true.
  change (AMBER_LED_PIN =? RED_LED_PIN) with false.
  change (AMBER_LED_PIN =? AMBER_LED_PIN) with true.
  change (GREEN_LED_PIN =? RED_LED_PIN) with false.
  change (GREEN_LED_PIN =? AMBER_LED_PIN) with false.
  change (GREEN_LED_PIN =? GREEN_LED_PIN) with true.
  change (BLUE_LED_PIN =? RED_LED_PIN) with false.
  change (BLUE_LED_PIN =? AMBER_LED_PIN) with false.
  change (BLUE_LED_PIN =? GREEN_LED_PIN) with false.
  change (BLUE_LED_PIN =? BLUE_LED_PIN) with true.
  change (WHITE_LED_PIN =? RED_LED_PIN) with false.
  change (WHITE_LED_PIN =? AMBER_LED_PIN) with false.
  change (WHITE_LED_PIN =? GREEN_LED_PIN) with false.
  change (WHITE_LED_PIN =? BLUE_LED_PIN) with false.
  change (WHITE_LED_PIN =? WHITE_LED_PIN) with true.
  cbv iota.
  repeat (apply andb_true_intro; split); try apply Z.leb_le; try lia; reflexivity.
Qed.

Lemma safe_digital B r a g b w :
  wf_brightness B -> safe_event B (DigitalOut r a g b w) = true.
Proof.
  intros ([HR1 HR2] & [HA1 HA2] & [HG1 HG2] & [HB1 HB2] & [HW1 HW2]).
  unfold safe_event, pinWrites, setLedStates. unfold UINT8_MOD in *.
  apply safe_writes;
    rewrite wrap8_small by
      (unfold is_uint8, UINT8_MOD;
       first [destruct r; lia | destruct a; lia | destruct g; lia
             | destruct b; lia | destruct w; lia]).
  - destruct r; lia.
  - destruct a; lia.
  - destruct g; lia.
  - destruct b; lia.
  - destruct w; lia.
Qed.

Lemma safe_analog B s :
  wf_brightness B -> snapshot_unit_range s -> safe_event B (AnalogOut s) = true.
Proof.
  intros HB Hs.
  destruct (sink_within_limits B s HB Hs) as (r & a & g & b & w & E & Hr & Ha & Hg & Hb & Hw).
  unfold safe_event, pinWrites. rewrite E. now apply safe_writes.
Qed.

Lemma runCommands_outputs B cs : forall st,
  wf_brightness B -> Forall plain_command cs -> plain_state st ->
  plain_state (fst (SC.runCommands st cs)) /\
  safe_trace B (snd (SC.runCommands st cs)) = true.
Proof.
  induction cs as [|c cs IH]; intros st HB Hcs Hst; [split; [exact Hst | reflexivity]|].
  inversion Hcs as [|? ? Hc Hcs']; subst. cbn [SC.runCommands].
  assert (H1 : plain_state (fst (SC.runCommand st c)) /\
               safe_trace B (snd (SC.runCommand st c)) = true).
  { destruct c as [r a g b w | s | t initial target]; cbn [SC.runCommand fst snd].
    - split; [exact Hst|]. cbn [safe_trace forallb]. now rewrite safe_digital.
    - split; [exact Hst|]. cbn [safe_trace forallb].
      rewrite safe_analog; [reflexivity | exact HB |].
      now apply literal_snapshot_unit_range.
    - destruct Hc as (Ht & Hi & Hg). unfold SC.startPwmTransition. cbn [fst snd].
      split; [unfold plain_state; cbn; auto|]. cbn [safe_trace forallb].
      rewrite safe_analog; [reflexivity | exact HB |].
      now apply literal_snapshot_unit_range. }
  destruct (SC.runCommand st c) as [st1 tr1]. cbn [fst snd] in H1.
  destruct H1 as [P1 S1]. destruct (IH st1 HB Hcs' P1) as [P2 S2].
  destruct (SC.runCommands st1 cs) as [st2 tr2]. cbn [fst snd] in *.
  split; [exact P2|]. now rewrite safe_trace_app, S1, S2.
Qed.

Lemma activate_outputs B cls st i :
  wf_brightness B -> plain_class cls -> plain_state st ->
  plain_state (fst (SC.activate cls st i)) /\
  safe_trace B (snd (SC.activate cls st i)) = true.
Proof.
  intros HB Hcls Hst. unfold SC.activate.
  destruct (runCommands_outputs B (SC.applyLedStatesForState cls i) st HB (Hcls i) Hst)
    as [P S].
  destruct (SC.runCommands st _) as [st' tr]. cbn [fst snd] in *.
  split; [exact P | exact S].
Qed.

Lemma set_position_plain st index time :
  plain_state st -> plain_state (SC.set_position st index time).
Proof. intros H. exact H. Qed.

Lemma stateful_outputs B interval fuel cls st e st' result tr :
  wf_brightness B -> plain_class cls -> plain_state st ->
  SC.doControl interval fuel cls st e = Ok (st', result, tr) ->
  plain_state st' /\ safe_trace B tr = true.
Proof.
  intros HB Hcls Hst. unfold SC.doControl.
  destruct (SC._maxStateIndex cls <=? SC._currentStateIndex st);
    [intros [= <- _ <-]; split; [exact Hst | reflexivity]|].
  destruct (SC.whileLoop fuel cls _ _ _) as [[[index' time'] duration']|f] eqn:Hloop;
    [|discriminate].
  cbn [bind].
  pose proof (whileLoop_time_range cls fuel _ _ _ _ _ _ (wrap32_range _) Hloop) as Htime.
  destruct (SC._maxStateIndex cls <=? index');
    [intros [= <- _ <-]; split; [now apply set_position_plain | reflexivity]|].
  set (st1 := SC.set_position st index' time').
  assert (P1 : plain_state st1) by now apply set_position_plain.
  assert (H2 : exists st2 tr2,
    (if negb (SC._currentStateIndex st =? index') then SC.activate cls st1 index'
     else (st1, [])) = (st2, tr2) /\
    plain_state st2 /\ safe_trace B tr2 = true /\
    SC._timeSpentOnCurrentState st2 = time').
  { destruct (negb (SC._currentStateIndex st =? index')).
    - destruct (activate_outputs B cls st1 index' HB Hcls P1) as [P S].
      destruct (activate_spec cls st1 index') as (_ & T & _).
      destruct (SC.activate cls st1 index') as [st2 tr2]. cbn [fst snd] in *.
      exists st2, tr2. auto.
    - exists st1, []. auto. }
  destruct H2 as (st2 & tr2 & -> & P2 & S2 & T2).
  destruct (SC._pwmTransitionInProgress st2).
  - destruct (animatePwmTransition_frame st2 (SC._timeSpentOnCurrentState st2) P2)
      as (frame & -> & Hframe).
    { rewrite T2. unfold is_uint32 in Htime. lia. }
    cbn [bind]. intros [= <- _ <-]. split.
    + destruct (_ <=? _); [exact P2 | exact P2].
    + rewrite safe_trace_app, S2. cbn [safe_trace forallb andb].
      now rewrite safe_analog.
  - intros [= <- _ <-]. auto.
Qed.

Lemma stateful_reset_outputs B cls st :
  wf_brightness B -> plain_class cls -> plain_state st ->
  plain_state (fst (SC.reset cls st)) /\ safe_trace B (snd (SC.reset cls st)) = true.
Proof.
  intros HB Hcls Hst. unfold SC.reset.
  apply activate_outputs; [exact HB | exact Hcls | now apply set_position_plain].
Qed.

Lemma reset_outputs B :
  wf_brightness B ->
  forall c, plain_controller c ->
    plain_controller (fst (reset c)) /\ safe_trace B (snd (reset c)) = true.
Proof.
  intros HB. induction c as [cls st | inner IH maxLoopCount currentLoopCount];
    cbn [reset plain_controller].
  - intros [Hcls Hst].
    destruct (stateful_reset_outputs B cls st HB Hcls Hst) as [P S].
    destruct (SC.reset cls st) as [st' tr]. cbn [fst snd plain_controller] in *. auto.
  - intros Hinner. destruct (IH Hinner) as [P S].
    destruct (reset inner) as [inner' tr]. cbn [fst snd plain_controller] in *. auto.
Qed.

Lemma tree_outputs B interval :
  wf_brightness B ->
  forall fuel c e c' result tr,
    plain_controller c ->
    doControl interval fuel c e = Ok (c', result, tr) ->
    plain_controller c' /\ safe_trace B tr = true.
Proof.
  intros HB. induction fuel as [|fuel IH]; intros c e c' result tr Hc; [discriminate|].
  rewrite doControl_S. destruct c as [cls st | inner maxLoopCount currentLoopCount].
  - destruct Hc as [Hcls Hst].
    destruct (SC.doControl interval fuel cls st e) as [[[st1 r1] tr1]|f] eqn:Hrun;
      [|discriminate].
    cbn [bind]. intros [= <- _ <-].
    destruct (stateful_outputs B interval fuel cls st e st1 r1 tr1 HB Hcls Hst Hrun)
      as [P S].
    cbn [plain_controller]. auto.
  - cbn [plain_controller] in Hc.
    destruct (maxLoopCount <=? currentLoopCount);
      [intros [= <- _ <-]; split; [exact Hc | reflexivity]|].
    destruct (doControl interval fuel inner e) as [[[inner1 r1] tr1]|f] eqn:Hrun;
      [|discriminate].
    cbn [bind].
    destruct (IH inner e inner1 r1 tr1 Hc Hrun) as [P1 S1].
    destruct (negb (finished r1)); [intros [= <- _ <-]; auto|].
    destruct (maxLoopCount <=? wrap32 (currentLoopCount + 1));
      [intros [= <- _ <-]; auto|].
    destruct (reset_outputs B HB inner1 P1) as [P2 S2].
    destruct (reset inner1) as [inner2 tr2]. cbn [fst snd] in P2, S2.
    destruct (doControl interval fuel
                (Looping inner2 maxLoopCount (wrap32 (currentLoopCount + 1)))
                (remainingTime r1)) as [[[c3 r3] tr3]|f] eqn:Hrun3; [|discriminate].
    cbn [bind]. intros [= <- _ <-].
    destruct (IH (Looping inner2 maxLoopCount (wrap32 (currentLoopCount + 1)))
                (remainingTime r1) c3 r3 tr3 P2 Hrun3) as [P3 S3].
    split; [exact P3|]. now rewrite !safe_trace_app, S1, S2, S3.
Qed.

Lemma switchToController_outputs B sw index :
  wf_brightness B -> Forall plain_controller (SW.controllers sw) ->
  Forall plain_controller (SW.controllers (fst (SW.switchToController sw index))) /\
  safe_trace B (snd (SW.switchToController sw index)) = true.
Proof.
  intros HB Hall. unfold SW.switchToController, SW.getControllerByIndex.
  cbn [SW.controllers].
  destruct (index <? 0); [split; [exact Hall | reflexivity]|].
  destruct (nth_error (SW.controllers sw) (Z.to_nat index)) as [c|] eqn:Hget;
    [|split; [exact Hall | reflexivity]].
  rewrite Forall_forall in Hall.
  destruct (reset_outputs B HB c (Hall c (nth_error_In _ _ Hget))) as [P S].
  destruct (reset c) as [c' tr]. cbn [fst snd SW.store SW.controllers] in *.
  split; [|exact S].
  apply replace_nth_Forall; [now apply Forall_forall | exact P].
Qed.

Lemma doWhile_outputs B interval :
  wf_brightness B ->
  forall fuel sw t sw' sleepTime tr,
    Forall plain_controller (SW.controllers sw) ->
    SW.doWhile interval fuel sw t = Ok (sw', sleepTime, tr) ->
    Forall plain_controller (SW.controllers sw') /\ safe_trace B tr = true.
Proof.
  intros HB. induction fuel as [|fuel IH]; intros sw t sw' sleepTime tr Hall;
    [discriminate|].
  rewrite doWhile_S.
  destruct (SW.getControllerByIndex sw (SW._currentControllerIndex sw)) as [c|] eqn:Hget;
    [|discriminate].
  assert (Hc : plain_controller c).
  { unfold SW.getControllerByIndex in Hget.
    destruct (SW._currentControllerIndex sw <? 0); [discriminate|].
    rewrite Forall_forall in Hall. exact (Hall c (nth_error_In _ _ Hget)). }
  destruct (doControl interval fuel c t) as [[[c1 r1] tr1]|f] eqn:Hrun; [|discriminate].
  cbn [bind]. destruct (tree_outputs B interval HB fuel c t c1 r1 tr1 Hc Hrun) as [P1 S1].
  set (sw1 := SW.store sw (SW._currentControllerIndex sw) c1).
  assert (Hall1 : Forall plain_controller (SW.controllers sw1))
    by (apply replace_nth_Forall; assumption).
  cbv zeta. destruct (finished r1); [|intros [= <- _ <-]; auto].
  destruct (switchToController_outputs B sw1
              (SW.nextIndex (SW.getControllerCount sw1) (SW._currentControllerIndex sw1))
              HB Hall1) as [P2 S2].
  destruct (SW.switchToController sw1 _) as [sw2 tr2]. cbn [fst snd] in P2, S2.
  destruct (SW.doWhile interval fuel sw2 (remainingTime r1)) as [[[sw3 s3] tr3]|f] eqn:Hrun3;
    [|discriminate].
  cbn [bind]. intros [= <- _ <-].
  destruct (IH _ _ _ _ _ P2 Hrun3) as [P3 S3].
  split; [exact P3|]. now rewrite !safe_trace_app, S1, S2, S3.
Qed.

Lemma switch_outputs B interval fuel sw t sw' result tr :
  wf_brightness B -> Forall plain_controller (SW.controllers sw) ->
  SW.doControl interval fuel sw t = Ok (sw', result, tr) ->
  Forall plain_controller (SW.controllers sw') /\ safe_trace B tr = true.
Proof.
  intros HB Hall. unfold SW.doControl.
  destruct (SW.doWhile interval fuel sw t) as [[[sw1 s1] tr1]|f] eqn:Hrun; [|discriminate].
  cbn [bind]. intros [= <- _ <-].
  exact (doWhile_outputs B interval HB fuel sw t sw1 s1 tr1 Hall Hrun).
Qed.

Lemma run_switch_outputs B interval fuel :
  wf_brightness B ->
  forall es sw sw' results tr,
    Forall plain_controller (SW.controllers sw) ->
    Run.switch interval fuel sw es = Ok (sw', results, tr) ->
    Forall plain_controller (SW.controllers sw') /\ safe_trace B tr = true.
Proof.
  intros HB. induction es as [|e es IH]; intros sw sw' results tr Hall;
    cbn [Run.switch]; [intros [= <- _ <-]; auto|].
  destruct (SW.doControl interval fuel sw e) as [[[sw1 r1] tr1]|f] eqn:Hrun; [|discriminate].
  cbn [bind].
  destruct (switch_outputs B interval fuel sw e sw1 r1 tr1 HB Hall Hrun) as [P1 S1].
  destruct (Run.switch interval fuel sw1 es) as [[[sw2 r2] tr2]|f] eqn:Hrun2;
    [|discriminate].
  cbn [bind]. intros [= <- _ <-].
  destruct (IH _ _ _ _ P1 Hrun2) as [P2 S2].
  split; [exact P2|]. now rewrite safe_trace_app, S1, S2.
Qed.

Lemma rounds_outputs B interval fuel :
  wf_brightness B ->
  forall n sw s sw' sleepTimes tr,
    Forall plain_controller (SW.controllers sw) ->
    rounds interval fuel n sw s = Ok (sw', sleepTimes, tr) ->
    safe_trace B tr = true.
Proof.
  intros HB. induction n as [|n IH]; intros sw s sw' sleepTimes tr Hall;
    cbn [rounds]; [intros [= _ _ <-]; reflexivity|].
  destruct (SW.doControl interval fuel sw s) as [[[sw1 r1] tr1]|f] eqn:Hrun; [|discriminate].
  cbn [bind].
  destruct (switch_outputs B interval fuel sw s sw1 r1 tr1 HB Hall Hrun) as [P1 S1].
  destruct (rounds interval fuel n sw1 (suggestedSleepTime r1)) as [[[sw2 ss] tr2]|f]
    eqn:Hrun2; [|discriminate].
  cbn [bind]. intros [= _ _ <-].
  rewrite safe_trace_app, S1. exact (IH _ _ _ _ _ P1 Hrun2).
Qed.

Lemma loop_outputs B interval fuel n main sw' sleepTimes tr :
  wf_brightness B -> Forall plain_controller (SW.controllers main) ->
  loop interval fuel n main = Ok (sw', sleepTimes, tr) ->
  safe_trace B tr = true.
Proof.
  intros HB Hall. unfold loop, SW.reset.
  destruct (switchToController_outputs B main 0 HB Hall) as [P0 S0].
  destruct (SW.switchToController main 0) as [sw0 tr0]. cbn [fst snd] in P0, S0.
  destruct (rounds interval fuel n sw0 0) as [[[sw1 ss] tr1]|f] eqn:Hrun; [|discriminate].
  cbn [bind]. intros [= _ _ <-].
  rewrite safe_trace_app, S0. exact (rounds_outputs B interval fuel HB n sw0 0 _ _ _ P0 Hrun).
Qed.

(** ** The callbacks of the two sketches are plain *)

Lemma leds_literal r a g b w : snapshot_zero_or_one (leds r a g b w).
Proof.
  unfold snapshot_zero_or_one, F32.is_zero_or_one, leds, analogLedsState.
  cbn [red amber green blue white]. destruct r, a, g, b, w; auto 10.
Qed.

Lemma allLedsOn_literal : snapshot_zero_or_one allLedsOn.
Proof. exact (leds_literal true true true true true). Qed.

Lemma allLedsOff_literal : snapshot_zero_or_one allLedsOff.
Proof. exact (leds_literal false false false false false). Qed.

Ltac by_index i :=
  let p := fresh "p" in
  destruct i as [|p|p]; [| do 4 (try destruct p as [p|p|]) |].

Ltac plain_commands :=
  cbn [plain_command];
  repeat first
    [ apply Forall_nil
    | apply Forall_cons
    | exact I
    | assumption
    | apply leds_literal
    | exact allLedsOn_literal
    | exact allLedsOff_literal
    | match goal with |- _ /\ _ => split end
    | progress cbn [plain_command] ].

Lemma plain_class_TwoLedCombinations timePerState :
  plain_class (TwoLedCombinationsController.class timePerState).
Proof.
  intros i. cbn [SC.applyLedStatesForState TwoLedCombinationsController.class].
  unfold TwoLedCombinationsController.applyLedStatesForState.
  by_index i; plain_commands.
Qed.

Lemma plain_class_FlowingThreeLeds timePerState :
  plain_class (FlowingThreeLedsController.class timePerState).
Proof.
  intros i. cbn [SC.applyLedStatesForState FlowingThreeLedsController.class].
  unfold FlowingThreeLedsController.applyLedStatesForState.
  by_index i; plain_commands.
Qed.

Lemma plain_class_FadeOutThenIn fadeOut sustainOut fadeIn sustainIn :
  fadeOut < EXACT_INTEGERS -> fadeIn < EXACT_INTEGERS ->
  plain_class (TwoLedCombinationsFadeOutThenInController.class
                 fadeOut sustainOut fadeIn sustainIn).
Proof.
  intros Hout Hin i.
  cbn [SC.applyLedStatesForState TwoLedCombinationsFadeOutThenInController.class].
  unfold TwoLedCombinationsFadeOutThenInController.applyLedStatesForState,
    startFadeOutFromAllLeds, startFadeInToAllLeds.
  assert (Hstate : snapshot_zero_or_one
                     (TwoLedCombinationsFadeOutThenInController.getLedsStateForState i)).
  { unfold TwoLedCombinationsFadeOutThenInController.getLedsStateForState.
    generalize (i / 2). intros j. by_index j; plain_commands. }
  destruct (i mod 2 =? 0); plain_commands.
Qed.

Lemma plain_class_SequentialFade fadeIn sustainIn delayIn fadeOut sustainOut delayOut :
  fadeIn < EXACT_INTEGERS -> fadeOut < EXACT_INTEGERS ->
  plain_class (SequentialFadeController.class
                 fadeIn sustainIn delayIn fadeOut sustainOut delayOut).
Proof.
  intros Hin Hout i. cbn [SC.applyLedStatesForState SequentialFadeController.class].
  unfold SequentialFadeController.applyLedStatesForState.
  by_index i; plain_commands.
Qed.

Lemma plain_class_OneByOneFade
    singleIn singleSustainIn singleOut singleSustainOut
    allIn allSustainIn allOut allSustainOut :
  singleIn < EXACT_INTEGERS -> singleOut < EXACT_INTEGERS ->
  allIn < EXACT_INTEGERS -> allOut < EXACT_INTEGERS ->
  plain_class (OneByOneFadeController.class
                 singleIn singleSustainIn singleOut singleSustainOut
                 allIn allSustainIn allOut allSustainOut).
Proof.
  intros H1 H2 H3 H4 i. cbn [SC.applyLedStatesForState OneByOneFadeController.class].
  unfold OneByOneFadeController.applyLedStatesForState,
    startFadeInFromNoneLeds, startFadeOutToNoneLeds.
  assert (Hstate : snapshot_zero_or_one
                     (OneByOneFadeController.getLedsStateForSingleLedFadeState i)).
  { unfold OneByOneFadeController.getLedsStateForSingleLedFadeState.
    destruct (i <? 10); [|plain_commands].
    generalize (i / 2). intros j. by_index j; plain_commands. }
  destruct (i <? 10); [destruct (i mod 2 =? 0); plain_commands|].
  destruct (i =? 10); [plain_commands|].
  destruct (i =? 11); plain_commands.
Qed.

Lemma plain_class_Combination iterationDuration transitionDuration :
  transitionDuration < EXACT_INTEGERS ->
  plain_class (CombinationController.class iterationDuration transitionDuration).
Proof.
  intros Ht i. cbn [SC.applyLedStatesForState CombinationController.class].
  unfold CombinationController.applyLedStatesForState.
  assert (Hstate : forall j s,
    CombinationController.getLedStatesForState j = Some s -> snapshot_zero_or_one s).
  { intros j s. unfold CombinationController.getLedStatesForState.
    generalize (if 10 <=? j then wrap8 (j - 10) else j). intros k.
    by_index k; intros [= <-]; plain_commands. }
  destruct (CombinationController.getLedStatesForState i) as [a|] eqn:Ha;
    [|plain_commands].
  destruct (CombinationController.getLedStatesForState (wrap8 (i + 1))) as [b|] eqn:Hb;
    [|plain_commands].
  pose proof (Hstate _ _ Ha). pose proof (Hstate _ _ Hb). plain_commands.
Qed.

Lemma plain_class_FlowingTwoLeds timePerState :
  plain_class (FlowingTwoLedsController.class timePerState).
Proof.
  intros i. cbn [SC.applyLedStatesForState FlowingTwoLedsController.class].
  unfold FlowingTwoLedsController.applyLedStatesForState.
  by_index i; plain_commands.
Qed.

Lemma plain_class_SloGlo transitionDuration sustainDuration :
  transitionDuration < EXACT_INTEGERS ->
  plain_class (SloGloController.class transitionDuration sustainDuration).
Proof.
  intros Ht i. cbn [SC.applyLedStatesForState SloGloController.class].
  unfold SloGloController.applyLedStatesForState.
  assert (Hstate : forall j, snapshot_zero_or_one (SloGloController.getLedStatesForState j)).
  { intros j. unfold SloGloController.getLedStatesForState.
    generalize (if 5 <=? j then wrap8 (j - 5) else j). intros k.
    by_index k; plain_commands. }
  pose proof (Hstate i). pose proof (Hstate (wrap8 (i + 1))). plain_commands.
Qed.

Lemma plain_class_ChasingFlash
    flashDuration flashLoopsCount chaseDuration chaseTransitionDuration chaseLoopsCount :
  chaseTransitionDuration < EXACT_INTEGERS ->
  plain_class (ChasingFlashController.class flashDuration flashLoopsCount chaseDuration
                 chaseTransitionDuration chaseLoopsCount).
Proof.
  intros Ht i. cbn [SC.applyLedStatesForState ChasingFlashController.class].
  unfold ChasingFlashController.applyLedStatesForState.
  destruct (i <? wrap32 (flashLoopsCount * 5)).
  - unfold ChasingFlashController.setLedStatesForFlashingState.
    repeat match goal with |- context [if ?c then _ else _] => destruct c end;
      plain_commands.
  - unfold ChasingFlashController.setLedStatesForChasingState.
    assert (Hstate : forall j,
      snapshot_zero_or_one (ChasingFlashController.getLedsStateForChasingState j)).
    { intros j. unfold ChasingFlashController.getLedsStateForChasingState.
      generalize (j mod 5). intros k. by_index k; plain_commands. }
    pose proof (Hstate (wrap8 (i - wrap32 (flashLoopsCount * 5)))).
    pose proof (Hstate (wrap8 (wrap8 (i - wrap32 (flashLoopsCount * 5)) + 1))).
    plain_commands.
Qed.

Lemma plain_class_AllInOneFade fadeIn sustain fadeOut off :
  fadeIn < EXACT_INTEGERS -> fadeOut < EXACT_INTEGERS ->
  plain_class (AllInOneFadeController.class fadeIn sustain fadeOut off).
Proof.
  intros Hin Hout i. cbn [SC.applyLedStatesForState AllInOneFadeController.class].
  unfold AllInOneFadeController.applyLedStatesForState.
  destruct (i =? 0); [plain_commands|]. destruct (i =? 1); plain_commands.
Qed.

Lemma plain_construct : plain_state SC.construct.
Proof.
  unfold plain_state. cbn. conj; [reflexivity | exact allLedsOff_literal..].
Qed.

Lemma mainController_plain :
  Forall plain_controller (SW.controllers mainController).
Proof.
  cbn [SW.controllers mainController
       slowTwoLedCombinationsControllerLoop fastTwoLedCombinationsControllerLoop
       sequentialFadeControllerLoop flowingThreeLedsControllerLoop
       twoLedCombinationsFadeOutThenInControllerLoop oneByOneFadeController].
  repeat apply Forall_cons; try apply Forall_nil;
    cbn [plain_controller]; (split; [|exact plain_construct]).
  - apply plain_class_TwoLedCombinations.
  - apply plain_class_TwoLedCombinations.
  - apply plain_class_SequentialFade; reflexivity.
  - apply plain_class_FlowingThreeLeds.
  - apply plain_class_FadeOutThenIn; reflexivity.
  - apply plain_class_OneByOneFade; reflexivity.
Qed.

Lemma secondMainController_plain :
  Forall plain_controller (SW.controllers secondMainController).
Proof.
  cbn [SW.controllers secondMainController
       combinationControllerLoop slowCombinationControllerLoop
       slowFlowingTwoLedsControllerLoop mediumFlowingTwoLedsControllerLoop
       fastFlowingTwoLedsControllerLoop sloGloControllerLoop fastGloControllerLoop
       chasingFlashControllerLoop slowAllInOneFadeControllerLoop
       fastAllInOneFadeControllerLoop].
  repeat apply Forall_cons; try apply Forall_nil;
    cbn [plain_controller]; (split; [|exact plain_construct]).
  - apply plain_class_Combination; reflexivity.
  - apply plain_class_Combination; reflexivity.
  - apply plain_class_FlowingTwoLeds.
  - apply plain_class_FlowingTwoLeds.
  - apply plain_class_FlowingTwoLeds.
  - apply plain_class_SloGlo; reflexivity.
  - apply plain_class_SloGlo; reflexivity.
  - apply plain_class_ChasingFlash; reflexivity.
  - apply plain_class_AllInOneFade; reflexivity.
  - apply plain_class_AllInOneFade; reflexivity.
Qed.

Lemma wf_brightness_main : wf_brightness MAIN_BRIGHTNESS.
Proof. unfold wf_brightness, wf_limits, UINT8_MOD. simpl. lia. Qed.

(** ** No output of a run leaves the limits *)

Lemma driver_outputs B interval table sw n :
  wf_brightness B -> 0 < interval < UINT32_MOD ->
  Forall takes_time table -> 0 < Z.of_nat (length table) < UINT8_MOD ->
  switch_inv table sw ->
  Forall plain_controller (SW.controllers sw) ->
  exists fuel sw' sleepTimes tr,
    loop interval fuel n sw = Ok (sw', sleepTimes, tr) /\
    length sleepTimes = n /\ safe_trace B tr = true.
Proof.
  intros HB Hint Htt Hlen Hinv Hplain.
  destruct (switchToController_inv table sw 0 Hinv ltac:(lia)) as (Hinv0 & _).
  destruct (rounds_total interval table Hint Htt ltac:(lia) n (fst (SW.reset sw)) 0
              ltac:(unfold is_uint32, UINT32_MOD; lia) Hinv0)
    as (fuel & sw' & ss & tr & Hrun & Hl & _).
  assert (Hloop : loop interval fuel n sw = Ok (sw', ss, snd (SW.reset sw) ++ tr)).
  { unfold loop. destruct (SW.reset sw) as [sw0 tr0]. cbn [fst snd] in *.
    rewrite Hrun. reflexivity. }
  exists fuel, sw', ss, (snd (SW.reset sw) ++ tr).
  conj; [exact Hloop | exact Hl |].
  exact (loop_outputs B interval fuel n sw sw' ss _ HB Hplain Hloop).
Qed.

(** X20: no output of the engine leaves the limits.  Take a switch over a
    table of nodes every pass of which takes time, whose callbacks are
    plain (their snapshots are made of the literals 0.0 and 1.0 and their
    fades are shorter than [2^24] ms), and limits that are [uint8_t]
    values.  Then every sequence of calls with [uint32_t] elapsed times
    returns, and everything any such run does to the sink, digital
    patterns and the frames of fades alike, is carried out with duty
    values within the limits of the channels, no conversion to [uint8_t]
    being undefined; and the callbacks and fade parameters are still plain
    afterwards. *)
Theorem outputs_within_limits B interval table sw es :
  wf_brightness B ->
  Forall takes_time table -> Z.of_nat (length table) < UINT8_MOD ->
  switch_inv table sw ->
  Forall plain_controller (SW.controllers sw) ->
  Forall is_uint32 es ->
  (exists fuel sw' results tr,
     Run.switch interval fuel sw es = Ok (sw', results, tr) /\
     safe_trace B tr = true) /\
  (forall fuel sw' results tr,
     Run.switch interval fuel sw es = Ok (sw', results, tr) ->
     safe_trace B tr = true /\ Forall plain_controller (SW.controllers sw')).
Proof.
  intros HB Htt Hlen Hinv Hplain Hes.
  assert (Hsafe : forall fuel sw' results tr,
    Run.switch interval fuel sw es = Ok (sw', results, tr) ->
    safe_trace B tr = true /\ Forall plain_controller (SW.controllers sw')).
  { intros fuel sw' results tr Hrun.
    destruct (run_switch_outputs B interval fuel HB es sw sw' results tr Hplain Hrun).
    auto. }
  split; [|exact Hsafe].
  destruct (run_switch_total interval table Htt Hlen es sw Hes Hinv)
    as (fuel & sw' & results & tr & Hrun & _).
  exists fuel, sw', results, tr. split; [exact Hrun|].
  exact (proj1 (Hsafe fuel sw' results tr Hrun)).
Qed.

Lemma outputs_within_limits_witness :
  (exists fuel sw' results tr,
     Run.switch SECOND_PWM_ANIMATION_INTERVAL fuel secondMainController [15; 3000; 70000]
       = Ok (sw', results, tr) /\
     safe_trace SECOND_BRIGHTNESS tr = true) /\
  (forall fuel sw' results tr,
     Run.switch SECOND_PWM_ANIMATION_INTERVAL fuel secondMainController [15; 3000; 70000]
       = Ok (sw', results, tr) ->
     safe_trace SECOND_BRIGHTNESS tr = true /\
     Forall plain_controller (SW.controllers sw')).
Proof.
  apply (outputs_within_limits SECOND_BRIGHTNESS SECOND_PWM_ANIMATION_INTERVAL
           (map skeleton (SW.controllers secondMainController)) secondMainController
           [15; 3000; 70000]).
  - exact wf_brightness_second.
  - exact secondMainController_takes_time.
  - simpl. unfold UINT8_MOD. lia.
  - exact secondMainController_inv.
  - exact secondMainController_plain.
  - repeat constructor; unfold UINT32_MOD; lia.
Defined.

(** X21: the two sketches keep to their limits.  Whatever the number of
    turns of [loop()], the driver of either sketch, from the reset of its
    main controller on, gets an answer at every turn, and every pin write
    of the run, those of the reset and those of every frame of every fade,
    lies within the limits of its channel: 0 to 255 in the first sketch,
    and in the second the lowered maxima of the green, blue and white
    channels. *)
Theorem sketches_keep_to_the_limits n :
  (exists fuel sw' sleepTimes tr,
     loop MAIN_PWM_ANIMATION_INTERVAL fuel n mainController
       = Ok (sw', sleepTimes, tr) /\
     length sleepTimes = n /\ safe_trace MAIN_BRIGHTNESS tr = true) /\
  (exists fuel sw' sleepTimes tr,
     loop SECOND_PWM_ANIMATION_INTERVAL fuel n secondMainController
       = Ok (sw', sleepTimes, tr) /\
     length sleepTimes = n /\ safe_trace SECOND_BRIGHTNESS tr = true).
Proof.
  split.
  - apply (driver_outputs MAIN_BRIGHTNESS MAIN_PWM_ANIMATION_INTERVAL
             (map skeleton (SW.controllers mainController)) mainController n).
    + exact wf_brightness_main.
    + unfold MAIN_PWM_ANIMATION_INTERVAL, UINT32_MOD. lia.
    + exact mainController_takes_time.
    + simpl. unfold UINT8_MOD. lia.
    + exact mainController_inv.
    + exact mainController_plain.
  - apply (driver_outputs SECOND_BRIGHTNESS SECOND_PWM_ANIMATION_INTERVAL
             (map skeleton (SW.controllers secondMainController)) secondMainController n).
    + exact wf_brightness_second.
    + unfold SECOND_PWM_ANIMATION_INTERVAL, UINT32_MOD. lia.
    + exact secondMainController_takes_time.
    + simpl. unfold UINT8_MOD. lia.
    + exact secondMainController_inv.
    + exact secondMainController_plain.
Qed.

(** ** A fade that its state cuts short *)

(** X22: a fade that is still in progress when its state ends is neither
    completed nor cancelled, it is replayed.  When a call finds the flag
    of a fade set and takes the machine to a later state whose callback
    starts no fade, the call writes what that callback writes and then a
    frame of the old fade, taken at the time spent in the new state: the
    target of the old fade if that time has reached its length, and
    otherwise the interpolation between its two snapshots from its start.
    The fade fields are kept, the flag stays set until such a tick
    completes the old fade, and the call suggests the tick as the sleep
    time. *)
Theorem unfinished_fade_is_replayed interval fuel cls st e st' result tr :
  SC._pwmTransitionInProgress st = true ->
  SC.doControl interval fuel cls st e = Ok (st', result, tr) ->
  SC._currentStateIndex st' <> SC._currentStateIndex st ->
  SC._currentStateIndex st' < SC._maxStateIndex cls ->
  existsb starts_fade (SC.applyLedStatesForState cls (SC._currentStateIndex st')) = false ->
  result = unfinishedWorkState interval /\
  tr = Activation (SC._currentStateIndex st')
       :: snd (SC.runCommands
                 (SC.set_position st (SC._currentStateIndex st')
                    (SC._timeSpentOnCurrentState st'))
                 (SC.applyLedStatesForState cls (SC._currentStateIndex st')))
       ++ [AnalogOut
             (if SC._totalTransitionTime st <=? SC._timeSpentOnCurrentState st'
              then SC._targetState st
              else intermediateState (SC._initialState st) (SC._targetState st)
                     (F32.div (F32.of_uint32 (SC._timeSpentOnCurrentState st'))
                        (F32.of_uint32 (SC._totalTransitionTime st))))] /\
  SC._pwmTransitionInProgress st'
    = negb (SC._totalTransitionTime st <=? SC._timeSpentOnCurrentState st') /\
  SC._totalTransitionTime st' = SC._totalTransitionTime st /\
  SC._initialState st' = SC._initialState st /\
  SC._targetState st' = SC._targetState st.
Proof.
  intros Hflag Hrun Hmoved Hlt Hnofade. unfold SC.doControl in Hrun.
  destruct (SC._maxStateIndex cls <=? SC._currentStateIndex st).
  { injection Hrun as <- _ _. contradiction Hmoved. reflexivity. }
  destruct (SC.whileLoop fuel cls _ _ _) as [[[index' time'] duration']|f] eqn:Hloop;
    [cbn [bind] in Hrun | discriminate].
  pose proof (whileLoop_time_range cls fuel _ _ _ _ _ _ (wrap32_range _) Hloop) as Htime.
  unfold is_uint32 in Htime.
  destruct (SC._maxStateIndex cls <=? index') eqn:Hdone.
  { injection Hrun as <- _ _. cbn in Hlt. apply Z.leb_le in Hdone. lia. }
  set (st1 := SC.set_position st index' time') in *.
  (* the call ends on state [index'] *)
  assert (Hindex : SC._currentStateIndex st' = index' /\
                   SC._timeSpentOnCurrentState st' = time').
  { destruct (activate_spec cls st1 index') as (A1 & A2 & _).
    assert (Hstep : exists st2 tr2,
      (if negb (SC._currentStateIndex st =? index')
       then SC.activate cls st1 index' else (st1, [])) = (st2, tr2) /\
      SC._currentStateIndex st2 = index' /\ SC._timeSpentOnCurrentState st2 = time').
    { destruct (negb _).
      - exists (fst (SC.activate cls st1 index')), (snd (SC.activate cls st1 index')).
        split; [now destruct (SC.activate cls st1 index') | auto].
      - exists st1, []. auto. }
    destruct Hstep as (st2 & tr2 & E & S1 & S2). rewrite E in Hrun.
    destruct (SC._pwmTransitionInProgress st2).
    - destruct (animatePwmTransition_ok st2 (SC._timeSpentOnCurrentState st2))
        as (st3 & tr3 & E3 & T1 & T2 & _); [lia|].
      rewrite E3 in Hrun. cbn [bind] in Hrun. injection Hrun as <- _ _.
      rewrite T1, T2. auto.
    - injection Hrun as <- _ _. auto. }
  destruct Hindex as [Hi Ht]. rewrite Hi in Hmoved, Hnofade. rewrite Hi, Ht.
  fold st1.
  replace (negb (SC._currentStateIndex st =? index')) with true in Hrun
    by (symmetry; apply negb_true_iff, Z.eqb_neq; congruence).
  (* the callback starts no fade: it leaves the machine as it is *)
  unfold SC.activate in Hrun.
  pose proof (runCommands_no_fade (SC.applyLedStatesForState cls index') st1 Hnofade)
    as Hsame.
  destruct (SC.runCommands st1 (SC.applyLedStatesForState cls index')) as [st2 tr2].
  cbn [fst snd] in *. subst st2.
  replace (SC._pwmTransitionInProgress st1) with true in Hrun by (symmetry; exact Hflag).
  unfold SC.animatePwmTransition in Hrun.
  change (SC._totalTransitionTime st1) with (SC._totalTransitionTime st) in Hrun.
  change (SC._timeSpentOnCurrentState st1) with time' in Hrun.
  change (SC._initialState st1) with (SC._initialState st) in Hrun.
  change (SC._targetState st1) with (SC._targetState st) in Hrun.
  destruct (SC._totalTransitionTime st <=? time') eqn:Hover.
  - cbn [bind] in Hrun. injection Hrun as <- <- <-.
    conj; reflexivity.
  - apply Z.leb_gt in Hover. unfold divide in Hrun.
    replace (SC._totalTransitionTime st =? 0) with false in Hrun
      by (symmetry; apply Z.eqb_neq; lia).
    cbn [bind] in Hrun. injection Hrun as <- <- <-.
    conj; first [reflexivity | exact Hflag].
Qed.

(** The sequential fade built with no sustain after its fade-outs: one
    call of 3470 ms from [reset] leaves it 270 ms into the last fade-out,
    of 300 ms; the next call, of 30 ms, enters the state that switches all
    LEDs off, switches them off and then writes the white LED at its
    maximum, the first frame of the fade-out that was cut. *)
Lemma unfinished_fade_is_replayed_witness :
  (exists tr0,
     Run.stateful MAIN_PWM_ANIMATION_INTERVAL 16 tightSequentialFade
       (fst (SC.reset tightSequentialFade SC.construct)) [3470]
     = Ok (lateInLastFade, [unfinishedWorkState MAIN_PWM_ANIMATION_INTERVAL], tr0)) /\
  SC.doControl MAIN_PWM_ANIMATION_INTERVAL 16 tightSequentialFade lateInLastFade 30
  = Ok (SC.set_position lateInLastFade 11 0,
        unfinishedWorkState MAIN_PWM_ANIMATION_INTERVAL,
        [Activation 11;
         DigitalOut false false false false false;
         AnalogOut (leds false false false false true)]) /\
  pinWrites MAIN_BRIGHTNESS (AnalogOut (leds false false false false true))
  = Some (setAnalogLedStates 0 0 0 0 255) /\
  [Activation 11;
   DigitalOut false false false false false;
   AnalogOut (leds false false false false true)]
  = Activation 11
    :: snd (SC.runCommands (SC.set_position lateInLastFade 11 0)
              (SC.applyLedStatesForState tightSequentialFade 11))
    ++ [AnalogOut
          (if SC._totalTransitionTime lateInLastFade <=? 0
           then SC._targetState lateInLastFade
           else intermediateState (SC._initialState lateInLastFade)
                  (SC._targetState lateInLastFade)
                  (F32.div (F32.of_uint32 0)
                     (F32.of_uint32 (SC._totalTransitionTime lateInLastFade))))] /\
  SC._pwmTransitionInProgress (SC.set_position lateInLastFade 11 0) = true.
Proof.
  assert (Hrun : SC.doControl MAIN_PWM_ANIMATION_INTERVAL 16 tightSequentialFade
                   lateInLastFade 30
                 = Ok (SC.set_position lateInLastFade 11 0,
                       unfinishedWorkState MAIN_PWM_ANIMATION_INTERVAL,
                       [Activation 11;
                        DigitalOut false false false false false;
                        AnalogOut (leds false false false false true)]))
    by (vm_compute; reflexivity).
  pose proof (unfinished_fade_is_replayed MAIN_PWM_ANIMATION_INTERVAL 16
                tightSequentialFade lateInLastFade 30
                (SC.set_position lateInLastFade 11 0)
                (unfinishedWorkState MAIN_PWM_ANIMATION_INTERVAL)
                [Activation 11;
                 DigitalOut false false false false false;
                 AnalogOut (leds false false false false true)]
                eq_refl Hrun ltac:(simpl; lia) ltac:(simpl; lia) eq_refl)
    as (_ & Htr & Hflag & _).
  conj; [eexists; vm_compute; reflexivity | exact Hrun | vm_compute; reflexivity
        | exact Htr | exact Hflag].
Defined.
